(* ===== verification/_CoqProject ===== *)
-Q . S2P
Prelude.v
F64.v
Alerts.v
Common.v
EventLog.v
Simulation.v
TxDecode.v
LiveHex.v
SeenWindow.v
IngestP2p.v
IngestRpc.v
Scheduler.v
SchedulerQueue.v
SchedulerInvariant.v
SchedulerRefinement.v
SchedulerViews.v
SchedulerSnapshot.v
SchedulerActor.v
SchedulerCandidates.v
CandidateLifecycle.v
ReplayMempool.v
ReplayLifecycle.v
ReplayQueues.v
Replay.v
ReplayProps.v
ReplayResume.v
Features.v
Searcher.v
Assembly.v
AssemblyProps.v
SimulatedAssembly.v
RelayClient.v
Storage.v
StorageIndex.v
StorageTables.v
StorageProps.v
Backfill.v
Wal.v
StorageWriter.v
Text.v
Auth.v
Recovery.v
LiveState.v
VizMetrics.v
StorageExport.v
LiveConfig.v
LiveDecode.v
LiveProgram.v
Startup.v
LivePipeline.v
LiveLog.v
LiveMirror.v
LiveSim.v
EndToEnd.v
RestartPool.v
Restart.v
LiveSession.v
LiveConcurrent.v
SimPool.v
VizData.v
VizProps.v
VizHandlers.v
VizDownsample.v
StreamDispatch.v
StreamProducer.v
StreamBroadcast.v
