(* ===== verification/Prelude.v ===== *)
(** * mempulse: a verification of the core pipeline

    mempulse watches Ethereum's pending transactions: peers and RPC endpoints
    feed an append-only event log; a scheduler keeps the pending set ordered
    per sender; a feature engine and a searcher score what becomes ready; a
    builder assembles candidates approved by simulation into a block template
    and submits it to a relay in dry-run mode; storage keeps a bounded read
    model behind a write-ahead log; and replay reconstructs the history from
    the log.  This development models those parts as executable functions over
    explicit state and proves what they promise.

    ** Files

    Everything is a file of one library; each opens with what it holds.

    - [Prelude]: machine integers, comparators in the style of Rust's [Ord],
      stable sorting, ordered maps, sums over maps, strings and bytes.
    - [Common], [EventLog]: crates/common (identifiers) and crates/event-log
      (envelope, payloads, [cmp_deterministic], [GlobalSequencer]).
    - [Scheduler]: crates/scheduler/src/lib.rs, every method of
      [SchedulerState], one definition each: [admit] is [admit_tx], the queue
      loops are [queue_entry_state] and the four loops over it, candidates are
      [register_candidate], [apply_simulation_result],
      [invalidate_candidate_hash], persistence is [persisted_snapshot] and
      [from_persisted_snapshot].  [SchedulerQueue], [SchedulerInvariant],
      [SchedulerRefinement], [SchedulerViews], [SchedulerSnapshot] and
      [SchedulerCandidates] hold its theorems; [SchedulerActor] adds the
      handle, the bounded channel and the actor loop as a step relation.
    - [ReplayMempool], [Replay]: crates/replay/src/mempool_state.rs and lib.rs,
      the mempool state machine, frames, checkpoints and diffs, with
      [ReplayLifecycle], [ReplayQueues], [ReplayProps], [ReplayResume] for
      the theorems; [CandidateLifecycle] is [CandidateLifecycleState].
    - [Features], [Searcher]: crates/feature-engine and crates/searcher.
    - [Assembly], [AssemblyProps], [SimulatedAssembly], [RelayClient]:
      crates/builder; [Simulation]: crates/sim-engine around the class [Revm].
    - [Storage], [StorageIndex], [StorageTables], [StorageProps], [Backfill],
      [Wal], [StorageWriter], [StorageExport]: crates/storage (lib.rs,
      backfill.rs, wal.rs).
    - [F64], [Alerts]: binary64 arithmetic and the alert gate of
      crates/common.
    - [TxDecode], [SeenWindow], [IngestP2p], [IngestRpc]: crates/ingest
      (tx_decode.rs, the bounded set of seen hashes, p2p.rs, rpc.rs).
    - [VizData], [VizProps], [VizHandlers], [VizDownsample], [StreamDispatch],
      [StreamProducer], [StreamBroadcast], [Text], [Auth], [Recovery],
      [VizMetrics]: crates/viz-api (lib.rs, stream_broadcast.rs, auth.rs): read
      views and their cache, query handlers, the dashboard stream,
      authentication and rate limit, recovery of the scheduler at start, the
      text of the metrics endpoint.
    - [Startup]: crates/node-runtime and the start of the server: modes, the
      process with its hooks, the background tasks that start once.
    - [LiveState]: crates/runtime-core/src/lib.rs, the state the live tasks
      share.  [LiveHex], [LiveConfig], [LiveDecode], [LiveProgram],
      [LivePipeline], [LiveSession], [LiveSim]:
      crates/runtime-core/src/live_rpc.rs: text, configuration, RPC answers,
      payload builders, one pending transaction, a web-socket session and the
      chain worker, the simulation worker.  [LiveConcurrent] starts a feed and
      runs its workers side by side, [SimPool] is the queue of the simulation
      workers.  [LiveLog] and [LiveMirror] hold
      the theorems about what the pipeline writes; [EndToEnd] joins the
      pipeline, the storage writer and replay, and [Restart] the pipeline, the
      writer, the snapshot task and the recovery, with [RestartPool] for the
      pools of hashes it argues about.

    ** How code becomes definitions

    - An unsigned integer is an [N], a signed one a [Z]; saturating, checked
      and wrapping operations are written out ([sat_add], [checked_add],
      [cast], [i64_sat_add]).  Counters that the code increments with a plain
      [+ 1] and that count elements in memory are plain sums.
    - A byte array used as an identifier is its big-endian number, whose order
      is the array's ([hash_order]); where bytes matter (hashing, files) they
      are lists of [N] below 256.
    - [HashMap] and [BTreeMap] are finite maps; a loop over a [BTreeMap] is a
      loop over [bt_iter], its sorted listing.  Where the code iterates over a
      hash map or sorts unstably, a class ([HashIter], [MapIter],
      [UnstableSort]) leaves the order open and the theorems hold for any.
    - A method that mutates [self] is a function that returns the new state;
      fallible code returns a sum or an option; a Rust [for] with an early exit
      is a [Fixpoint] over the list it walks.  Recursion is structural
      everywhere but in [bsearch_loop], the standard library's binary search:
      its fuel is the length of the slice, and each turn shrinks the remaining
      size by at least one ([bsearch_loop_spec]).
    - The clock, SHA-256, the HTTP client, serde_json, the EVM and Tokio's
      channels are parameters: arguments of the definitions, or classes with
      the laws the code relies on ([Channel] with [ChannelLaws] for the FIFO
      queue, [Revm] with [RevmLaws] for the EVM; [line_ok] for an event that
      survives its encoding).  The witnesses instantiate them.
    - An async handler of the live feed is a program ([prog] of
      [LiveProgram]): a tree of calls to the scheduler, the queues, the clock,
      the endpoint and the counters, composed with [bind]; [run] answers the
      calls from an environment over any state and keeps the conversation.
      Theorems about such a program quantify over the environment; where a
      theorem needs the scheduler, [owns_scheduler] says that its calls act on
      a [SchedulerState] the way [Scheduler] defines.
    - A web-socket session consumes the list of frames the socket delivers and
      the chain worker the list of sessions it runs, so both are structural
      recursions; a list that ends before the session does gives [None].
    - The workers of a feed run under a schedule, the list of whose turn it
      is: at a turn a worker makes one call.  [LiveConcurrent.thread_view]
      folds the other workers' turns into the environment of one, so the
      theorems about one program hold of each worker under every schedule;
      those that assume [owns_scheduler] need the scheduler to be left alone
      between the calls, which concurrent workers do not do.

    ** What the theorems show

    - The scheduler: from a consistent state, such as the empty one, every state
      reachable by any interleaving of the actor is consistent and its metrics
      exact; admission refines an abstract map from
      (sender, nonce) slots to transactions with the replacement rule; the
      snapshot and the transitions it emits in such states are what the nonce
      order dictates;
      a candidate is handed to the builder at most once per registration and
      never from a superseded one; persistence round-trips, and the checks of
      rehydration are sound.
    - Replay: each event's effect on each transaction's lifecycle; the queues
      it rebuilds are well formed and classify transactions like the
      scheduler; results do not depend on hash-map order or on the order of
      the input; resuming from a checkpoint shows the pending sets and the
      queue contents of the full replay unless the chain is reorganised after
      it; diffs and checkpoint bytes are exact; candidate histories depend
      only on the events that concern them.
    - Searcher: ranking is complete, ordered and cut exactly; every bundle
      joins adjacent nonces of one sender.
    - Builder: the engine refines an abstract candidate set with exact sums
      and a filter, its blocks are valid and within gas, an insertion never
      lowers the score, the counters balance; a dry run makes between one and
      [max_retries + 1] requests, and the circuit opens exactly after two
      consecutive failures, for five seconds.
    - Storage: the event index stays the sorted permutation of the retained
      events through late insertions and evictions; tables, summaries and
      views are exact under replacement and eviction; the restart plan replays
      exactly the later events; backfill is exact and idempotent; the log
      recovers exactly what was appended since the last clear, across
      segments; without failures the writer is exactly-once, and between two
      steps of it the log holds what the sink has not been given.
    - Ingest: decoding is exact in its first error and round-trips; the peer
      service refines a set of seen hashes with a fetch queue, one RPC poll
      refines its specification for any provider.
    - Simulation: results, categories and digests are exact for any EVM that
      satisfies the laws; the seeds, the nonces and the environments are what
      the transactions ask for.
    - The live feed: whatever the environment answers, one transaction writes
      a prefix of an ideal sequence of events, every refused write is counted
      and ends the handler ([LiveLog]); without losses the log replays to the
      live scheduler's pending set and queues ([LiveMirror]), also after it
      went through the storage writer and its store ([EndToEnd]); every request
      of every worker asks for one hash and is spaced by the window of
      remembered hashes, however the workers interleave ([LiveConcurrent]), and
      rotation reaches every endpoint ([LiveSession]); a simulated batch rests
      on answered headers and accounts only, and a candidate enters the
      builder only after an approving simulation and a hand-off ([LiveSim]); an
      accepted simulation task is lost only by a panic, its own or the last
      worker's, and the queue comes
      back after its last worker is gone ([SimPool]).
    - The server: cached views are coherent, the transaction views agree,
      the stream delivers in order or marks the gap, an admitted request holds
      a configured key and a token, the bucket bounds the rate of calls that
      read the clock in the order of the lock, the
      scheduler rebuilt at start is what the store says, the metrics text reads
      back as the counters ([VizMetrics]), and a background task runs at most
      once ([Startup]).
    - Across a restart that is given the store of the last process (the server
      itself is not): from any snapshot, however far the writer lagged behind
      it, and all the events since, the start rebuilds exactly the live
      scheduler or discards everything, and the latter only if a transaction of
      the snapshot was replaced ([Restart]).
    - Where the code falls short the theorem says so: a failed flush loses its
      batch, recovered events never reach the sink, a torn last line blocks
      recovery, resuming from a checkpoint loses queue state, rehydration
      accepts orphans, the replacement threshold saturates, the urgency score
      wraps, a sanitised snapshot can be refused, a transaction admitted while
      the storage queue is full never reaches the log, a failed fetch forgets
      its hash for good, one replacement after a snapshot can cost the whole
      pool at a restart, transactions of different chains replace each other,
      two workers that race can log their admissions in the wrong order, and a
      panicked simulation worker is not restarted.

    ** What is not modelled

    Process and network code: the devp2p handshake, the axum router and its
    extractors, CORS, benches, the command line, the web dashboard, the
    ClickHouse sink and the JSON and parquet exports (the CSV export is
    [StorageExport]).  The JSON
    decoders of serde_json are parameters, so is the registry's JSON.
    Input/output errors inside the write-ahead log and submissions of one
    relay client that overlap in time are left out.  A schedule interleaves the
    chain workers of a feed call by call; the simulation workers ([SimPool]), the
    storage writer ([StorageWriter]) and the scheduler's actor
    ([SchedulerActor]) have models of their own and move inside the environment. *)
From stdpp Require Import base gmap strings list sorting numbers pretty.

(** ** Machine integers

    An unsigned Rust integer is an [N], a signed one a [Z]; the width shows in
    the operations: [saturating_*] clamp at the maximum of the type,
    [checked_*] return [None] on overflow and [as]-casts reduce modulo [2^w]. *)
Definition u8_max : N := 255.
Definition u16_max : N := 65535.
Definition u32_max : N := 4294967295.
Definition u64_max : N := 18446744073709551615.
Definition u128_max : N := 340282366920938463463374607431768211455.
Definition i64_min : Z := -9223372036854775808.
Definition i64_max : Z := 9223372036854775807.

Definition sat_add (max a b : N) : N := N.min (a + b) max.
Definition sat_mul (max a b : N) : N := N.min (a * b) max.
Definition sat_sub (a b : N) : N := (a - b)%N.
Definition checked_add (max a b : N) : option N :=
  if (a + b <=? max)%N then Some (a + b)%N else None.
(** [x as uW] for an unsigned source. *)
Definition cast (bits x : N) : N := (x mod 2 ^ bits)%N.
Definition i64_clamp (z : Z) : Z := Z.max i64_min (Z.min z i64_max).
Definition i64_sat_add (a b : Z) : Z := i64_clamp (a + b).
Definition i64_sat_sub (a b : Z) : Z := i64_clamp (a - b).
(** [u128::div_ceil]. *)
Definition div_ceil (a b : N) : N :=
  if (a mod b =? 0)%N then (a / b)%N else (a / b + 1)%N.
(** [len()] of a vector or map, as a [usize]. *)
Definition usize_of (n : nat) : N := N.of_nat n.

(** Linear arithmetic through the machine-integer operations and bounds. *)
Ltac int_lia :=
  unfold sat_add, sat_sub, usize_of, u8_max, u16_max, u32_max, u64_max in *; cbn in *; lia.

(** Equations and bounds that close the common side conditions. *)
Create HintDb machine_int.
Create Rewrite HintDb machine_int.

Lemma sat_add_le max a b : (sat_add max a b <= max)%N.
Proof. unfold sat_add. lia. Qed.

Lemma sat_add_exact max a b : (a + b <= max)%N -> sat_add max a b = (a + b)%N.
Proof. unfold sat_add. lia. Qed.

Lemma sat_add_mono max a b c : (b <= c)%N -> (sat_add max a b <= sat_add max a c)%N.
Proof. unfold sat_add. lia. Qed.

Lemma sat_add_0_r max a : (a <= max)%N -> sat_add max a 0 = a.
Proof. unfold sat_add. lia. Qed.

#[export] Hint Resolve sat_add_le : machine_int.
#[export] Hint Rewrite sat_add_exact sat_add_0_r using lia : machine_int.

Lemma checked_add_Some max a b c :
  checked_add max a b = Some c <-> c = (a + b)%N /\ (a + b <= max)%N.
Proof.
  unfold checked_add. destruct (N.leb_spec (a + b) max); split.
  - by intros [= <-].
  - by intros [-> _].
  - done.
  - intros [_ ?]; lia.
Qed.

Lemma checked_add_None max a b : checked_add max a b = None <-> (max < a + b)%N.
Proof.
  unfold checked_add. destruct (N.leb_spec (a + b) max); split; intros; [done|lia|done..].
Qed.

(** [div_ceil] is the least quotient that covers the dividend. *)
Lemma div_ceil_spec a b q :
  (0 < b)%N -> (div_ceil a b <= q)%N <-> (a <= q * b)%N.
Proof.
  intros Hb. unfold div_ceil.
  pose proof (N.div_mod a b ltac:(lia)) as Hdm.
  pose proof (N.mod_lt a b ltac:(lia)) as Hlt.
  revert Hdm Hlt. generalize (a / b)%N (a mod b)%N. intros d r -> Hlt.
  destruct (N.eqb_spec r 0) as [->|E]; split; intros H; [nia|nia|nia|].
  destruct (N.le_gt_cases (d + 1) q); [done|].
  assert (q <= d)%N by lia. nia.
Qed.

(** ** Orders as comparison functions

    Rust's [Ord::cmp]; a comparator in the source need not separate distinct
    values (it may look at a key only), so the laws are those of a total
    preorder. *)
Abbreviation cmp_le c := (fun x y => c x y <> Gt).
Abbreviation cmp_lt c := (fun x y => c x y = Lt).

Class CmpPre {A} (c : A -> A -> comparison) : Prop := {
  cmp_sym x y : c y x = CompOpp (c x y);
  cmp_le_trans x y z : c x y <> Gt -> c y z <> Gt -> c x z <> Gt;
}.
(** A comparator whose [Eq] is equality: Rust's derived [Ord]. *)
Class CmpOrd {A} (c : A -> A -> comparison) : Prop := {
  cmp_ord_pre :: CmpPre c;
  cmp_eq x y : c x y = Eq -> x = y;
}.

Arguments cmp_sym {A} c {_} x y.
Arguments cmp_le_trans {A} c {_} x y z.
Arguments cmp_eq {A} c {_} x y.

(** [Ordering::then_with]. *)
Definition then_with (a b : comparison) : comparison :=
  match a with Eq => b | _ => a end.
Definition cmp_on {A B} (f : A -> B) (c : B -> B -> comparison) : A -> A -> comparison :=
  fun x y => c (f x) (f y).
Definition cmp_pair {A B} (ca : A -> A -> comparison) (cb : B -> B -> comparison) :
    A * B -> A * B -> comparison :=
  fun x y => then_with (ca x.1 y.1) (cb x.2 y.2).
(** [b.cmp(a)], a descending comparison. *)
Definition cmp_rev {A} (c : A -> A -> comparison) : A -> A -> comparison :=
  fun x y => c y x.
#[global] Typeclasses Opaque cmp_on cmp_pair cmp_rev.
#[export] Hint Mode CmpPre ! ! : typeclass_instances.
#[export] Hint Mode CmpOrd ! ! : typeclass_instances.

Section cmp.
Context {A : Type} (c : A -> A -> comparison) `{!CmpPre c}.

Lemma cmp_refl x : c x x = Eq.
Proof. pose proof (cmp_sym c x x) as H. by destruct (c x x). Qed.

Lemma cmp_gt_lt x y : c x y = Gt <-> c y x = Lt.
Proof. rewrite (cmp_sym c x y). by destruct (c x y). Qed.

Lemma cmp_eq_sym x y : c x y = Eq <-> c y x = Eq.
Proof. rewrite (cmp_sym c x y). by destruct (c x y). Qed.

Lemma cmp_lt_le_trans x y z : c x y = Lt -> c y z <> Gt -> c x z = Lt.
Proof.
  intros Hxy Hyz. destruct (c x z) eqn:E; [|done|].
  - exfalso. apply cmp_eq_sym in E.
    apply (cmp_le_trans c y z x Hyz); [by rewrite E|].
    by apply cmp_gt_lt.
  - exfalso. apply (cmp_le_trans c x y z); [by rewrite Hxy|done|done].
Qed.

Lemma cmp_le_lt_trans x y z : c x y <> Gt -> c y z = Lt -> c x z = Lt.
Proof.
  intros Hxy Hyz. destruct (c x z) eqn:E; [|done|].
  - exfalso. apply cmp_eq_sym in E.
    apply (cmp_le_trans c z x y); [by rewrite E|done|by apply cmp_gt_lt].
  - exfalso. apply (cmp_le_trans c x y z); [done|by rewrite Hyz|done].
Qed.

Lemma cmp_lt_trans x y z : c x y = Lt -> c y z = Lt -> c x z = Lt.
Proof. intros H1 H2. apply (cmp_lt_le_trans x y z H1). by rewrite H2. Qed.

Lemma cmp_eq_l x y z : c x y = Eq -> c x z = c y z.
Proof.
  intros E. assert (c y x = Eq) as E' by by apply cmp_eq_sym.
  destruct (c y z) eqn:Ez.
  - destruct (c x z) eqn:Ex; [done| |].
    + exfalso. assert (c y z = Lt) by (apply (cmp_le_lt_trans y x z); congruence).
      congruence.
    + exfalso. apply (cmp_le_trans c x y z); congruence.
  - apply (cmp_le_lt_trans x y z); congruence.
  - apply cmp_gt_lt. apply cmp_gt_lt in Ez. apply (cmp_lt_le_trans z y x); congruence.
Qed.

#[export] Instance cmp_on_pre {B} (f : B -> A) : CmpPre (cmp_on f c).
Proof.
  split; intros; unfold cmp_on in *; [apply (cmp_sym c)|].
  by eapply (cmp_le_trans c).
Qed.

#[export] Instance cmp_rev_pre : CmpPre (cmp_rev c).
Proof.
  split; intros; unfold cmp_rev in *; [apply (cmp_sym c)|].
  by eapply (cmp_le_trans c).
Qed.
End cmp.

#[export] Instance cmp_pair_pre {A B} (ca : A -> A -> comparison) (cb : B -> B -> comparison)
  `{!CmpPre ca, !CmpPre cb} : CmpPre (cmp_pair ca cb).
Proof.
  split; unfold cmp_pair.
  - intros [x1 x2] [y1 y2]; simpl. rewrite (cmp_sym ca x1), (cmp_sym cb x2).
    by destruct (ca x1 y1), (cb x2 y2).
  - intros [x1 x2] [y1 y2] [z1 z2]; simpl. intros H1 H2.
    destruct (ca x1 y1) eqn:E1; simpl in H1; [|clear H1|done].
    + rewrite (cmp_eq_l ca _ _ z1 E1).
      destruct (ca y1 z1); simpl in *; [|done..]. by eapply (cmp_le_trans cb).
    + assert (ca x1 z1 = Lt) as ->; [|done].
      apply (cmp_lt_le_trans ca x1 y1); [done|]. by destruct (ca y1 z1).
Qed.

#[export] Instance cmp_pair_ord {A B} (ca : A -> A -> comparison) (cb : B -> B -> comparison)
  `{!CmpOrd ca, !CmpOrd cb} : CmpOrd (cmp_pair ca cb).
Proof.
  split; [apply _|]. intros [x1 x2] [y1 y2]. unfold cmp_pair; simpl.
  destruct (ca x1 y1) eqn:E1; simpl; [|done..].
  intros E2. apply (cmp_eq ca) in E1. apply (cmp_eq cb) in E2. by subst.
Qed.

#[export] Instance N_compare_ord : CmpOrd N.compare.
Proof.
  split; [split|].
  - intros. apply N.compare_antisym.
  - intros x y z. rewrite !N.compare_le_iff. lia.
  - intros x y. apply N.compare_eq_iff.
Qed.

#[export] Instance Z_compare_ord : CmpOrd Z.compare.
Proof.
  split; [split|].
  - intros. apply Z.compare_antisym.
  - intros x y z. rewrite !Z.compare_le_iff. lia.
  - intros x y. apply Z.compare_eq_iff.
Qed.

(** ** Stable sorting

    [slice::sort_by]: stable, so equal elements keep their order.  stdpp's
    [merge_sort] does not promise that; an insertion sort does. *)
Fixpoint insert_by {A} (c : A -> A -> comparison) (x : A) (l : list A) : list A :=
  match l with
  | [] => [x]
  | y :: l' => match c x y with Gt => y :: insert_by c x l' | _ => x :: y :: l' end
  end.
Definition sort_by {A} (c : A -> A -> comparison) (l : list A) : list A :=
  foldr (insert_by c) [] l.

Section sort_by.
Context {A : Type} (c : A -> A -> comparison) `{!CmpPre c}.
Implicit Types (x y : A) (l : list A).

Lemma insert_by_perm x l : insert_by c x l ≡ₚ x :: l.
Proof.
  induction l as [|y l IH]; simpl; [done|].
  destruct (c x y); [done..|]. rewrite IH. by apply Permutation_swap.
Qed.

Lemma sort_by_perm l : sort_by c l ≡ₚ l.
Proof. induction l as [|x l IH]; simpl; [done|]. by rewrite insert_by_perm, IH. Qed.

Lemma elem_of_sort_by x l : x ∈ sort_by c l <-> x ∈ l.
Proof. by rewrite sort_by_perm. Qed.

Lemma length_sort_by l : length (sort_by c l) = length l.
Proof. by rewrite sort_by_perm. Qed.

Lemma insert_by_sorted x l :
  StronglySorted (cmp_le c) l -> StronglySorted (cmp_le c) (insert_by c x l).
Proof.
  induction 1 as [|y l Hs IH Hall]; simpl; [repeat constructor|].
  destruct (c x y) eqn:E.
  1,2: constructor; [by constructor|]; constructor; [by rewrite E|];
    eapply Forall_impl; [exact Hall|]; intros z Hz;
    apply (cmp_le_trans c x y z); [by rewrite E|done].
  constructor; [done|]. rewrite insert_by_perm. constructor; [|done].
  apply cmp_gt_lt in E; [|done]. by rewrite E.
Qed.

Lemma sort_by_sorted l : StronglySorted (cmp_le c) (sort_by c l).
Proof. induction l; simpl; [constructor|]. by apply insert_by_sorted. Qed.

Lemma insert_by_head x l : Forall (cmp_le c x) l -> insert_by c x l = x :: l.
Proof. destruct 1 as [|y l Hy]; simpl; [done|]. by destruct (c x y). Qed.

Lemma sort_by_id l : StronglySorted (cmp_le c) l -> sort_by c l = l.
Proof.
  induction 1 as [|x l Hs IH Hall]; simpl; [done|].
  rewrite IH. by apply insert_by_head.
Qed.

Lemma sort_by_idemp l : sort_by c (sort_by c l) = sort_by c l.
Proof. apply sort_by_id, sort_by_sorted. Qed.

(** Stability: the elements equivalent to [k] keep their relative order. *)
Lemma insert_by_filter_ne k x l :
  c k x <> Eq ->
  filter (fun y => c k y = Eq) (insert_by c x l) = filter (fun y => c k y = Eq) l.
Proof.
  intros Hx. induction l as [|y l IH]; simpl.
  - rewrite filter_cons_False; done.
  - destruct (c x y).
    1,2: by rewrite filter_cons_False.
    rewrite !filter_cons. case_decide; by rewrite IH.
Qed.

Lemma insert_by_filter_eq k x l :
  c k x = Eq ->
  filter (fun y => c k y = Eq) (insert_by c x l) =
    x :: filter (fun y => c k y = Eq) l.
Proof.
  intros Hx. induction l as [|y l IH]; simpl.
  - by rewrite filter_cons_True.
  - destruct (c x y) eqn:E.
    1,2: by rewrite filter_cons_True.
    rewrite !(filter_cons _ y). rewrite decide_False, IH; [|].
    + rewrite decide_False; [done|]. by rewrite (cmp_eq_l c k x y Hx), E.
    + by rewrite (cmp_eq_l c k x y Hx), E.
Qed.

Lemma sort_by_stable k l :
  filter (fun y => c k y = Eq) (sort_by c l) = filter (fun y => c k y = Eq) l.
Proof.
  induction l as [|x l IH]; simpl; [done|].
  rewrite filter_cons. case_decide as E.
  - by rewrite insert_by_filter_eq, IH.
  - by rewrite insert_by_filter_ne.
Qed.

(** When the comparator separates the elements, the input order is irrelevant. *)
Lemma sort_by_Permutation l1 l2 :
  (forall x y, x ∈ l1 -> y ∈ l1 -> c x y = Eq -> x = y) ->
  l1 ≡ₚ l2 -> sort_by c l1 = sort_by c l2.
Proof.
  intros Hinj Hp. apply (StronglySorted_unique_strong (cmp_le c)).
  - intros x y Hx Hy Hxy Hyx. rewrite elem_of_sort_by in Hx, Hy.
    rewrite <-Hp in Hy. apply Hinj; [done..|].
    rewrite (cmp_sym c) in Hyx. by destruct (c x y).
  - apply sort_by_sorted.
  - apply sort_by_sorted.
  - by rewrite !sort_by_perm.
Qed.

Lemma sorted_lt_le l : StronglySorted (cmp_lt c) l -> StronglySorted (cmp_le c) l.
Proof.
  induction 1 as [|x l Hs IH Hall]; constructor; [done|].
  eapply Forall_impl; [exact Hall|]. intros y Hy; simpl in *. by rewrite Hy.
Qed.

(** No two equivalent elements: the sorted list is strictly increasing. *)
Lemma sorted_le_lt l :
  NoDup l -> (forall x y, x ∈ l -> y ∈ l -> c x y = Eq -> x = y) ->
  StronglySorted (cmp_le c) l -> StronglySorted (cmp_lt c) l.
Proof.
  intros Hnd Hinj Hs. induction Hs as [|x l Hs IH Hall]; constructor.
  - apply NoDup_cons in Hnd as [_ Hnd]. apply IH; [done|].
    intros; apply Hinj; [by right..|done].
  - apply NoDup_cons in Hnd as [Hx _]. apply Forall_forall. intros y Hy.
    rewrite Forall_forall in Hall. specialize (Hall y Hy).
    destruct (c x y) eqn:E; [|done..].
    rewrite (Hinj x y) in Hx; [done|by left|by right|done].
Qed.

(** Two strictly increasing lists with the same elements are equal. *)
Lemma sorted_lt_unique l1 l2 :
  StronglySorted (cmp_lt c) l1 -> StronglySorted (cmp_lt c) l2 ->
  (forall x, x ∈ l1 <-> x ∈ l2) -> l1 = l2.
Proof.
  intros Hs1 Hs2 Hel.
  assert (forall l, StronglySorted (cmp_lt c) l -> NoDup l) as Hnd.
  { clear -CmpPre0. induction 1 as [|x l Hs IH Hall]; constructor; [|done].
    intros Hx. rewrite Forall_forall in Hall. specialize (Hall x Hx).
    simpl in Hall. by rewrite cmp_refl in Hall. }
  apply (StronglySorted_unique_strong (cmp_lt c)); [|done..|].
  - intros x y _ _ Hxy Hyx. rewrite (cmp_sym c), Hxy in Hyx. done.
  - by apply NoDup_Permutation; [apply Hnd..|].
Qed.
End sort_by.

(** ** Ordered maps

    A [BTreeMap] is a [gmap] whose iteration order is that of the keys. *)
Class KeyOrder (K : Type) := key_cmp : K -> K -> comparison.
#[export] Instance N_key_order : KeyOrder N := N.compare.
#[export] Instance Z_key_order : KeyOrder Z := Z.compare.

Definition fst_cmp {K V} `{KeyOrder K} : K * V -> K * V -> comparison :=
  cmp_on fst key_cmp.
Definition bt_iter {K V} `{Countable K, KeyOrder K} (m : gmap K V) : list (K * V) :=
  sort_by fst_cmp (map_to_list m).
Definition bt_keys {K V} `{Countable K, KeyOrder K} (m : gmap K V) : list K :=
  (bt_iter m).*1.
Definition bt_values {K V} `{Countable K, KeyOrder K} (m : gmap K V) : list V :=
  (bt_iter m).*2.

Section bt.
Context {K V : Type} `{Countable K, KeyOrder K, !CmpOrd (key_cmp (K:=K))}.
Implicit Types (m : gmap K V) (k : K) (v : V).

#[export] Instance fst_cmp_pre : CmpPre (fst_cmp (K:=K) (V:=V)).
Proof. unfold fst_cmp. apply _. Qed.

Lemma bt_iter_perm m : bt_iter m ≡ₚ map_to_list m.
Proof. apply sort_by_perm. Qed.

Lemma elem_of_bt_iter k v m : (k, v) ∈ bt_iter m <-> m !! k = Some v.
Proof. unfold bt_iter. rewrite elem_of_sort_by. apply elem_of_map_to_list. Qed.

Lemma length_bt_iter m : length (bt_iter m) = size m.
Proof. rewrite bt_iter_perm. apply length_map_to_list. Qed.

Lemma bt_iter_sorted m : StronglySorted (cmp_lt fst_cmp) (bt_iter m).
Proof.
  apply (sorted_le_lt fst_cmp).
  - rewrite bt_iter_perm. apply NoDup_map_to_list.
  - intros [k1 v1] [k2 v2]. rewrite !elem_of_bt_iter. unfold fst_cmp, cmp_on; simpl.
    intros H1 H2 E. apply (cmp_eq key_cmp) in E. simplify_eq. done.
  - apply (sort_by_sorted fst_cmp).
Qed.

Lemma bt_keys_sorted m : StronglySorted (cmp_lt key_cmp) (bt_keys m).
Proof.
  unfold bt_keys. eapply (StronglySorted_fmap fst (cmp_lt fst_cmp)); [|apply bt_iter_sorted].
  done.
Qed.

Lemma bt_keys_NoDup m : NoDup (bt_keys m).
Proof. unfold bt_keys. rewrite bt_iter_perm. apply NoDup_fst_map_to_list. Qed.

Lemma elem_of_bt_keys k m : k ∈ bt_keys m <-> is_Some (m !! k).
Proof.
  unfold bt_keys. rewrite list_elem_of_fmap. split.
  - intros ([k' v] & -> & Hin). apply elem_of_bt_iter in Hin. eauto.
  - intros [v Hv]. exists (k, v). by rewrite elem_of_bt_iter.
Qed.

Lemma elem_of_bt_values v m : v ∈ bt_values m <-> exists k, m !! k = Some v.
Proof.
  unfold bt_values. rewrite list_elem_of_fmap. split.
  - intros ([k v'] & -> & Hin). apply elem_of_bt_iter in Hin. eauto.
  - intros [k Hv]. exists (k, v). by rewrite elem_of_bt_iter.
Qed.

Lemma bt_iter_unique m (l : list (K * V)) :
  StronglySorted (cmp_lt fst_cmp) l ->
  (forall k v, (k, v) ∈ l <-> m !! k = Some v) -> bt_iter m = l.
Proof.
  intros Hs Hel. eapply (sorted_lt_unique fst_cmp); [apply bt_iter_sorted|done|].
  intros [k v]. by rewrite elem_of_bt_iter, Hel.
Qed.

Lemma sorted_lt_NoDup_fst (l : list (K * V)) :
  StronglySorted (cmp_lt fst_cmp) l -> NoDup l.*1.
Proof.
  induction 1 as [|[k v] l Hs IH Hall]; csimpl; constructor; [|done].
  rewrite list_elem_of_fmap. intros ([k' v'] & -> & Hin).
  rewrite Forall_forall in Hall. specialize (Hall _ Hin).
  unfold fst_cmp, cmp_on in Hall; simpl in Hall. by rewrite (cmp_refl key_cmp) in Hall.
Qed.

Lemma list_to_map_bt_iter m : list_to_map (bt_iter m) = m.
Proof.
  rewrite <-(list_to_map_to_list m) at 2. apply list_to_map_proper; [|apply bt_iter_perm].
  apply sorted_lt_NoDup_fst, bt_iter_sorted.
Qed.

Lemma bt_iter_list_to_map (l : list (K * V)) :
  StronglySorted (cmp_lt fst_cmp) l -> bt_iter (list_to_map l : gmap K V) = l.
Proof.
  intros Hs. apply bt_iter_unique; [done|]. intros k v.
  apply elem_of_list_to_map, sorted_lt_NoDup_fst, Hs.
Qed.

Lemma bt_iter_empty : bt_iter (∅ : gmap K V) = [].
Proof. unfold bt_iter. by rewrite map_to_list_empty. Qed.

Lemma bt_iter_nil m : bt_iter m = [] <-> m = ∅.
Proof.
  split; [|intros ->; apply bt_iter_empty]. intros E.
  by rewrite <-(list_to_map_bt_iter m), E.
Qed.

Lemma bt_iter_insert_last m k v :
  (forall k' v', m !! k' = Some v' -> key_cmp k' k = Lt) ->
  bt_iter (<[k:=v]> m) = bt_iter m ++ [(k, v)].
Proof.
  intros Hlast. assert (m !! k = None) as Hk.
  { apply eq_None_not_Some. intros [v' Hv']. specialize (Hlast _ _ Hv').
    by rewrite (cmp_refl key_cmp) in Hlast. }
  apply bt_iter_unique.
  - apply StronglySorted_app_2; [|apply bt_iter_sorted|by repeat constructor].
    intros [k1 v1] x2 H1 H2. apply list_elem_of_singleton in H2 as ->.
    apply elem_of_bt_iter in H1. by eapply Hlast.
  - intros k' v'. rewrite elem_of_app, list_elem_of_singleton, elem_of_bt_iter.
    rewrite lookup_insert_Some. destruct (decide (k = k')) as [->|Hne].
    + rewrite Hk. split; [intros [?|[= ->]]|intros [[_ ->]|[? ?]]]; auto.
    + split; [intros [?|[= -> ->]]|intros [[? _]|[_ ?]]];
        first [done | by right | by left].
Qed.
End bt.

Lemma bt_iter_fmap {K V W} `{Countable K, KeyOrder K, !CmpOrd (key_cmp (K:=K))}
    (f : V -> W) (m : gmap K V) :
  bt_iter (f <$> m) = prod_map id f <$> bt_iter m.
Proof.
  apply bt_iter_unique.
  - eapply (StronglySorted_fmap _ (cmp_lt fst_cmp)); [|apply bt_iter_sorted]. done.
  - intros k w. rewrite list_elem_of_fmap, lookup_fmap, fmap_Some. split.
    + intros ([k' v] & [= -> ->] & Hin). apply elem_of_bt_iter in Hin. eauto.
    + intros (v & Hv & ->). exists (k, v). by rewrite elem_of_bt_iter.
Qed.

Lemma StronglySorted_omap {A B} (R : relation A) (S : relation B) (f : A -> option B) l :
  (forall x y x' y', R x y -> f x = Some x' -> f y = Some y' -> S x' y') ->
  StronglySorted R l -> StronglySorted S (omap f l).
Proof.
  intros HRS. induction l as [|x l IH]; [constructor|]. intros [Hx Hl]%StronglySorted_cons. csimpl.
  destruct (f x) as [x'|] eqn:Ex; [|by apply IH]. apply StronglySorted_cons. split; [|by apply IH].
  rewrite Forall_forall in Hx. apply Forall_forall. intros y' (y & Hy & Ey)%list_elem_of_omap.
  by eapply HRS; eauto.
Qed.

Lemma bt_iter_omap {K V W} `{Countable K, KeyOrder K, !CmpOrd (key_cmp (K:=K))}
    (f : V -> option W) (m : gmap K V) :
  bt_iter (omap f m) = omap (fun kv => pair kv.1 <$> f kv.2) (bt_iter m).
Proof.
  apply bt_iter_unique.
  - eapply (StronglySorted_omap (cmp_lt fst_cmp)); [|apply bt_iter_sorted].
    intros [k v] [k' v'] [j w] [j' w'] Hlt; cbn.
    intros (? & _ & [= <- _])%fmap_Some (? & _ & [= <- _])%fmap_Some. exact Hlt.
  - intros k w. rewrite list_elem_of_omap, lookup_omap_Some. split.
    + intros ([k' v] & Hin & (w' & Hw & [= -> ->])%fmap_Some). apply elem_of_bt_iter in Hin. eauto.
    + intros (v & Hw & Hv). exists (k, v). rewrite elem_of_bt_iter. cbn. by rewrite Hw.
Qed.

Lemma bt_values_omap {K V W} `{Countable K, KeyOrder K, !CmpOrd (key_cmp (K:=K))}
    (f : V -> option W) (m : gmap K V) :
  bt_values (omap f m) = omap f (bt_values m).
Proof.
  unfold bt_values. rewrite bt_iter_omap. induction (bt_iter m) as [|[k v] l IH]; [done|].
  csimpl. destruct (f v); csimpl; by rewrite IH.
Qed.

(** A sublist of a list without duplicates is its filter. *)
Lemma sublist_filter_elem {A} `{EqDecision A} (l1 l2 : list A) :
  l1 `sublist_of` l2 -> NoDup l2 -> l1 = filter (fun x => x ∈ l1) l2.
Proof.
  intros Hs Hnd. assert (forall l, NoDup l -> forall l1, l1 `sublist_of` l -> forall P : A -> Prop,
    (forall x, x ∈ l -> P x <-> x ∈ l1) -> forall `{!forall x, Decision (P x)}, l1 = filter P l) as H;
    [|by eapply H].
  clear. intros l Hnd l1 Hs. revert Hnd. induction Hs as [|x l1 l2 Hs IH|x l1 l2 Hs IH];
    intros Hnd P HP HD; [done|..]; apply NoDup_cons in Hnd as [Hx Hnd].
  - rewrite filter_cons_True by (apply HP; by left). f_equal. apply IH; [done|].
    intros y Hy. rewrite HP by (by right). rewrite elem_of_cons. split; [|by right].
    intros [->|?]; [done|done].
  - rewrite filter_cons_False.
    + apply IH; [done|]. intros y Hy. apply HP. by right.
    + rewrite HP by (by left). intros Hin. apply Hx. by eapply elem_of_sublist.
Qed.

Lemma sublist_filter_mono {A} (P : A -> Prop) `{!forall x, Decision (P x)} l1 l2 :
  l1 `sublist_of` l2 -> filter P l1 `sublist_of` filter P l2.
Proof.
  induction 1 as [|x l1 l2 Hs IH|x l1 l2 Hs IH]; [done|..]; rewrite !filter_cons; case_decide; try done.
  - by constructor.
  - by constructor.
Qed.

Lemma sublist_bind {A B} (f g : A -> list B) l :
  (forall x, x ∈ l -> f x `sublist_of` g x) -> l ≫= f `sublist_of` l ≫= g.
Proof.
  induction l as [|x l IH]; intros H; [done|]. csimpl. apply sublist_app; [apply H; by left|].
  apply IH. intros y Hy. apply H. by right.
Qed.

(** [filter] as an [omap]. *)
Lemma omap_guard {A} (P : A -> Prop) `{!forall x, Decision (P x)} (l : list A) :
  omap (fun x => if decide (P x) then Some x else None) l = filter P l.
Proof. induction l as [|x l IH]; [done|]. csimpl. rewrite filter_cons. by case_decide; rewrite IH. Qed.

(** ** Sums over a map *)
Definition map_sum {K V} `{Countable K} (f : V -> N) (m : gmap K V) : N :=
  map_fold (fun _ v acc => (f v + acc)%N) 0%N m.

Section map_sum.
Context {K V : Type} `{Countable K} (f : V -> N).
Implicit Types (m : gmap K V).

Lemma map_sum_empty : map_sum f (∅ : gmap K V) = 0%N.
Proof. apply map_fold_empty. Qed.

Lemma map_sum_insert m k v :
  m !! k = None -> map_sum f (<[k:=v]> m) = (f v + map_sum f m)%N.
Proof.
  intros Hk. unfold map_sum. rewrite map_fold_insert_L; [done| |done].
  intros; lia.
Qed.

Lemma map_sum_delete m k v :
  m !! k = Some v -> map_sum f m = (f v + map_sum f (delete k m))%N.
Proof.
  intros Hk. rewrite <-(insert_delete_id m k v Hk) at 1.
  apply map_sum_insert, lookup_delete_eq.
Qed.

Lemma map_sum_insert_delete m k v :
  map_sum f (<[k:=v]> m) = (f v + map_sum f (delete k m))%N.
Proof.
  rewrite <-insert_delete_eq. apply map_sum_insert, lookup_delete_eq.
Qed.

Lemma map_sum_lookup_le m k v : m !! k = Some v -> (f v <= map_sum f m)%N.
Proof. intros Hk. rewrite (map_sum_delete m k v Hk). lia. Qed.
End map_sum.

Lemma map_sum_list {K V} `{Countable K} (f : V -> N) (m : gmap K V) :
  map_sum f m = foldr (fun kv acc => (f kv.2 + acc)%N) 0%N (map_to_list m).
Proof. unfold map_sum. by rewrite map_fold_foldr; induction (map_to_list m) as [|[k v] l IH]; simpl; [|rewrite IH]. Qed.

Lemma map_sum_fmap {K V W} `{Countable K} (f : W -> N) (g : V -> W) (m : gmap K V) :
  map_sum f (g <$> m) = map_sum (fun v => f (g v)) m.
Proof.
  induction m as [|k v m Hk IH] using map_ind.
  - by rewrite fmap_empty, !map_sum_empty.
  - rewrite fmap_insert, !map_sum_insert, IH; [done|done|by rewrite lookup_fmap, Hk].
Qed.

Lemma map_sum_le {K V} `{Countable K} (f g : V -> N) (m : gmap K V) :
  (forall k v, m !! k = Some v -> (f v <= g v)%N) -> (map_sum f m <= map_sum g m)%N.
Proof.
  induction m as [|k v m Hk IH] using map_ind; intros Hfg.
  - by rewrite !map_sum_empty.
  - rewrite !map_sum_insert by done. apply N.add_le_mono.
    + apply (Hfg k). by simplify_map_eq.
    + apply IH. intros k' v' Hk'. apply (Hfg k'). rewrite lookup_insert_ne; [done|].
      by intros ->; simplify_map_eq.
Qed.

Lemma map_sum_add {K V} `{Countable K} (f g : V -> N) (m : gmap K V) :
  map_sum (fun v => f v + g v)%N m = (map_sum f m + map_sum g m)%N.
Proof.
  induction m as [|k v m Hk IH] using map_ind.
  - by rewrite !map_sum_empty.
  - rewrite !map_sum_insert, IH by done. lia.
Qed.

Lemma map_sum_ext {K V} `{Countable K} (f g : V -> N) (m : gmap K V) :
  (forall k v, m !! k = Some v -> f v = g v) -> map_sum f m = map_sum g m.
Proof.
  intros Hfg. apply N.le_antisymm; apply map_sum_le; intros k v Hv;
    by rewrite (Hfg k v Hv).
Qed.

(** ** Sublists and sorted lists *)
Lemma Forall_sublist {A} (P : A -> Prop) l1 l2 : sublist l1 l2 -> Forall P l2 -> Forall P l1.
Proof.
  induction 1 as [|x l1 l2 _ IH|x l1 l2 _ IH]; [done|..]; rewrite ?Forall_cons; intros [? ?]; auto.
Qed.

Lemma StronglySorted_sublist {A} (R : relation A) l1 l2 :
  sublist l1 l2 -> StronglySorted R l2 -> StronglySorted R l1.
Proof.
  induction 1 as [|x l1 l2 Hs IH|x l1 l2 Hs IH]; intros Hl; [done|..];
    apply StronglySorted_cons in Hl as [Hx Hl]; [|by apply IH].
  apply StronglySorted_cons. split; [|by apply IH]. by eapply Forall_sublist.
Qed.

Lemma StronglySorted_lookup {A} (R : relation A) l i j x y :
  StronglySorted R l -> (i < j)%nat -> l !! i = Some x -> l !! j = Some y -> R x y.
Proof.
  intros Hs. revert i j. induction Hs as [|z l Hs IH Hz]; intros i j Hij Hi Hj; [done|].
  destruct j as [|j]; [lia|]. destruct i as [|i]; cbn in *.
  - injection Hi as [= <-]. rewrite Forall_forall in Hz. by apply Hz, (list_elem_of_lookup_2 _ j).
  - apply (IH i j); [lia|done..].
Qed.

Lemma omap_snoc {A B} (f : A -> option B) l x :
  omap f (l ++ [x]) = omap f l ++ option_list (f x).
Proof. rewrite omap_app. cbn. by destruct (f x). Qed.

Lemma and_iff_under (P Q R : Prop) : (P -> Q <-> R) -> P /\ Q <-> P /\ R.
Proof. tauto. Qed.

Lemma filter_nil_iff {A} (P : A -> Prop) `{!forall x, Decision (P x)} (l : list A) :
  filter P l = [] <-> forall x, x ∈ l -> ~ P x.
Proof.
  split.
  - intros E x Hx HP. assert (x ∈ filter P l) as Hin by (by apply list_elem_of_filter). rewrite E in Hin. set_solver.
  - intros Hl. destruct (filter P l) as [|x l'] eqn:E; [done|]. exfalso.
    assert (x ∈ filter P l) as [HP Hx]%list_elem_of_filter by (rewrite E; by left). by apply (Hl x).
Qed.

Lemma filter_ext_elem {A} (P Q : A -> Prop) `{!forall x, Decision (P x), !forall x, Decision (Q x)} (l : list A) :
  (forall x, x ∈ l -> P x <-> Q x) -> filter P l = filter Q l.
Proof.
  induction l as [|x l IH]; intros Hl; [done|]. rewrite !filter_cons.
  assert (filter P l = filter Q l) as -> by (apply IH; intros; apply Hl; by right).
  pose proof (Hl x ltac:(by left)). repeat case_decide; tauto || done.
Qed.

Lemma filter_none {A} (P : A -> Prop) `{!forall x, Decision (P x)} (l : list A) :
  (forall x, x ∈ l -> ~ P x) -> filter P l = [].
Proof. apply filter_nil_iff. Qed.
Lemma filter_all {A} (P : A -> Prop) `{!forall x, Decision (P x)} (l : list A) :
  (forall x, x ∈ l -> P x) -> filter P l = l.
Proof.
  induction l as [|x l IH]; intros Hl; [done|]. rewrite filter_cons, decide_True by (apply Hl; set_solver).
  f_equal. apply IH. set_solver.
Qed.

Lemma filter_fmap {A B} (P : B -> Prop) `{!forall x, Decision (P x)} (f : A -> B) (l : list A) :
  filter P (f <$> l) = f <$> filter (fun x => P (f x)) l.
Proof.
  induction l as [|x l IH]; csimpl; [done|]. rewrite !filter_cons. case_decide; csimpl; by rewrite IH.
Qed.

(** [collect()] into a map: the last value of a key wins. *)
Lemma foldl_insert_last {A K V} `{Countable K} (key : A -> K) (val : A -> V) (l : list A)
    (m : gmap K V) (k : K) :
  foldl (fun m x => <[key x := val x]> m) m l !! k =
    match last (filter (fun x => key x = k) l) with
    | Some x => Some (val x)
    | None => m !! k
    end.
Proof.
  revert m. induction l as [|x l IH] using rev_ind; intros m; simpl; [done|].
  rewrite foldl_app, filter_app; simpl. destruct (decide (key x = k)) as [<-|Hne].
  - rewrite filter_cons_True, filter_nil by done. rewrite last_snoc. apply lookup_insert_eq.
  - rewrite filter_cons_False, filter_nil, app_nil_r by done.
    rewrite lookup_insert_ne by done. apply IH.
Qed.

(** ** Strings

    [str] compares bytewise, as [String.compare] does on the [ascii] bytes. *)
#[export] Instance string_key_order : KeyOrder string := String.compare.

Lemma ascii_compare_N a b :
  Ascii.compare a b = N.compare (Ascii.N_of_ascii a) (Ascii.N_of_ascii b).
Proof. done. Qed.

Lemma string_compare_cons a b s t :
  String.compare (String a s) (String b t) =
    then_with (N.compare (Ascii.N_of_ascii a) (Ascii.N_of_ascii b)) (String.compare s t).
Proof. simpl. by rewrite ascii_compare_N; destruct (_ ?= _)%N. Qed.

#[export] Instance string_compare_ord : CmpOrd String.compare.
Proof.
  split; [split|].
  - intros x y. apply String.compare_antisym.
  - intros x. induction x as [|a x IH]; intros [|b y] [|d z]; try done.
    rewrite !string_compare_cons. intros H1 H2.
    destruct (N.compare_spec (Ascii.N_of_ascii a) (Ascii.N_of_ascii b)) as [E1|E1|E1];
      destruct (N.compare_spec (Ascii.N_of_ascii b) (Ascii.N_of_ascii d)) as [E2|E2|E2];
      destruct (N.compare_spec (Ascii.N_of_ascii a) (Ascii.N_of_ascii d)) as [E3|E3|E3];
      simpl in *; first [done | lia | by eapply IH].
  - intros x y. apply String.compare_eq_iff.
Qed.

(** [x.join(sep)]. *)
Fixpoint join (sep : string) (l : list string) : string :=
  match l with
  | [] => ""
  | [x] => x
  | x :: l' => x +:+ sep +:+ join sep l'
  end.

(** The bytes of a [String] (UTF-8 is kept as its bytes). *)
Definition str_bytes (s : string) : list N :=
  Ascii.N_of_ascii <$> String.list_ascii_of_string s.
Lemma str_bytes_app s t : str_bytes (s +:+ t) = str_bytes s ++ str_bytes t.
Proof. unfold str_bytes. induction s as [|a s IH]; csimpl; [done|]. by rewrite IH. Qed.

(** ** Fixed-width byte views

    [[u8; n]] identifiers are kept as the number their big-endian bytes spell:
    [be_bytes_compare] shows that the derived (lexicographic) order on the
    arrays is the order on the numbers. *)
Fixpoint be_bytes (n : nat) (x : N) : list N :=
  match n with
  | O => []
  | S n' => (x / 256 ^ N.of_nat n') mod 256 :: be_bytes n' x
  end%N.
Fixpoint le_bytes (n : nat) (x : N) : list N :=
  match n with
  | O => []
  | S n' => x mod 256 :: le_bytes n' (x / 256)
  end%N.
Fixpoint of_le_bytes (l : list N) : N :=
  match l with [] => 0 | b :: l' => b + 256 * of_le_bytes l' end%N.
Definition of_be_bytes (l : list N) : N :=
  foldl (fun acc b => acc * 256 + b)%N 0%N l.
(** The two's-complement bytes of an [i64]. *)
Definition le_bytes_i64 (z : Z) : list N := le_bytes 8 (Z.to_N (z mod 2 ^ 64)).

Fixpoint lex_cmp (l1 l2 : list N) : comparison :=
  match l1, l2 with
  | [], [] => Eq
  | [], _ => Lt
  | _, [] => Gt
  | x :: l1', y :: l2' => then_with (N.compare x y) (lex_cmp l1' l2')
  end.

Lemma length_be_bytes n x : length (be_bytes n x) = n.
Proof. revert x. induction n; intros; simpl; auto. Qed.

Lemma length_le_bytes n x : length (le_bytes n x) = n.
Proof. revert x. induction n; intros; simpl; auto. Qed.

Lemma be_bytes_mod n x : be_bytes n (x mod 256 ^ N.of_nat n)%N = be_bytes n x.
Proof.
  assert (forall m k, (m <= k)%nat ->
    be_bytes m (x mod 256 ^ N.of_nat k)%N = be_bytes m x) as H; [|by apply H].
  intros m. induction m as [|m IH]; intros k Hk; simpl; [done|].
  rewrite IH by lia. f_equal.
  replace (N.of_nat k) with (N.of_nat m + (1 + N.of_nat (k - S m)))%N by lia.
  assert (256 ^ N.of_nat m <> 0)%N by (apply N.pow_nonzero; lia).
  assert (256 ^ N.of_nat (k - S m) <> 0)%N by (apply N.pow_nonzero; lia).
  rewrite N.pow_add_r, N.Div0.mod_mul_r, N.add_comm, N.mul_comm,
    N.div_add_l, N.pow_add_r by done.
  change (256 ^ 1)%N with 256%N.
  rewrite (N.div_small (x mod _)), N.add_0_r by by apply N.mod_lt.
  rewrite N.Div0.mod_mul_r, (N.mul_comm 256), N.Div0.mod_add.
  by rewrite N.Div0.mod_mod.
Qed.

(** Lexicographic order on big-endian arrays is the numeric order. *)
Lemma be_bytes_compare n x y :
  (x < 256 ^ N.of_nat n)%N -> (y < 256 ^ N.of_nat n)%N ->
  lex_cmp (be_bytes n x) (be_bytes n y) = N.compare x y.
Proof.
  revert x y. induction n as [|n IH]; intros x y Hx Hy.
  { simpl in *. replace x with 0%N by lia. by replace y with 0%N by lia. }
  cbn [be_bytes lex_cmp]. rewrite Nat2N.inj_succ, N.pow_succ_r' in Hx, Hy.
  set (P := (256 ^ N.of_nat n)%N) in *.
  assert (P <> 0)%N as HP by by apply N.pow_nonzero.
  rewrite <-(be_bytes_mod n x), <-(be_bytes_mod n y).
  fold P. rewrite IH by (by apply N.mod_lt).
  assert (x / P < 256)%N by (apply N.Div0.div_lt_upper_bound; lia).
  assert (y / P < 256)%N by (apply N.Div0.div_lt_upper_bound; lia).
  rewrite !(N.mod_small (_ / P)) by done.
  pose proof (N.div_mod x P HP) as Ex. pose proof (N.div_mod y P HP) as Ey.
  pose proof (N.mod_lt x P HP). pose proof (N.mod_lt y P HP).
  revert Ex Ey. generalize dependent (x / P)%N. generalize dependent (y / P)%N.
  generalize dependent (x mod P)%N. generalize dependent (y mod P)%N.
  intros r' Hr' r Hr q' Hq' q Hq -> ->.
  destruct (N.compare_spec q q') as [->|Hlt|Hgt]; simpl.
  - destruct (N.compare_spec r r'); symmetry;
      [apply N.compare_eq_iff|apply N.compare_lt_iff|apply N.compare_gt_iff]; lia.
  - symmetry. apply N.compare_lt_iff. nia.
  - symmetry. apply N.compare_gt_iff. nia.
Qed.

Lemma of_le_le_bytes n x :
  (x < 256 ^ N.of_nat n)%N -> of_le_bytes (le_bytes n x) = x.
Proof.
  revert x. induction n as [|n IH]; intros x Hx; simpl; [simpl in Hx; lia|].
  rewrite Nat2N.inj_succ, N.pow_succ_r' in Hx.
  rewrite IH by (apply N.Div0.div_lt_upper_bound; lia).
  pose proof (N.div_mod x 256 ltac:(lia)). lia.
Qed.

Lemma le_bytes_inj n x y :
  (x < 256 ^ N.of_nat n)%N -> (y < 256 ^ N.of_nat n)%N ->
  le_bytes n x = le_bytes n y -> x = y.
Proof.
  intros Hx Hy E. by rewrite <-(of_le_le_bytes n x), <-(of_le_le_bytes n y), E.
Qed.

Lemma lex_cmp_refl l : lex_cmp l l = Eq.
Proof. induction l as [|x l IH]; simpl; [done|]. by rewrite N.compare_refl. Qed.

Lemma be_bytes_inj n x y :
  (x < 256 ^ N.of_nat n)%N -> (y < 256 ^ N.of_nat n)%N ->
  be_bytes n x = be_bytes n y -> x = y.
Proof.
  intros Hx Hy E. apply N.compare_eq_iff.
  by rewrite <-(be_bytes_compare n), E, lex_cmp_refl.
Qed.

Lemma of_be_bytes_fold acc l :
  foldl (fun a b => a * 256 + b)%N acc l = (acc * 256 ^ N.of_nat (length l) + of_be_bytes l)%N.
Proof.
  unfold of_be_bytes. revert acc. induction l as [|b l IH]; intros acc; cbn [foldl length]; [simpl; lia|].
  rewrite IH, (IH (0 * 256 + b)%N), Nat2N.inj_succ, N.pow_succ_r'. lia.
Qed.

Lemma of_be_bytes_cons b l :
  of_be_bytes (b :: l) = (b * 256 ^ N.of_nat (length l) + of_be_bytes l)%N.
Proof. unfold of_be_bytes at 1. cbn [foldl]. rewrite of_be_bytes_fold. lia. Qed.

Lemma of_be_bytes_bound l :
  Forall (fun b => b < 256)%N l -> (of_be_bytes l < 256 ^ N.of_nat (length l))%N.
Proof.
  induction 1 as [|b l Hb _ IH]; [cbn; lia|].
  rewrite of_be_bytes_cons. cbn [length]. rewrite Nat2N.inj_succ, N.pow_succ_r'. nia.
Qed.

Lemma of_be_bytes_inj l1 l2 :
  length l1 = length l2 -> Forall (fun b => b < 256)%N l1 -> Forall (fun b => b < 256)%N l2 ->
  of_be_bytes l1 = of_be_bytes l2 -> l1 = l2.
Proof.
  intros Hlen H1. revert l2 Hlen.
  induction H1 as [|b l1 Hb H1 IH]; intros [|c l2] Hlen H2; try done.
  apply Forall_cons in H2 as [Hc H2]. injection Hlen as Hlen.
  rewrite !of_be_bytes_cons, Hlen. intros E.
  pose proof (of_be_bytes_bound l1 H1) as B1. pose proof (of_be_bytes_bound l2 H2) as B2.
  rewrite Hlen in B1. revert E B1 B2. generalize (256 ^ N.of_nat (length l2))%N. intros P E B1 B2.
  assert (b = c) as -> by (destruct (N.lt_trichotomy b c) as [?|[?|?]]; [nia|done|nia]).
  f_equal. apply IH; [done..|lia].
Qed.

Lemma of_le_bytes_bound l :
  Forall (fun b => b < 256)%N l -> (of_le_bytes l < 256 ^ N.of_nat (length l))%N.
Proof.
  induction 1 as [|b l Hb _ IH]; [cbn; lia|].
  cbn [of_le_bytes length]. rewrite Nat2N.inj_succ, N.pow_succ_r'. lia.
Qed.

Lemma of_be_be_bytes n x : of_be_bytes (be_bytes n x) = (x mod 256 ^ N.of_nat n)%N.
Proof.
  induction n as [|n IH]; [by rewrite N.mod_1_r|].
  cbn [be_bytes]. rewrite of_be_bytes_cons, IH, length_be_bytes, Nat2N.inj_succ, N.pow_succ_r'.
  rewrite (N.mul_comm 256), N.Div0.mod_mul_r. lia.
Qed.

Lemma be_bytes_digit n x : Forall (fun b => b < 256)%N (be_bytes n x).
Proof. induction n as [|n IH]; cbn [be_bytes]; constructor; [by apply N.mod_lt|done]. Qed.

(** ** Hexadecimal *)
Definition hex_digit (d : N) : Ascii.ascii :=
  Ascii.ascii_of_N (if d <? 10 then 48 + d else 87 + d)%N.
(** [format!("{byte:02x}")]. *)
Definition hex_byte (b : N) : string :=
  String (hex_digit (b / 16)%N) (String (hex_digit (b mod 16)%N) "").
(** [hex::encode]. *)
Definition hex_encode (l : list N) : string := String.concat "" (hex_byte <$> l).

(** [str::trim().is_empty()]: every character is Unicode white space, over the
    UTF-8 bytes of the string. *)
Fixpoint blank_bytes (l : list N) : bool :=
  match l with
  | [] => true
  | b :: l1 =>
      if ((9 <=? b) && (b <=? 13) || (b =? 32))%N then blank_bytes l1
      else match l1 with
      | c :: l2 =>
          if ((b =? 194) && ((c =? 133) || (c =? 160)))%N then blank_bytes l2
          else match l2 with
          | d :: l3 =>
              if ((b =? 225) && (c =? 154) && (d =? 128)
                 || (b =? 226) && (c =? 128) &&
                    ((128 <=? d) && (d <=? 138) || (d =? 168) || (d =? 169) || (d =? 175))
                 || (b =? 226) && (c =? 129) && (d =? 159)
                 || (b =? 227) && (c =? 128) && (d =? 128))%N
              then blank_bytes l3 else false
          | [] => false
          end
      | [] => false
      end
  end.
