(* ===== verification/F64.v ===== *)
(** * F64: the binary64 arithmetic the source uses

    Rust's [f64] on the values this code computes: non-negative and finite,
    far from the smallest and the largest exponent.  Such a value is a natural
    mantissa times a power of two; every operation is the exact rational result
    rounded to 53 significant bits, to nearest with ties to even (IEEE 754),
    and is executable.  The theorems relate the results to the rationals:
    relative error at most [2^-53] ([round_ratio_error]), and rounding never
    crosses a representable value ([round_ratio_le], [round_ratio_ge]). *)
From Stdlib Require Import QArith Qpower Qminmax Lqa.
From stdpp Require Import base list numbers.
From S2P Require Import Prelude.

Record f64 := mkF64 { f_mant : N; f_exp : Z }.
Definition f64_val (x : f64) : Q := inject_Z (Z.of_N (f_mant x)) * Qpower 2 (f_exp x).

(** [n / d] to the nearest integer, ties to even. *)
Definition div_ne (n d : N) : N :=
  let q := (n / d)%N in
  let r := (n mod d)%N in
  match (2 * r ?= d)%N with
  | Lt => q
  | Gt => (q + 1)%N
  | Eq => if N.even q then q else (q + 1)%N
  end.

Definition scale_num (num : N) (e : Z) : N := (num * 2 ^ Z.to_N (- e))%N.
Definition scale_den (den : N) (e : Z) : N := (den * 2 ^ Z.to_N e)%N.

(** The exponent that leaves 53 bits before the point. *)
Definition ratio_exp (num den : N) : Z :=
  let e := (Z.of_N (N.log2 num) - Z.of_N (N.log2 den) - 53)%Z in
  if (scale_num num e <? 2 ^ 53 * scale_den den e)%N then e else (e + 1)%Z.

Definition round_ratio (num den : N) : f64 :=
  if (num =? 0)%N then mkF64 0 0
  else let e := ratio_exp num den in mkF64 (div_ne (scale_num num e) (scale_den den e)) e.

(** [n as f64] for an unsigned integer, and the operations. *)
Definition f64_of_N (n : N) : f64 := round_ratio n 1.
Definition f64_div (x y : f64) : f64 :=
  let e := (f_exp x - f_exp y)%Z in
  round_ratio (scale_den (f_mant x) e) (scale_num (f_mant y) e).
Definition f64_mul (x y : f64) : f64 :=
  let e := (f_exp x + f_exp y)%Z in
  round_ratio (scale_den (f_mant x * f_mant y) e) (scale_num 1 e).
(** Two values over the common, lower exponent. *)
Definition align (x : f64) (e : Z) : N := (f_mant x * 2 ^ Z.to_N (f_exp x - e))%N.
Definition common_exp (x y : f64) : Z := Z.min (f_exp x) (f_exp y).
Definition f64_add (x y : f64) : f64 :=
  let e := common_exp x y in
  round_ratio (scale_den (align x e + align y e) e) (scale_num 1 e).
(** [x - y] where [y <= x]. *)
Definition f64_sub (x y : f64) : f64 :=
  let e := common_exp x y in
  round_ratio (scale_den (align x e - align y e) e) (scale_num 1 e).
Definition f64_lt (x y : f64) : bool :=
  let e := common_exp x y in (align x e <? align y e)%N.
Definition f64_min (x y : f64) : f64 := if f64_lt y x then y else x.
(** [round] (halves away from zero), [ceil] and the truncating cast to an
    unsigned integer with maximum [max], which saturates. *)
Definition f64_round (x : f64) : N :=
  ((2 * scale_den (f_mant x) (f_exp x) + scale_num 1 (f_exp x)) / (2 * scale_num 1 (f_exp x)))%N.
Definition f64_ceil (x : f64) : N := div_ceil (scale_den (f_mant x) (f_exp x)) (scale_num 1 (f_exp x)).

Example f64_tenth : round_ratio 1 10 = mkF64 7205759403792794 (-56).
Proof. vm_compute. reflexivity. Qed.
Example f64_tie : f64_of_N (2 ^ 53 + 1) = mkF64 4503599627370496 1.
Proof. vm_compute. reflexivity. Qed.

(** ** Rounding to an integer *)
Section div_ne.
Context (n d : N) (Hd : (0 < d)%N).

Lemma div_ne_near : (2 * div_ne n d * d <= 2 * n + d)%N /\ (2 * n <= 2 * div_ne n d * d + d)%N.
Proof using Hd.
  pose proof (N.div_mod n d ltac:(lia)) as E. pose proof (N.mod_lt n d ltac:(lia)) as Hr.
  unfold div_ne. revert E Hr. generalize (n / d)%N (n mod d)%N. intros q r -> Hr.
  destruct (N.compare_spec (2 * r) d); [destruct (N.even q)| |]; nia.
Qed.

(** An integer on one side of the quotient stays on that side. *)
Lemma div_ne_ge m : (m * d <= n)%N -> (m <= div_ne n d)%N.
Proof using Hd.
  intros Hm. assert (m <= n / d)%N as H by (apply N.div_le_lower_bound; lia).
  unfold div_ne. destruct (2 * (n mod d) ?= d)%N; [destruct (N.even (n / d))| |]; lia.
Qed.

Lemma div_ne_le m : (n <= m * d)%N -> (div_ne n d <= m)%N.
Proof using Hd.
  intros Hm. pose proof (N.div_mod n d ltac:(lia)) as E. pose proof (N.mod_lt n d ltac:(lia)) as Hr.
  unfold div_ne. revert E Hr. generalize (n / d)%N (n mod d)%N. intros q r -> Hr.
  destruct (N.compare_spec (2 * r) d); [destruct (N.even q)| |]; nia.
Qed.
End div_ne.

(** ** The exponent *)
Lemma pow2_pos k : (0 < 2 ^ k)%N.
Proof. pose proof (N.pow_nonzero 2 k). lia. Qed.

Lemma log2_bounds n : (0 < n)%N -> (2 ^ N.log2 n <= n < 2 * 2 ^ N.log2 n)%N.
Proof. intros Hn. rewrite <-N.pow_succ_r'. by apply N.log2_spec. Qed.

Lemma ratio_exp_bounds num den :
  (0 < num)%N -> (0 < den)%N ->
  let e := ratio_exp num den in
  (2 ^ 52 * scale_den den e <= scale_num num e)%N /\
  (scale_num num e < 2 ^ 53 * scale_den den e)%N.
Proof.
  intros Hnum Hden. unfold ratio_exp.
  set (e := (Z.of_N (N.log2 num) - Z.of_N (N.log2 den) - 53)%Z).
  destruct (log2_bounds num Hnum) as [Hn1 Hn2]. destruct (log2_bounds den Hden) as [Hd1 Hd2].
  assert (2 ^ N.log2 num * 2 ^ Z.to_N (- e) = 2 ^ 53 * (2 ^ N.log2 den * 2 ^ Z.to_N e))%N as Epow.
  { rewrite <-!N.pow_add_r. f_equal. subst e. lia. }
  assert (2 ^ 52 * scale_den den e <= scale_num num e < 2 ^ 54 * scale_den den e)%N as [Hlo Hhi].
  { unfold scale_num, scale_den in *. revert Epow Hn1 Hn2 Hd1 Hd2.
    pose proof (pow2_pos (Z.to_N (- e))) as Ha. pose proof (pow2_pos (Z.to_N e)) as Hb. revert Ha Hb.
    generalize (2 ^ Z.to_N (- e))%N (2 ^ Z.to_N e)%N (2 ^ N.log2 num)%N (2 ^ N.log2 den)%N.
    change (2 ^ 54)%N with (4 * 2 ^ 52)%N. change (2 ^ 53)%N with (2 * 2 ^ 52)%N.
    generalize (2 ^ 52)%N. intros P a b L M Ha Hb Epow Hn1 Hn2 Hd1 Hd2.
    assert (den * b <= 2 * (M * b))%N by nia. assert (M * b <= den * b)%N by nia.
    assert (L * a <= num * a)%N by nia. assert (num * a < 2 * (L * a))%N by nia.
    split; nia. }
  destruct (N.ltb_spec (scale_num num e) (2 ^ 53 * scale_den den e)) as [Hlt|Hge]; [done|].
  revert Hge Hhi. unfold scale_num, scale_den.
  change (2 ^ 54)%N with (4 * 2 ^ 52)%N. change (2 ^ 53)%N with (2 * 2 ^ 52)%N.
  generalize (2 ^ 52)%N. intros P Hge Hhi.
  destruct (Z.le_gt_cases 0 e) as [He|He].
  - replace (Z.to_N (- (e + 1))) with 0%N by lia. replace (Z.to_N (- e)) with 0%N in * by lia.
    replace (Z.to_N (e + 1)) with (N.succ (Z.to_N e)) by lia. rewrite N.pow_succ_r'.
    generalize dependent (2 ^ Z.to_N e)%N. intros; split; nia.
  - replace (Z.to_N (e + 1)) with 0%N by lia. replace (Z.to_N e) with 0%N in * by lia.
    replace (Z.to_N (- e)) with (N.succ (Z.to_N (- (e + 1)))) in * by lia. rewrite N.pow_succ_r' in *.
    generalize dependent (2 ^ Z.to_N (- (e + 1)))%N. intros; split; nia.
Qed.

(** ** Values *)
Definition NQ (n : N) : Q := inject_Z (Z.of_N n).
Definition ratio (num den : N) : Q := (NQ num / NQ den)%Q.
(** Half of the last of 53 bits. *)
Definition epsilon : Q := 1 # 9007199254740992.

#[local] Open Scope Q_scope.

Lemma NQ_le n m : NQ n <= NQ m <-> (n <= m)%N.
Proof. unfold NQ. rewrite <-Zle_Qle. lia. Qed.
Lemma NQ_lt n m : NQ n < NQ m <-> (n < m)%N.
Proof. unfold NQ. rewrite <-Zlt_Qlt. lia. Qed.
Lemma NQ_mul n m : NQ (n * m) == NQ n * NQ m.
Proof. unfold NQ. by rewrite N2Z.inj_mul, inject_Z_mult. Qed.
Lemma NQ_add n m : NQ (n + m) == NQ n + NQ m.
Proof. unfold NQ. by rewrite N2Z.inj_add, inject_Z_plus. Qed.
Lemma NQ_pos n : (0 < n)%N -> 0 < NQ n.
Proof. intros H. change 0 with (NQ 0). by apply NQ_lt. Qed.
Lemma NQ_nonneg n : 0 <= NQ n.
Proof. change 0 with (NQ 0). apply NQ_le. lia. Qed.
Lemma NQ_pow2 k : NQ (2 ^ k) == Qpower 2 (Z.of_N k).
Proof. unfold NQ. rewrite N2Z.inj_pow. rewrite Zpower_Qpower by lia. done. Qed.
Lemma pow2Q_pos e : 0 < Qpower 2 e.
Proof. by apply Qpower_0_lt. Qed.
Lemma pow2Q_add e k : Qpower 2 (e + k) == Qpower 2 e * Qpower 2 k.
Proof. by apply Qpower_plus. Qed.

(** The defining property of a quotient. *)
Lemma ratio_mul num den : (0 < den)%N -> ratio num den * NQ den == NQ num.
Proof. intros H%NQ_pos. unfold ratio. field. lra. Qed.

Lemma ratio_unique num den x : (0 < den)%N -> x * NQ den == NQ num -> x == ratio num den.
Proof. intros H%NQ_pos E. unfold ratio. rewrite <-E. field. lra. Qed.

(** A power of two moved into the numerator or the denominator. *)
Lemma scale_split e : NQ (2 ^ Z.to_N e) == NQ (2 ^ Z.to_N (- e)) * Qpower 2 e.
Proof. rewrite !NQ_pow2, <-pow2Q_add. replace (Z.of_N (Z.to_N (- e)) + e)%Z with (Z.of_N (Z.to_N e)) by lia. done. Qed.

Lemma scale_den_pos den e : (0 < den)%N -> (0 < scale_den den e)%N.
Proof. unfold scale_den. pose proof (pow2_pos (Z.to_N e)). nia. Qed.
Lemma scale_num_pos num e : (0 < num)%N -> (0 < scale_num num e)%N.
Proof. unfold scale_num. pose proof (pow2_pos (Z.to_N (- e))). nia. Qed.

Lemma ratio_scale num den e :
  (0 < den)%N -> ratio num den == ratio (scale_num num e) (scale_den den e) * Qpower 2 e.
Proof.
  intros Hd. symmetry. apply ratio_unique; [done|].
  pose proof (ratio_mul (scale_num num e) (scale_den den e) (scale_den_pos den e Hd)) as E.
  unfold scale_num, scale_den in *. rewrite !NQ_mul, (scale_split e) in E.
  pose proof (NQ_pos _ (pow2_pos (Z.to_N (- e)))) as Ha.
  apply (Qmult_inj_r _ _ (NQ (2 ^ Z.to_N (- e)))); [lra|]. rewrite <-E. ring.
Qed.

Lemma val_ratio m e : f64_val (mkF64 m e) == ratio (scale_den m e) (scale_num 1 e).
Proof.
  apply ratio_unique; [by apply scale_num_pos|]. unfold f64_val, scale_num, scale_den.
  cbn [f_mant f_exp]. fold (NQ m). rewrite N.mul_1_l, NQ_mul, (scale_split e). ring.
Qed.

(** What the rounding yields: an integer next to the quotient [n / d] of 53
    bits, times a power of two. *)
Lemma round_ratio_shape num den :
  (0 < num)%N -> (0 < den)%N ->
  exists n d e, (0 < d)%N /\ (2 ^ 52 * d <= n)%N /\ (n < 2 ^ 53 * d)%N /\
    ratio num den == ratio n d * Qpower 2 e /\
    round_ratio num den = mkF64 (div_ne n d) e.
Proof.
  intros Hn Hd. destruct (ratio_exp_bounds num den Hn Hd) as [H1 H2].
  exists (scale_num num (ratio_exp num den)), (scale_den den (ratio_exp num den)), (ratio_exp num den).
  split_and!; [by apply scale_den_pos|done|done|by apply ratio_scale|].
  unfold round_ratio. by destruct (N.eqb_spec num 0); [lia|].
Qed.

Lemma NQ_cross a b n d : (0 < d)%N -> (a * d <= b * n)%N -> NQ a <= NQ b * ratio n d.
Proof.
  intros Hd H%NQ_le. rewrite !NQ_mul, <-(ratio_mul n d Hd) in H.
  apply (Qmult_le_r _ _ (NQ d)); [by apply NQ_pos|]. lra.
Qed.
Lemma NQ_cross' a b n d : (0 < d)%N -> (b * n <= a * d)%N -> NQ b * ratio n d <= NQ a.
Proof.
  intros Hd H%NQ_le. rewrite !NQ_mul, <-(ratio_mul n d Hd) in H.
  apply (Qmult_le_r _ _ (NQ d)); [by apply NQ_pos|]. lra.
Qed.

Lemma ratio_pos n d : (0 < n)%N -> (0 < d)%N -> 0 < ratio n d.
Proof.
  intros Hn%NQ_pos Hd. pose proof (ratio_mul n d Hd). pose proof (NQ_pos d Hd). nra.
Qed.

(** The relative error of one rounding. *)
Lemma round_ratio_error num den :
  (0 < num)%N -> (0 < den)%N ->
  ratio num den * (1 - epsilon) <= f64_val (round_ratio num den) <= ratio num den * (1 + epsilon).
Proof.
  intros Hn Hd. destruct (round_ratio_shape num den Hn Hd) as (n & d & e & Hd' & Hlo & _ & -> & ->).
  unfold f64_val; cbn [f_mant f_exp]. fold (NQ (div_ne n d)). pose proof (pow2Q_pos e) as Hp.
  destruct (div_ne_near n d Hd') as [H1 H2].
  assert (NQ (2 ^ 53 * div_ne n d) <= NQ (2 ^ 53 + 1) * ratio n d) as U by (apply NQ_cross; [done|nia]).
  assert (NQ (2 ^ 53 - 1) * ratio n d <= NQ (2 ^ 53 * div_ne n d)) as L by (apply NQ_cross'; [done|nia]).
  rewrite NQ_mul in U, L. change (NQ (2 ^ 53)) with (9007199254740992 # 1) in U, L.
  change (NQ (2 ^ 53 + 1)) with (9007199254740993 # 1) in U.
  change (NQ (2 ^ 53 - 1)) with (9007199254740991 # 1) in L.
  assert (ratio n d * (1 - epsilon) <= NQ (div_ne n d)) by (unfold epsilon; lra).
  assert (NQ (div_ne n d) <= ratio n d * (1 + epsilon)) by (unfold epsilon; lra).
  split; nra.
Qed.

(** A representable value on one side of the quotient stays on that side. *)
Lemma pow2Q_shift k e : (e <= k)%Z -> Qpower 2 k == NQ (2 ^ Z.to_N (k - e)) * Qpower 2 e.
Proof. intros H. rewrite NQ_pow2, <-pow2Q_add. by replace (Z.of_N (Z.to_N (k - e)) + e)%Z with k by lia. Qed.

Lemma pow2Q_le k e : (k <= e)%Z -> Qpower 2 k <= Qpower 2 e.
Proof. intros H. by apply Qpower_le_compat_l. Qed.

Lemma round_ratio_ge num den m k :
  (0 < num)%N -> (0 < den)%N -> (m <= 2 ^ 53)%N ->
  NQ m * Qpower 2 k <= ratio num den -> NQ m * Qpower 2 k <= f64_val (round_ratio num den).
Proof.
  intros Hn Hd Hm. destruct (round_ratio_shape num den Hn Hd) as (n & d & e & Hd' & Hlo & _ & -> & ->).
  unfold f64_val; cbn [f_mant f_exp]. fold (NQ (div_ne n d)). pose proof (pow2Q_pos e) as Hp.
  destruct (Z.le_gt_cases e k) as [Hk|Hk].
  - rewrite (pow2Q_shift k e Hk), Qmult_assoc, <-NQ_mul. intros Hle.
    apply Qmult_le_r in Hle; [|done]. apply Qmult_le_r; [done|]. apply NQ_le, div_ne_ge; [done|].
    apply NQ_le. rewrite NQ_mul, <-(ratio_mul n d Hd').
    apply Qmult_le_r; [by apply NQ_pos|done].
  - intros _. assert (2 ^ 52 <= div_ne n d)%N as H52 by (by apply div_ne_ge).
    apply NQ_le in H52, Hm. pose proof (pow2Q_le k (e - 1) ltac:(lia)) as Hpk.
    pose proof (pow2Q_shift e (e - 1) ltac:(lia)) as Es. replace (e - (e - 1))%Z with 1%Z in Es by lia.
    change (NQ (2 ^ Z.to_N 1)) with 2 in Es. change (NQ (2 ^ 53)) with (9007199254740992 # 1) in Hm.
    change (NQ (2 ^ 52)) with (4503599627370496 # 1) in H52.
    pose proof (pow2Q_pos k). pose proof (NQ_nonneg m). rewrite Es. nra.
Qed.

Lemma round_ratio_le num den m k :
  (0 < num)%N -> (0 < den)%N -> (m <= 2 ^ 53)%N ->
  ratio num den <= NQ m * Qpower 2 k -> f64_val (round_ratio num den) <= NQ m * Qpower 2 k.
Proof.
  intros Hn Hd Hm. destruct (round_ratio_shape num den Hn Hd) as (n & d & e & Hd' & Hlo & _ & -> & ->).
  unfold f64_val; cbn [f_mant f_exp]. fold (NQ (div_ne n d)). pose proof (pow2Q_pos e) as Hp.
  destruct (Z.le_gt_cases e k) as [Hk|Hk].
  - rewrite (pow2Q_shift k e Hk), Qmult_assoc, <-NQ_mul. intros Hle.
    apply Qmult_le_r in Hle; [|done]. apply Qmult_le_r; [done|]. apply NQ_le, div_ne_le; [done|].
    apply NQ_le. rewrite NQ_mul, <-(ratio_mul n d Hd').
    apply Qmult_le_r; [by apply NQ_pos|done].
  - intros Hle. apply NQ_le in Hm. pose proof (pow2Q_le k (e - 1) ltac:(lia)) as Hpk.
    pose proof (pow2Q_shift e (e - 1) ltac:(lia)) as Es. replace (e - (e - 1))%Z with 1%Z in Es by lia.
    change (NQ (2 ^ Z.to_N 1)) with 2 in Es. change (NQ (2 ^ 53)) with (9007199254740992 # 1) in Hm.
    assert (NQ (2 ^ 52) <= NQ 1 * ratio n d) as H52 by (apply NQ_cross; [done|lia]).
    pose proof (pow2Q_pos k). pose proof (NQ_nonneg m). change (NQ 1) with 1 in H52.
    change (NQ (2 ^ 52)) with (4503599627370496 # 1) in H52.
    assert (NQ m * Qpower 2 k <= (4503599627370496 # 1) * Qpower 2 e) as Hy by (rewrite Es; nra).
    assert (ratio n d <= (4503599627370496 # 1)) as Hr.
    { apply (Qmult_le_r _ _ (Qpower 2 e)); [done|]. lra. }
    assert (div_ne n d <= 2 ^ 52)%N as Hdiv.
    { apply div_ne_le; [done|]. apply NQ_le. rewrite NQ_mul, <-(ratio_mul n d Hd').
      change (NQ (2 ^ 52)) with (4503599627370496 # 1).
      apply Qmult_le_r; [by apply NQ_pos|done]. }
    apply NQ_le in Hdiv. change (NQ (2 ^ 52)) with (4503599627370496 # 1) in Hdiv.
    assert (NQ (div_ne n d) * Qpower 2 e <= ratio n d * Qpower 2 e); [|lra].
    apply Qmult_le_r; [done|]. lra.
Qed.

(** A representable value is its own rounding. *)
Lemma round_ratio_exact num den m k :
  (0 < num)%N -> (0 < den)%N -> (m <= 2 ^ 53)%N ->
  ratio num den == NQ m * Qpower 2 k -> f64_val (round_ratio num den) == NQ m * Qpower 2 k.
Proof.
  intros Hn Hd Hm E. apply Qle_antisym.
  - apply round_ratio_le; try done. rewrite E. apply Qle_refl.
  - apply round_ratio_ge; try done. rewrite E. apply Qle_refl.
Qed.

(** ** The operations *)
Lemma round_zero den : f64_val (round_ratio 0 den) == 0.
Proof. done. Qed.

Lemma f64_of_N_exact n : (n <= 2 ^ 53)%N -> f64_val (f64_of_N n) == NQ n.
Proof.
  intros Hn. destruct (N.eq_0_gt_0_cases n) as [->|Hpos]; [done|].
  assert (NQ n == NQ n * Qpower 2 0) as -> by (change (Qpower 2 0) with 1; ring).
  apply round_ratio_exact; [done..|]. symmetry. apply ratio_unique; [done|].
  change (NQ 1) with 1. change (Qpower 2 0) with 1. ring.
Qed.

Lemma f64_of_N_small n : (n <=? 2 ^ 53)%N = true -> f64_val (f64_of_N n) == NQ n.
Proof. intros H%N.leb_le. by apply f64_of_N_exact. Qed.

Lemma f64_of_N_pos n : (0 < n <= 2 ^ 53)%N -> (0 < f_mant (f64_of_N n))%N.
Proof.
  intros Hn. pose proof (f64_of_N_exact n ltac:(lia)) as E. pose proof (NQ_pos n ltac:(lia)).
  destruct (f64_of_N n) as [[|m] e]; [|cbn; lia]. unfold f64_val in E; cbn [f_mant f_exp] in E.
  change (inject_Z (Z.of_N 0)) with 0 in E. rewrite Qmult_0_l in E. lra.
Qed.

(** [f64_div], [f64_mul]: the rounding of the exact result. *)
Definition rounds_to (x : Q) (v : Q) : Prop :=
  x * (1 - epsilon) <= v <= x * (1 + epsilon) /\
  forall m k, (m <= 2 ^ 53)%N ->
    (NQ m * Qpower 2 k <= x -> NQ m * Qpower 2 k <= v) /\
    (x <= NQ m * Qpower 2 k -> v <= NQ m * Qpower 2 k).

#[export] Instance rounds_to_proper : Proper (Qeq ==> Qeq ==> iff) rounds_to.
Proof.
  intros x x' Ex v v' Ev. unfold rounds_to. setoid_rewrite Ex. setoid_rewrite Ev. done.
Qed.

Lemma round_ratio_rounds num den :
  (0 < den)%N -> rounds_to (ratio num den) (f64_val (round_ratio num den)).
Proof.
  intros Hd. destruct (N.eq_0_gt_0_cases num) as [->|Hn].
  - assert (ratio 0 den == 0) as ->.
    { symmetry. apply ratio_unique; [done|]. change (NQ 0) with 0. ring. }
    rewrite round_zero. split; [unfold epsilon; lra|]. done.
  - split; [by apply round_ratio_error|]. intros m k Hm.
    split; [by apply round_ratio_ge|by apply round_ratio_le].
Qed.

Lemma f64_div_rounds x y :
  (0 < f_mant y)%N -> rounds_to (f64_val x / f64_val y) (f64_val (f64_div x y)).
Proof.
  intros Hy. unfold f64_div. set (e := (f_exp x - f_exp y)%Z).
  assert (f64_val x / f64_val y == ratio (scale_den (f_mant x) e) (scale_num (f_mant y) e)) as ->;
    [|by apply round_ratio_rounds, scale_num_pos].
  apply ratio_unique; [by apply scale_num_pos|]. unfold f64_val, scale_num, scale_den.
  fold (NQ (f_mant x)) (NQ (f_mant y)). rewrite !NQ_mul, (scale_split e).
  assert (Qpower 2 (f_exp x) == Qpower 2 e * Qpower 2 (f_exp y)) as ->
    by (rewrite <-pow2Q_add; replace (e + f_exp y)%Z with (f_exp x) by (subst e; lia); done).
  pose proof (NQ_pos _ Hy). pose proof (pow2Q_pos (f_exp y)). field. split; lra.
Qed.

Lemma f64_mul_rounds x y : rounds_to (f64_val x * f64_val y) (f64_val (f64_mul x y)).
Proof.
  unfold f64_mul. set (e := (f_exp x + f_exp y)%Z).
  assert (f64_val x * f64_val y == ratio (scale_den (f_mant x * f_mant y) e) (scale_num 1 e)) as ->;
    [|by apply round_ratio_rounds, scale_num_pos].
  rewrite <-val_ratio. unfold f64_val; cbn [f_mant f_exp].
  fold (NQ (f_mant x)) (NQ (f_mant y)) (NQ (f_mant x * f_mant y)).
  rewrite NQ_mul. subst e. rewrite pow2Q_add. ring.
Qed.

Lemma align_val x e : (e <= f_exp x)%Z -> NQ (align x e) * Qpower 2 e == f64_val x.
Proof.
  intros He. unfold align, f64_val. fold (NQ (f_mant x)).
  rewrite NQ_mul, (pow2Q_shift (f_exp x) e He). ring.
Qed.

Lemma align_common x y :
  NQ (align x (common_exp x y)) * Qpower 2 (common_exp x y) == f64_val x /\
  NQ (align y (common_exp x y)) * Qpower 2 (common_exp x y) == f64_val y.
Proof. unfold common_exp. split; apply align_val; lia. Qed.

Lemma f64_add_rounds x y : rounds_to (f64_val x + f64_val y) (f64_val (f64_add x y)).
Proof.
  unfold f64_add. destruct (align_common x y) as [Ex Ey]. set (e := common_exp x y) in *.
  assert (f64_val x + f64_val y == ratio (scale_den (align x e + align y e) e) (scale_num 1 e)) as ->;
    [|by apply round_ratio_rounds, scale_num_pos].
  rewrite <-val_ratio. unfold f64_val at 3; cbn [f_mant f_exp].
  fold (NQ (align x e + align y e)). rewrite NQ_add, <-Ex, <-Ey. ring.
Qed.

Lemma f64_le_align x y :
  f64_val y <= f64_val x <-> (align y (common_exp x y) <= align x (common_exp x y))%N.
Proof.
  destruct (align_common x y) as [<- <-]. rewrite <-NQ_le. apply Qmult_le_r, pow2Q_pos.
Qed.

Lemma NQ_sub n m : (m <= n)%N -> NQ (n - m) == NQ n - NQ m.
Proof. intros H. assert (NQ n == NQ (n - m) + NQ m) as -> by (rewrite <-NQ_add; by rewrite N.sub_add). ring. Qed.

Lemma f64_sub_rounds x y :
  f64_val y <= f64_val x -> rounds_to (f64_val x - f64_val y) (f64_val (f64_sub x y)).
Proof.
  intros Hle%f64_le_align. unfold f64_sub. destruct (align_common x y) as [Ex Ey].
  set (e := common_exp x y) in *.
  assert (f64_val x - f64_val y == ratio (scale_den (align x e - align y e) e) (scale_num 1 e)) as ->;
    [|by apply round_ratio_rounds, scale_num_pos].
  rewrite <-val_ratio. unfold f64_val at 3; cbn [f_mant f_exp].
  fold (NQ (align x e - align y e)). rewrite NQ_sub, <-Ex, <-Ey by done. ring.
Qed.

Lemma f64_lt_spec x y : f64_lt x y = true <-> f64_val x < f64_val y.
Proof.
  unfold f64_lt. rewrite N.ltb_lt. destruct (align_common x y) as [<- <-].
  rewrite <-NQ_lt. symmetry. apply Qmult_lt_r, pow2Q_pos.
Qed.

Lemma f64_min_spec x y : f64_val (f64_min x y) == Qmin (f64_val x) (f64_val y).
Proof.
  unfold f64_min. destruct (f64_lt y x) eqn:E.
  - apply f64_lt_spec in E. symmetry. apply Q.min_r. lra.
  - symmetry. apply Q.min_l. destruct (Qlt_le_dec (f64_val y) (f64_val x)) as [H|H]; [|done].
    apply f64_lt_spec in H. congruence.
Qed.

Lemma f64_round_spec x : NQ (f64_round x) <= f64_val x + (1 # 2) < NQ (f64_round x) + 1.
Proof.
  destruct x as [m e]. rewrite (val_ratio m e). unfold f64_round; cbn [f_mant f_exp].
  pose proof (scale_num_pos 1 e ltac:(lia)) as Hd. revert Hd.
  generalize (scale_den m e) (scale_num 1 e). intros n d Hd.
  pose proof (ratio_mul n d Hd) as E. pose proof (NQ_pos d Hd) as Hdq.
  assert (2 * d <> 0)%N as Hd2 by lia. set (r := ((2 * n + d) / (2 * d))%N).
  assert (r * (2 * d) <= 2 * n + d /\ 2 * n + d < (r + 1) * (2 * d))%N as [H1 H2].
  { subst r. pose proof (N.div_mod (2 * n + d) (2 * d) Hd2) as Ed.
    pose proof (N.mod_lt (2 * n + d) (2 * d) Hd2) as Hr. revert Ed Hr.
    generalize ((2 * n + d) mod (2 * d))%N. generalize ((2 * n + d) / (2 * d))%N.
    intros a b -> Hr. split; nia. }
  apply NQ_le in H1. apply NQ_lt in H2. repeat rewrite ?NQ_mul, ?NQ_add in H1, H2.
  change (NQ 2) with 2 in *. change (NQ 1) with 1 in *. split.
  - apply (Qmult_le_r _ _ (2 * NQ d)); lra.
  - rewrite (NQ_add r 1) in H2. change (NQ 1) with 1 in H2. apply (Qmult_lt_r _ _ (2 * NQ d)); lra.
Qed.

Lemma f64_ceil_spec x q : (f64_ceil x <= q)%N <-> f64_val x <= NQ q.
Proof.
  destruct x as [m e]. rewrite (val_ratio m e). unfold f64_ceil; cbn [f_mant f_exp].
  pose proof (scale_num_pos 1 e ltac:(lia)) as Hd. revert Hd.
  generalize (scale_den m e) (scale_num 1 e). intros n d Hd.
  rewrite div_ceil_spec by done. pose proof (ratio_mul n d Hd) as E. pose proof (NQ_pos d Hd) as Hdq.
  rewrite <-NQ_le, NQ_mul, <-E. apply Qmult_le_r. done.
Qed.

(** ** Relative error *)

(** [v] is [x] within the relative error [d]. *)
Definition near (d x v : Q) : Prop := x * (1 - d) <= v <= x * (1 + d).

#[export] Instance near_proper : Proper (Qeq ==> Qeq ==> Qeq ==> iff) near.
Proof. intros d d' Ed x x' Ex v v' Ev. unfold near. by rewrite Ed, Ex, Ev. Qed.

Lemma rounds_near x v : rounds_to x v -> near epsilon x v.
Proof. by intros [H _]. Qed.

Lemma near_mul a b x v y w :
  0 <= a <= 1 -> 0 <= b <= 1 -> 0 <= x -> 0 <= y -> near a x v -> near b y w ->
  near (a + b + a * b) (x * y) (v * w).
Proof.
  intros Ha Hb Hx Hy [H1 H2] [H3 H4].
  assert (0 <= x * (1 - a)) by nra. assert (0 <= y * (1 - b)) by nra.
  assert (x * (1 - a) * (y * (1 - b)) <= v * w) as L by nra.
  assert (v * w <= x * (1 + a) * (y * (1 + b))) as U by nra.
  assert (0 <= x * y) by nra. assert (0 <= a * b) by nra.
  assert (0 <= x * y * (a * b)) by nra.
  split; lra.
Qed.

Lemma near_trans a b x v w :
  0 <= a <= 1 -> 0 <= b <= 1 -> 0 <= x -> near a x v -> near b v w -> near (a + b + a * b) x w.
Proof.
  intros Ha Hb Hx [H1 H2] [H3 H4]. assert (0 <= a * b) by nra. assert (0 <= x * (a * b)) by nra.
  assert (x * (1 - a) * (1 - b) <= v * (1 - b)) by (apply Qmult_le_compat_r; lra).
  assert (v * (1 + b) <= x * (1 + a) * (1 + b)) by (apply Qmult_le_compat_r; lra).
  split; lra.
Qed.

Lemma near_add a x v y w : near a x v -> near a y w -> near a (x + y) (v + w).
Proof. unfold near. intros [] []. split; lra. Qed.

Lemma near_weaken a b x v : a <= b -> 0 <= x -> near a x v -> near b x v.
Proof. unfold near. intros Hab Hx []. split; nra. Qed.

(** ** Values of 53 bits are exact *)
Lemma round_ratio_mant num den : (0 < den)%N -> (f_mant (round_ratio num den) <= 2 ^ 53)%N.
Proof.
  intros Hd. destruct (N.eq_0_gt_0_cases num) as [->|Hn]; [done|].
  destruct (round_ratio_shape num den Hn Hd) as (n & d & e & Hd' & _ & Hhi & _ & ->).
  apply div_ne_le; [done|]. lia.
Qed.

Lemma rounds_exact x v m k : (m <= 2 ^ 53)%N -> x == NQ m * Qpower 2 k -> rounds_to x v -> v == x.
Proof.
  intros Hm E [_ H]. destruct (H m k Hm) as [H1 H2]. apply Qle_antisym; rewrite E.
  - apply H2. rewrite E. apply Qle_refl.
  - apply H1. rewrite E. apply Qle_refl.
Qed.

Lemma f64_val_nonneg x : 0 <= f64_val x.
Proof.
  unfold f64_val. fold (NQ (f_mant x)). pose proof (NQ_nonneg (f_mant x)). pose proof (pow2Q_pos (f_exp x)). nra.
Qed.

Lemma f64_add_zero x y : (f_mant x <= 2 ^ 53)%N -> f64_val y == 0 -> f64_val (f64_add x y) == f64_val x.
Proof.
  intros Hm E. pose proof (f64_add_rounds x y) as H.
  assert (f64_val x + f64_val y == f64_val x) as E' by lra. rewrite E' in H.
  by apply (rounds_exact _ _ (f_mant x) (f_exp x) Hm).
Qed.

(** One subtracted from a value between one and [2 ^ 53]. *)
Lemma f64_sub_one x :
  (f_mant x <= 2 ^ 53)%N -> 1 <= f64_val x <= NQ (2 ^ 53) ->
  f64_val (f64_sub x (f64_of_N 1)) == f64_val x - 1.
Proof.
  intros Hm [Hx Hhi]. assert (f64_val (f64_of_N 1) == 1) as E1 by (by rewrite f64_of_N_exact).
  pose proof (f64_sub_rounds x (f64_of_N 1) ltac:(rewrite E1; done)) as H. rewrite E1 in H.
  assert (exists m k, (m <= 2 ^ 53)%N /\ f64_val x - 1 == NQ m * Qpower 2 k) as (m & k & Hm' & E);
    [|exact (rounds_exact _ _ m k Hm' E H)].
  clear H. destruct x as [m e]. unfold f64_val in *; cbn [f_mant f_exp] in *. fold (NQ m) in *.
  pose proof (pow2Q_pos e) as Hp. destruct (Z.le_gt_cases e 0) as [He|He].
  - pose proof (pow2Q_shift 0 e He) as E0. change (Qpower 2 0) with 1 in E0.
    exists (m - 2 ^ Z.to_N (0 - e))%N, e. split; [lia|].
    assert (2 ^ Z.to_N (0 - e) <= m)%N as Hle.
    { apply NQ_le. apply (Qmult_le_r _ _ (Qpower 2 e)); [done|]. rewrite <-E0. done. }
    rewrite (NQ_sub _ _ Hle), E0 at 1. ring.
  - assert (NQ m * Qpower 2 e == NQ (m * 2 ^ Z.to_N e)) as E0.
    { rewrite NQ_mul, NQ_pow2. by rewrite Z2N.id by lia. }
    rewrite E0 in Hx, Hhi. change 1 with (NQ 1) in Hx. apply NQ_le in Hx, Hhi.
    exists (m * 2 ^ Z.to_N e - 1)%N, 0%Z. split; [lia|].
    rewrite E0, NQ_sub by done. change (Qpower 2 0) with 1. change (NQ 1) with 1. ring.
Qed.
