(* ===== verification/Alerts.v ===== *)
(** * Alerts: the alert gate (crates/common/src/lib.rs)

    [evaluate_alerts] with its integer rates, which are cut to 16 and 8 bits,
    and its coverage drop, which is computed in binary64.  Multiplication of
    [u64] wraps, as in the release build. *)
From Stdlib Require Import QArith Qpower Qminmax Lqa.
From stdpp Require Import base gmap strings list numbers sorting.
From S2P Require Import Prelude F64.

Record AlertThresholdConfig := mkThresholds {
  th_peer_churn_spike : N;
  th_ingest_lag_ms : N;
  th_decode_failure_rate_bps : N;
  th_coverage_drop_percent : N;
  th_storage_write_latency_ms : N;
  th_clock_skew_ms : N;
  th_queue_saturation_percent : N;
}.
Definition thresholds_default : AlertThresholdConfig :=
  mkThresholds 25 500 100 40 250 150 90.

Record MetricSnapshot := mkMetricSnapshot {
  mt_peer_disconnects_total : N;
  mt_ingest_lag_ms : N;
  mt_tx_decode_fail_total : N;
  mt_tx_decode_total : N;
  mt_tx_per_sec_current : N;
  mt_tx_per_sec_baseline : N;
  mt_storage_write_latency_ms : N;
  mt_clock_skew_ms : N;
  mt_queue_depth_current : N;
  mt_queue_depth_capacity : N;
}.

Record AlertDecisions := mkAlertDecisions {
  al_peer_churn : bool;
  al_ingest_lag : bool;
  al_decode_failure : bool;
  al_coverage_collapse : bool;
  al_storage_latency : bool;
  al_clock_skew : bool;
  al_queue_saturation : bool;
}.

Definition decode_failure_bps (snapshot : MetricSnapshot) : N :=
  if (mt_tx_decode_total snapshot =? 0)%N then 0
  else cast 16 (cast 64 (mt_tx_decode_fail_total snapshot * 10000) / mt_tx_decode_total snapshot)%N.

(** [((1.0 - ratio.clamp(0.0, 1.0)) * 100.0).round() as u8]. *)
Definition coverage_drop_percent (snapshot : MetricSnapshot) : N :=
  if (mt_tx_per_sec_baseline snapshot =? 0)%N then 0
  else
    let ratio := f64_div (f64_of_N (mt_tx_per_sec_current snapshot))
                         (f64_of_N (mt_tx_per_sec_baseline snapshot)) in
    let one := f64_of_N 1 in
    N.min (f64_round (f64_mul (f64_sub one (f64_min ratio one)) (f64_of_N 100))) u8_max.

Definition queue_saturation_percent (snapshot : MetricSnapshot) : N :=
  if (mt_queue_depth_capacity snapshot =? 0)%N then 0
  else cast 8 (sat_mul u64_max (mt_queue_depth_current snapshot) 100 / mt_queue_depth_capacity snapshot)%N.

Definition evaluate_alerts (snapshot : MetricSnapshot) (thresholds : AlertThresholdConfig) : AlertDecisions :=
  {| al_peer_churn := th_peer_churn_spike thresholds <=? mt_peer_disconnects_total snapshot;
     al_ingest_lag := th_ingest_lag_ms thresholds <=? mt_ingest_lag_ms snapshot;
     al_decode_failure := th_decode_failure_rate_bps thresholds <=? decode_failure_bps snapshot;
     al_coverage_collapse := th_coverage_drop_percent thresholds <=? coverage_drop_percent snapshot;
     al_storage_latency := th_storage_write_latency_ms thresholds <=? mt_storage_write_latency_ms snapshot;
     al_clock_skew := th_clock_skew_ms thresholds <=? mt_clock_skew_ms snapshot;
     al_queue_saturation := th_queue_saturation_percent thresholds <=? queue_saturation_percent snapshot |}%N.

(** The repository's own expectation. *)
Example alerts_sample :
  evaluate_alerts (mkMetricSnapshot 30 800 150 1000 200 1000 300 200 9500 10000) thresholds_default =
    mkAlertDecisions true true true true true true true /\
  coverage_drop_percent (mkMetricSnapshot 0 0 0 1 200 1000 0 0 0 1) = 80%N.
Proof. split; vm_compute; reflexivity. Qed.

(** ** The coverage drop *)
#[local] Open Scope Q_scope.

Lemma ratio_unit c b : (c <= b)%N -> (0 < b)%N -> 0 <= ratio c b <= 1.
Proof.
  intros Hcb Hb. pose proof (ratio_mul c b Hb) as Er. pose proof (NQ_pos b Hb). split.
  - apply (Qmult_le_r _ _ (NQ b)); [done|]. rewrite Er, Qmult_0_l. apply NQ_nonneg.
  - apply (Qmult_le_r _ _ (NQ b)); [done|]. rewrite Er, Qmult_1_l. by apply NQ_le.
Qed.

Lemma ratio_near c b :
  (c <= b)%N -> (0 < b <= 2 ^ 53)%N ->
  let r := f64_val (f64_min (f64_div (f64_of_N c) (f64_of_N b)) (f64_of_N 1)) in
  0 <= r <= 1 /\ ratio c b * (1 - epsilon) <= r <= ratio c b * (1 + epsilon).
Proof.
  intros Hcb Hb. cbn zeta. rewrite f64_min_spec, (f64_of_N_small 1) by done. change (NQ 1) with 1.
  pose proof (f64_div_rounds (f64_of_N c) (f64_of_N b) (f64_of_N_pos b Hb)) as Hr.
  rewrite (f64_of_N_exact c), (f64_of_N_exact b) in Hr by lia. fold (ratio c b) in Hr.
  destruct Hr as [Herr Hrep]. destruct (ratio_unit c b Hcb ltac:(lia)) as [Hge0 Hle1].
  destruct (Hrep 1%N 0%Z ltac:(done)) as [_ Hone]. change (NQ 1 * Qpower 2 0) with 1 in Hone.
  destruct (Hrep 0%N 0%Z ltac:(done)) as [Hzero _]. change (NQ 0 * Qpower 2 0) with 0 in Hzero.
  specialize (Hone Hle1). specialize (Hzero Hge0). rewrite Q.min_l by done. done.
Qed.

(** The four roundings move the percentage by less than [10^-13]. *)
Lemma percent_near c b :
  (c <= b)%N -> (0 < b <= 2 ^ 53)%N ->
  let r := f64_min (f64_div (f64_of_N c) (f64_of_N b)) (f64_of_N 1) in
  let v := f64_val (f64_mul (f64_sub (f64_of_N 1) r) (f64_of_N 100)) in
  (100 # 1) * (1 - ratio c b) - (1 # 10000000000000) <= v <=
    (100 # 1) * (1 - ratio c b) + (1 # 10000000000000).
Proof.
  intros Hcb Hb r. destruct (ratio_near c b Hcb Hb) as [[Hr0 Hr1] [Hlo Hhi]]. fold r in Hr0, Hr1, Hlo, Hhi.
  destruct (ratio_unit c b Hcb ltac:(lia)) as [Hge0 Hle1].
  pose proof (f64_of_N_small 1 eq_refl) as E1. change (NQ 1) with 1 in E1.
  pose proof (f64_of_N_small 100 eq_refl) as E100. change (NQ 100) with (100 # 1) in E100.
  pose proof (f64_sub_rounds (f64_of_N 1) r ltac:(rewrite E1; exact Hr1)) as [[Hs1 Hs2] _].
  rewrite E1 in Hs1, Hs2.
  pose proof (f64_mul_rounds (f64_sub (f64_of_N 1) r) (f64_of_N 100)) as [[Hm1 Hm2] _].
  rewrite E100 in Hm1, Hm2. revert Hlo Hhi Hs1 Hs2 Hm1 Hm2 Hr0 Hr1 Hge0 Hle1. unfold epsilon. cbn zeta.
  generalize (f64_val (f64_mul (f64_sub (f64_of_N 1) r) (f64_of_N 100))) (f64_val (f64_sub (f64_of_N 1) r))
    (f64_val r) (ratio c b). intros v d rv q. intros. split; lra.
Qed.

(** The percentage is the integer nearest to the drop of the rate. *)
Lemma coverage_near s :
  let c := mt_tx_per_sec_current s in let b := mt_tx_per_sec_baseline s in
  (c <= b)%N -> (0 < b <= 2 ^ 40)%N ->
  (200 * (b - c) <= 2 * coverage_drop_percent s * b + b)%N /\
  (2 * coverage_drop_percent s * b <= 200 * (b - c) + b)%N.
Proof.
  intros c b Hcb Hb. assert (2 ^ 40 <= 2 ^ 53)%N as H4053 by (vm_compute; discriminate).
  pose proof (percent_near c b Hcb ltac:(lia)) as Hp. cbn zeta in Hp.
  destruct (ratio_unit c b Hcb ltac:(lia)) as [Hge0 Hle1]. pose proof (ratio_mul c b ltac:(lia)) as Er.
  assert (NQ b <= (1099511627776 # 1)) as Hbig by (change (1099511627776 # 1) with (NQ (2 ^ 40)); apply NQ_le; lia).
  pose proof (NQ_pos b ltac:(lia)) as Hbq. pose proof (NQ_sub b c Hcb) as Ebc.
  unfold coverage_drop_percent. fold c b. destruct (N.eqb_spec b 0); [lia|]. revert Hp.
  set (x := f64_mul _ _). pose proof (f64_round_spec x) as [Hv1 Hv2]. set (p := f64_round x) in *. intros Hp.
  assert (p <= u8_max)%N as Hp255.
  { apply NQ_le. change (NQ u8_max) with (255 # 1). lra. }
  rewrite N.min_l by done.
  assert (NQ p * NQ b <= (100 # 1) * (NQ b - NQ c) + (1 # 2) * NQ b + (1 # 4)) as Hup by nra.
  assert ((100 # 1) * (NQ b - NQ c) <= NQ p * NQ b + (1 # 2) * NQ b + (1 # 4)) as Hdown by nra.
  split; apply N.lt_succ_r, NQ_lt; rewrite <-N.add_1_r; repeat rewrite ?NQ_add, ?NQ_mul, ?Ebc;
    change (NQ 200) with (200 # 1); change (NQ 2) with 2; change (NQ 1) with 1; lra.
Qed.
#[local] Close Scope Q_scope.

Lemma floor_ge a b t : (0 < b)%N -> (t <=? a / b)%N = true <-> (t * b <= a)%N.
Proof.
  intros Hb. rewrite N.leb_le. split; intros H.
  - pose proof (N.Div0.mul_div_le a b). nia.
  - apply N.div_le_lower_bound; lia.
Qed.

(** A snapshot whose totals are consistent and far from overflow. *)
Definition snapshot_ok (s : MetricSnapshot) : Prop :=
  (mt_tx_decode_fail_total s <= mt_tx_decode_total s <= 2 ^ 50 /\
   mt_queue_depth_current s <= mt_queue_depth_capacity s <= 2 ^ 50 /\
   mt_tx_per_sec_baseline s <= 2 ^ 40)%N.

(** On a consistent snapshot each alert fires exactly at its threshold.
    The counters compare directly; the decode alert fires when the failures
    are at least the threshold's share of the decodes in basis points, the
    queue alert when the depth is at least the threshold's share of the
    capacity, both exactly and only when the total is positive (or the
    threshold is zero); the coverage alert compares the threshold with the
    integer nearest to the percentage by which the rate fell below its
    baseline, which the floating-point computation always finds. *)
Theorem alerts_exact s t (Hok : snapshot_ok s) :
  let a := evaluate_alerts s t in
  (al_peer_churn a = true <-> (th_peer_churn_spike t <= mt_peer_disconnects_total s)%N) /\
  (al_ingest_lag a = true <-> (th_ingest_lag_ms t <= mt_ingest_lag_ms s)%N) /\
  (al_storage_latency a = true <-> (th_storage_write_latency_ms t <= mt_storage_write_latency_ms s)%N) /\
  (al_clock_skew a = true <-> (th_clock_skew_ms t <= mt_clock_skew_ms s)%N) /\
  (al_decode_failure a = true <->
     (th_decode_failure_rate_bps t * mt_tx_decode_total s <= 10000 * mt_tx_decode_fail_total s /\
      (mt_tx_decode_total s = 0 -> th_decode_failure_rate_bps t = 0))%N) /\
  (al_queue_saturation a = true <->
     (th_queue_saturation_percent t * mt_queue_depth_capacity s <= 100 * mt_queue_depth_current s /\
      (mt_queue_depth_capacity s = 0 -> th_queue_saturation_percent t = 0))%N) /\
  (al_coverage_collapse a = true <-> (th_coverage_drop_percent t <= coverage_drop_percent s)%N) /\
  let lost := (mt_tx_per_sec_baseline s - mt_tx_per_sec_current s)%N in
  (mt_tx_per_sec_current s <= mt_tx_per_sec_baseline s -> 0 < mt_tx_per_sec_baseline s ->
   200 * lost <= 2 * coverage_drop_percent s * mt_tx_per_sec_baseline s + mt_tx_per_sec_baseline s /\
   2 * coverage_drop_percent s * mt_tx_per_sec_baseline s <= 200 * lost + mt_tx_per_sec_baseline s)%N.
Proof.
  destruct Hok as (Hd & Hq & Hb). cbn zeta.
  change (2 ^ 50)%N with 1125899906842624%N in *.
  split_and!; try apply N.leb_le.
  - cbn [al_decode_failure evaluate_alerts]. unfold decode_failure_bps.
    destruct (N.eqb_spec (mt_tx_decode_total s) 0) as [E|E].
    + rewrite N.leb_le, E. lia.
    + unfold cast. rewrite (N.mod_small (_ * _)) by (change (2 ^ 64)%N with 18446744073709551616%N; lia).
      rewrite N.mod_small, floor_ge by first [lia|
        apply N.Div0.div_lt_upper_bound; change (2 ^ 16)%N with 65536%N; lia]. lia.
  - cbn [al_queue_saturation evaluate_alerts]. unfold queue_saturation_percent.
    destruct (N.eqb_spec (mt_queue_depth_capacity s) 0) as [E|E].
    + rewrite N.leb_le, E. lia.
    + unfold cast, sat_mul, u64_max. rewrite N.min_l by lia.
      rewrite N.mod_small, floor_ge by first [lia|
        apply N.Div0.div_lt_upper_bound; change (2 ^ 8)%N with 256%N; lia]. lia.
  - intros H1 H2. by apply coverage_near.
Qed.

(** A rate far beyond its range silences its alert: the basis points are
    cut to 16 bits and the queue percentage to 8 bits, so a failure count of
    6.5536 times the decodes reads as zero basis points, and a queue at 2.56
    times its capacity as zero percent. *)
Theorem alert_rates_wrap s t k
  (Hk : (0 < k < 2 ^ 32)%N)
  (Hd : mt_tx_decode_total s = (10000 * k)%N) (Hf : mt_tx_decode_fail_total s = (65536 * k)%N)
  (Hc : mt_queue_depth_capacity s = (100 * k)%N) (Hq : mt_queue_depth_current s = (256 * k)%N)
  (Ht1 : (0 < th_decode_failure_rate_bps t)%N) (Ht2 : (0 < th_queue_saturation_percent t)%N) :
  al_decode_failure (evaluate_alerts s t) = false /\
  al_queue_saturation (evaluate_alerts s t) = false.
Proof.
  change (2 ^ 32)%N with 4294967296%N in Hk.
  assert (decode_failure_bps s = 0%N) as E1.
  { unfold decode_failure_bps. rewrite Hd, Hf. destruct (N.eqb_spec (10000 * k) 0); [lia|].
    unfold cast. rewrite (N.mod_small (_ * _)) by (change (2 ^ 64)%N with 18446744073709551616%N; lia).
    replace (65536 * k * 10000)%N with (65536 * (10000 * k))%N by lia. rewrite N.div_mul by lia. done. }
  assert (queue_saturation_percent s = 0%N) as E2.
  { unfold queue_saturation_percent. rewrite Hc, Hq. destruct (N.eqb_spec (100 * k) 0); [lia|].
    unfold cast, sat_mul, u64_max. rewrite N.min_l by lia.
    replace (256 * k * 100)%N with (256 * (100 * k))%N by lia. rewrite N.div_mul by lia. done. }
  cbn. rewrite E1, E2, !N.leb_gt. done.
Qed.

Lemma alerts_exact_witness :
  al_decode_failure (evaluate_alerts (mkMetricSnapshot 0 0 10 1000 300 500 0 0 9 10) thresholds_default) = true /\
  coverage_drop_percent (mkMetricSnapshot 0 0 10 1000 300 500 0 0 9 10) = 40%N.
Proof.
  split; [|vm_compute; reflexivity].
  assert (snapshot_ok (mkMetricSnapshot 0 0 10 1000 300 500 0 0 9 10)) as Hok
    by (unfold snapshot_ok; split_and!; vm_compute; discriminate).
  destruct (alerts_exact _ thresholds_default Hok) as (_ & _ & _ & _ & H & _).
  apply H. split; [vm_compute; discriminate|intros E; vm_compute in E; discriminate].
Defined.

Lemma alert_rates_wrap_witness :
  al_decode_failure (evaluate_alerts (mkMetricSnapshot 0 0 65536 10000 1 1 0 0 256 100) thresholds_default) = false.
Proof.
  apply (alert_rates_wrap (mkMetricSnapshot 0 0 65536 10000 1 1 0 0 256 100) thresholds_default 1);
    try reflexivity; split; reflexivity.
Defined.
