(* ===== verification/Common.v ===== *)
(** * Common: shared identifiers (crates/common/src/lib.rs)

    Identifiers used by every crate.  The newtypes [SourceId], [CandidateId]
    and [StrategyId] wrap a [String] and derive its order, so they are
    abbreviations of [string]; the byte-array identifiers are the big-endian
    numbers of [Prelude].  The second half is the theory of the fixed-width and
    length-prefixed encodings that digests are computed over. *)
From stdpp Require Import base gmap strings list numbers sorting.
From S2P Require Import Prelude.

Abbreviation TxHash := N (only parsing).
Abbreviation BlockHash := N (only parsing).
Abbreviation Address := N (only parsing).
Abbreviation PeerId := string (only parsing).
Abbreviation SourceId := string (only parsing).
Abbreviation CandidateId := string (only parsing).
Abbreviation StrategyId := string (only parsing).

(** The byte arrays behind the identifiers. *)
Definition hash_bytes (h : TxHash) : list N := be_bytes 32 h.
Definition address_bytes (a : Address) : list N := be_bytes 20 a.
Definition hash_ok (h : TxHash) : Prop := (h < 256 ^ 32)%N.
Definition address_ok (a : Address) : Prop := (a < 256 ^ 20)%N.

(** [format_hash]: ["0x"] and the lower-case hexadecimal digits. *)
Definition format_hash (h : TxHash) : string := "0x" +:+ hex_encode (hash_bytes h).

(** [impl Ord for [u8; 32]] is the order of the numbers. *)
Lemma hash_order h1 h2 :
  hash_ok h1 -> hash_ok h2 ->
  lex_cmp (hash_bytes h1) (hash_bytes h2) = N.compare h1 h2.
Proof. apply (be_bytes_compare 32). Qed.

Lemma hash_bytes_inj h1 h2 :
  hash_ok h1 -> hash_ok h2 -> hash_bytes h1 = hash_bytes h2 -> h1 = h2.
Proof. apply (be_bytes_inj 32). Qed.

Lemma address_bytes_inj a1 a2 :
  address_ok a1 -> address_ok a2 -> address_bytes a1 = address_bytes a2 -> a1 = a2.
Proof. apply (be_bytes_inj 20). Qed.

(** ** Prefix-free encodings *)
Definition u64_ok (n : N) : Prop := (n < 256 ^ 8)%N.

(** An encoder whose output can be read off the front of any byte string. *)
Definition prefix_free {A} (ok : A -> Prop) (enc : A -> list N) : Prop :=
  forall x y r1 r2, ok x -> ok y -> enc x ++ r1 = enc y ++ r2 -> x = y /\ r1 = r2.

Lemma prefix_free_fixed {A} (ok : A -> Prop) (enc : A -> list N) n :
  (forall x, length (enc x) = n) -> (forall x y, ok x -> ok y -> enc x = enc y -> x = y) ->
  prefix_free ok enc.
Proof.
  intros Hlen Hinj x y r1 r2 Hx Hy E. apply app_inj_1 in E as [E ->]; [|by rewrite !Hlen].
  by rewrite (Hinj x y).
Qed.

Lemma prefix_free_le : prefix_free u64_ok (le_bytes 8).
Proof. apply (prefix_free_fixed _ _ 8); [intros; apply length_le_bytes|]. intros x y. apply (le_bytes_inj 8). Qed.
Lemma prefix_free_hash : prefix_free hash_ok hash_bytes.
Proof. apply (prefix_free_fixed _ _ 32); [intros; apply length_be_bytes|apply hash_bytes_inj]. Qed.
Lemma prefix_free_address : prefix_free address_ok address_bytes.
Proof. apply (prefix_free_fixed _ _ 20); [intros; apply length_be_bytes|apply address_bytes_inj]. Qed.

(** A length-prefixed list of prefix-free encodings. *)
Lemma prefix_free_bind {A} (ok : A -> Prop) (enc : A -> list N) l1 l2 r1 r2 :
  prefix_free ok enc -> Forall ok l1 -> Forall ok l2 -> length l1 = length l2 ->
  (l1 ≫= enc) ++ r1 = (l2 ≫= enc) ++ r2 -> l1 = l2 /\ r1 = r2.
Proof.
  intros Henc Hl1. revert l2. induction Hl1 as [|x l1 Hx Hl1 IH]; intros [|y l2] Hl2 Hlen; try done.
  apply Forall_cons in Hl2 as [Hy Hl2]. injection Hlen as Hlen. csimpl. rewrite <-!(assoc_L (++)).
  intros E. apply Henc in E as [-> E]; [|done..]. by apply IH in E as [-> ->].
Qed.

Lemma prefix_free_list {A} (ok : A -> Prop) (enc : A -> list N) :
  prefix_free ok enc ->
  prefix_free (fun l => u64_ok (usize_of (length l)) /\ Forall ok l)
    (fun l => le_bytes 8 (usize_of (length l)) ++ (l ≫= enc)).
Proof.
  intros Henc l1 l2 r1 r2 [Hn1 Hl1] [Hn2 Hl2] E. rewrite <-!(assoc_L (++)) in E.
  apply prefix_free_le in E as [E1 E]; [|done..].
  eapply prefix_free_bind in E; try done. unfold usize_of in E1. lia.
Qed.

(** Records laid end to end with no count are still told apart. *)
Lemma prefix_free_concat {A} (ok : A -> Prop) (enc : A -> list N) l1 l2 :
  prefix_free ok enc -> (forall x, enc x <> []) -> Forall ok l1 -> Forall ok l2 ->
  (l1 ≫= enc) = (l2 ≫= enc) -> l1 = l2.
Proof.
  intros Henc Hne Hl1. revert l2.
  induction Hl1 as [|x l1 Hx Hl1 IH]; intros [|y l2] Hl2; rewrite ?bind_cons; intros E; [done|..].
  - symmetry in E. by apply app_nil in E as [?%Hne _].
  - by apply app_nil in E as [?%Hne _].
  - apply Forall_cons in Hl2 as [Hy Hl2]. apply Henc in E as [-> E]; [|done..].
    f_equal. by apply IH.
Qed.
