(* ===== verification/EventLog.v ===== *)
(** * EventLog: canonical event contracts (crates/event-log/src/lib.rs)

    The event envelope and its sixteen payloads, the deterministic order on
    envelopes and the sequencer that numbers them. *)
From stdpp Require Import base gmap strings list numbers sorting.
From S2P Require Import Prelude Common.

(** ** Payloads *)
Record TxSeen := mkTxSeen {
  seen_hash : TxHash;
  seen_peer_id : PeerId;
  seen_at_unix_ms : Z;
  seen_at_mono_ns : N;
}.

Record TxFetched := mkTxFetched {
  fetched_hash : TxHash;
  fetched_at_unix_ms : Z;
}.

Record TxDecoded := mkTxDecoded {
  dec_hash : TxHash;
  dec_tx_type : N;
  dec_sender : Address;
  dec_nonce : N;
  dec_chain_id : option N;
  dec_to : option Address;
  dec_value_wei : option N;
  dec_gas_limit : option N;
  dec_gas_price_wei : option N;
  dec_max_fee_per_gas_wei : option N;
  dec_max_priority_fee_per_gas_wei : option N;
  dec_max_fee_per_blob_gas_wei : option N;
  dec_calldata_len : option N;
}.

Record TxReady := mkTxReady {
  ready_hash : TxHash;
  ready_sender : Address;
  ready_nonce : N;
}.

Record TxBlocked := mkTxBlocked {
  blocked_hash : TxHash;
  blocked_sender : Address;
  blocked_nonce : N;
  blocked_expected_nonce : option N;
}.

Record CandidateQueued := mkCandidateQueued {
  cq_candidate_id : string;
  cq_tx_hash : TxHash;
  cq_member_tx_hashes : list TxHash;
  cq_chain_id : option N;
  cq_strategy : string;
  cq_score : N;
  cq_protocol : string;
  cq_category : string;
  cq_feature_engine_version : string;
  cq_scorer_version : string;
  cq_strategy_version : string;
  cq_reasons : list string;
  cq_detected_unix_ms : Z;
}.

Record SimDispatched := mkSimDispatched {
  sd_candidate_id : string;
  sd_tx_hash : TxHash;
  sd_member_tx_hashes : list TxHash;
  sd_block_number : N;
}.

Record OppDetected := mkOppDetected {
  opp_hash : TxHash;
  opp_strategy : string;
  opp_score : N;
  opp_protocol : string;
  opp_category : string;
  opp_feature_engine_version : string;
  opp_scorer_version : string;
  opp_strategy_version : string;
  opp_reasons : list string;
}.

Record SimCompleted := mkSimCompleted {
  simc_hash : TxHash;
  simc_sim_id : string;
  simc_status : string;
  simc_feature_engine_version : string;
  simc_scorer_version : string;
  simc_strategy_version : string;
  simc_fail_category : option string;
  simc_latency_ms : option N;
  simc_tx_count : option N;
}.

Record AssemblyDecisionApplied := mkAssemblyDecisionApplied {
  ada_candidate_id : string;
  ada_tx_hash : TxHash;
  ada_decision : string;
  ada_replaced_candidate_ids : list string;
  ada_reason : option string;
  ada_block_number : N;
}.

Record BundleSubmitted := mkBundleSubmitted {
  bs_hash : TxHash;
  bs_bundle_id : string;
  bs_sim_id : string;
  bs_relay : string;
  bs_accepted : bool;
  bs_feature_engine_version : string;
  bs_scorer_version : string;
  bs_strategy_version : string;
}.

Record TxReplaced := mkTxReplaced {
  replaced_hash : TxHash;
  replaced_by : TxHash;
}.

Record TxDropped := mkTxDropped {
  dropped_hash : TxHash;
  dropped_reason : string;
}.

Record TxConfirmed := mkTxConfirmed {
  confirmed_hash : TxHash;
  confirmed_block_number : N;
  confirmed_block_hash : BlockHash;
}.

Record TxReorged := mkTxReorged {
  reorged_hash : TxHash;
  reorged_old_block_hash : BlockHash;
  reorged_new_block_hash : BlockHash;
}.

Inductive EventPayload :=
  | PTxSeen (e : TxSeen)
  | PTxFetched (e : TxFetched)
  | PTxDecoded (e : TxDecoded)
  | PTxReady (e : TxReady)
  | PTxBlocked (e : TxBlocked)
  | PCandidateQueued (e : CandidateQueued)
  | PSimDispatched (e : SimDispatched)
  | POppDetected (e : OppDetected)
  | PSimCompleted (e : SimCompleted)
  | PAssemblyDecisionApplied (e : AssemblyDecisionApplied)
  | PBundleSubmitted (e : BundleSubmitted)
  | PTxReplaced (e : TxReplaced)
  | PTxDropped (e : TxDropped)
  | PTxConfirmedProvisional (e : TxConfirmed)
  | PTxConfirmedFinal (e : TxConfirmed)
  | PTxReorged (e : TxReorged).

Definition primary_hash (p : EventPayload) : TxHash :=
  match p with
  | PTxSeen e => seen_hash e
  | PTxFetched e => fetched_hash e
  | PTxDecoded e => dec_hash e
  | PTxReady e => ready_hash e
  | PTxBlocked e => blocked_hash e
  | PCandidateQueued e => cq_tx_hash e
  | PSimDispatched e => sd_tx_hash e
  | POppDetected e => opp_hash e
  | PSimCompleted e => simc_hash e
  | PAssemblyDecisionApplied e => ada_tx_hash e
  | PBundleSubmitted e => bs_hash e
  | PTxReplaced e => replaced_hash e
  | PTxDropped e => dropped_hash e
  | PTxConfirmedProvisional e => confirmed_hash e
  | PTxConfirmedFinal e => confirmed_hash e
  | PTxReorged e => reorged_hash e
  end.

Record EventEnvelope := mkEnvelope {
  seq_id : N;
  ingest_ts_unix_ms : Z;
  ingest_ts_mono_ns : N;
  source_id : SourceId;
  payload : EventPayload;
}.

#[export] Instance TxSeen_eq_dec : EqDecision TxSeen.
Proof. solve_decision. Defined.
#[export] Instance TxFetched_eq_dec : EqDecision TxFetched.
Proof. solve_decision. Defined.
#[export] Instance TxDecoded_eq_dec : EqDecision TxDecoded.
Proof. solve_decision. Defined.
#[export] Instance TxReady_eq_dec : EqDecision TxReady.
Proof. solve_decision. Defined.
#[export] Instance TxBlocked_eq_dec : EqDecision TxBlocked.
Proof. solve_decision. Defined.
#[export] Instance CandidateQueued_eq_dec : EqDecision CandidateQueued.
Proof. solve_decision. Defined.
#[export] Instance SimDispatched_eq_dec : EqDecision SimDispatched.
Proof. solve_decision. Defined.
#[export] Instance OppDetected_eq_dec : EqDecision OppDetected.
Proof. solve_decision. Defined.
#[export] Instance SimCompleted_eq_dec : EqDecision SimCompleted.
Proof. solve_decision. Defined.
#[export] Instance AssemblyDecisionApplied_eq_dec : EqDecision AssemblyDecisionApplied.
Proof. solve_decision. Defined.
#[export] Instance BundleSubmitted_eq_dec : EqDecision BundleSubmitted.
Proof. solve_decision. Defined.
#[export] Instance TxReplaced_eq_dec : EqDecision TxReplaced.
Proof. solve_decision. Defined.
#[export] Instance TxDropped_eq_dec : EqDecision TxDropped.
Proof. solve_decision. Defined.
#[export] Instance TxConfirmed_eq_dec : EqDecision TxConfirmed.
Proof. solve_decision. Defined.
#[export] Instance TxReorged_eq_dec : EqDecision TxReorged.
Proof. solve_decision. Defined.
#[export] Instance EventPayload_eq_dec : EqDecision EventPayload.
Proof. solve_decision. Defined.
#[export] Instance EventEnvelope_eq_dec : EqDecision EventEnvelope.
Proof. solve_decision. Defined.

(** ** Deterministic order

    [EventOrderKey] derives [Ord] on (seq_id, source_id, hash), in that order. *)
Record EventOrderKey := mkOrderKey {
  key_seq_id : N;
  key_source_id : SourceId;
  key_hash : TxHash;
}.

Definition order_key (e : EventEnvelope) : EventOrderKey :=
  {| key_seq_id := seq_id e; key_source_id := source_id e;
     key_hash := primary_hash (payload e) |}.

Definition cmp_order_key (a b : EventOrderKey) : comparison :=
  then_with (N.compare (key_seq_id a) (key_seq_id b))
    (then_with (String.compare (key_source_id a) (key_source_id b))
      (N.compare (key_hash a) (key_hash b))).

Definition cmp_deterministic (a b : EventEnvelope) : comparison :=
  cmp_order_key (order_key a) (order_key b).

Definition sort_deterministic (events : list EventEnvelope) : list EventEnvelope :=
  sort_by cmp_deterministic events.

#[export] Instance cmp_order_key_ord : CmpOrd cmp_order_key.
Proof.
  set (f k := (key_seq_id k, (key_source_id k, key_hash k))).
  change cmp_order_key with
    (cmp_on f (cmp_pair N.compare (cmp_pair String.compare N.compare))).
  split; [apply _|]. intros [s1 o1 h1] [s2 o2 h2] E. unfold cmp_on in E.
  apply (cmp_eq (cmp_pair _ _)) in E. unfold f in E; simpl in E. by simplify_eq.
Qed.

#[export] Instance cmp_deterministic_pre : CmpPre cmp_deterministic.
Proof. exact (cmp_on_pre cmp_order_key order_key). Qed.

Lemma cmp_deterministic_eq a b :
  cmp_deterministic a b = Eq <-> order_key a = order_key b.
Proof.
  unfold cmp_deterministic. split; [apply (cmp_eq cmp_order_key)|]. intros ->.
  apply (cmp_refl cmp_order_key).
Qed.

Lemma cmp_deterministic_seq a b :
  cmp_deterministic a b <> Gt -> (seq_id a <= seq_id b)%N.
Proof.
  unfold cmp_deterministic, cmp_order_key; simpl.
  destruct (N.compare_spec (seq_id a) (seq_id b)); simpl; [lia|lia|done].
Qed.

Lemma cmp_deterministic_seq_lt a b :
  (seq_id a < seq_id b)%N -> cmp_deterministic a b = Lt.
Proof.
  intros H. unfold cmp_deterministic, cmp_order_key; simpl.
  by apply N.compare_lt_iff in H as ->.
Qed.

(** ** Sequencer *)
Record GlobalSequencer := mkSequencer { next_seq_id_field : N }.

Definition sequencer_default : GlobalSequencer := {| next_seq_id_field := 1 |}.

Definition from_latest_seq_id (latest : option N) : GlobalSequencer :=
  {| next_seq_id_field := N.max (sat_add u64_max (default 0%N latest) 1) 1 |}.

Definition next_seq_id (s : GlobalSequencer) : N * GlobalSequencer :=
  let id := next_seq_id_field s in
  (id, {| next_seq_id_field := sat_add u64_max id 1 |}).

Definition with_seq_id (e : EventEnvelope) (id : N) : EventEnvelope :=
  {| seq_id := id; ingest_ts_unix_ms := ingest_ts_unix_ms e;
     ingest_ts_mono_ns := ingest_ts_mono_ns e; source_id := source_id e;
     payload := payload e |}.

Definition assign (s : GlobalSequencer) (e : EventEnvelope) :
    EventEnvelope * GlobalSequencer :=
  let '(id, s') := next_seq_id s in (with_seq_id e id, s').

(** A run of the sequencer over a batch. *)
Fixpoint assign_all (s : GlobalSequencer) (l : list EventEnvelope) :
    list EventEnvelope * GlobalSequencer :=
  match l with
  | [] => ([], s)
  | e :: l' =>
      let '(e', s1) := assign s e in
      let '(l1, s2) := assign_all s1 l' in (e' :: l1, s2)
  end.

(** Every assigned id is the start plus its position, clamped at [u64::MAX]. *)
Lemma assign_all_ids s l i e :
  (next_seq_id_field s <= u64_max)%N ->
  (assign_all s l).1 !! i = Some e ->
  seq_id e = N.min (next_seq_id_field s + N.of_nat i) u64_max.
Proof.
  revert s i. induction l as [|e0 l IH]; intros s i Hs; simpl; [done|].
  destruct (assign_all _ l) as [l1 s2] eqn:E. destruct i as [|i]; simpl.
  - intros [= <-]. simpl. lia.
  - intros Hi. rewrite (IH {| next_seq_id_field := sat_add u64_max (next_seq_id_field s) 1 |} i);
      [|apply sat_add_le|by rewrite E].
    simpl. int_lia.
Qed.

Lemma assign_all_length s l : length (assign_all s l).1 = length l.
Proof.
  revert s. induction l as [|e l IH]; intros s; simpl; [done|].
  specialize (IH {| next_seq_id_field := sat_add u64_max (next_seq_id_field s) 1 |}).
  destruct (assign_all _ l); simpl in *. by rewrite IH.
Qed.

(** ** Theorems *)

(** A run after [latest] numbers the batch [latest+1, latest+2, ...]: the
    ids are consecutive, hence strictly increasing and above every stored one,
    until the counter saturates. *)
Theorem sequencer_consecutive latest l i e :
  (default 0 latest + 1 + N.of_nat (length l) <= u64_max)%N ->
  (assign_all (from_latest_seq_id latest) l).1 !! i = Some e ->
  seq_id e = (default 0 latest + 1 + N.of_nat i)%N.
Proof.
  intros Hmax Hi. pose proof (lookup_lt_Some _ _ _ Hi) as Hlt.
  rewrite assign_all_length in Hlt. apply assign_all_ids in Hi.
  - rewrite Hi. unfold from_latest_seq_id, sat_add; simpl. lia.
  - unfold from_latest_seq_id, sat_add, u64_max; simpl. lia.
Qed.

(** The canonical order of a log: [sort_deterministic] returns a
    permutation of the events, ordered by (sequence id, source, hash), keeps
    the relative order of events with the same key, and two logs with the same
    events sort to the same list when the keys tell their events apart. *)
Theorem sort_deterministic_spec events :
  StronglySorted (cmp_le cmp_deterministic) (sort_deterministic events) /\
  sort_deterministic events ≡ₚ events /\
  (forall e, filter (fun x => cmp_deterministic e x = Eq) (sort_deterministic events)
             = filter (fun x => cmp_deterministic e x = Eq) events) /\
  (forall events', events ≡ₚ events' ->
     (forall a b, a ∈ events -> b ∈ events -> order_key a = order_key b -> a = b) ->
     sort_deterministic events = sort_deterministic events').
Proof.
  split; [apply (sort_by_sorted cmp_deterministic)|].
  split; [apply sort_by_perm|].
  split; [intros e; apply (sort_by_stable cmp_deterministic)|].
  intros events' Hp Hinj. apply (sort_by_Permutation cmp_deterministic); [|done].
  intros x y Hx Hy E. apply Hinj; [done..|]. by apply cmp_deterministic_eq.
Qed.

(** ** Sample events *)
Definition sample_event (seq : N) (p : EventPayload) : EventEnvelope :=
  {| seq_id := seq; ingest_ts_unix_ms := Z.of_N (1000 + seq); ingest_ts_mono_ns := seq;
     source_id := "peer-1"; payload := p |}.
Definition sample_decoded (hash sender nonce : N) : TxDecoded :=
  {| dec_hash := hash; dec_tx_type := 2; dec_sender := sender; dec_nonce := nonce;
     dec_chain_id := Some 1%N; dec_to := None; dec_value_wei := None;
     dec_gas_limit := Some 21000%N; dec_gas_price_wei := None;
     dec_max_fee_per_gas_wei := Some 100%N; dec_max_priority_fee_per_gas_wei := None;
     dec_max_fee_per_blob_gas_wei := None; dec_calldata_len := None |}.

Lemma sequencer_consecutive_witness :
  seq_id (default (sample_event 0 (PTxDecoded (sample_decoded 1 5 7)))
    ((assign_all (from_latest_seq_id (Some 41%N))
        [sample_event 0 (PTxDecoded (sample_decoded 1 5 7));
         sample_event 0 (PTxDecoded (sample_decoded 2 5 9))]).1 !! 1)) = 43%N.
Proof.
  apply (sequencer_consecutive (Some 41%N)
    [sample_event 0 (PTxDecoded (sample_decoded 1 5 7));
     sample_event 0 (PTxDecoded (sample_decoded 2 5 9))] 1).
  - vm_compute. discriminate.
  - vm_compute. reflexivity.
Defined.
