(* ===== verification/Simulation.v ===== *)
(** * Simulation: batch simulation of transactions (crates/sim-engine)

    Seeding of sender accounts, the translation of decoded transactions into
    EVM transactions, the execution loop with its aggregate digest, and the
    digests of state diffs and traces.  The EVM itself is revm, a third-party
    engine: the class [Revm] lists what the code calls of it, and [RevmLaws]
    the documented facts the theorems use.  SHA-256 is a parameter. *)
From stdpp Require Import base gmap strings list numbers sorting pretty.
From S2P Require Import Prelude Common EventLog.

(** ** Data *)
Inductive SimError (E : Type) :=
  | Reverted (reason : string)
  | StateFetch (error : E)
  | OtherSimError (error : E).
Arguments Reverted {E} reason.
Arguments StateFetch {E} error.
Arguments OtherSimError {E} error.

Record ChainContext := mkChainContext {
  cc_chain_id : N;
  cc_block_number : N;
  cc_block_timestamp : N;
  cc_gas_limit : N;
  cc_base_fee_wei : N;
  cc_coinbase : Address;
  cc_state_root : TxHash;
}.

Inductive SimulationFailCategory :=
  | FailRevert | FailOutOfGas | FailNonceMismatch | FailStateMismatch | FailUnknown.

Record TxSimulationResult := mkTxResult {
  sr_hash : TxHash;
  sr_success : bool;
  sr_gas_used : N;
  sr_state_diff_hash : TxHash;
  sr_fail_category : option SimulationFailCategory;
  sr_trace_id : N;
}.

Record SimulationBatchResult := mkBatch {
  sbr_chain_context : ChainContext;
  sbr_tx_results : list TxSimulationResult;
  sbr_final_state_diff_hash : TxHash;
}.

Record SimulationTxInput := mkTxInput {
  ti_decoded : TxDecoded;
  ti_calldata : option (list N);
}.

(** crates/sim-engine/src/state_provider.rs.  One batch asks a provider for
    each sender at most once, so a function of the address is general. *)
Record AccountSeed := mkSeed { seed_balance_wei : N; seed_nonce : N }.
Definition StateProvider (E : Type) : Type := Address -> option AccountSeed + SimError E.
Definition noop_state_provider {E} : StateProvider E := fun _ => inl None.

Inductive SimulationMode (E : Type) :=
  | SyntheticDeterministic
  | RpcBacked (provider : StateProvider E).
Arguments SyntheticDeterministic {E}.
Arguments RpcBacked {E} provider.

Definition max_synthetic_calldata_bytes : N := 8192.
Definition seeded_balance_wei : N := 1000000000000000000000000000000.

(** The fields the code sets of revm's [TxEnv]; the access list, the blob
    hashes and the authorisation list are left empty by the code. *)
Record TxEnv := mkTxEnv {
  te_tx_type : N;
  te_caller : Address;
  te_gas_limit : N;
  te_gas_price : N;
  te_kind : option Address;
  te_value : N;
  te_data : list N;
  te_nonce : N;
  te_chain_id : option N;
  te_gas_priority_fee : option N;
  te_max_fee_per_blob_gas : N;
}.

(** The fields the code sets of revm's configuration and block environment. *)
Record BlockEnv := mkBlockEnv {
  be_chain_id : N;
  be_number : N;
  be_timestamp : N;
  be_gas_limit : N;
  be_basefee : N;
  be_beneficiary : Address;
}.

(** ** The EVM

    What the code matches on of revm's results and errors, and what it reads
    of an account of a state diff. *)
Inductive ResultKind := KindSuccess | KindRevert | KindHaltOutOfGas | KindHaltOther.

Inductive ErrorKind :=
  | InvalidNonceTooHigh | InvalidNonceTooLow
  | InvalidCallGasCost | InvalidGasFloor | InvalidGasPriceBelowBasefee
  | InvalidOther
  | ErrorDatabase | ErrorHeader | ErrorCustom.

#[export] Instance ResultKind_eq_dec : EqDecision ResultKind.
Proof. solve_decision. Defined.
#[export] Instance SimulationFailCategory_eq_dec : EqDecision SimulationFailCategory.
Proof. solve_decision. Defined.

Record DiffAccount := mkDiffAccount {
  da_balance : N;
  da_nonce : N;
  da_code_hash : TxHash;
  da_status_bits : N;
  da_changed_slots : list (N * N);
}.

Class Revm := {
  InMemoryDB : Type;
  MainnetEvm : Type;
  ExecutionResult : Type;
  EvmState : Type;
  EVMError : Type;
  db_default : InMemoryDB;
  insert_account_info : InMemoryDB -> Address -> N -> N -> InMemoryDB;
  build_mainnet : BlockEnv -> InMemoryDB -> MainnetEvm;
  transact : MainnetEvm -> TxEnv -> MainnetEvm * (ExecutionResult * EvmState + EVMError);
  commit : MainnetEvm -> EvmState -> MainnetEvm;
  result_kind : ExecutionResult -> ResultKind;
  is_success : ExecutionResult -> bool;
  result_gas_used : ExecutionResult -> N;
  result_debug : ExecutionResult -> string;
  error_kind : EVMError -> ErrorKind;
  error_debug : EVMError -> string;
  state_accounts : EvmState -> list (Address * DiffAccount);
}.

(** [is_success] recognises the [Success] variant; gas is a [u64]. *)
Class RevmLaws `{Revm} : Prop := {
  is_success_kind r : is_success r = bool_decide (result_kind r = KindSuccess);
  result_gas_bound r : (result_gas_used r <= u64_max)%N;
}.

(** ** Operations *)
Definition fail_category_tag (c : SimulationFailCategory) : N :=
  match c with
  | FailRevert => 1
  | FailOutOfGas => 2
  | FailNonceMismatch => 3
  | FailStateMismatch => 4
  | FailUnknown => 5
  end.

Definition tx_env_from_input (chain_context : ChainContext) (input : SimulationTxInput) : TxEnv :=
  let tx := ti_decoded input in
  let gas_limit := (N.max (default 210000 (dec_gas_limit tx)) 21000)%N in
  let gas_price0 :=
    match dec_gas_price_wei tx with
    | Some price => price
    | None => default (N.max (cc_base_fee_wei chain_context) 1)%N (dec_max_fee_per_gas_wei tx)
    end in
  let gas_price :=
    if (gas_price0 <? cc_base_fee_wei chain_context)%N
    then cc_base_fee_wei chain_context else gas_price0 in
  let gas_priority_fee :=
    match dec_max_priority_fee_per_gas_wei tx with
    | Some v => let v' := N.min v gas_price in if (0 <? v')%N then Some v' else None
    | None => None
    end in
  let calldata_len := N.min (default 0%N (dec_calldata_len tx)) max_synthetic_calldata_bytes in
  let data :=
    match ti_calldata input with
    | Some bytes => take (N.to_nat (N.min (usize_of (length bytes)) max_synthetic_calldata_bytes)) bytes
    | None => replicate (N.to_nat calldata_len) 0%N
    end in
  {| te_tx_type := dec_tx_type tx;
     te_caller := dec_sender tx;
     te_gas_limit := gas_limit;
     te_gas_price := gas_price;
     te_kind := dec_to tx;
     te_value := default 0%N (dec_value_wei tx);
     te_data := data;
     te_nonce := dec_nonce tx;
     te_chain_id := Some (default (cc_chain_id chain_context) (dec_chain_id tx));
     te_gas_priority_fee := gas_priority_fee;
     te_max_fee_per_blob_gas := default 0%N (dec_max_fee_per_blob_gas_wei tx) |}.

(** The first loop of [seed_sender_accounts]. *)
Definition start_nonce_step (m : gmap Address N) (tx : SimulationTxInput) : gmap Address N :=
  let sender := dec_sender (ti_decoded tx) in
  let nonce := dec_nonce (ti_decoded tx) in
  match m !! sender with
  | Some n => <[sender := N.min n nonce]> m
  | None => <[sender := nonce]> m
  end.
Definition sender_start_nonce (txs : list SimulationTxInput) : gmap Address N :=
  foldl start_nonce_step ∅ txs.

Section simulation.
Context {E : Type} `{Revm} (sha256 : list N -> list N).

Definition lookup_seed (mode : SimulationMode E) (sender : Address) :
    option AccountSeed + SimError E :=
  match mode with
  | SyntheticDeterministic => inl None
  | RpcBacked provider => provider sender
  end.

(** The second loop of [seed_sender_accounts], with the early return of [?]. *)
Fixpoint seed_accounts (mode : SimulationMode E) (db : InMemoryDB) (senders : list (Address * N)) :
    InMemoryDB + SimError E :=
  match senders with
  | [] => inl db
  | (sender, nonce) :: senders' =>
      match lookup_seed mode sender with
      | inr e => inr e
      | inl seeded =>
          let balance := default seeded_balance_wei (seed_balance_wei <$> seeded) in
          let account_nonce := default nonce (seed_nonce <$> seeded) in
          seed_accounts mode (insert_account_info db sender balance account_nonce) senders'
      end
  end.

Definition seed_sender_accounts (db : InMemoryDB) (txs : list SimulationTxInput)
    (mode : SimulationMode E) : InMemoryDB + SimError E :=
  seed_accounts mode db (bt_iter (sender_start_nonce txs)).

(** The bytes [hash_state_diff] feeds to the hasher for one account. *)
Definition slot_bytes (slot : N * N) : list N :=
  str_bytes (pretty slot.1) ++ str_bytes (pretty slot.2).
Definition diff_account_bytes (entry : Address * DiffAccount) : list N :=
  let account := entry.2 in
  address_bytes entry.1 ++ str_bytes (pretty (da_balance account)) ++
  le_bytes 8 (da_nonce account) ++ hash_bytes (da_code_hash account) ++
  [da_status_bits account] ++
  (sort_by (cmp_on fst N.compare) (da_changed_slots account) ≫= slot_bytes).

Definition hash_state_diff (state : EvmState) : TxHash :=
  of_be_bytes (sha256
    (sort_by (cmp_on fst N.compare) (state_accounts state) ≫= diff_account_bytes)).

Definition categorize_execution_result (result : ExecutionResult) : option SimulationFailCategory :=
  match result_kind result with
  | KindSuccess => None
  | KindRevert => Some FailRevert
  | KindHaltOutOfGas => Some FailOutOfGas
  | KindHaltOther => Some FailUnknown
  end.

Definition categorize_simulation_error (error : EVMError) : SimulationFailCategory :=
  match error_kind error with
  | InvalidNonceTooHigh | InvalidNonceTooLow => FailNonceMismatch
  | InvalidCallGasCost | InvalidGasFloor | InvalidGasPriceBelowBasefee => FailOutOfGas
  | InvalidOther => FailUnknown
  | ErrorDatabase => FailStateMismatch
  | ErrorHeader | ErrorCustom => FailUnknown
  end.

Definition digest_trace_id (message : list N) : N := of_le_bytes (take 8 (sha256 message)).

Definition trace_id_from_execution (hash : TxHash) (result : ExecutionResult)
    (state_diff_hash : TxHash) : N :=
  digest_trace_id (hash_bytes hash ++ str_bytes (result_debug result) ++ hash_bytes state_diff_hash).

Definition trace_id_from_error (hash : TxHash) (error : EVMError) : N :=
  digest_trace_id (hash_bytes hash ++ str_bytes (error_debug error)).

(** The body of the execution loop.  The hasher is the list of bytes it was
    fed; each branch feeds it and pushes its result. *)
Record SimLoop := mkSimLoop {
  sl_evm : MainnetEvm;
  sl_aggregate : list N;
  sl_tx_results : list TxSimulationResult;
}.

Definition simulate_tx (chain_context : ChainContext) (st : SimLoop) (tx : SimulationTxInput) : SimLoop :=
  let hash := dec_hash (ti_decoded tx) in
  match transact (sl_evm st) (tx_env_from_input chain_context tx) with
  | (evm, inl (result, state)) =>
      let gas_used := result_gas_used result in
      let success := is_success result in
      let state_diff_hash := hash_state_diff state in
      let fail_category := categorize_execution_result result in
      let trace_id := trace_id_from_execution hash result state_diff_hash in
      let fail_tag := match fail_category with Some c => fail_category_tag c | None => 0%N end in
      {| sl_evm := commit evm state;
         sl_aggregate := sl_aggregate st ++ hash_bytes hash ++ le_bytes 8 gas_used ++
           [N.b2n success] ++ hash_bytes state_diff_hash ++ le_bytes 8 trace_id ++ [fail_tag];
         sl_tx_results := sl_tx_results st ++
           [mkTxResult hash success gas_used state_diff_hash fail_category trace_id] |}
  | (evm, inr error) =>
      let fail_category := categorize_simulation_error error in
      let trace_id := trace_id_from_error hash error in
      let state_diff_hash := 0%N in
      {| sl_evm := evm;
         sl_aggregate := sl_aggregate st ++ hash_bytes hash ++ le_bytes 8 0 ++
           [0%N] ++ hash_bytes state_diff_hash ++ le_bytes 8 trace_id ++
           [fail_category_tag fail_category];
         sl_tx_results := sl_tx_results st ++
           [mkTxResult hash false 0 state_diff_hash (Some fail_category) trace_id] |}
  end.

(** What the hasher is fed before the loop. *)
Definition context_bytes (chain_context : ChainContext) : list N :=
  hash_bytes (cc_state_root chain_context) ++ le_bytes 8 (cc_chain_id chain_context) ++
  le_bytes 8 (cc_block_number chain_context) ++ le_bytes 8 (cc_block_timestamp chain_context).

Definition block_env_of (chain_context : ChainContext) : BlockEnv :=
  {| be_chain_id := cc_chain_id chain_context;
     be_number := cc_block_number chain_context;
     be_timestamp := cc_block_timestamp chain_context;
     be_gas_limit := cc_gas_limit chain_context;
     be_basefee := N.min (cc_base_fee_wei chain_context) u64_max;
     be_beneficiary := cc_coinbase chain_context |}.

Definition simulate_with_mode (chain_context : ChainContext) (txs : list SimulationTxInput)
    (mode : SimulationMode E) : SimulationBatchResult + SimError E :=
  match seed_sender_accounts db_default txs mode with
  | inr e => inr e
  | inl db =>
      let st := foldl (simulate_tx chain_context)
        {| sl_evm := build_mainnet (block_env_of chain_context) db;
           sl_aggregate := context_bytes chain_context;
           sl_tx_results := [] |} txs in
      inl {| sbr_chain_context := chain_context;
             sbr_tx_results := sl_tx_results st;
             sbr_final_state_diff_hash := of_be_bytes (sha256 (sl_aggregate st)) |}
  end.

Definition simulate_deterministic (chain_context : ChainContext) (txs : list TxDecoded) :
    SimulationBatchResult + SimError E :=
  simulate_with_mode chain_context ((fun decoded => mkTxInput decoded None) <$> txs)
    SyntheticDeterministic.
End simulation.

(** ** The shape of a batch *)
Definition digest_ok (sha256 : list N -> list N) : Prop :=
  forall m, length (sha256 m) = 32%nat /\ Forall (fun b => b < 256)%N (sha256 m).

(** A digest that stays within SHA-256's range, for the instances. *)
Definition toy_digest (m : list N) : list N :=
  be_bytes 32 (foldl (fun acc b => acc * 257 + b + 1)%N 7%N m).

(** The record of one transaction inside the aggregate digest. *)
Definition result_bytes (r : TxSimulationResult) : list N :=
  hash_bytes (sr_hash r) ++ le_bytes 8 (sr_gas_used r) ++ [N.b2n (sr_success r)] ++
  hash_bytes (sr_state_diff_hash r) ++ le_bytes 8 (sr_trace_id r) ++
  [match sr_fail_category r with Some c => fail_category_tag c | None => 0%N end].

Definition batch_bytes (c : ChainContext) (rs : list TxSimulationResult) : list N :=
  context_bytes c ++ (rs ≫= result_bytes).

(** A result within the machine types whose success flag and failure category
    agree, and whose failures before execution used no gas. *)
Definition tx_result_ok (r : TxSimulationResult) : Prop :=
  u64_ok (sr_gas_used r) /\ hash_ok (sr_state_diff_hash r) /\ u64_ok (sr_trace_id r) /\
  (sr_success r = true <-> sr_fail_category r = None) /\
  match sr_fail_category r with
  | Some FailNonceMismatch | Some FailStateMismatch =>
      sr_gas_used r = 0%N /\ sr_state_diff_hash r = 0%N
  | _ => True
  end.

Lemma toy_digest_ok : digest_ok toy_digest.
Proof. intros m. split; [apply length_be_bytes|apply be_bytes_digit]. Qed.

Lemma u64_ok_max n : (n <= u64_max)%N -> u64_ok n.
Proof. unfold u64_ok, u64_max. intros. change (256 ^ 8)%N with 18446744073709551616%N. lia. Qed.

Lemma fail_category_tag_inj c1 c2 : fail_category_tag c1 = fail_category_tag c2 -> c1 = c2.
Proof. by destruct c1, c2. Qed.

Section batch.
Context {E : Type} `{Revm, !RevmLaws} (sha256 : list N -> list N) (Hsha : digest_ok sha256).
Implicit Types (txs : list SimulationTxInput) (c : ChainContext).

Lemma digest_hash_ok m : hash_ok (of_be_bytes (sha256 m)).
Proof.
  destruct (Hsha m) as [Hl Hb]. pose proof (of_be_bytes_bound _ Hb) as Hlt. by rewrite Hl in Hlt.
Qed.

Lemma digest_trace_ok m : u64_ok (digest_trace_id sha256 m).
Proof.
  unfold digest_trace_id. destruct (Hsha m) as [Hl Hb].
  pose proof (of_le_bytes_bound (take 8 (sha256 m)) (Forall_take _ _ _ Hb)) as Hlt.
  rewrite length_take, Hl in Hlt. exact Hlt.
Qed.

Lemma simulate_tx_shape c st tx :
  exists r, sl_tx_results (simulate_tx sha256 c st tx) = sl_tx_results st ++ [r] /\
    sl_aggregate (simulate_tx sha256 c st tx) = sl_aggregate st ++ result_bytes r /\
    sr_hash r = dec_hash (ti_decoded tx) /\ tx_result_ok r.
Proof.
  unfold simulate_tx.
  destruct (transact _ _) as [evm [[result state]|error]]; eexists;
    (split; [reflexivity|split; [reflexivity|split; [reflexivity|]]]); unfold tx_result_ok;
    cbn [sr_gas_used sr_state_diff_hash sr_trace_id sr_success sr_fail_category].
  - split; [apply u64_ok_max, result_gas_bound|]. split; [apply digest_hash_ok|].
    split; [apply digest_trace_ok|].
    unfold categorize_execution_result. rewrite is_success_kind, bool_decide_eq_true.
    by destruct (result_kind result).
  - split; [by apply u64_ok_max|]. split; [done|]. split; [apply digest_trace_ok|].
    by destruct (categorize_simulation_error error).
Qed.

Lemma simulate_loop_shape c txs st :
  exists rs,
    sl_tx_results (foldl (simulate_tx sha256 c) st txs) = sl_tx_results st ++ rs /\
    sl_aggregate (foldl (simulate_tx sha256 c) st txs) = sl_aggregate st ++ (rs ≫= result_bytes) /\
    sr_hash <$> rs = (fun tx => dec_hash (ti_decoded tx)) <$> txs /\ Forall tx_result_ok rs.
Proof.
  revert st. induction txs as [|tx txs IH]; intros st; cbn [foldl].
  - exists []. by rewrite !app_nil_r.
  - destruct (simulate_tx_shape c st tx) as (r & E1 & E2 & Hh & Hr).
    destruct (IH (simulate_tx sha256 c st tx)) as (rs & -> & -> & Hhs & Hrs).
    exists (r :: rs). rewrite E1, E2, bind_cons, !fmap_cons, <-!(assoc_L (++)), Hh, Hhs.
    split_and!; [reflexivity..|by constructor].
Qed.

(** *** What the final digest binds *)
Definition context_ok c : Prop :=
  hash_ok (cc_state_root c) /\ u64_ok (cc_chain_id c) /\ u64_ok (cc_block_number c) /\
  u64_ok (cc_block_timestamp c).
Definition bound_result_ok (r : TxSimulationResult) : Prop :=
  hash_ok (sr_hash r) /\ tx_result_ok r.

Lemma prefix_free_result : prefix_free bound_result_ok result_bytes.
Proof.
  intros [h1 s1 g1 d1 f1 t1] [h2 s2 g2 d2 f2 t2] r1 r2 (Hh1 & Hg1 & Hd1 & Ht1 & _) (Hh2 & Hg2 & Hd2 & Ht2 & _).
  unfold result_bytes.
  cbn [sr_hash sr_success sr_gas_used sr_state_diff_hash sr_fail_category sr_trace_id] in *.
  rewrite <-!(assoc_L (++)). intros Eb.
  apply prefix_free_hash in Eb as [-> Eb]; [|done..].
  apply prefix_free_le in Eb as [-> Eb]; [|done..].
  apply (app_inj_1 [_] [_]) in Eb as [Es Eb]; [|done].
  apply prefix_free_hash in Eb as [-> Eb]; [|done..].
  apply prefix_free_le in Eb as [-> Eb]; [|done..].
  injection Eb as Ef ->. split; [|done].
  assert (s1 = s2) as -> by (destruct s1, s2; done).
  assert (f1 = f2) as -> by (destruct f1 as [[]|], f2 as [[]|]; done). done.
Qed.

Lemma batch_bytes_inj c1 c2 rs1 rs2 :
  context_ok c1 -> context_ok c2 -> Forall bound_result_ok rs1 -> Forall bound_result_ok rs2 ->
  batch_bytes c1 rs1 = batch_bytes c2 rs2 ->
  rs1 = rs2 /\ cc_state_root c1 = cc_state_root c2 /\ cc_chain_id c1 = cc_chain_id c2 /\
  cc_block_number c1 = cc_block_number c2 /\ cc_block_timestamp c1 = cc_block_timestamp c2.
Proof.
  intros (Hr1 & Hi1 & Hn1 & Ht1) (Hr2 & Hi2 & Hn2 & Ht2) H1 H2.
  unfold batch_bytes, context_bytes. rewrite <-!(assoc_L (++)). intros Eb.
  apply prefix_free_hash in Eb as [-> Eb]; [|done..].
  apply prefix_free_le in Eb as [-> Eb]; [|done..].
  apply prefix_free_le in Eb as [-> Eb]; [|done..].
  apply prefix_free_le in Eb as [-> Eb]; [|done..].
  split; [|done]. eapply prefix_free_concat; [apply prefix_free_result| |done..].
  intros r Hr. apply (f_equal length) in Hr. unfold result_bytes in Hr.
  rewrite length_app in Hr. unfold hash_bytes in Hr. rewrite length_be_bytes in Hr. done.
Qed.

Lemma simulate_batch c txs (mode : SimulationMode E) batch :
  simulate_with_mode sha256 c txs mode = inl batch ->
  sbr_chain_context batch = c /\
  sr_hash <$> sbr_tx_results batch = (fun tx => dec_hash (ti_decoded tx)) <$> txs /\
  Forall tx_result_ok (sbr_tx_results batch) /\
  sbr_final_state_diff_hash batch =
    of_be_bytes (sha256 (batch_bytes c (sbr_tx_results batch))).
Proof.
  unfold simulate_with_mode. destruct (seed_sender_accounts _ _ _) as [db|e]; [|done].
  intros [= <-].
  destruct (simulate_loop_shape c txs (mkSimLoop (build_mainnet (block_env_of c) db)
    (context_bytes c) [])) as (rs & Er & Ea & Hh & Hok).
  cbn [sbr_chain_context sbr_tx_results sbr_final_state_diff_hash]. rewrite Er, Ea.
  cbn [sl_tx_results sl_aggregate]. by rewrite app_nil_l.
Qed.

Lemma simulate_results_ok c txs (mode : SimulationMode E) batch :
  Forall (fun tx => hash_ok (dec_hash (ti_decoded tx))) txs ->
  simulate_with_mode sha256 c txs mode = inl batch ->
  Forall bound_result_ok (sbr_tx_results batch).
Proof.
  intros Htxs (_ & Hh & Hok & _)%simulate_batch. apply Forall_and. split; [|done].
  assert (Forall hash_ok (sr_hash <$> sbr_tx_results batch)) as Hf
    by (rewrite Hh; by apply Forall_fmap).
  rewrite Forall_fmap in Hf. exact Hf.
Qed.

(** C32: a batch simulation either reports the first provider error or returns
    one result per transaction, in order and under the transaction's own hash;
    every result fits its machine types, is a success exactly when it has no
    failure category, and charges no gas and no state change when the
    transaction was rejected for its nonce or its state; and the final digest
    is SHA-256 over the state root, the chain id, number and timestamp of the
    block, and the records of exactly these results. *)
Theorem simulation_exact c txs (mode : SimulationMode E) :
  match simulate_with_mode sha256 c txs mode with
  | inr e => seed_sender_accounts db_default txs mode = inr e
  | inl batch =>
      sbr_chain_context batch = c /\
      sr_hash <$> sbr_tx_results batch = (fun tx => dec_hash (ti_decoded tx)) <$> txs /\
      Forall tx_result_ok (sbr_tx_results batch) /\
      sbr_final_state_diff_hash batch =
        of_be_bytes (sha256 (batch_bytes c (sbr_tx_results batch)))
  end.
Proof.
  destruct (simulate_with_mode sha256 c txs mode) as [batch|e] eqn:Es.
  - by apply (simulate_batch c txs mode).
  - unfold simulate_with_mode in Es. destruct (seed_sender_accounts _ _ _); [done|].
    by injection Es as ->.
Qed.

(** The final digest commits to the batch: two batches with the same
    digest have the same results in the same order (hashes, gas, success,
    state diffs, traces, failure categories) and the same state root, chain id,
    block number and timestamp, or else the records of the two batches are
    themselves a collision of SHA-256. *)
Theorem batch_digest_binds c1 c2 txs1 txs2 (mode1 mode2 : SimulationMode E) b1 b2
  (Hc1 : context_ok c1) (Hc2 : context_ok c2)
  (Ht1 : Forall (fun tx => hash_ok (dec_hash (ti_decoded tx))) txs1)
  (Ht2 : Forall (fun tx => hash_ok (dec_hash (ti_decoded tx))) txs2)
  (E1 : simulate_with_mode sha256 c1 txs1 mode1 = inl b1)
  (E2 : simulate_with_mode sha256 c2 txs2 mode2 = inl b2)
  (Hd : sbr_final_state_diff_hash b1 = sbr_final_state_diff_hash b2) :
  (sbr_tx_results b1 = sbr_tx_results b2 /\ cc_state_root c1 = cc_state_root c2 /\
   cc_chain_id c1 = cc_chain_id c2 /\ cc_block_number c1 = cc_block_number c2 /\
   cc_block_timestamp c1 = cc_block_timestamp c2) \/
  (batch_bytes c1 (sbr_tx_results b1) <> batch_bytes c2 (sbr_tx_results b2) /\
   sha256 (batch_bytes c1 (sbr_tx_results b1)) = sha256 (batch_bytes c2 (sbr_tx_results b2))).
Proof.
  pose proof (simulate_batch _ _ _ _ E1) as (_ & _ & _ & D1).
  pose proof (simulate_batch _ _ _ _ E2) as (_ & _ & _ & D2). rewrite D1, D2 in Hd.
  set (x := batch_bytes c1 (sbr_tx_results b1)) in Hd.
  set (y := batch_bytes c2 (sbr_tx_results b2)) in Hd.
  destruct (Hsha x) as [Lx Bx], (Hsha y) as [Ly By].
  apply of_be_bytes_inj in Hd; [|congruence|done..].
  destruct (decide (x = y)) as [Exy|Hne]; [left|by right].
  by apply batch_bytes_inj in Exy; [|eauto using simulate_results_ok..].
Qed.
End batch.

(** ** The transaction handed to the EVM *)

(** Every transaction the simulator builds passes the fee checks of the
    block it runs in and is bounded: at least 21 000 gas, a price no lower than
    the base fee, a positive tip no higher than the price, at most 8192 bytes
    of call data, taken from the front of the given bytes or zeros of the
    announced length; and nothing is altered when the transaction's own fields
    already satisfy these bounds. *)
Theorem tx_env_bounded c input :
  let tx := ti_decoded input in
  let env := tx_env_from_input c input in
  (21000 <= te_gas_limit env)%N /\
  (cc_base_fee_wei c <= te_gas_price env)%N /\
  (forall tip, te_gas_priority_fee env = Some tip -> (0 < tip <= te_gas_price env)%N) /\
  (usize_of (length (te_data env)) <= max_synthetic_calldata_bytes)%N /\
  (forall bytes, ti_calldata input = Some bytes -> te_data env `prefix_of` bytes) /\
  (forall gas, dec_gas_limit tx = Some gas -> (21000 <= gas)%N -> te_gas_limit env = gas) /\
  (forall price, dec_gas_price_wei tx = Some price -> (cc_base_fee_wei c <= price)%N ->
     te_gas_price env = price) /\
  (forall tip, dec_max_priority_fee_per_gas_wei tx = Some tip ->
     (0 < tip <= te_gas_price env)%N -> te_gas_priority_fee env = Some tip) /\
  (forall bytes, ti_calldata input = Some bytes ->
     (usize_of (length bytes) <= max_synthetic_calldata_bytes)%N -> te_data env = bytes).
Proof.
  cbn zeta. unfold tx_env_from_input. cbn [te_gas_limit te_gas_price te_gas_priority_fee te_data].
  set (price := if (_ <? _)%N then _ else _).
  split_and!.
  - lia.
  - subst price. destruct (N.ltb_spec (match dec_gas_price_wei (ti_decoded input) with
      | Some p => p
      | None => default (N.max (cc_base_fee_wei c) 1)%N (dec_max_fee_per_gas_wei (ti_decoded input))
      end) (cc_base_fee_wei c)); lia.
  - intros tip. destruct (dec_max_priority_fee_per_gas_wei _) as [v|]; [|done].
    destruct (N.ltb_spec 0 (N.min v price)); [|done]. intros [= <-]. lia.
  - unfold usize_of. destruct (ti_calldata input) as [bytes|];
      rewrite ?length_take, ?length_replicate; unfold max_synthetic_calldata_bytes in *; lia.
  - intros bytes ->. apply prefix_take.
  - intros gas -> Hgas. simpl. lia.
  - intros p Ep Hp. subst price. rewrite Ep. by destruct (N.ltb_spec p (cc_base_fee_wei c)); [lia|].
  - intros tip -> Htip. rewrite N.min_l by lia. by destruct (N.ltb_spec 0 tip); [|lia].
  - intros bytes -> Hlen. apply take_ge. unfold usize_of in *. lia.
Qed.

(** ** Seeding *)
Definition tx_sender (tx : SimulationTxInput) : Address := dec_sender (ti_decoded tx).
Definition tx_nonce (tx : SimulationTxInput) : N := dec_nonce (ti_decoded tx).

(** [n] is the lowest nonce [s] uses in the batch. *)
Definition lowest_nonce (txs : list SimulationTxInput) (s : Address) (n : N) : Prop :=
  (exists tx, tx ∈ txs /\ tx_sender tx = s /\ tx_nonce tx = n) /\
  (forall tx, tx ∈ txs -> tx_sender tx = s -> (n <= tx_nonce tx)%N).

Definition min_of (l : list N) : option N :=
  match l with [] => None | n :: l' => Some (foldl N.min n l') end.

Lemma min_of_snoc l n :
  min_of (l ++ [n]) = Some (match min_of l with Some m => N.min m n | None => n end).
Proof. destruct l as [|m l]; [done|]. cbn. by rewrite foldl_app. Qed.

Lemma min_of_spec l m : min_of l = Some m <-> m ∈ l /\ Forall (fun n => m <= n)%N l.
Proof.
  revert m. induction l as [|n l IH] using rev_ind; intros m.
  - split; [done|]. by intros [?%elem_of_nil _].
  - rewrite min_of_snoc, elem_of_app, list_elem_of_singleton, Forall_app, Forall_singleton.
    destruct (min_of l) as [k|] eqn:E.
    + destruct (proj1 (IH k) eq_refl) as [Hk Hall]. rewrite Forall_forall in *. split.
      * intros [= <-]. split; [|split; [intros j Hj; specialize (Hall j Hj)|]; lia].
        destruct (N.le_ge_cases k n); [left; by rewrite N.min_l|right; by rewrite N.min_r].
      * intros [[Hm|Hm] [Hl Hn]]; f_equal.
        -- specialize (Hall m Hm). specialize (Hl k Hk). lia.
        -- subst m. specialize (Hl k Hk). lia.
    + assert (l = []) as -> by by destruct l.
      split; [intros [= <-]|intros [[H|Em] _]; [by apply elem_of_nil in H|by subst]].
      split; [by right|]. split; [constructor|lia].
Qed.

Lemma sender_start_nonce_lookup txs s :
  sender_start_nonce txs !! s = min_of (tx_nonce <$> filter (fun tx => tx_sender tx = s) txs).
Proof.
  induction txs as [|tx txs IH] using rev_ind; [done|].
  unfold sender_start_nonce in *. rewrite foldl_app, filter_app. cbn [foldl].
  unfold start_nonce_step at 1. fold (tx_sender tx) (tx_nonce tx).
  rewrite filter_cons, filter_nil, fmap_app. destruct (decide (tx_sender tx = s)) as [->|Hne].
  - rewrite fmap_cons, fmap_nil, min_of_snoc, <-IH.
    by destruct (foldl _ _ _ !! s); rewrite lookup_insert_eq.
  - rewrite fmap_nil, app_nil_r, <-IH.
    by destruct (foldl _ _ _ !! tx_sender tx); rewrite lookup_insert_ne.
Qed.

Lemma sender_start_nonce_spec txs s n :
  sender_start_nonce txs !! s = Some n <-> lowest_nonce txs s n.
Proof.
  rewrite sender_start_nonce_lookup, min_of_spec, Forall_forall. unfold lowest_nonce.
  setoid_rewrite list_elem_of_fmap. setoid_rewrite list_elem_of_filter. split.
  - intros [(tx & -> & <- & Hin) Hmin]. split; [by exists tx|].
    intros t Ht Hs. apply Hmin. by exists t.
  - intros [(tx & Hin & <- & <-) Hmin]. split; [by exists tx|].
    intros m (t & -> & Hs & Ht). by apply Hmin.
Qed.

Section seeding.
Context {E : Type} `{Revm}.

(** The account a sender starts with, and the error its lookup reports. *)
Definition seeded_account (mode : SimulationMode E) (s : Address) (n : N) : N * N :=
  match lookup_seed mode s with
  | inl (Some seed) => (seed_balance_wei seed, seed_nonce seed)
  | _ => (seeded_balance_wei, n)
  end.
Definition seed_error (mode : SimulationMode E) (s : Address) : option (SimError E) :=
  match lookup_seed mode s with inl _ => None | inr e => Some e end.
Definition insert_seeded (mode : SimulationMode E) (db : InMemoryDB) (sender : Address * N) : InMemoryDB :=
  let account := seeded_account mode sender.1 sender.2 in
  insert_account_info db sender.1 account.1 account.2.

Lemma seed_accounts_spec mode db senders :
  seed_accounts mode db senders =
    match head (omap (seed_error mode) senders.*1) with
    | Some e => inr e
    | None => inl (foldl (insert_seeded mode) db senders)
    end.
Proof.
  revert db. induction senders as [|[s n] senders IH]; intros db; csimpl; [done|].
  unfold seed_error, insert_seeded, seeded_account; cbn [fst snd].
  destruct (lookup_seed mode s) as [[seed|]|e]; [apply IH..|done].
Qed.

(** Every sender of the batch, and no other, is given exactly one account,
    in address order: in deterministic mode the fixed balance and the lowest
    nonce the sender uses in the batch, in RPC-backed mode the provider's
    balance and nonce, or the former when the provider knows nothing; the
    error returned is that of the first failing sender in address order, so
    deterministic mode never fails. *)
Theorem seeding_exact mode db txs :
  let senders := bt_iter (sender_start_nonce txs) in
  StronglySorted N.lt senders.*1 /\
  (forall s n, (s, n) ∈ senders <-> lowest_nonce txs s n) /\
  seed_sender_accounts db txs mode =
    match head (omap (seed_error mode) senders.*1) with
    | Some e => inr e
    | None => inl (foldl (insert_seeded mode) db senders)
    end /\
  (mode = SyntheticDeterministic ->
   forall s n, (s, n) ∈ senders -> seeded_account mode s n = (seeded_balance_wei, n)) /\
  (mode = SyntheticDeterministic -> exists db', seed_sender_accounts db txs mode = inl db').
Proof.
  intros senders. split_and!.
  - exact (bt_keys_sorted (sender_start_nonce txs)).
  - intros s n. subst senders. by rewrite elem_of_bt_iter, sender_start_nonce_spec.
  - apply seed_accounts_spec.
  - by intros ->.
  - intros ->. unfold seed_sender_accounts. rewrite seed_accounts_spec.
    replace (omap _ _) with (@nil (SimError E)); [eauto|].
    fold senders. by induction senders as [|[? ?] ? IH].
Qed.
End seeding.

(** ** Digests of state diffs *)

(** The same account, its changed slots listed in another order. *)
Definition same_account (a b : Address * DiffAccount) : Prop :=
  a.1 = b.1 /\ da_balance a.2 = da_balance b.2 /\ da_nonce a.2 = da_nonce b.2 /\
  da_code_hash a.2 = da_code_hash b.2 /\ da_status_bits a.2 = da_status_bits b.2 /\
  da_changed_slots a.2 ≡ₚ da_changed_slots b.2.

Lemma sort_by_key_Permutation {V} (l1 l2 : list (N * V)) :
  NoDup l1.*1 -> l1 ≡ₚ l2 -> sort_by (cmp_on fst N.compare) l1 = sort_by (cmp_on fst N.compare) l2.
Proof.
  intros Hnd. apply (sort_by_Permutation (cmp_on fst N.compare)).
  intros [k1 v1] [k2 v2] H1 H2 Hk%(cmp_eq N.compare). cbn in Hk. subst k2.
  apply elem_of_list_to_map in H1, H2; [|done..]. congruence.
Qed.

Lemma Forall2_insert_by {A B} (R : A -> B -> Prop) (c : A -> A -> comparison) (d : B -> B -> comparison) x y l k :
  (forall a a' b b', R a b -> R a' b' -> c a a' = d b b') ->
  R x y -> Forall2 R l k -> Forall2 R (insert_by c x l) (insert_by d y k).
Proof.
  intros Hcd Hxy. induction 1 as [|a b l k Hab Hlk IH]; cbn [insert_by]; [by repeat constructor|].
  rewrite (Hcd x a y b) by done. destruct (d y b); by repeat constructor.
Qed.

Lemma Forall2_sort_by {A B} (R : A -> B -> Prop) (c : A -> A -> comparison) (d : B -> B -> comparison) l k :
  (forall a a' b b', R a b -> R a' b' -> c a a' = d b b') ->
  Forall2 R l k -> Forall2 R (sort_by c l) (sort_by d k).
Proof. intros Hcd. induction 1; cbn; [done|]. by apply Forall2_insert_by. Qed.

Lemma same_account_bytes a b :
  NoDup (da_changed_slots a.2).*1 -> same_account a b ->
  diff_account_bytes a = diff_account_bytes b.
Proof.
  intros Hnd (E1 & E2 & E3 & E4 & E5 & Hp). unfold diff_account_bytes.
  by rewrite E1, E2, E3, E4, E5, (sort_by_key_Permutation _ _ Hnd Hp).
Qed.

(** The digest of a state diff is that of the set of its accounts: it
    does not depend on the order in which revm's hash maps list the accounts
    or the changed slots of each account. *)
Theorem state_diff_order_irrelevant `{Revm} sha256 s1 s2 accounts
  (Haddr : NoDup (state_accounts s1).*1)
  (Hslots : Forall (fun a => NoDup (da_changed_slots a.2).*1) (state_accounts s1))
  (Hperm : state_accounts s1 ≡ₚ accounts)
  (Hsame : Forall2 same_account accounts (state_accounts s2)) :
  hash_state_diff sha256 s1 = hash_state_diff sha256 s2.
Proof.
  unfold hash_state_diff. do 2 f_equal. rewrite (sort_by_key_Permutation _ _ Haddr Hperm).
  assert (Forall (fun a => NoDup (da_changed_slots a.2).*1)
            (sort_by (cmp_on fst N.compare) accounts)) as Hnd.
  { by rewrite sort_by_perm, <-Hperm. }
  assert (Forall2 same_account (sort_by (cmp_on fst N.compare) accounts)
            (sort_by (cmp_on fst N.compare) (state_accounts s2))) as H2.
  { apply Forall2_sort_by; [|done]. intros a a' b b' (Ea & _) (Ea' & _).
    unfold cmp_on. by rewrite Ea, Ea'. }
  induction H2 as [|a b l k Hab _ IH]; [done|].
  apply Forall_cons in Hnd as [Ha Hl]. rewrite !bind_cons. f_equal; [|by apply IH].
  by apply same_account_bytes.
Qed.

(** ** Concrete instances

    A small engine: an account pays the value and the gas used; a wrong nonce
    is an error, a value above the balance reverts. *)
#[local] Instance ledger_revm : Revm := {|
  InMemoryDB := gmap Address (N * N);
  MainnetEvm := gmap Address (N * N);
  ExecutionResult := bool;
  EvmState := list (Address * DiffAccount);
  EVMError := bool;
  db_default := ∅;
  insert_account_info db a balance nonce := <[a := (balance, nonce)]> db;
  build_mainnet _ db := db;
  transact evm env :=
    let account := default (0, 0)%N (evm !! te_caller env) in
    (evm, if (te_nonce env =? account.2)%N then
            let paid := (te_value env + 21000 * te_gas_price env)%N in
            inl ((paid <=? account.1)%N,
                 [(te_caller env, mkDiffAccount (account.1 - paid) (account.2 + 1) 0 1 [])])
          else inr (account.2 <? te_nonce env)%N);
  commit evm state :=
    foldl (fun m '(a, d) => <[a := (da_balance d, da_nonce d)]> m) evm state;
  result_kind r := if r then KindSuccess else KindRevert;
  is_success r := r;
  result_gas_used _ := 21000%N;
  result_debug r := if r then "Success" else "Revert";
  error_kind high := if high then InvalidNonceTooHigh else InvalidNonceTooLow;
  error_debug high := if high then "NonceTooHigh" else "NonceTooLow";
  state_accounts s := s;
|}.

#[local] Instance ledger_revm_laws : RevmLaws.
Proof. split; [by intros []|done]. Qed.

Definition ledger_context : ChainContext := mkChainContext 1 100 1700000000 30000000 7 9 5.
Definition ledger_tx (hash sender nonce value : N) : SimulationTxInput :=
  mkTxInput (mkTxDecoded hash 2 sender nonce None (Some 3) (Some value) None (Some 10) None
    (Some 2) None (Some 4))%N None.
(** Two transactions of one sender, a gap, and a transfer beyond the balance. *)
Definition ledger_txs : list SimulationTxInput :=
  [ledger_tx 11 1 5 100; ledger_tx 12 1 6 200; ledger_tx 13 1 9 1;
   ledger_tx 14 2 0 (2 * 10 ^ 30)]%N.
Definition ledger_mode : SimulationMode string := SyntheticDeterministic.

Example ledger_outcome :
  match simulate_with_mode toy_digest ledger_context ledger_txs ledger_mode with
  | inl b => (fun r => (sr_hash r, sr_success r, sr_gas_used r, sr_fail_category r)) <$> sbr_tx_results b =
      [(11, true, 21000, None); (12, true, 21000, None);
       (13, false, 0, Some FailNonceMismatch); (14, false, 21000, Some FailRevert)]%N
  | inr _ => False
  end.
Proof. vm_compute. reflexivity. Qed.

Definition ledger_batch : SimulationBatchResult :=
  match simulate_with_mode toy_digest ledger_context ledger_txs ledger_mode with
  | inl b => b
  | inr _ => mkBatch ledger_context [] 0
  end.

Lemma ledger_batch_ok :
  simulate_with_mode toy_digest ledger_context ledger_txs ledger_mode = inl ledger_batch.
Proof. vm_compute. reflexivity. Qed.

Lemma ledger_txs_ok : Forall (fun tx => hash_ok (dec_hash (ti_decoded tx))) ledger_txs.
Proof. apply Forall_forall. intros tx. unfold ledger_txs. set_unfold. intros H. destruct_or! H; subst; vm_compute; reflexivity. Qed.

Lemma ledger_context_ok : context_ok ledger_context.
Proof. split_and!; vm_compute; reflexivity. Qed.

Lemma simulation_exact_witness :
  sbr_chain_context ledger_batch = ledger_context /\
  sr_hash <$> sbr_tx_results ledger_batch = [11; 12; 13; 14]%N /\
  Forall tx_result_ok (sbr_tx_results ledger_batch).
Proof.
  pose proof (simulation_exact toy_digest toy_digest_ok ledger_context ledger_txs ledger_mode) as H.
  rewrite ledger_batch_ok in H. destruct H as (Hc & Hh & Hok & _).
  split; [exact Hc|]. split; [exact Hh|exact Hok].
Defined.

(** The digest does not cover the coinbase and the gas limit. *)
Definition other_context : ChainContext := mkChainContext 1 100 1700000000 15000000 7 77 5.
Definition other_batch : SimulationBatchResult :=
  mkBatch other_context (sbr_tx_results ledger_batch) (sbr_final_state_diff_hash ledger_batch).

Lemma batch_digest_binds_witness :
  simulate_with_mode toy_digest other_context ledger_txs ledger_mode = inl other_batch /\
  (sbr_tx_results ledger_batch = sbr_tx_results other_batch /\ cc_state_root ledger_context = 5%N /\
   cc_chain_id ledger_context = 1%N /\ cc_block_number ledger_context = 100%N /\
   cc_block_timestamp ledger_context = 1700000000%N \/
   batch_bytes ledger_context (sbr_tx_results ledger_batch) <>
     batch_bytes other_context (sbr_tx_results other_batch) /\
   toy_digest (batch_bytes ledger_context (sbr_tx_results ledger_batch)) =
     toy_digest (batch_bytes other_context (sbr_tx_results other_batch))).
Proof.
  assert (simulate_with_mode toy_digest other_context ledger_txs ledger_mode = inl other_batch) as E2
    by (vm_compute; reflexivity).
  split; [exact E2|].
  assert (context_ok other_context) as Ho by (split_and!; vm_compute; reflexivity).
  assert (sbr_final_state_diff_hash ledger_batch = sbr_final_state_diff_hash other_batch) as Hd
    by (cbv [other_batch sbr_final_state_diff_hash]; reflexivity).
  pose proof (batch_digest_binds toy_digest toy_digest_ok ledger_context other_context
    ledger_txs ledger_txs ledger_mode ledger_mode ledger_batch other_batch
    ledger_context_ok Ho ledger_txs_ok ledger_txs_ok ledger_batch_ok E2 Hd) as H.
  exact H.
Defined.

(** Two listings of one state diff. *)
Definition diff_one : EvmState :=
  ([(1, mkDiffAccount 5 1 0 1 [(7, 8); (2, 3)]); (4, mkDiffAccount 6 2 0 1 [])]%N : list (Address * DiffAccount)).
Definition diff_two : EvmState :=
  ([(4, mkDiffAccount 6 2 0 1 []); (1, mkDiffAccount 5 1 0 1 [(2, 3); (7, 8)])]%N : list (Address * DiffAccount)).

Lemma state_diff_order_irrelevant_witness :
  diff_one <> diff_two /\ hash_state_diff toy_digest diff_one = hash_state_diff toy_digest diff_two.
Proof.
  split; [done|].
  apply (state_diff_order_irrelevant toy_digest diff_one diff_two (reverse diff_one)).
  - apply (bool_decide_unpack _). vm_compute. exact I.
  - repeat constructor; apply (bool_decide_unpack _); vm_compute; exact I.
  - symmetry. apply reverse_Permutation.
  - constructor; [done|]. constructor; [|constructor].
    repeat split; [reflexivity..|]. apply Permutation_swap.
Defined.

Lemma seeding_exact_witness :
  exists db', seed_sender_accounts db_default ledger_txs ledger_mode = inl db'.
Proof. exact (proj2 (proj2 (proj2 (proj2 (seeding_exact ledger_mode db_default ledger_txs)))) eq_refl). Defined.
