(* ===== verification/TxDecode.v ===== *)
(** * TxDecode: decoding of raw transactions (crates/ingest/src/tx_decode.rs)

    Hexadecimal parsing, fee normalisation and the effective gas price.
    Strings are the bytes of their UTF-8 text; slicing a [str] at an offset
    inside a character panics, so the outcome of a parse is a value, an error
    or a panic. *)
From stdpp Require Import base gmap strings list numbers sorting.
From S2P Require Import Prelude Common.

Inductive TxType := Legacy | Eip2930 | Eip1559 | Eip4844.

Record RawTxInput := mkRawTx {
  raw_hash : string;
  raw_tx_type : TxType;
  raw_chain_id : N;
  raw_sender : string;
  raw_nonce : N;
  raw_to : option string;
  raw_value : N;
  raw_gas_limit : N;
  raw_gas_price : option N;
  raw_max_fee_per_gas : option N;
  raw_max_priority_fee_per_gas : option N;
  raw_max_fee_per_blob_gas : option N;
  raw_calldata : option string;
}.

Record NormalizedFees := mkFees {
  fee_gas_price : option N;
  fee_max_fee_per_gas : option N;
  fee_max_priority_fee_per_gas : option N;
  fee_max_fee_per_blob_gas : option N;
}.

Record DecodedTx := mkDecodedTx {
  dtx_hash : TxHash;
  dtx_tx_type : TxType;
  dtx_chain_id : N;
  dtx_sender : Address;
  dtx_nonce : N;
  dtx_to : option Address;
  dtx_value : N;
  dtx_gas_limit : N;
  dtx_fees : NormalizedFees;
  dtx_calldata : list N;
}.

(** [DecodeError]; the JSON variant comes from serde_json only. *)
Inductive DecodeError :=
  | InvalidHex (field : string)
  | InvalidLength (field : string) (expected : N)
  | MissingFeeField (field : string)
  | JsonDecode (message : string).

Inductive outcome (A : Type) :=
  | Returns (a : A)
  | FailsWith (e : DecodeError)
  | Panics.
Arguments Returns {A} a.
Arguments FailsWith {A} e.
Arguments Panics {A}.

Definition outcome_bind {A B} (o : outcome A) (k : A -> outcome B) : outcome B :=
  match o with Returns a => k a | FailsWith e => FailsWith e | Panics => Panics end.
Declare Scope outcome_scope.
Delimit Scope outcome_scope with outcome.
Notation "'let?' x := o 'in' k" := (outcome_bind o (fun x => k))
  (at level 10, x name, o at level 100, k at level 200) : outcome_scope.

(** ** Operations *)
Definition effective_gas_price (tx : DecodedTx) (base_fee : N) : option N :=
  match dtx_tx_type tx with
  | Legacy | Eip2930 => fee_gas_price (dtx_fees tx)
  | Eip1559 | Eip4844 =>
      match fee_max_fee_per_gas (dtx_fees tx), fee_max_priority_fee_per_gas (dtx_fees tx) with
      | Some max_fee, Some priority => Some (N.min max_fee (sat_add u128_max base_fee priority))
      | _, _ => None
      end
  end.

Definition require_fee (fee : option N) (field : string) : outcome N :=
  match fee with Some v => Returns v | None => FailsWith (MissingFeeField field) end.

Open Scope outcome_scope.

Definition normalize_fees (input : RawTxInput) : outcome NormalizedFees :=
  match raw_tx_type input with
  | Legacy | Eip2930 =>
      let? gas_price := require_fee (raw_gas_price input) "gas_price" in
      Returns (mkFees (Some gas_price) None None None)
  | Eip1559 =>
      let? max_fee := require_fee (raw_max_fee_per_gas input) "max_fee_per_gas" in
      let? priority := require_fee (raw_max_priority_fee_per_gas input) "max_priority_fee_per_gas" in
      Returns (mkFees None (Some max_fee) (Some priority) None)
  | Eip4844 =>
      let? max_fee := require_fee (raw_max_fee_per_gas input) "max_fee_per_gas" in
      let? priority := require_fee (raw_max_priority_fee_per_gas input) "max_priority_fee_per_gas" in
      let? blob_fee := require_fee (raw_max_fee_per_blob_gas input) "max_fee_per_blob_gas" in
      Returns (mkFees None (Some max_fee) (Some priority) (Some blob_fee))
  end.

(** [char::to_digit(16)] of one byte. *)
Definition hex_value (b : N) : option N :=
  (if (48 <=? b) && (b <=? 57) then Some (b - 48)
   else if (97 <=? b) && (b <=? 102) then Some (b - 87)
   else if (65 <=? b) && (b <=? 70) then Some (b - 55)
   else None)%N.

(** [u8::from_str_radix(s, 16)] of a two-byte [str]: an optional plus sign,
    then hexadecimal digits; two digits fit a [u8]. *)
Definition byte_from_hex (b0 b1 : N) : option N :=
  if (b0 =? 43)%N then hex_value b1
  else match hex_value b0, hex_value b1 with
       | Some hi, Some lo => Some (hi * 16 + lo)%N
       | _, _ => None
       end.

(** A UTF-8 continuation byte: an offset in front of it is inside a character. *)
Definition continuation (b : N) : bool := ((128 <=? b) && (b <? 192))%N.
Definition char_boundary (rest : list N) : bool :=
  match rest with [] => true | b :: _ => negb (continuation b) end.

(** The iterator over the pairs, collected up to the first error: each slice
    must end at a character boundary. *)
Fixpoint parse_pairs (bytes : list N) (field : string) : outcome (list N) :=
  match bytes with
  | b0 :: b1 :: rest =>
      if negb (char_boundary rest) then Panics
      else match byte_from_hex b0 b1 with
           | None => FailsWith (InvalidHex field)
           | Some v => let? vs := parse_pairs rest field in Returns (v :: vs)
           end
  | _ => Returns []
  end.

(** [value.strip_prefix("0x").unwrap_or(value)]. *)
Definition strip_0x (bytes : list N) : list N :=
  match bytes with
  | 48%N :: 120%N :: rest => rest
  | _ => bytes
  end.

Definition parse_variable_hex (value : string) (field : string) : outcome (list N) :=
  let trimmed := strip_0x (str_bytes value) in
  match trimmed with
  | [] => Returns []
  | _ =>
      if negb (Nat.even (length trimmed)) then FailsWith (InvalidHex field)
      else parse_pairs trimmed field
  end.

Definition parse_fixed_hex (n : nat) (value : string) (field : string) : outcome (list N) :=
  let? bytes := parse_variable_hex value field in
  if (length bytes =? n)%nat then Returns bytes
  else FailsWith (InvalidLength field (N.of_nat n)).

Definition decode_from_raw (input : RawTxInput) : outcome DecodedTx :=
  let? fees := normalize_fees input in
  let? hash := parse_fixed_hex 32 (raw_hash input) "hash" in
  let? sender := parse_fixed_hex 20 (raw_sender input) "sender" in
  let? to :=
    match raw_to input with
    | None => Returns None
    | Some value =>
        if bool_decide (value = "") then Returns None
        else let? a := parse_fixed_hex 20 value "to" in Returns (Some a)
    end in
  let? calldata :=
    match raw_calldata input with
    | None => Returns []
    | Some value =>
        if bool_decide (value = "") then Returns [] else parse_variable_hex value "calldata"
    end in
  Returns {| dtx_hash := of_be_bytes hash;
             dtx_tx_type := raw_tx_type input;
             dtx_chain_id := raw_chain_id input;
             dtx_sender := of_be_bytes sender;
             dtx_nonce := raw_nonce input;
             dtx_to := of_be_bytes <$> to;
             dtx_value := raw_value input;
             dtx_gas_limit := raw_gas_limit input;
             dtx_fees := fees;
             dtx_calldata := calldata |}.

(** ** Hexadecimal text *)
Lemma str_bytes_hex_cons b l :
  str_bytes (hex_encode (b :: l)) =
    Ascii.N_of_ascii (hex_digit (b / 16)) :: Ascii.N_of_ascii (hex_digit (b mod 16)) ::
    str_bytes (hex_encode l).
Proof.
  unfold hex_encode. destruct l as [|c l]; [done|].
  change (String.concat "" (hex_byte <$> b :: c :: l)) with
    (hex_byte b +:+ "" +:+ String.concat "" (hex_byte <$> c :: l)).
  by rewrite str_bytes_app.
Qed.

Lemma length_str_hex l : length (str_bytes (hex_encode l)) = (2 * length l)%nat.
Proof.
  induction l as [|b l IH]; [done|]. rewrite str_bytes_hex_cons. cbn [length]. rewrite IH. lia.
Qed.

Lemma hex_digit_ok d :
  (d < 16)%N ->
  let b := Ascii.N_of_ascii (hex_digit d) in
  hex_value b = Some d /\ b <> 43%N /\ continuation b = false.
Proof.
  intros Hd. destruct d as [|p]; [by split_and!|].
  by do 4 (destruct p as [p|p|]; [|..|by split_and!]); exfalso; lia.
Qed.

Definition bytes_ok (l : list N) : Prop := Forall (fun b => b < 256)%N l.

Lemma nibbles b : (b < 256)%N -> (b / 16 < 16 /\ b mod 16 < 16 /\ b / 16 * 16 + b mod 16 = b)%N.
Proof.
  intros Hb. pose proof (N.div_mod b 16 ltac:(lia)) as E. pose proof (N.mod_lt b 16 ltac:(lia)).
  revert E H. generalize (b / 16)%N (b mod 16)%N. lia.
Qed.

Lemma hex_boundary l : bytes_ok l -> char_boundary (str_bytes (hex_encode l)) = true.
Proof.
  destruct 1 as [|b l Hb _]; [done|]. rewrite str_bytes_hex_cons. cbn [char_boundary].
  destruct (nibbles b Hb) as (H1 & _). by destruct (hex_digit_ok _ H1) as (_ & _ & ->).
Qed.

Lemma parse_pairs_hex l field :
  bytes_ok l -> parse_pairs (str_bytes (hex_encode l)) field = Returns l.
Proof.
  induction 1 as [|b l Hb Hl IH]; [done|]. rewrite str_bytes_hex_cons. cbn [parse_pairs].
  rewrite hex_boundary by done. cbn [negb]. rewrite IH.
  destruct (nibbles b Hb) as (H1 & H2 & E).
  destruct (hex_digit_ok _ H1) as (E1 & Hne & _), (hex_digit_ok _ H2) as (E2 & _).
  unfold byte_from_hex. rewrite (proj2 (N.eqb_neq _ _) Hne), E1, E2, E. done.
Qed.

Lemma parse_variable_hex_encode l field :
  bytes_ok l -> parse_variable_hex ("0x" +:+ hex_encode l) field = Returns l.
Proof.
  intros Hl. unfold parse_variable_hex. rewrite str_bytes_app.
  change (strip_0x (str_bytes "0x" ++ ?s)) with s.
  rewrite length_str_hex, Nat.even_mul, parse_pairs_hex by done.
  by destruct Hl; [|rewrite str_bytes_hex_cons].
Qed.

Lemma parse_fixed_hex_encode n l field :
  length l = n -> bytes_ok l ->
  parse_fixed_hex n ("0x" +:+ hex_encode l) field = Returns l.
Proof.
  intros Hn Hl. unfold parse_fixed_hex. rewrite parse_variable_hex_encode by done.
  cbn [outcome_bind]. by rewrite Hn, Nat.eqb_refl.
Qed.

(** ** The provider's text of a decoded transaction *)
Definition render (tx : DecodedTx) : RawTxInput :=
  {| raw_hash := "0x" +:+ hex_encode (hash_bytes (dtx_hash tx));
     raw_tx_type := dtx_tx_type tx;
     raw_chain_id := dtx_chain_id tx;
     raw_sender := "0x" +:+ hex_encode (address_bytes (dtx_sender tx));
     raw_nonce := dtx_nonce tx;
     raw_to := (fun a => "0x" +:+ hex_encode (address_bytes a)) <$> dtx_to tx;
     raw_value := dtx_value tx;
     raw_gas_limit := dtx_gas_limit tx;
     raw_gas_price := fee_gas_price (dtx_fees tx);
     raw_max_fee_per_gas := fee_max_fee_per_gas (dtx_fees tx);
     raw_max_priority_fee_per_gas := fee_max_priority_fee_per_gas (dtx_fees tx);
     raw_max_fee_per_blob_gas := fee_max_fee_per_blob_gas (dtx_fees tx);
     raw_calldata := Some ("0x" +:+ hex_encode (dtx_calldata tx)) |}.

(** The fees a transaction type carries, and no others. *)
Definition fees_ok (ty : TxType) (f : NormalizedFees) : Prop :=
  match ty with
  | Legacy | Eip2930 => exists p, f = mkFees (Some p) None None None
  | Eip1559 => exists m p, f = mkFees None (Some m) (Some p) None
  | Eip4844 => exists m p b, f = mkFees None (Some m) (Some p) (Some b)
  end.
Definition decoded_tx_ok (tx : DecodedTx) : Prop :=
  hash_ok (dtx_hash tx) /\ address_ok (dtx_sender tx) /\
  match dtx_to tx with Some a => address_ok a | None => True end /\
  fees_ok (dtx_tx_type tx) (dtx_fees tx) /\ bytes_ok (dtx_calldata tx).

Lemma decode_fees ty f input :
  fees_ok ty f -> raw_tx_type input = ty -> raw_gas_price input = fee_gas_price f ->
  raw_max_fee_per_gas input = fee_max_fee_per_gas f ->
  raw_max_priority_fee_per_gas input = fee_max_priority_fee_per_gas f ->
  raw_max_fee_per_blob_gas input = fee_max_fee_per_blob_gas f ->
  normalize_fees input = Returns f.
Proof.
  intros Hf Hty H1 H2 H3 H4. unfold normalize_fees. rewrite Hty, H1, H2, H3, H4.
  destruct ty; cbn [fees_ok] in Hf;
    repeat match goal with H : exists _, _ |- _ => destruct H end; by subst.
Qed.

(** C33: decoding inverts the provider's text: for every transaction within its
    machine types that carries exactly the fees of its type, parsing the
    0x-prefixed hexadecimal rendering of its hash, sender, recipient and call
    data gives the transaction back. *)
Theorem decode_roundtrip tx (Hok : decoded_tx_ok tx) : decode_from_raw (render tx) = Returns tx.
Proof.
  destruct Hok as (Hh & Hs & Hto & Hf & Hc). unfold decode_from_raw.
  rewrite (decode_fees (dtx_tx_type tx) (dtx_fees tx)) by done. cbn [outcome_bind].
  cbn [render raw_hash raw_sender raw_to raw_calldata].
  rewrite !parse_fixed_hex_encode by (first [apply length_be_bytes|apply be_bytes_digit]).
  cbn [outcome_bind]. destruct tx as [hash ty ci sender nonce to value gas fees calldata].
  cbn [dtx_hash dtx_sender dtx_to dtx_calldata] in *.
  destruct to as [a|]; cbn [fmap option_fmap option_map] in *.
  - rewrite bool_decide_eq_false_2 by done.
    rewrite parse_fixed_hex_encode by (first [apply length_be_bytes|apply be_bytes_digit]).
    cbn [outcome_bind]. rewrite bool_decide_eq_false_2 by done.
    rewrite parse_variable_hex_encode by done. cbn [outcome_bind fmap option_fmap option_map].
    unfold hash_bytes, address_bytes. rewrite !of_be_be_bytes, !N.mod_small by done. done.
  - cbn [outcome_bind]. rewrite bool_decide_eq_false_2 by done.
    rewrite parse_variable_hex_encode by done. cbn [outcome_bind fmap option_fmap option_map].
    unfold hash_bytes, address_bytes. rewrite !of_be_be_bytes, !N.mod_small by done. done.
Qed.

(** ** Which inputs decode, and the error of the others *)
Fixpoint hex_pairs_ok (bytes : list N) : bool :=
  match bytes with
  | [] => true
  | [_] => false
  | b0 :: b1 :: rest => bool_decide (is_Some (byte_from_hex b0 b1)) && hex_pairs_ok rest
  end.

Definition variable_error (value field : string) : option DecodeError :=
  if hex_pairs_ok (strip_0x (str_bytes value)) then None else Some (InvalidHex field).
Definition fixed_error (n : nat) (value field : string) : option DecodeError :=
  match variable_error value field with
  | Some e => Some e
  | None =>
      if (length (strip_0x (str_bytes value)) =? 2 * n)%nat then None
      else Some (InvalidLength field (N.of_nat n))
  end.

(** The fee fields a type requires, in the order they are looked up. *)
Definition required_fees (input : RawTxInput) : list (string * option N) :=
  let max_fee := ("max_fee_per_gas", raw_max_fee_per_gas input) in
  let priority := ("max_priority_fee_per_gas", raw_max_priority_fee_per_gas input) in
  match raw_tx_type input with
  | Legacy | Eip2930 => [("gas_price", raw_gas_price input)]
  | Eip1559 => [max_fee; priority]
  | Eip4844 => [max_fee; priority; ("max_fee_per_blob_gas", raw_max_fee_per_blob_gas input)]
  end.
Definition fee_error (input : RawTxInput) : option DecodeError :=
  head (omap (fun f => match f.2 with None => Some (MissingFeeField f.1) | Some _ => None end)
    (required_fees input)).

Definition optional_error (value : option string) (check : string -> option DecodeError) : option DecodeError :=
  match value with None => None | Some v => if bool_decide (v = "") then None else check v end.
Definition first_error (input : RawTxInput) : option DecodeError :=
  head (omap id
    [fee_error input; fixed_error 32 (raw_hash input) "hash"; fixed_error 20 (raw_sender input) "sender";
     optional_error (raw_to input) (fun v => fixed_error 20 v "to");
     optional_error (raw_calldata input) (fun v => variable_error v "calldata")]).

Definition ascii_text (s : string) : Prop := Forall (fun b => b < 128)%N (str_bytes s).
Definition ascii_input (input : RawTxInput) : Prop :=
  ascii_text (raw_hash input) /\ ascii_text (raw_sender input) /\
  match raw_to input with Some v => ascii_text v | None => True end /\
  match raw_calldata input with Some v => ascii_text v | None => True end.

Lemma hex_value_bound b v : hex_value b = Some v -> (v < 16)%N.
Proof.
  unfold hex_value.
  destruct (N.leb_spec 48 b), (N.leb_spec b 57), (N.leb_spec 97 b), (N.leb_spec b 102),
    (N.leb_spec 65 b), (N.leb_spec b 70); cbn [andb]; intros [= <-]; lia.
Qed.

Lemma byte_from_hex_bound b0 b1 v : byte_from_hex b0 b1 = Some v -> (v < 256)%N.
Proof.
  unfold byte_from_hex. destruct (N.eqb_spec b0 43); [intros ?%hex_value_bound; lia|].
  destruct (hex_value b0) as [hi|] eqn:E0; [|done]. destruct (hex_value b1) as [lo|] eqn:E1; [|done].
  intros [= <-]. apply hex_value_bound in E0, E1. lia.
Qed.

Lemma ascii_boundary l : Forall (fun b => b < 128)%N l -> char_boundary l = true.
Proof.
  destruct 1 as [|b l Hb _]; [done|]. cbn. unfold continuation.
  by destruct (N.leb_spec 128 b); [lia|].
Qed.

(** Two bytes at a time. *)
Lemma pairs_ind (P : list N -> Prop) :
  P [] -> (forall b, P [b]) -> (forall b0 b1 l, P l -> P (b0 :: b1 :: l)) -> forall l, P l.
Proof.
  intros H0 H1 H2 l. enough (P l /\ forall b, P (b :: l)) by tauto.
  induction l as [|b l [IH1 IH2]]; [auto|]. split; [apply IH2|]. intros b0. by apply H2.
Qed.

Lemma parse_pairs_ascii bytes field :
  Forall (fun b => b < 128)%N bytes -> Nat.even (length bytes) = true ->
  if hex_pairs_ok bytes then
    exists vs, parse_pairs bytes field = Returns vs /\ length bytes = (2 * length vs)%nat /\ bytes_ok vs
  else parse_pairs bytes field = FailsWith (InvalidHex field).
Proof.
  induction bytes as [|b|b0 b1 bytes IH] using pairs_ind; intros Ha He.
  - cbn. exists []. by repeat split; constructor.
  - done.
  - apply Forall_cons in Ha as [_ Ha]. apply Forall_cons in Ha as [_ Ha].
    cbn [hex_pairs_ok parse_pairs]. rewrite ascii_boundary by done. cbn [negb].
    specialize (IH Ha He). destruct (byte_from_hex b0 b1) as [v|] eqn:Ev.
    + rewrite bool_decide_eq_true_2 by eauto. cbn [andb]. destruct (hex_pairs_ok bytes).
      * destruct IH as (vs & -> & Hl & Hvs). exists (v :: vs). cbn [outcome_bind length].
        split_and!; [done|lia|]. constructor; [by eapply byte_from_hex_bound|done].
      * by rewrite IH.
    + rewrite bool_decide_eq_false_2; [done|]. by intros [? ?].
Qed.

Lemma hex_pairs_even bytes : hex_pairs_ok bytes = true -> Nat.even (length bytes) = true.
Proof.
  induction bytes as [|b|b0 b1 bytes IH] using pairs_ind; [done..|].
  cbn [hex_pairs_ok]. rewrite andb_true_iff. intros [_ H]. by apply IH.
Qed.

Lemma strip_ascii value : ascii_text value -> Forall (fun b => b < 128)%N (strip_0x (str_bytes value)).
Proof.
  unfold ascii_text, strip_0x. intros H.
  destruct (str_bytes value) as [|[|p] [|[|q] l]] eqn:E; try done;
    repeat match goal with |- Forall _ (match ?p with _ => _ end) => destruct p; try done end;
    apply Forall_cons in H as [_ H]; by apply Forall_cons in H as [_ H].
Qed.

Lemma parse_variable_ascii value field :
  ascii_text value ->
  match variable_error value field with
  | Some e => parse_variable_hex value field = FailsWith e
  | None => exists vs, parse_variable_hex value field = Returns vs /\
      length (strip_0x (str_bytes value)) = (2 * length vs)%nat /\ bytes_ok vs
  end.
Proof.
  intros Ha%strip_ascii. unfold variable_error, parse_variable_hex.
  destruct (strip_0x (str_bytes value)) as [|b bytes] eqn:Eb.
  { exists []. by repeat split; constructor. }
  rewrite <-Eb in *. destruct (Nat.even (length (strip_0x (str_bytes value)))) eqn:He; cbn [negb].
  - pose proof (parse_pairs_ascii _ field Ha He) as H. by destruct (hex_pairs_ok _).
  - destruct (hex_pairs_ok _) eqn:Hp; [|done]. apply hex_pairs_even in Hp. congruence.
Qed.

Lemma parse_fixed_ascii n value field :
  ascii_text value ->
  match fixed_error n value field with
  | Some e => parse_fixed_hex n value field = FailsWith e
  | None => exists vs, parse_fixed_hex n value field = Returns vs /\ length vs = n /\ bytes_ok vs
  end.
Proof.
  intros Ha. pose proof (parse_variable_ascii value field Ha) as H.
  unfold fixed_error, parse_fixed_hex. destruct (variable_error value field) as [e|]; [by rewrite H|].
  destruct H as (vs & -> & Hl & Hok). rewrite Hl. cbn [outcome_bind].
  destruct (Nat.eqb_spec (2 * length vs) (2 * n)), (Nat.eqb_spec (length vs) n); try lia; eauto.
Qed.

Lemma normalize_fees_error input :
  match fee_error input with
  | Some e => normalize_fees input = FailsWith e
  | None => exists f, normalize_fees input = Returns f /\ fees_ok (raw_tx_type input) f
  end.
Proof.
  unfold fee_error, required_fees, normalize_fees. destruct (raw_tx_type input); cbn.
  1,2: destruct (raw_gas_price input); cbn; eauto.
  - destruct (raw_max_fee_per_gas input), (raw_max_priority_fee_per_gas input); cbn; eauto 6.
  - destruct (raw_max_fee_per_gas input), (raw_max_priority_fee_per_gas input),
      (raw_max_fee_per_blob_gas input); cbn; eauto 8.
Qed.

(** An optional text: absent and empty are the same. *)
Lemma to_ascii (value : option string) :
  match value with Some v => ascii_text v | None => True end ->
  let result := match value with
    | None => Returns None
    | Some v => if bool_decide (v = "") then Returns None
                else let? a := parse_fixed_hex 20 v "to" in Returns (Some a)
    end in
  match optional_error value (fun v => fixed_error 20 v "to") with
  | Some e => result = FailsWith e
  | None => exists to, result = Returns to /\
      match to with Some l => length l = 20%nat /\ bytes_ok l | None => True end
  end.
Proof.
  intros Ha. unfold optional_error. destruct value as [v|]; cbv zeta; [|by exists None].
  destruct (bool_decide (v = "")); [by exists None|].
  pose proof (parse_fixed_ascii 20 v "to" Ha) as H.
  destruct (fixed_error 20 v "to") as [e|]; [by rewrite H|]. destruct H as (l & -> & Hl).
  by exists (Some l).
Qed.

Lemma calldata_ascii (value : option string) :
  match value with Some v => ascii_text v | None => True end ->
  let result := match value with
    | None => Returns []
    | Some v => if bool_decide (v = "") then Returns [] else parse_variable_hex v "calldata"
    end in
  match optional_error value (fun v => variable_error v "calldata") with
  | Some e => result = FailsWith e
  | None => exists bytes, result = Returns bytes /\ bytes_ok bytes
  end.
Proof.
  intros Ha. assert (bytes_ok []) as Hnil by constructor.
  unfold optional_error. destruct value as [v|]; cbv zeta; [|eauto]. destruct (bool_decide (v = "")); [eauto|].
  pose proof (parse_variable_ascii v "calldata" Ha) as H.
  destruct (variable_error v "calldata") as [e|]; [done|]. destruct H as (l & -> & _ & Hl). eauto.
Qed.

Lemma effective_price_some tx base_fee :
  fees_ok (dtx_tx_type tx) (dtx_fees tx) -> is_Some (effective_gas_price tx base_fee).
Proof.
  unfold effective_gas_price. destruct (dtx_tx_type tx); cbn [fees_ok]; intros Hf;
    repeat match goal with H : exists _, _ |- _ => destruct H end; subst;
    match goal with H : dtx_fees tx = _ |- _ => rewrite H end; cbn; eauto.
Qed.

Lemma of_be_hash_ok l : length l = 32%nat -> bytes_ok l -> hash_ok (of_be_bytes l).
Proof. intros Hl Hok. pose proof (of_be_bytes_bound l Hok) as H. by rewrite Hl in H. Qed.
Lemma of_be_address_ok l : length l = 20%nat -> bytes_ok l -> address_ok (of_be_bytes l).
Proof. intros Hl Hok. pose proof (of_be_bytes_bound l Hok) as H. by rewrite Hl in H. Qed.

(** C34: on ASCII input decoding never panics and reports the first error in a
    fixed order: a missing fee of the type, then the hash, the sender, the
    recipient and the call data, each malformed before it is too short or too
    long; without an error it returns a transaction within its machine types,
    with exactly the fees of its type and the other fields copied, so that its
    effective gas price exists at every base fee. *)
Theorem decode_exact input (Hascii : ascii_input input) :
  match first_error input with
  | Some e => decode_from_raw input = FailsWith e
  | None => exists tx, decode_from_raw input = Returns tx /\ decoded_tx_ok tx /\
      dtx_tx_type tx = raw_tx_type input /\ dtx_chain_id tx = raw_chain_id input /\
      dtx_nonce tx = raw_nonce input /\ dtx_value tx = raw_value input /\
      dtx_gas_limit tx = raw_gas_limit input /\
      normalize_fees input = Returns (dtx_fees tx) /\
      (forall base_fee, is_Some (effective_gas_price tx base_fee))
  end.
Proof.
  destruct Hascii as (Hh & Hs & Hto & Hc). unfold first_error, decode_from_raw.
  pose proof (normalize_fees_error input) as Hf.
  destruct (fee_error input) as [e|]; [by rewrite Hf|]. destruct Hf as (fees & Ef & Hf). rewrite Ef.
  pose proof (parse_fixed_ascii 32 _ "hash" Hh) as H1.
  destruct (fixed_error 32 _ _) as [e|]; [by cbn; rewrite H1|]. destruct H1 as (hash & -> & Lh & Bh).
  pose proof (parse_fixed_ascii 20 _ "sender" Hs) as H2.
  destruct (fixed_error 20 _ "sender") as [e|]; [by cbn; rewrite H2|]. destruct H2 as (sender & -> & Ls & Bs).
  cbn [omap list_omap id head outcome_bind].
  pose proof (to_ascii (raw_to input) Hto) as H3. cbv zeta in H3.
  destruct (optional_error (raw_to input) _) as [e|]; [by cbn; rewrite H3|].
  destruct H3 as (to & -> & Ht). cbn [omap list_omap id head outcome_bind].
  pose proof (calldata_ascii (raw_calldata input) Hc) as H4. cbv zeta in H4.
  destruct (optional_error (raw_calldata input) _) as [e|]; [by cbn; rewrite H4|].
  destruct H4 as (calldata & -> & Bc). cbn [outcome_bind]. eexists. split; [reflexivity|].
  cbn [dtx_tx_type dtx_chain_id dtx_nonce dtx_value dtx_gas_limit dtx_fees].
  split_and!; [|done..|by intros b; apply effective_price_some].
  split_and!; [by apply of_be_hash_ok|by apply of_be_address_ok| |done|done].
  destruct to as [l|]; [|done]. by apply of_be_address_ok; apply Ht.
Qed.

(** ** Concrete inputs *)
Definition sample_decoded_tx : DecodedTx :=
  {| dtx_hash := 7 * 256 ^ 31 + 5; dtx_tx_type := Eip1559; dtx_chain_id := 1; dtx_sender := 255;
     dtx_nonce := 3; dtx_to := Some 171; dtx_value := 9; dtx_gas_limit := 21000;
     dtx_fees := mkFees None (Some 70) (Some 3) None;
     dtx_calldata := [170; 187; 204; 221] |}%N.

Lemma sample_decoded_tx_ok : decoded_tx_ok sample_decoded_tx.
Proof.
  split_and!; [vm_compute; reflexivity..| |].
  - by exists 70%N, 3%N.
  - repeat (apply Forall_cons_2; [reflexivity|]). constructor.
Qed.

Lemma decode_roundtrip_witness :
  decode_from_raw (render sample_decoded_tx) = Returns sample_decoded_tx /\
  raw_to (render sample_decoded_tx) = Some "0x00000000000000000000000000000000000000ab".
Proof. split; [apply (decode_roundtrip sample_decoded_tx sample_decoded_tx_ok)|vm_compute; reflexivity]. Defined.

(** The sample with a recipient that is one digit short of 20 bytes. *)
Definition short_input : RawTxInput :=
  {| raw_hash := "0x" +:+ hex_encode (hash_bytes 5); raw_tx_type := Legacy; raw_chain_id := 1;
     raw_sender := hex_encode (address_bytes 6); raw_nonce := 0; raw_to := Some "0x0011";
     raw_value := 0; raw_gas_limit := 21000; raw_gas_price := Some 5; raw_max_fee_per_gas := None;
     raw_max_priority_fee_per_gas := None; raw_max_fee_per_blob_gas := None; raw_calldata := None |}%N.

Lemma decode_exact_witness :
  decode_from_raw short_input = FailsWith (InvalidLength "to" 20).
Proof.
  assert (ascii_input short_input) as Ha.
  { unfold ascii_input, ascii_text. cbn [raw_hash raw_sender raw_to raw_calldata short_input].
    split_and!; [apply (bool_decide_unpack _); vm_compute; exact I..|exact I]. }
  pose proof (decode_exact short_input Ha) as H.
  assert (first_error short_input = Some (InvalidLength "to" 20)) as E by (vm_compute; reflexivity).
  rewrite E in H. exact H.
Defined.

Definition set_to (to : option string) (i : RawTxInput) : RawTxInput :=
  {| raw_hash := raw_hash i; raw_tx_type := raw_tx_type i; raw_chain_id := raw_chain_id i;
     raw_sender := raw_sender i; raw_nonce := raw_nonce i; raw_to := to; raw_value := raw_value i;
     raw_gas_limit := raw_gas_limit i; raw_gas_price := raw_gas_price i;
     raw_max_fee_per_gas := raw_max_fee_per_gas i;
     raw_max_priority_fee_per_gas := raw_max_priority_fee_per_gas i;
     raw_max_fee_per_blob_gas := raw_max_fee_per_blob_gas i; raw_calldata := raw_calldata i |}.

#[local] Arguments hex_value : simpl never.

(** The hexadecimal parser accepts and rejects more than hexadecimal text.
    A plus sign is taken for a digit's sign, so a byte below sixteen has a
    second spelling; and on text whose offset two is inside a character, such
    as an accented letter after one digit, the slice panics instead of
    reporting the invalid field, so one malformed recipient aborts the decoder. *)
Theorem hex_quirks :
  (forall d field, (d < 16)%N ->
     parse_variable_hex ("0x+" +:+ String (hex_digit d) "") field = Returns [d] /\
     parse_variable_hex ("0x0" +:+ String (hex_digit d) "") field = Returns [d]) /\
  (forall value b0 b1 c rest field,
     strip_0x (str_bytes value) = b0 :: b1 :: c :: rest -> continuation c = true ->
     Nat.even (length rest) = false -> parse_variable_hex value field = Panics) /\
  decode_from_raw (set_to (Some "aéb") short_input) = Panics.
Proof.
  split_and!; [| |vm_compute; reflexivity].
  - intros d field Hd. destruct (hex_digit_ok d Hd) as (E & Hne & _).
    unfold parse_variable_hex. rewrite !str_bytes_app.
    change (str_bytes (String (hex_digit d) "")) with [Ascii.N_of_ascii (hex_digit d)].
    revert E. generalize (Ascii.N_of_ascii (hex_digit d)) as digit. intros digit E.
    change (str_bytes "0x+") with [48; 120; 43]%N. change (str_bytes "0x0") with [48; 120; 48]%N.
    cbn. unfold byte_from_hex. cbn. change (hex_value 48) with (Some 0%N). by rewrite E.
  - intros value b0 b1 c rest field E Hc He. unfold parse_variable_hex. rewrite E. cbn.
    destruct (length rest) as [|n]; [done|]. rewrite Nat.even_succ, <-Nat.negb_even in He.
    cbn [Nat.even]. rewrite negb_false_iff in He. rewrite He. cbn. by rewrite Hc.
Qed.
