(* ===== verification/LiveHex.v ===== *)
(** * LiveHex: hexadecimal text (crates/runtime-core/src/live_rpc.rs)

    The lenient parsers of RPC answers and the formatters of identifiers.
    Slicing a [str] inside a character panics, so the byte parsers have three
    outcomes; the parser of crates/ingest ([TxDecode]) is shown to agree. *)
From stdpp Require Import base gmap strings list numbers sorting pretty.
From S2P Require Import Prelude Common TxDecode.

(** [Some], [None] or a panic. *)
Inductive lookup_outcome (A : Type) :=
  | Found (a : A)
  | Absent
  | Panicked.
Arguments Found {A} a.
Arguments Absent {A}.
Arguments Panicked {A}.

#[export] Instance lookup_outcome_fmap : FMap lookup_outcome := fun A B f o =>
  match o with Found a => Found (f a) | Absent => Absent | Panicked => Panicked end.
#[export] Instance lookup_outcome_bind : MBind lookup_outcome := fun A B k o =>
  match o with Found a => k a | Absent => Absent | Panicked => Panicked end.

(** The pairs, collected up to the first that is no byte. *)
Fixpoint live_pairs (bytes : list N) : lookup_outcome (list N) :=
  match bytes with
  | b0 :: b1 :: rest =>
      if negb (char_boundary rest) then Panicked
      else match byte_from_hex b0 b1 with
           | None => Absent
           | Some v => cons v <$> live_pairs rest
           end
  | _ => Found []
  end.

Definition parse_hex_bytes (value : string) : lookup_outcome (list N) :=
  let trimmed := strip_0x (str_bytes value) in
  match trimmed with
  | [] => Found []
  | _ => if negb (Nat.even (length trimmed)) then Absent else live_pairs trimmed
  end.

Definition live_parse_fixed_hex (n : nat) (value : string) : lookup_outcome (list N) :=
  bytes ← parse_hex_bytes value;
  if (length bytes =? n)%nat then Found bytes else Absent.

(** [from_str_radix(_, 16)] of an unsigned type with maximum [max]: an optional
    plus sign, at least one digit, no overflow. *)
Fixpoint radix_digits (max acc : N) (bytes : list N) : option N :=
  match bytes with
  | [] => Some acc
  | b :: rest =>
      d ← hex_value b;
      if (acc * 16 + d <=? max)%N then radix_digits max (acc * 16 + d) rest else None
  end.
Definition from_str_radix_16 (max : N) (bytes : list N) : option N :=
  let digits := match bytes with 43%N :: rest => rest | _ => bytes end in
  match digits with [] => None | _ => radix_digits max 0 digits end.

Definition parse_hex_u64 (value : string) : option N :=
  match strip_0x (str_bytes value) with
  | [] => Some 0%N
  | trimmed => from_str_radix_16 u64_max trimmed
  end.
Definition parse_hex_u128 (value : string) : option N :=
  match strip_0x (str_bytes value) with
  | [] => Some 0%N
  | trimmed => from_str_radix_16 u128_max trimmed
  end.

Definition format_fixed_hex (bytes : list N) : string := "0x" +:+ hex_encode bytes.
Definition format_optional_fixed_hex (bytes : option (list N)) : string :=
  default "null" (format_fixed_hex <$> bytes).
Definition format_optional_u64 (value : option N) : string := default "null" (pretty <$> value).
Definition format_optional_u128 (value : option N) : string := default "null" (pretty <$> value).
Definition format_method_selector_hex (selector : option (list N)) : string :=
  match selector with
  | Some selector => "0x" +:+ String.concat "" (hex_byte <$> selector)
  | None => "null"
  end.

(** ** Theorems *)

Definition of_outcome {A} (o : outcome A) : lookup_outcome A :=
  match o with Returns a => Found a | FailsWith _ => Absent | Panics => Panicked end.

Lemma live_pairs_agree field bytes : live_pairs bytes = of_outcome (parse_pairs bytes field).
Proof.
  induction bytes as [|b|b0 b1 l IH] using pairs_ind; [done..|]. cbn [live_pairs parse_pairs].
  destruct (negb (char_boundary l)); [done|]. destruct (byte_from_hex b0 b1); [|done].
  rewrite IH. by destruct (parse_pairs l field).
Qed.

(** The two byte parsers of the repository accept the same texts. *)
Lemma hex_parsers_agree value field :
  parse_hex_bytes value = of_outcome (parse_variable_hex value field).
Proof.
  unfold parse_hex_bytes, parse_variable_hex. destruct (strip_0x (str_bytes value)) as [|b l]; [done|].
  destruct (negb _); [done|]. apply live_pairs_agree.
Qed.

Lemma fixed_hex_parsers_agree n value field :
  live_parse_fixed_hex n value = of_outcome (parse_fixed_hex n value field).
Proof.
  unfold live_parse_fixed_hex, parse_fixed_hex. rewrite (hex_parsers_agree _ field).
  destruct (parse_variable_hex value field) as [l| |]; [|done..].
  change (mbind ?k (of_outcome (Returns l))) with (k l).
  cbn [outcome_bind]. by destruct (length l =? n)%nat.
Qed.

Lemma parse_format_fixed n bytes :
  length bytes = n -> bytes_ok bytes -> live_parse_fixed_hex n (format_fixed_hex bytes) = Found bytes.
Proof.
  intros Hn Hb. rewrite (fixed_hex_parsers_agree _ _ ""). unfold format_fixed_hex.
  by rewrite parse_fixed_hex_encode.
Qed.

Lemma format_fixed_hex_inj l1 l2 :
  length l1 = length l2 -> bytes_ok l1 -> bytes_ok l2 -> format_fixed_hex l1 = format_fixed_hex l2 -> l1 = l2.
Proof.
  intros Hl H1 H2 E. pose proof (parse_format_fixed (length l2) l1 Hl H1) as P1.
  rewrite E, parse_format_fixed in P1 by done. congruence.
Qed.

Lemma format_fixed_hash h : format_fixed_hex (hash_bytes h) = format_hash h.
Proof. done. Qed.

Lemma format_hash_inj h1 h2 : hash_ok h1 -> hash_ok h2 -> format_hash h1 = format_hash h2 -> h1 = h2.
Proof.
  intros H1 H2 E. apply hash_bytes_inj; [done..|]. apply format_fixed_hex_inj; [|apply be_bytes_digit..|done].
  unfold hash_bytes. by rewrite !length_be_bytes.
Qed.

Lemma parse_format_hash h :
  hash_ok h -> of_be_bytes <$> live_parse_fixed_hex 32 (format_hash h) = Found h.
Proof.
  intros Hh. rewrite <- format_fixed_hash, parse_format_fixed; [|apply length_be_bytes|apply be_bytes_digit].
  change (of_be_bytes <$> Found (hash_bytes h)) with (Found (of_be_bytes (hash_bytes h))). f_equal.
  unfold hash_bytes. rewrite of_be_be_bytes. by apply N.mod_small.
Qed.

(** The number the digits spell. *)
Definition radix_value (acc : N) (ds : list N) : N := foldl (fun a d => a * 16 + d)%N acc ds.

Lemma radix_value_ge acc ds : (acc <= radix_value acc ds)%N.
Proof. revert acc. induction ds as [|d ds IH]; intros acc; cbn; [lia|]. etrans; [|apply IH]. lia. Qed.

Lemma radix_digits_exact max acc bytes v :
  (acc <= max)%N ->
  radix_digits max acc bytes = Some v <->
  exists ds, mapM hex_value bytes = Some ds /\ v = radix_value acc ds /\ (v <= max)%N.
Proof.
  revert acc. induction bytes as [|b l IH]; intros acc Hacc; cbn [radix_digits].
  { split; [intros [= <-]; by exists []|]. by intros (ds & [= <-] & -> & _). }
  cbn [mapM]. destruct (hex_value b) as [d|]; cbn; [|split; [done|by intros (? & ? & _)]].
  destruct (N.leb_spec (acc * 16 + d) max) as [H|H].
  - rewrite IH by done. split.
    + intros (ds & E & -> & Hm). exists (d :: ds). by rewrite E.
    + intros (ds & E & -> & Hm). destruct (mapM hex_value l) as [ds'|]; [|done].
      cbn in E. injection E as <-. by exists ds'.
  - split; [done|]. intros (ds & E & -> & Hm). destruct (mapM hex_value l) as [ds'|]; [|done].
    cbn in E. injection E as <-.
    change (radix_value acc (d :: ds')) with (radix_value (acc * 16 + d) ds') in Hm. pose proof (radix_value_ge (acc * 16 + d) ds'). lia.
Qed.

(** A number within the type, written in hexadecimal digits, is read back. *)
Lemma from_str_radix_exact max b l v :
  b <> 43%N -> from_str_radix_16 max (b :: l) = Some v <->
  exists ds, mapM hex_value (b :: l) = Some ds /\ v = radix_value 0 ds /\ (v <= max)%N.
Proof.
  intros Hb. unfold from_str_radix_16.
  replace (match b :: l with 43%N :: rest => rest | _ => b :: l end) with (b :: l).
  - apply radix_digits_exact. lia.
  - destruct b as [|p]; [done|]. repeat (destruct p as [p|p|]; try done).
Qed.
