(* ===== verification/SeenWindow.v ===== *)
(** * SeenWindow: the bounded memory of hashes already accepted

    Both ingest services (crates/ingest/src/p2p.rs and rpc.rs) remember the
    hashes they accepted in a set with an insertion queue beside it, and evict
    from the front of the queue while it is longer than its bound.  The memory
    is then the last [max] accepted hashes ([evict_oldest_spec], [window_snoc]),
    so two acceptances of one hash are more than [max] acceptances apart
    ([spaced_snoc]).  [numbered] says that the events a service emits carry
    consecutive sequence ids. *)
From stdpp Require Import base gmap strings list numbers sorting.
From S2P Require Import Prelude Common EventLog.

Definition last_n {A} (n : N) (l : list A) : list A := drop (length l - N.to_nat n) l.

(** [while seen_order.len() > max { pop_front; remove }]. *)
Fixpoint evict_oldest {A M} (remove : A -> M -> M) (max : N) (order : list A) (m : M) : list A * M :=
  match order with
  | [] => ([], m)
  | oldest :: rest =>
      if (max <? usize_of (length order))%N then evict_oldest remove max rest (remove oldest m)
      else (order, m)
  end.

Section last_n.
Context {A : Type}.
Implicit Types (l : list A).

Lemma length_last_n n l : length (last_n n l) = Nat.min (N.to_nat n) (length l).
Proof. unfold last_n. rewrite length_drop. lia. Qed.

Lemma last_n_all n l : (length l <= N.to_nat n)%nat -> last_n n l = l.
Proof. intros H. unfold last_n. by replace (length l - N.to_nat n)%nat with 0%nat by lia. Qed.

Lemma last_n_suffix n l : exists l0, l = l0 ++ last_n n l.
Proof. exists (take (length l - N.to_nat n) l). unfold last_n. by rewrite take_drop. Qed.

Lemma window_snoc n l x : last_n n (last_n n l ++ [x]) = last_n n (l ++ [x]).
Proof.
  destruct (le_gt_dec (length l) (N.to_nat n)) as [Hle|Hgt]; [by rewrite (last_n_all n l)|].
  destruct (decide (n = 0%N)) as [->|Hn].
  { unfold last_n. rewrite !drop_ge; [done|lia|rewrite ?length_app, ?length_drop; lia]. }
  unfold last_n at 1 3. rewrite !length_app, length_last_n, Nat.min_l by lia. cbn [length].
  rewrite !drop_app_le by (rewrite ?length_last_n; lia). f_equal.
  unfold last_n. rewrite drop_drop. f_equal. lia.
Qed.

Lemma evict_oldest_spec {M} (remove : A -> M -> M) max order m :
  evict_oldest remove max order m =
    (last_n max order, foldl (fun m x => remove x m) m (take (length order - N.to_nat max) order)).
Proof.
  revert m. induction order as [|x order IH]; intros m; [done|]. cbn [evict_oldest].
  destruct (N.ltb_spec max (usize_of (length (x :: order)))) as [Hlt|Hge]; unfold usize_of in *; cbn [length] in *.
  - rewrite IH. unfold last_n at 2. cbn [length].
    replace (S (length order) - N.to_nat max)%nat with (S (length order - N.to_nat max)) by lia. done.
  - unfold last_n. cbn [length]. by replace (S (length order) - N.to_nat max)%nat with 0%nat by lia.
Qed.

Lemma last_n_app n l1 l2 x : x ∈ last_n n l2 -> x ∈ last_n n (l1 ++ l2).
Proof.
  unfold last_n. intros Hx. rewrite length_app.
  destruct (le_gt_dec (N.to_nat n) (length l2)) as [Hle|Hgt].
  - rewrite drop_app_ge by lia.
    by replace (length l1 + length l2 - N.to_nat n - length l1)%nat with (length l2 - N.to_nat n)%nat by lia.
  - rewrite drop_app_le by lia. apply elem_of_app. right.
    by replace (length l2 - N.to_nat n)%nat with 0%nat in Hx by lia.
Qed.

(** Equal elements are more than [n] places apart. *)
Definition spaced (n : N) l : Prop :=
  forall i j x, (i < j)%nat -> l !! i = Some x -> l !! j = Some x -> (N.to_nat n < j - i)%nat.

Lemma spaced_nil n : spaced n [].
Proof. by intros i j x _ H. Qed.

Lemma spaced_snoc n l x : spaced n l -> x ∉ last_n n l -> spaced n (l ++ [x]).
Proof.
  intros Hs Hx i j y Hij Hi Hj. apply lookup_app_Some in Hj as [Hj|[Hlen Hj]].
  - rewrite lookup_app_l in Hi by (apply lookup_lt_Some in Hj; lia). by eapply Hs.
  - apply list_lookup_singleton_Some in Hj as [Hj <-].
    rewrite lookup_app_l in Hi by lia.
    destruct (le_gt_dec (length l - N.to_nat n) i) as [Hle|Hgt]; [|lia].
    exfalso. apply Hx. unfold last_n. apply list_elem_of_lookup.
    exists (i - (length l - N.to_nat n))%nat. rewrite lookup_drop.
    by replace (length l - N.to_nat n + (i - (length l - N.to_nat n)))%nat with i by lia.
Qed.

Lemma spaced_window_NoDup n l : spaced n l -> NoDup (last_n n l).
Proof.
  intros Hs. apply NoDup_alt. intros i j x Hi Hj. unfold last_n in *.
  rewrite lookup_drop in Hi, Hj.
  assert (forall i j, (i < j)%nat -> l !! (length l - N.to_nat n + i)%nat = Some x ->
            l !! (length l - N.to_nat n + j)%nat = Some x -> False) as Habs.
  { intros i' j' Hij Hi' Hj'. assert (N.to_nat n < (length l - N.to_nat n + j') - (length l - N.to_nat n + i'))%nat
      by (apply (Hs _ _ x); [lia|done..]).
    apply lookup_lt_Some in Hj'. lia. }
  destruct (Nat.lt_trichotomy i j) as [?|[?|?]]; [exfalso; eauto|done|exfalso; eauto].
Qed.
End last_n.

(** The set beside the queue: removing the evicted prefix leaves the rest. *)
Lemma dom_evict {V} (m : gmap N V) l k :
  NoDup l -> dom m = list_to_set l ->
  dom (foldl (fun m x => delete x m) m (take k l)) = (list_to_set (drop k l) : gset N).
Proof.
  revert m k. induction l as [|x l IH]; intros m [|k] Hnd Hdom; try done.
  apply NoDup_cons in Hnd as [Hx Hnd]. cbn [take drop foldl]. apply IH; [done|].
  rewrite dom_delete_L, Hdom. cbn. apply set_eq. intros y.
  rewrite elem_of_difference, elem_of_union, !elem_of_singleton, elem_of_list_to_set.
  split; [intros [[->|?] ?]; done|]. intros Hy. split; [by right|]. by intros ->.
Qed.

Lemma set_evict (s : gset N) l k :
  NoDup l -> s = list_to_set l ->
  foldl (fun s x => s ∖ {[x]}) s (take k l) = list_to_set (drop k l).
Proof.
  revert s k. induction l as [|x l IH]; intros s [|k] Hnd ->; try done.
  apply NoDup_cons in Hnd as [Hx Hnd]. cbn [take drop foldl]. apply IH; [done|].
  cbn. apply set_eq. intros y.
  rewrite elem_of_difference, elem_of_union, !elem_of_singleton, elem_of_list_to_set.
  split; [intros [[->|?] ?]; done|]. intros Hy. split; [by right|]. by intros ->.
Qed.

(** The events of a service are numbered consecutively from [n]. *)
Definition numbered (n : N) (events : list EventEnvelope) : Prop :=
  forall i e, events !! i = Some e -> seq_id e = (n + usize_of i)%N.

Lemma numbered_nil n : numbered n [].
Proof. by intros i e H. Qed.

Lemma numbered_cons n e events :
  seq_id e = n -> numbered (n + 1) events -> numbered n (e :: events).
Proof.
  intros He Hes [|i] e' Hi; cbn in Hi; [injection Hi as <-; unfold usize_of; lia|].
  rewrite (Hes i e' Hi). unfold usize_of. lia.
Qed.

Lemma numbered_app n l1 l2 :
  numbered n l1 -> numbered (n + usize_of (length l1)) l2 -> numbered n (l1 ++ l2).
Proof.
  intros H1 H2 i e Hi. apply lookup_app_Some in Hi as [Hi|[Hlen Hi]]; [by apply H1|].
  rewrite (H2 _ _ Hi). unfold usize_of. lia.
Qed.
