(* ===== verification/IngestP2p.v ===== *)
(** * IngestP2p: the devp2p ingest service (crates/ingest/src/p2p.rs)

    Announcements with deduplication and a bounded fetch queue, pooled
    transactions, and the propagation statistics per peer.  The asynchronous
    facade of devp2p_runtime.rs forwards each call to this service. *)
From Stdlib Require Import QArith Qpower Lqa.
From stdpp Require Import base gmap strings list numbers sorting pretty.
From S2P Require Import Prelude F64 Common EventLog SeenWindow.

Record P2pIngestConfig := mkP2pConfig {
  fetch_queue_capacity : N;
  p2p_max_seen_hashes : N;
}.
Definition p2p_config_default : P2pIngestConfig :=
  {| fetch_queue_capacity := 4096; p2p_max_seen_hashes := 250000 |}.

Record P2pMetrics := mkP2pMetrics {
  announcements_total : N;
  duplicates_dropped_total : N;
  queue_dropped_total : N;
  queue_depth_current : N;
  queue_depth_peak : N;
  tx_full_received_total : N;
  tx_decode_emitted_total : N;
}.

Record PropagationStats := mkPropagationStats {
  ps_count : N;
  ps_avg_delay_ms : N;
  ps_p99_delay_ms : N;
}.

Record GetPooledTransactionsRequest := mkRequest {
  gp_peer_id : PeerId;
  gp_hashes : list TxHash;
}.

Record P2pTxPayload := mkP2pTx {
  pt_hash : TxHash;
  pt_tx_type : N;
  pt_sender : Address;
  pt_nonce : N;
}.

(** [first_seen] keeps the wall-clock time of the first sighting. *)
Record P2pIngestService := mkP2p {
  p2_config : P2pIngestConfig;
  p2_source_id : SourceId;
  p2_seq_id : N;
  p2_first_seen : gmap TxHash Z;
  p2_seen_order : list TxHash;
  p2_fetch_queue : list GetPooledTransactionsRequest;
  p2_delays : gmap PeerId (list N);
  p2_metrics : P2pMetrics;
}.

Definition p2p_new (config : P2pIngestConfig) (source_id : SourceId) : P2pIngestService :=
  {| p2_config := {| fetch_queue_capacity := N.max (fetch_queue_capacity config) 1;
                     p2p_max_seen_hashes := N.max (p2p_max_seen_hashes config) 1 |};
     p2_source_id := source_id;
     p2_seq_id := 1;
     p2_first_seen := ∅;
     p2_seen_order := [];
     p2_fetch_queue := [];
     p2_delays := ∅;
     p2_metrics := mkP2pMetrics 0 0 0 0 0 0 0 |}%N.

(** Field updates. *)
Definition with_seq (n : N) (s : P2pIngestService) : P2pIngestService :=
  mkP2p (p2_config s) (p2_source_id s) n (p2_first_seen s) (p2_seen_order s) (p2_fetch_queue s)
    (p2_delays s) (p2_metrics s).
Definition with_seen (seen : gmap TxHash Z) (order : list TxHash) (s : P2pIngestService) : P2pIngestService :=
  mkP2p (p2_config s) (p2_source_id s) (p2_seq_id s) seen order (p2_fetch_queue s)
    (p2_delays s) (p2_metrics s).
Definition with_queue (q : list GetPooledTransactionsRequest) (s : P2pIngestService) : P2pIngestService :=
  mkP2p (p2_config s) (p2_source_id s) (p2_seq_id s) (p2_first_seen s) (p2_seen_order s) q
    (p2_delays s) (p2_metrics s).
Definition with_delays (d : gmap PeerId (list N)) (s : P2pIngestService) : P2pIngestService :=
  mkP2p (p2_config s) (p2_source_id s) (p2_seq_id s) (p2_first_seen s) (p2_seen_order s)
    (p2_fetch_queue s) d (p2_metrics s).
Definition with_metrics (f : P2pMetrics -> P2pMetrics) (s : P2pIngestService) : P2pIngestService :=
  mkP2p (p2_config s) (p2_source_id s) (p2_seq_id s) (p2_first_seen s) (p2_seen_order s)
    (p2_fetch_queue s) (p2_delays s) (f (p2_metrics s)).
Definition add_announcements (n : N) (m : P2pMetrics) : P2pMetrics :=
  mkP2pMetrics (announcements_total m + n) (duplicates_dropped_total m) (queue_dropped_total m)
    (queue_depth_current m) (queue_depth_peak m) (tx_full_received_total m) (tx_decode_emitted_total m).
Definition count_duplicate (m : P2pMetrics) : P2pMetrics :=
  mkP2pMetrics (announcements_total m) (duplicates_dropped_total m + 1) (queue_dropped_total m)
    (queue_depth_current m) (queue_depth_peak m) (tx_full_received_total m) (tx_decode_emitted_total m).
Definition count_queue_drop (m : P2pMetrics) : P2pMetrics :=
  mkP2pMetrics (announcements_total m) (duplicates_dropped_total m) (queue_dropped_total m + 1)
    (queue_depth_current m) (queue_depth_peak m) (tx_full_received_total m) (tx_decode_emitted_total m).
Definition set_depth (depth : N) (m : P2pMetrics) : P2pMetrics :=
  mkP2pMetrics (announcements_total m) (duplicates_dropped_total m) (queue_dropped_total m)
    depth (queue_depth_peak m) (tx_full_received_total m) (tx_decode_emitted_total m).
Definition raise_peak (depth : N) (m : P2pMetrics) : P2pMetrics :=
  mkP2pMetrics (announcements_total m) (duplicates_dropped_total m) (queue_dropped_total m)
    (queue_depth_current m) (N.max (queue_depth_peak m) depth) (tx_full_received_total m)
    (tx_decode_emitted_total m).
Definition count_full_received (m : P2pMetrics) : P2pMetrics :=
  mkP2pMetrics (announcements_total m) (duplicates_dropped_total m) (queue_dropped_total m)
    (queue_depth_current m) (queue_depth_peak m) (tx_full_received_total m + 1) (tx_decode_emitted_total m).
Definition count_decode_emitted (m : P2pMetrics) : P2pMetrics :=
  mkP2pMetrics (announcements_total m) (duplicates_dropped_total m) (queue_dropped_total m)
    (queue_depth_current m) (queue_depth_peak m) (tx_full_received_total m) (tx_decode_emitted_total m + 1).

Definition p2p_new_event (now_unix_ms : Z) (now_mono_ns : N) (p : EventPayload) (s : P2pIngestService) :
    P2pIngestService * EventEnvelope :=
  (with_seq (p2_seq_id s + 1) s,
   mkEnvelope (p2_seq_id s) now_unix_ms now_mono_ns (p2_source_id s) p).

Definition p2p_drop_reason (s : P2pIngestService) (reason queue_name : string) (peer_id : PeerId)
    (depth_current : N) : string :=
  reason +:+ ";lane=p2p;source=" +:+ p2_source_id s +:+ ";peer=" +:+ peer_id +:+
  ";queue=" +:+ queue_name +:+ ";depth_current=" +:+ pretty depth_current +:+
  ";depth_peak=" +:+ pretty (queue_depth_peak (p2_metrics s)).

(** [x as u32] of an [i64]. *)
Definition i64_as_u32 (z : Z) : N := Z.to_N (z mod 2 ^ 32).

Definition p2p_remember_hash (hash : TxHash) (now_unix_ms : Z) (s : P2pIngestService) : P2pIngestService :=
  let '(order, seen) :=
    evict_oldest delete (p2p_max_seen_hashes (p2_config s)) (p2_seen_order s ++ [hash])
      (<[hash := now_unix_ms]> (p2_first_seen s)) in
  with_seen seen order s.

Definition queue_len (s : P2pIngestService) : N := usize_of (length (p2_fetch_queue s)).

(** The body of the loop over the announced hashes. *)
Definition announce_hash (peer_id : PeerId) (now_unix_ms : Z) (now_mono_ns : N)
    (s : P2pIngestService) (hash : TxHash) : P2pIngestService * EventEnvelope :=
  match p2_first_seen s !! hash with
  | Some first_seen =>
      let delay := i64_as_u32 (i64_sat_sub now_unix_ms first_seen) in
      let s1 := with_metrics count_duplicate s in
      let reason := p2p_drop_reason s1 "Duplicate" "p2p.fetch" peer_id (queue_len s1) in
      let '(s2, event) := p2p_new_event now_unix_ms now_mono_ns (PTxDropped (mkTxDropped hash reason)) s1 in
      (with_delays (<[peer_id := default [] (p2_delays s2 !! peer_id) ++ [delay]]> (p2_delays s2)) s2,
       event)
  | None =>
      if (fetch_queue_capacity (p2_config s) <=? queue_len s)%N then
        let s1 := with_metrics (set_depth (queue_len s)) (with_metrics count_queue_drop s) in
        let reason := p2p_drop_reason s1 "QueueFull" "p2p.fetch" peer_id (queue_len s1) in
        p2p_new_event now_unix_ms now_mono_ns (PTxDropped (mkTxDropped hash reason)) s1
      else
        let s1 := p2p_remember_hash hash now_unix_ms s in
        let s2 := with_queue (p2_fetch_queue s1 ++ [mkRequest peer_id [hash]]) s1 in
        let s3 := with_metrics (set_depth (queue_len s2)) s2 in
        let s4 := with_metrics (raise_peak (queue_len s3)) s3 in
        p2p_new_event now_unix_ms now_mono_ns
          (PTxSeen (mkTxSeen hash peer_id now_unix_ms now_mono_ns)) s4
  end.

(** A loop that pushes one event per element. *)
Fixpoint emit_loop {A S} (body : S -> A -> S * EventEnvelope) (s : S) (l : list A) : S * list EventEnvelope :=
  match l with
  | [] => (s, [])
  | x :: l' =>
      let '(s1, event) := body s x in
      let '(s2, events) := emit_loop body s1 l' in (s2, event :: events)
  end.

Definition handle_new_pooled_transaction_hashes (peer_id : PeerId) (hashes : list TxHash)
    (now_unix_ms : Z) (now_mono_ns : N) (s : P2pIngestService) : P2pIngestService * list EventEnvelope :=
  let s1 := with_metrics (add_announcements (usize_of (length hashes))) s in
  emit_loop (announce_hash peer_id now_unix_ms now_mono_ns) s1 hashes.

Definition dequeue_get_pooled_transactions (s : P2pIngestService) :
    P2pIngestService * option GetPooledTransactionsRequest :=
  let s1 := with_queue (tail (p2_fetch_queue s)) s in
  (with_metrics (set_depth (queue_len s1)) s1, head (p2_fetch_queue s)).

Definition p2p_decoded (tx : P2pTxPayload) : TxDecoded :=
  {| dec_hash := pt_hash tx; dec_tx_type := pt_tx_type tx; dec_sender := pt_sender tx;
     dec_nonce := pt_nonce tx; dec_chain_id := None; dec_to := None; dec_value_wei := None;
     dec_gas_limit := None; dec_gas_price_wei := None; dec_max_fee_per_gas_wei := None;
     dec_max_priority_fee_per_gas_wei := None; dec_max_fee_per_blob_gas_wei := None;
     dec_calldata_len := None |}.

Definition pooled_tx (now_unix_ms : Z) (now_mono_ns : N) (s : P2pIngestService) (tx : P2pTxPayload) :
    P2pIngestService * list EventEnvelope :=
  let s1 := with_metrics count_full_received s in
  let '(s2, fetched) :=
    p2p_new_event now_unix_ms now_mono_ns (PTxFetched (mkTxFetched (pt_hash tx) now_unix_ms)) s1 in
  let s3 := with_metrics count_decode_emitted s2 in
  let '(s4, decoded) := p2p_new_event now_unix_ms now_mono_ns (PTxDecoded (p2p_decoded tx)) s3 in
  (s4, [fetched; decoded]).

Fixpoint handle_pooled_transactions (txs : list P2pTxPayload) (now_unix_ms : Z) (now_mono_ns : N)
    (s : P2pIngestService) : P2pIngestService * list EventEnvelope :=
  match txs with
  | [] => (s, [])
  | tx :: txs' =>
      let '(s1, events1) := pooled_tx now_unix_ms now_mono_ns s tx in
      let '(s2, events2) := handle_pooled_transactions txs' now_unix_ms now_mono_ns s1 in
      (s2, events1 ++ events2)
  end.

(** The statistics of one peer.  [None] is the panic of the source: a division
    by a count that is a multiple of [2^32], or an index out of range. *)
Definition avg_delay (delays : list N) : option N :=
  match delays with
  | [] => Some 0%N
  | _ =>
      let total := cast 32 (foldl N.add 0%N delays) in
      let count := cast 32 (usize_of (length delays)) in
      if (count =? 0)%N then None else Some (total / count)%N
  end.

(** [((len - 1) as f64 * 0.99).round() as usize]. *)
Definition p99_index (len : N) : N :=
  f64_round (f64_mul (f64_of_N (len - 1)) (round_ratio 99 100)).

Definition p99_delay (sorted : list N) : option N :=
  match sorted with
  | [] => Some 0%N
  | _ => sorted !! N.to_nat (p99_index (usize_of (length sorted)))
  end.

Definition peer_stats (delays : list N) : option PropagationStats :=
  let sorted := sort_by N.compare delays in
  match avg_delay sorted, p99_delay sorted with
  | Some avg, Some p99 => Some (mkPropagationStats (usize_of (length sorted)) avg p99)
  | _, _ => None
  end.

(** The map of all peers, when no peer panics. *)
Definition propagation_stats_by_peer (s : P2pIngestService) : gmap PeerId (option PropagationStats) :=
  peer_stats <$> p2_delays s.

(** ** The statistics *)
Lemma foldl_add_sum (l : list N) acc : foldl N.add acc l = (acc + foldr N.add 0 l)%N.
Proof. revert acc. induction l as [|x l IH]; intros acc; cbn; [lia|]. rewrite IH. lia. Qed.

Lemma foldr_add_perm (l1 l2 : list N) : l1 ≡ₚ l2 -> foldr N.add 0%N l1 = foldr N.add 0%N l2.
Proof. induction 1; cbn; lia. Qed.

#[local] Open Scope Q_scope.

(** The index of the 99th percentile is in range, and within one half of the
    real quotient. *)
Lemma p99_index_bound len : (0 < len <= 2 ^ 53)%N -> (p99_index len < len)%N.
Proof.
  intros Hlen. unfold p99_index.
  pose proof (f64_round_spec (f64_mul (f64_of_N (len - 1)) (round_ratio 99 100))) as [Hr _].
  pose proof (f64_mul_rounds (f64_of_N (len - 1)) (round_ratio 99 100)) as Hmul.
  rewrite (f64_of_N_exact (len - 1)) in Hmul by lia. destruct Hmul as [_ Hmul].
  pose proof (round_ratio_rounds 99 100 ltac:(lia)) as [[_ H99] _].
  destruct (Hmul (len - 1)%N 0%Z ltac:(lia)) as [_ Hle].
  change (Qpower 2 0) with 1 in Hle. rewrite Qmult_1_r in Hle.
  change (ratio 99 100) with (99 # 100) in H99. unfold epsilon in H99.
  pose proof (NQ_nonneg (len - 1)).
  specialize (Hle ltac:(nra)).
  assert (NQ (f64_round (f64_mul (f64_of_N (len - 1)) (round_ratio 99 100))) < NQ len) as H1; [|by apply NQ_lt].
  assert (NQ len == NQ (len - 1) + 1) as ->; [|lra].
  change 1 with (NQ 1). rewrite <-NQ_add. by rewrite N.sub_add by lia.
Qed.

(** ... and is the integer nearest to 99 hundredths of the last index. *)
Lemma p99_index_near len :
  (0 < len <= 2 ^ 32)%N ->
  (99 * (len - 1) <= 100 * p99_index len + 50)%N /\ (100 * p99_index len <= 99 * (len - 1) + 50)%N.
Proof.
  intros Hlen. unfold p99_index.
  pose proof (f64_round_spec (f64_mul (f64_of_N (len - 1)) (round_ratio 99 100))) as [Hr1 Hr2].
  pose proof (f64_mul_rounds (f64_of_N (len - 1)) (round_ratio 99 100)) as Hmul.
  rewrite (f64_of_N_exact (len - 1)) in Hmul by lia. destruct Hmul as [[Hm1 Hm2] _].
  pose proof (round_ratio_rounds 99 100 ltac:(lia)) as [[H1 H2] _].
  change (ratio 99 100) with (99 # 100) in H1, H2. unfold epsilon in *.
  assert (NQ (len - 1) <= NQ (2 ^ 32)) as Hn by (apply NQ_le; lia).
  change (NQ (2 ^ 32)) with (4294967296 # 1) in Hn. pose proof (NQ_nonneg (len - 1)) as H0.
  revert Hr1 Hr2 Hm1 Hm2 H1 H2.
  generalize (f64_val (round_ratio 99 100)) as c.
  generalize (f64_val (f64_mul (f64_of_N (len - 1)) (round_ratio 99 100))) as v.
  generalize (f64_round (f64_mul (f64_of_N (len - 1)) (round_ratio 99 100))) as r.
  intros r v c Hr1 Hr2 Hm1 Hm2 H1 H2.
  assert (NQ (len - 1) * c <= NQ (len - 1) * (99 # 100) + (1 # 1000)) by nra.
  assert (NQ (len - 1) * (99 # 100) - (1 # 1000) <= NQ (len - 1) * c) by nra.
  assert (NQ (len - 1) * c <= (8589934592 # 1)) by nra.
  assert (0 <= NQ (len - 1) * c) by nra.
  split; apply N.lt_succ_r, NQ_lt; rewrite <-N.add_1_r, !NQ_add, !NQ_mul;
    change (NQ 99) with (99 # 1); change (NQ 100) with (100 # 1); change (NQ 50) with (50 # 1);
    change (NQ 1) with 1; nra.
Qed.

Lemma p99_delay_ne l : l <> [] -> p99_delay l = l !! N.to_nat (p99_index (usize_of (length l))).
Proof. by destruct l. Qed.

Lemma avg_delay_ne l :
  l <> [] -> (usize_of (length l) < 2 ^ 32)%N ->
  avg_delay l = Some (cast 32 (foldr N.add 0 l) / usize_of (length l))%N.
Proof.
  intros Hne Hlen. assert (usize_of (length l) <> 0)%N as H0 by (unfold usize_of; destruct l; [done|cbn; lia]).
  unfold avg_delay. destruct l as [|x l]; [done|]. rewrite foldl_add_sum, N.add_0_l. cbv zeta.
  unfold cast at 1 3. rewrite !N.mod_small by done. by destruct (N.eqb_spec (usize_of (length (x :: l))) 0).
Qed.

(** The propagation statistics of a peer never panic below [2^32] recorded
    delays: the count is the number of delays, the 99th percentile is the
    recorded delay at the rank nearest to 99 hundredths of the last one (the
    floating-point product never moves it), and the average is the exact
    truncated mean as long as the delays sum to less than [2^32] milliseconds. *)
Theorem propagation_stats_exact delays
  (Hne : delays <> []) (Hlen : (usize_of (length delays) < 2 ^ 32)%N) :
  exists st rank, peer_stats delays = Some st /\
    ps_count st = usize_of (length delays) /\
    sort_by N.compare delays !! N.to_nat rank = Some (ps_p99_delay_ms st) /\
    (99 * (usize_of (length delays) - 1) <= 100 * rank + 50)%N /\
    (100 * rank <= 99 * (usize_of (length delays) - 1) + 50)%N /\
    ((foldr N.add 0 delays < 2 ^ 32)%N ->
     ps_avg_delay_ms st = (foldr N.add 0 delays / usize_of (length delays))%N).
Proof.
  set (len := usize_of (length delays)) in *.
  assert (0 < len)%N as Hpos by (subst len; unfold usize_of; destruct delays; [done|cbn; lia]).
  set (sorted := sort_by N.compare delays).
  assert (sorted <> []) as Hs.
  { intros E. apply Hne, Permutation_nil_r. rewrite <-E. subst sorted. symmetry. apply sort_by_perm. }
  assert (usize_of (length sorted) = len) as El by (subst sorted len; by rewrite length_sort_by).
  destruct (lookup_lt_is_Some_2 sorted (N.to_nat (p99_index len))) as [p Hp].
  { pose proof (p99_index_bound len ltac:(lia)) as H. unfold usize_of in El. lia. }
  exists (mkPropagationStats len (cast 32 (foldr N.add 0 delays) / len)%N p), (p99_index len).
  destruct (p99_index_near len ltac:(lia)) as [H1 H2].
  split_and!; [|done|done|done|done|].
  - unfold peer_stats. fold sorted. rewrite avg_delay_ne, p99_delay_ne, El, Hp by (rewrite ?El; done).
    subst sorted. by rewrite (foldr_add_perm _ _ (sort_by_perm N.compare delays)).
  - intros Hsum. cbn [ps_avg_delay_ms]. unfold cast. by rewrite N.mod_small.
Qed.

#[local] Close Scope Q_scope.

(** ** The abstract service

    What was accepted, in order, and what is still to be fetched: no sets, no
    metrics, no sequence numbers. *)
Record AbsP2p := mkAbs {
  ab_accepted : list TxHash;
  ab_queue : list (PeerId * TxHash);
}.

Inductive verdict := VSeen | VDuplicate | VQueueFull | VFetched | VDecoded.

Definition abs_announce (cap max : N) (peer : PeerId) (a : AbsP2p) (h : TxHash) : AbsP2p * verdict :=
  if bool_decide (h ∈ last_n max (ab_accepted a)) then (a, VDuplicate)
  else if (cap <=? usize_of (length (ab_queue a)))%N then (a, VQueueFull)
  else (mkAbs (ab_accepted a ++ [h]) (ab_queue a ++ [(peer, h)]), VSeen).

Fixpoint abs_announce_all (cap max : N) (peer : PeerId) (a : AbsP2p) (hs : list TxHash) :
    AbsP2p * list (TxHash * verdict) :=
  match hs with
  | [] => (a, [])
  | h :: hs' =>
      let '(a1, v) := abs_announce cap max peer a h in
      let '(a2, vs) := abs_announce_all cap max peer a1 hs' in (a2, (h, v) :: vs)
  end.

(** What an event says of its hash; a drop reason starts with its kind. *)
Definition event_view (e : EventEnvelope) : TxHash * verdict :=
  match payload e with
  | PTxSeen p => (seen_hash p, VSeen)
  | PTxFetched p => (fetched_hash p, VFetched)
  | PTxDropped p =>
      (dropped_hash p, if String.prefix "Duplicate" (dropped_reason p) then VDuplicate else VQueueFull)
  | p => (primary_hash p, VDecoded)
  end.

(** The calls of the service. *)
Inductive P2pOp :=
  | OpAnnounce (peer : PeerId) (hashes : list TxHash) (now_unix_ms : Z) (now_mono_ns : N)
  | OpDequeue
  | OpPooled (peer : PeerId) (txs : list P2pTxPayload) (now_unix_ms : Z) (now_mono_ns : N).

Definition p2p_step (s : P2pIngestService) (op : P2pOp) :
    P2pIngestService * (list EventEnvelope * list GetPooledTransactionsRequest) :=
  match op with
  | OpAnnounce peer hashes ms ns =>
      let '(s', events) := handle_new_pooled_transaction_hashes peer hashes ms ns s in (s', (events, []))
  | OpDequeue =>
      let '(s', request) := dequeue_get_pooled_transactions s in (s', ([], option_list request))
  | OpPooled _ txs ms ns =>
      let '(s', events) := handle_pooled_transactions txs ms ns s in (s', (events, []))
  end.

(** All events and all requests, in order. *)
Fixpoint p2p_run (s : P2pIngestService) (ops : list P2pOp) :
    P2pIngestService * (list EventEnvelope * list GetPooledTransactionsRequest) :=
  match ops with
  | [] => (s, ([], []))
  | op :: ops' =>
      let '(s1, (events1, requests1)) := p2p_step s op in
      let '(s2, (events2, requests2)) := p2p_run s1 ops' in
      (s2, (events1 ++ events2, requests1 ++ requests2))
  end.

Definition abs_step (cap max : N) (a : AbsP2p) (op : P2pOp) :
    AbsP2p * (list (TxHash * verdict) * list (PeerId * TxHash)) :=
  match op with
  | OpAnnounce peer hashes _ _ => let '(a', vs) := abs_announce_all cap max peer a hashes in (a', (vs, []))
  | OpDequeue => (mkAbs (ab_accepted a) (tail (ab_queue a)), ([], option_list (head (ab_queue a))))
  | OpPooled _ txs _ _ => (a, (txs ≫= (fun tx => [(pt_hash tx, VFetched); (pt_hash tx, VDecoded)]), []))
  end.

Fixpoint abs_run (cap max : N) (a : AbsP2p) (ops : list P2pOp) :
    AbsP2p * (list (TxHash * verdict) * list (PeerId * TxHash)) :=
  match ops with
  | [] => (a, ([], []))
  | op :: ops' =>
      let '(a1, (vs1, rs1)) := abs_step cap max a op in
      let '(a2, (vs2, rs2)) := abs_run cap max a1 ops' in (a2, (vs1 ++ vs2, rs1 ++ rs2))
  end.

(** The relation between the two; [pending] announcements are counted but not
    yet handled. *)
Definition request_of (r : PeerId * TxHash) : GetPooledTransactionsRequest := mkRequest r.1 [r.2].

Record p2p_rel (cap max pending : N) (a : AbsP2p) (s : P2pIngestService) : Prop := {
  rel_config : p2_config s = mkP2pConfig cap max;
  rel_window : p2_seen_order s = last_n max (ab_accepted a);
  rel_dom : dom (p2_first_seen s) = list_to_set (p2_seen_order s);
  rel_spaced : spaced max (ab_accepted a);
  rel_queue : p2_fetch_queue s = request_of <$> ab_queue a;
  rel_bound : (usize_of (length (ab_queue a)) <= cap)%N;
  rel_depth : queue_depth_current (p2_metrics s) = queue_len s;
  rel_peak : (queue_len s <= queue_depth_peak (p2_metrics s) <= cap)%N;
  rel_counts : announcements_total (p2_metrics s) =
    (usize_of (length (ab_accepted a)) + duplicates_dropped_total (p2_metrics s) +
     queue_dropped_total (p2_metrics s) + pending)%N;
}.

(** ** The refinement *)
Section refinement.
Context (cap max : N) (Hmax : (1 <= max)%N).

Lemma seen_iff pending a s h :
  p2p_rel cap max pending a s -> is_Some (p2_first_seen s !! h) <-> h ∈ last_n max (ab_accepted a).
Proof.
  intros R. rewrite <-elem_of_dom, (rel_dom _ _ _ _ _ R), elem_of_list_to_set, (rel_window _ _ _ _ _ R).
  done.
Qed.

Lemma queue_len_abs pending a s :
  p2p_rel cap max pending a s -> queue_len s = usize_of (length (ab_queue a)).
Proof. intros R. unfold queue_len. by rewrite (rel_queue _ _ _ _ _ R), length_fmap. Qed.

(** Remembering a new hash slides the window. *)
Lemma remember_spec pending a s h ms :
  p2p_rel cap max pending a s -> h ∉ last_n max (ab_accepted a) ->
  let s' := p2p_remember_hash h ms s in
  s' = with_seen (p2_first_seen s') (p2_seen_order s') s /\
  p2_seen_order s' = last_n max (ab_accepted a ++ [h]) /\
  dom (p2_first_seen s') = list_to_set (p2_seen_order s').
Proof using Hmax.
  intros R Hh. unfold p2p_remember_hash.
  rewrite (rel_config _ _ _ _ _ R). cbn [p2p_max_seen_hashes]. rewrite evict_oldest_spec.
  cbn [p2_first_seen p2_seen_order with_seen]. rewrite (rel_window _ _ _ _ _ R), window_snoc.
  split_and!; [done|done|].
  rewrite <-window_snoc. unfold last_n at 2. apply dom_evict.
  - apply NoDup_app. split; [by apply spaced_window_NoDup; apply (rel_spaced _ _ _ _ _ R)|].
    split; [|apply NoDup_singleton]. intros x Hx ->%list_elem_of_singleton. done.
  - rewrite dom_insert_L, (rel_dom _ _ _ _ _ R), (rel_window _ _ _ _ _ R), list_to_set_app_L.
    cbn. by rewrite union_empty_r_L, union_comm_L.
Qed.

Lemma announce_hash_step pending a s peer ms ns h :
  p2p_rel cap max (pending + 1) a s ->
  let '(s', e) := announce_hash peer ms ns s h in
  let '(a', v) := abs_announce cap max peer a h in
  p2p_rel cap max pending a' s' /\ event_view e = (h, v) /\
  seq_id e = p2_seq_id s /\ p2_seq_id s' = (p2_seq_id s + 1)%N /\
  source_id e = p2_source_id s /\ p2_source_id s' = p2_source_id s.
Proof using Hmax.
  intros R. unfold announce_hash, abs_announce. pose proof (seen_iff _ _ _ h R) as Hseen.
  pose proof (queue_len_abs _ _ _ R) as Hlen.
  destruct (p2_first_seen s !! h) as [t|] eqn:Ht.
  - rewrite bool_decide_eq_true_2 by (apply Hseen; eauto). split; [|done].
    destruct R. split; try done. cbn. lia.
  - rewrite bool_decide_eq_false_2 by (intros Hin; apply Hseen in Hin as [? ?]; done).
    rewrite (rel_config _ _ _ _ _ R). cbn [fetch_queue_capacity]. rewrite Hlen.
    destruct (N.leb_spec cap (usize_of (length (ab_queue a)))) as [Hfull|Hroom].
    + split; [|done]. destruct R. split; try done. cbn. lia.
    + assert (h ∉ last_n max (ab_accepted a)) as Hh by (intros Hin; apply Hseen in Hin as [? ?]; done).
      destruct (remember_spec _ _ _ h ms R Hh) as (Es & Ho & Hd). rewrite Es.
      split; [|done]. destruct R.
      split; cbn [p2_config p2_seen_order p2_first_seen p2_fetch_queue p2_metrics with_seen with_queue
        with_metrics with_seq ab_accepted ab_queue]; try done.
      * by apply spaced_snoc.
      * by rewrite rel_queue0, fmap_app.
      * rewrite length_app. unfold usize_of in *. cbn [length]. lia.
      * unfold queue_len in *; cbn. rewrite !length_app in *. unfold usize_of in *. cbn. lia.
      * cbn. rewrite length_app. unfold usize_of in *. cbn [length]. lia.
Qed.

(** Everything a call promises besides the relation: events viewed as the
    abstract outcomes, numbered on from the service's counter, under the
    service's source. *)
Definition emits (s s' : P2pIngestService) (events : list EventEnvelope) (vs : list (TxHash * verdict)) : Prop :=
  event_view <$> events = vs /\ numbered (p2_seq_id s) events /\
  p2_seq_id s' = (p2_seq_id s + usize_of (length events))%N /\
  Forall (fun e => source_id e = p2_source_id s) events /\ p2_source_id s' = p2_source_id s.

Lemma emits_nil s : emits s s [] [].
Proof. split_and!; [done|apply numbered_nil|unfold usize_of; cbn; lia|constructor|done]. Qed.

Lemma emits_app s1 s2 s3 es1 es2 vs1 vs2 :
  emits s1 s2 es1 vs1 -> emits s2 s3 es2 vs2 -> emits s1 s3 (es1 ++ es2) (vs1 ++ vs2).
Proof.
  intros (<- & N1 & S1 & F1 & O1) (<- & N2 & S2 & F2 & O2). split_and!.
  - apply fmap_app.
  - apply numbered_app; [done|]. by rewrite <-S1.
  - rewrite S2, S1, length_app. unfold usize_of. lia.
  - apply Forall_app. split; [done|]. by rewrite O1 in F2.
  - congruence.
Qed.

Lemma emits_one s s' e v :
  event_view e = v -> seq_id e = p2_seq_id s -> p2_seq_id s' = (p2_seq_id s + 1)%N ->
  source_id e = p2_source_id s -> p2_source_id s' = p2_source_id s -> emits s s' [e] [v].
Proof.
  intros <- He Hs Hsrc Ho. split_and!; [done| |done|by constructor|done].
  apply numbered_cons; [done|apply numbered_nil].
Qed.

Lemma announce_all_step hs pending a s peer ms ns :
  p2p_rel cap max (pending + usize_of (length hs)) a s ->
  let '(s', es) := emit_loop (announce_hash peer ms ns) s hs in
  let '(a', vs) := abs_announce_all cap max peer a hs in
  p2p_rel cap max pending a' s' /\ emits s s' es vs.
Proof using Hmax.
  revert a s. induction hs as [|h hs IH]; intros a s R; cbn [emit_loop abs_announce_all].
  - split; [|apply emits_nil]. by rewrite N.add_0_r in R.
  - assert (p2p_rel cap max (pending + usize_of (length hs) + 1) a s) as R1.
    { replace (pending + usize_of (length hs) + 1)%N with (pending + usize_of (length (h :: hs)))%N; [done|].
      unfold usize_of; cbn; lia. }
    pose proof (announce_hash_step _ a s peer ms ns h R1) as H1.
    destruct (announce_hash peer ms ns s h) as [s1 e]. destruct (abs_announce cap max peer a h) as [a1 v].
    destruct H1 as (R2 & Hv & He & Hs & Hsrc & Ho). specialize (IH a1 s1 R2).
    destruct (emit_loop (announce_hash peer ms ns) s1 hs) as [s2 es].
    destruct (abs_announce_all cap max peer a1 hs) as [a2 vs]. destruct IH as [R3 E].
    split; [done|]. apply (emits_app s s1 s2 [e] es [(h, v)] vs); [by apply emits_one|done].
Qed.

Lemma pooled_step pending a txs ms ns s :
  p2p_rel cap max pending a s ->
  let '(s', es) := handle_pooled_transactions txs ms ns s in
  p2p_rel cap max pending a s' /\
  emits s s' es (txs ≫= (fun tx => [(pt_hash tx, VFetched); (pt_hash tx, VDecoded)])).
Proof.
  revert s. induction txs as [|tx txs IH]; intros s R; cbn [handle_pooled_transactions].
  - split; [done|apply emits_nil].
  - destruct (pooled_tx ms ns s tx) as [s1 es1] eqn:E1.
    assert (p2p_rel cap max pending a s1 /\ emits s s1 es1 [(pt_hash tx, VFetched); (pt_hash tx, VDecoded)]) as [R1 M1].
    { injection E1 as <- <-. split; [by destruct R; split|].
      split_and!; [done| |unfold usize_of; cbn; lia|by repeat constructor|done].
      repeat (apply numbered_cons; [done|]). apply numbered_nil. }
    specialize (IH s1 R1). destruct (handle_pooled_transactions txs ms ns s1) as [s2 es2].
    destruct IH as [R2 M2]. split; [done|]. rewrite bind_cons. by eapply emits_app.
Qed.

Lemma p2p_step_refines a s op :
  p2p_rel cap max 0 a s ->
  let '(s', (es, rs)) := p2p_step s op in
  let '(a', (vs, qs)) := abs_step cap max a op in
  p2p_rel cap max 0 a' s' /\ emits s s' es vs /\ rs = request_of <$> qs.
Proof using Hmax.
  intros R. destruct op as [peer hashes ms ns| |peer txs ms ns]; cbn [p2p_step abs_step].
  - unfold handle_new_pooled_transaction_hashes.
    set (s1 := with_metrics (add_announcements (usize_of (length hashes))) s).
    assert (p2p_rel cap max (0 + usize_of (length hashes)) a s1) as R1.
    { destruct R. split; try done. cbn. lia. }
    pose proof (announce_all_step hashes 0 a s1 peer ms ns R1) as H.
    destruct (emit_loop (announce_hash peer ms ns) s1 hashes) as [s' es].
    destruct (abs_announce_all cap max peer a hashes) as [a' vs]. by destruct H as [R' E].
  - cbn [dequeue_get_pooled_transactions].
    assert (tail (p2_fetch_queue s) = request_of <$> tail (ab_queue a)) as Et
      by (rewrite (rel_queue _ _ _ _ _ R); by destruct (ab_queue a)).
    split; [|split].
    + destruct R. split; try done; cbn [ab_queue ab_accepted] in *.
      * destruct (ab_queue a); cbn in *; [done|]. unfold usize_of in *. cbn in *. lia.
      * unfold queue_len in *. cbn. unfold usize_of in *. destruct (p2_fetch_queue s); cbn in *; lia.
    + split_and!; [done|apply numbered_nil|cbn; unfold usize_of; cbn; lia|constructor|done].
    + rewrite (rel_queue _ _ _ _ _ R). by destruct (ab_queue a).
  - pose proof (pooled_step 0 a txs ms ns s R) as H.
    destruct (handle_pooled_transactions txs ms ns s) as [s' es]. by destruct H.
Qed.

Lemma p2p_run_refines a s ops :
  p2p_rel cap max 0 a s ->
  let '(s', (es, rs)) := p2p_run s ops in
  let '(a', (vs, qs)) := abs_run cap max a ops in
  p2p_rel cap max 0 a' s' /\ emits s s' es vs /\ rs = request_of <$> qs.
Proof using Hmax.
  revert a s. induction ops as [|op ops IH]; intros a s R; cbn [p2p_run abs_run].
  - split_and!; [done|apply emits_nil|done].
  - pose proof (p2p_step_refines a s op R) as H.
    destruct (p2p_step s op) as [s1 [es1 rs1]]. destruct (abs_step cap max a op) as [a1 [vs1 qs1]].
    destruct H as (R1 & E1 & ->). specialize (IH a1 s1 R1).
    destruct (p2p_run s1 ops) as [s2 [es2 rs2]]. destruct (abs_run cap max a1 ops) as [a2 [vs2 qs2]].
    destruct IH as (R2 & E2 & ->). split_and!; [done|by eapply emits_app|by rewrite fmap_app].
Qed.
End refinement.

Lemma p2p_new_rel config src :
  p2p_rel (N.max (fetch_queue_capacity config) 1) (N.max (p2p_max_seen_hashes config) 1) 0
    (mkAbs [] []) (p2p_new config src).
Proof.
  split; cbn [ab_accepted ab_queue]; first [apply spaced_nil|done|idtac];
    cbn; unfold queue_len, usize_of; cbn; lia.
Qed.

(** C27: the devp2p service is the simple machine it looks like.  Over any
    sequence of calls each announced hash yields exactly one event: a duplicate
    when it is among the last [max_seen_hashes] accepted ones, a queue-full
    drop when the fetch queue is at capacity, and otherwise a sighting that
    queues one fetch request; requests leave in first-in first-out order, a
    pooled transaction yields a fetched and a decoded event, and all events are
    numbered consecutively from one.  Two acceptances of one hash are more than
    [max_seen_hashes] acceptances apart, the memory and the queue stay within
    their bounds, and every announcement is counted once. *)
Theorem p2p_refines config src ops :
  let cap := N.max (fetch_queue_capacity config) 1 in
  let max := N.max (p2p_max_seen_hashes config) 1 in
  let '(s, (events, requests)) := p2p_run (p2p_new config src) ops in
  let '(a, (outcomes, fetches)) := abs_run cap max (mkAbs [] []) ops in
  event_view <$> events = outcomes /\ requests = request_of <$> fetches /\
  numbered 1 events /\ Forall (fun e => source_id e = src) events /\
  spaced max (ab_accepted a) /\
  p2_seen_order s = last_n max (ab_accepted a) /\ dom (p2_first_seen s) = list_to_set (p2_seen_order s) /\
  p2_fetch_queue s = request_of <$> ab_queue a /\
  (queue_depth_current (p2_metrics s) = queue_len s /\
   queue_len s <= queue_depth_peak (p2_metrics s) <= cap)%N /\
  announcements_total (p2_metrics s) =
    (usize_of (length (ab_accepted a)) + duplicates_dropped_total (p2_metrics s) +
     queue_dropped_total (p2_metrics s))%N.
Proof.
  intros cap max.
  pose proof (p2p_run_refines cap max ltac:(subst max; lia) _ _ ops (p2p_new_rel config src)) as H.
  destruct (p2p_run (p2p_new config src) ops) as [s [events requests]].
  destruct (abs_run cap max (mkAbs [] []) ops) as [a [outcomes fetches]].
  destruct H as (R & (Hv & Hn & _ & Hsrc & _) & ->).
  destruct R as [_ Rw Rd Rs Rq _ Rdep [Rp1 Rp2] Rc]. rewrite N.add_0_r in Rc.
  split_and!; solve [assumption|reflexivity].
Qed.

(** The delay statistics wrap at 32 bits.  When a peer's delays sum to
    [2^32] milliseconds or more the reported average is strictly below the
    true one, because the sum is cut to 32 bits before the division; and a
    duplicate announced while the wall clock reads [k] milliseconds less than
    at the first sighting is recorded as a delay of [2^32 - k] milliseconds. *)
Theorem propagation_delay_wraps delays (now first : Z) st
  (Hne : delays <> []) (Hlen : (usize_of (length delays) < 2 ^ 32)%N)
  (Hsum : (2 ^ 32 <= foldr N.add 0 delays)%N) (Hst : peer_stats delays = Some st)
  (Hback : (now < first < now + 2 ^ 32)%Z) :
  (ps_avg_delay_ms st < foldr N.add 0 delays / usize_of (length delays))%N /\
  i64_as_u32 (i64_sat_sub now first) = (2 ^ 32 - Z.to_N (first - now))%N.
Proof.
  split.
  - assert (sort_by N.compare delays <> []) as Hs.
    { intros E. apply Hne, Permutation_nil_r. rewrite <-E. symmetry. apply sort_by_perm. }
    unfold peer_stats in Hst. rewrite avg_delay_ne in Hst by (rewrite ?length_sort_by; done).
    destruct (p99_delay _) as [p|]; [|done]. injection Hst as <-. cbn [ps_avg_delay_ms].
    rewrite length_sort_by, (foldr_add_perm _ _ (sort_by_perm N.compare delays)). unfold cast.
    set (len := usize_of (length delays)) in *.
    assert (0 < len)%N as Hpos by (subst len; unfold usize_of; destruct delays; [done|cbn; lia]).
    pose proof (N.mod_lt (foldr N.add 0 delays) (2 ^ 32) ltac:(lia))%N as Hm.
    pose proof (N.div_mod (foldr N.add 0 delays) (2 ^ 32) ltac:(lia))%N as Ed.
    assert (foldr N.add 0 delays mod 2 ^ 32 + len <= foldr N.add 0 delays)%N as Hle.
    { assert (1 <= foldr N.add 0 delays / 2 ^ 32)%N by (apply N.div_le_lower_bound; lia).
      revert Ed H. generalize (foldr N.add 0 delays / 2 ^ 32)%N. intros; nia. }
    apply (N.Div0.div_le_mono _ _ len) in Hle.
    rewrite <-(N.mul_1_l len) in Hle at 1. rewrite N.div_add in Hle by lia. lia.
  - unfold i64_as_u32, i64_sat_sub, i64_clamp, i64_min, i64_max.
    rewrite Z.min_l, Z.max_r by lia.
    replace (now - first)%Z with ((2 ^ 32 - (first - now)) + (-1) * 2 ^ 32)%Z by lia.
    rewrite Z_mod_plus_full, Z.mod_small by lia. lia.
Qed.

(** ** Concrete runs *)
Example p2p_sample :
  event_view <$> (p2p_run (p2p_new (mkP2pConfig 2 128) "p2p")
    [OpAnnounce "a" [1; 2; 1; 3]%N 1000 10; OpDequeue; OpAnnounce "b" [3; 2]%N 1011 20]).2.1
  = [(1, VSeen); (2, VSeen); (1, VDuplicate); (3, VQueueFull); (3, VSeen); (2, VDuplicate)]%N.
Proof. vm_compute. reflexivity. Qed.

Definition sample_delays : list N := [11; 7; 300; 5]%N.

Lemma propagation_stats_exact_witness :
  exists st, peer_stats sample_delays = Some st /\ ps_count st = 4%N /\ ps_avg_delay_ms st = 80%N.
Proof.
  destruct (propagation_stats_exact sample_delays ltac:(discriminate) ltac:(vm_compute; reflexivity))
    as (st & rank & E & Hc & _ & _ & _ & Ha).
  exists st. split; [exact E|]. split; [exact Hc|]. rewrite Ha by (vm_compute; reflexivity).
  vm_compute. reflexivity.
Defined.

Lemma propagation_delay_wraps_witness :
  (0 < foldr N.add 0 [2147483648; 2147483648] / usize_of (length [2147483648%N; 2147483648%N]))%N /\
  i64_as_u32 (i64_sat_sub 999 1000) = 4294967295%N.
Proof.
  apply (propagation_delay_wraps [2147483648; 2147483648]%N 999 1000 (mkPropagationStats 2 0 2147483648));
    [discriminate|vm_compute; reflexivity|vm_compute; discriminate|vm_compute; reflexivity|split; vm_compute; reflexivity].
Defined.
