(* ===== verification/IngestRpc.v ===== *)
(** * IngestRpc: the RPC-backed ingest service (crates/ingest/src/rpc.rs)

    One poll of a provider of pending hashes: batch capacity, deduplication
    across polls, fetching, and the error paths, which return early with the
    service already changed.  The provider and the clock are the traits of the
    source, here classes over their own state; [InMemoryPendingTxProvider] is
    the source's implementation of the first. *)
From stdpp Require Import base gmap strings list numbers sorting pretty.
From S2P Require Import Prelude Common EventLog SeenWindow IngestP2p.

(** ** Errors (crates/ingest/src/lib.rs)

    A shared error is an external one or a wrapped ingest error. *)
Inductive IngestError (E : Type) :=
  | RpcConnect (source : SharedError E)
  | TxFetch (hash : string) (source : SharedError E)
  | OtherIngest (source : SharedError E)
with SharedError (E : Type) :=
  | External (error : E)
  | Wrapped (error : IngestError E).
Arguments RpcConnect {E} source.
Arguments TxFetch {E} hash source.
Arguments OtherIngest {E} source.
Arguments External {E} error.
Arguments Wrapped {E} error.

Definition into_rpc_connect {E} (e : IngestError E) : IngestError E :=
  match e with RpcConnect _ => e | other => RpcConnect (Wrapped other) end.
Definition into_tx_fetch {E} (hash : TxHash) (e : IngestError E) : IngestError E :=
  match e with TxFetch _ _ => e | other => TxFetch (format_hash hash) (Wrapped other) end.

(** ** Traits *)
Record RpcIngestConfig := mkRpcConfig {
  rpc_max_seen_hashes : N;
  pending_batch_capacity : N;
}.
Definition rpc_config_default : RpcIngestConfig :=
  {| rpc_max_seen_hashes := 250000; pending_batch_capacity := 4096 |}.

Record RawTransaction := mkRawTransaction {
  rt_hash : TxHash;
  rt_tx_type : N;
  rt_raw : list N;
}.

Class PendingTxProvider (P E : Type) := {
  pending_hashes : P -> P * (list TxHash + IngestError E);
  fetch_transaction : P -> TxHash -> P * (option RawTransaction + IngestError E);
}.
Class IngestClock (C : Type) := {
  now_unix_ms : C -> C * Z;
  now_mono_ns : C -> C * N;
}.

(** [SystemClock::now_mono_ns]; its wall clock is the operating system's. *)
Definition system_now_mono_ns (monotonic_ns : N) : N := sat_add u64_max monotonic_ns 1000000.

Record RpcIngestService (P C : Type) := mkRpc {
  rp_provider : P;
  rp_clock : C;
  rp_source_id : SourceId;
  rp_config : RpcIngestConfig;
  rp_seen_hashes : gset TxHash;
  rp_seen_order : list TxHash;
  rp_next_seq_id : N;
}.
Arguments mkRpc {P C}.
Arguments rp_provider {P C}.
Arguments rp_clock {P C}.
Arguments rp_source_id {P C}.
Arguments rp_config {P C}.
Arguments rp_seen_hashes {P C}.
Arguments rp_seen_order {P C}.
Arguments rp_next_seq_id {P C}.

Section service.
Context {P C E : Type} `{!PendingTxProvider P E, !IngestClock C}.
Implicit Types (s : RpcIngestService P C).

Definition rpc_with_config (provider : P) (source_id : SourceId) (clock : C) (config : RpcIngestConfig) :
    RpcIngestService P C :=
  {| rp_provider := provider; rp_clock := clock; rp_source_id := source_id;
     rp_config := {| rpc_max_seen_hashes := N.max (rpc_max_seen_hashes config) 1;
                     pending_batch_capacity := N.max (pending_batch_capacity config) 1 |};
     rp_seen_hashes := ∅; rp_seen_order := []; rp_next_seq_id := 1 |}%N.

Definition rpc_new (provider : P) (source_id : SourceId) (clock : C) : RpcIngestService P C :=
  rpc_with_config provider source_id clock rpc_config_default.

Definition with_provider (p : P) s : RpcIngestService P C :=
  mkRpc p (rp_clock s) (rp_source_id s) (rp_config s) (rp_seen_hashes s) (rp_seen_order s) (rp_next_seq_id s).
Definition with_clock (c : C) s : RpcIngestService P C :=
  mkRpc (rp_provider s) c (rp_source_id s) (rp_config s) (rp_seen_hashes s) (rp_seen_order s) (rp_next_seq_id s).
Definition with_rpc_seen (seen : gset TxHash) (order : list TxHash) s : RpcIngestService P C :=
  mkRpc (rp_provider s) (rp_clock s) (rp_source_id s) (rp_config s) seen order (rp_next_seq_id s).
Definition with_next_seq (n : N) s : RpcIngestService P C :=
  mkRpc (rp_provider s) (rp_clock s) (rp_source_id s) (rp_config s) (rp_seen_hashes s) (rp_seen_order s) n.

Definition read_unix_ms s : RpcIngestService P C * Z :=
  let '(c, t) := now_unix_ms (rp_clock s) in (with_clock c s, t).
Definition read_mono_ns s : RpcIngestService P C * N :=
  let '(c, t) := now_mono_ns (rp_clock s) in (with_clock c s, t).

Definition rpc_new_event (p : EventPayload) s : RpcIngestService P C * EventEnvelope :=
  let seq_id := rp_next_seq_id s in
  let s0 := with_next_seq (rp_next_seq_id s + 1) s in
  let '(s1, unix_ms) := read_unix_ms s0 in
  let '(s2, mono_ns) := read_mono_ns s1 in
  (s2, mkEnvelope seq_id unix_ms mono_ns (rp_source_id s2) p).

Definition rpc_drop_reason s (reason queue_name : string) (depth_current depth_peak : N) : string :=
  reason +:+ ";lane=rpc;source=" +:+ rp_source_id s +:+ ";queue=" +:+ queue_name +:+
  ";depth_current=" +:+ pretty depth_current +:+ ";depth_peak=" +:+ pretty depth_peak.

Definition rpc_remember_hash (hash : TxHash) s : RpcIngestService P C * bool :=
  if bool_decide (hash ∈ rp_seen_hashes s) then (s, false)
  else
    let '(order, seen) :=
      evict_oldest (fun h m => m ∖ {[h]}) (rpc_max_seen_hashes (rp_config s))
        (rp_seen_order s ++ [hash]) (rp_seen_hashes s ∪ {[hash]}) in
    (with_rpc_seen seen order s, true).

Definition rpc_decoded (tx : RawTransaction) : TxDecoded :=
  {| dec_hash := rt_hash tx; dec_tx_type := rt_tx_type tx; dec_sender := 0; dec_nonce := 0;
     dec_chain_id := None; dec_to := None; dec_value_wei := None; dec_gas_limit := None;
     dec_gas_price_wei := None; dec_max_fee_per_gas_wei := None;
     dec_max_priority_fee_per_gas_wei := None; dec_max_fee_per_blob_gas_wei := None;
     dec_calldata_len := Some (cast 32 (usize_of (length (rt_raw tx)))) |}%N.

(** The body of the loop for the hash at index [idx]: the events pushed, or
    the error that ends the batch. *)
Definition process_hash (depth_current idx : N) (hash : TxHash) s :
    RpcIngestService P C * (list EventEnvelope + IngestError E) :=
  let capacity := pending_batch_capacity (rp_config s) in
  if (capacity <=? idx)%N then
    let reason := rpc_drop_reason s "QueueFull" "rpc.pending_batch" depth_current capacity in
    let '(s1, event) := rpc_new_event (PTxDropped (mkTxDropped hash reason)) s in (s1, inl [event])
  else
    let '(s1, fresh) := rpc_remember_hash hash s in
    if negb fresh then
      let reason := rpc_drop_reason s1 "Duplicate" "rpc.pending_batch" depth_current capacity in
      let '(s2, event) := rpc_new_event (PTxDropped (mkTxDropped hash reason)) s1 in (s2, inl [event])
    else
      let '(s2, seen_at_unix_ms) := read_unix_ms s1 in
      let '(s3, seen_at_mono_ns) := read_mono_ns s2 in
      let '(s4, seen) :=
        rpc_new_event (PTxSeen (mkTxSeen hash "rpc-provider" seen_at_unix_ms seen_at_mono_ns)) s3 in
      match fetch_transaction (rp_provider s4) hash with
      | (p, inr err) => (with_provider p s4, inr (into_tx_fetch hash err))
      | (p, inl None) => (with_provider p s4, inl [seen])
      | (p, inl (Some tx)) =>
          let '(s5, fetched_at_unix_ms) := read_unix_ms (with_provider p s4) in
          let '(s6, fetched) := rpc_new_event (PTxFetched (mkTxFetched hash fetched_at_unix_ms)) s5 in
          let '(s7, decoded) := rpc_new_event (PTxDecoded (rpc_decoded tx)) s6 in
          (s7, inl [seen; fetched; decoded])
      end.

(** The loop with the early return of [?]: the events collected so far are
    dropped with it. *)
Fixpoint process_hashes (depth_current idx : N) (hashes : list TxHash) s :
    RpcIngestService P C * (list EventEnvelope + IngestError E) :=
  match hashes with
  | [] => (s, inl [])
  | hash :: hashes' =>
      match process_hash depth_current idx hash s with
      | (s1, inr err) => (s1, inr err)
      | (s1, inl events1) =>
          match process_hashes depth_current (idx + 1) hashes' s1 with
          | (s2, inr err) => (s2, inr err)
          | (s2, inl events2) => (s2, inl (events1 ++ events2))
          end
      end
  end.

Definition process_pending_batch s : RpcIngestService P C * (list EventEnvelope + IngestError E) :=
  match pending_hashes (rp_provider s) with
  | (p, inr err) => (with_provider p s, inr (into_rpc_connect err))
  | (p, inl hashes) =>
      process_hashes (usize_of (length hashes)) 0 hashes (with_provider p s)
  end.
End service.

(** ** The in-memory provider *)
Record InMemoryPendingTxProvider := mkInMemoryProvider {
  im_batches : list (list TxHash);
  im_tx_by_hash : gmap TxHash RawTransaction;
}.
Definition in_memory_provider_new (batches : list (list TxHash)) (transactions : list RawTransaction) :
    InMemoryPendingTxProvider :=
  mkInMemoryProvider batches (foldl (fun m tx => <[rt_hash tx := tx]> m) ∅ transactions).
#[export] Instance in_memory_provider {E} : PendingTxProvider InMemoryPendingTxProvider E := {|
  pending_hashes p :=
    (mkInMemoryProvider (tail (im_batches p)) (im_tx_by_hash p), inl (default [] (head (im_batches p))));
  fetch_transaction p hash := (p, inl (im_tx_by_hash p !! hash));
|}.

(** ** The abstract service: the provider and the hashes accepted so far *)
Section refinement.
Context {P C E : Type} `{!PendingTxProvider P E, !IngestClock C} (cap max : N) (Hmax : (1 <= max)%N).
Implicit Types (s : RpcIngestService P C) (a : P * list TxHash).

Definition abs_hash (idx : N) (h : TxHash) a : (P * list TxHash) * (list (TxHash * verdict) + IngestError E) :=
  let '(p, accepted) := a in
  if (cap <=? idx)%N then (a, inl [(h, VQueueFull)])
  else if bool_decide (h ∈ last_n max accepted) then (a, inl [(h, VDuplicate)])
  else
    match fetch_transaction p h with
    | (p', inr err) => ((p', accepted ++ [h]), inr (into_tx_fetch h err))
    | (p', inl None) => ((p', accepted ++ [h]), inl [(h, VSeen)])
    | (p', inl (Some tx)) =>
        ((p', accepted ++ [h]), inl [(h, VSeen); (h, VFetched); (rt_hash tx, VDecoded)])
    end.

Fixpoint abs_hashes (idx : N) (hs : list TxHash) a :
    (P * list TxHash) * (list (TxHash * verdict) + IngestError E) :=
  match hs with
  | [] => (a, inl [])
  | h :: hs' =>
      match abs_hash idx h a with
      | (a1, inr err) => (a1, inr err)
      | (a1, inl vs1) =>
          match abs_hashes (idx + 1) hs' a1 with
          | (a2, inr err) => (a2, inr err)
          | (a2, inl vs2) => (a2, inl (vs1 ++ vs2))
          end
      end
  end.

Definition abs_poll a : (P * list TxHash) * (list (TxHash * verdict) + IngestError E) :=
  match pending_hashes a.1 with
  | (p, inr err) => ((p, a.2), inr (into_rpc_connect err))
  | (p, inl hs) => abs_hashes 0 hs (p, a.2)
  end.

Record rpc_rel a s : Prop := {
  rr_config : rp_config s = mkRpcConfig max cap;
  rr_provider : rp_provider s = a.1;
  rr_order : rp_seen_order s = last_n max a.2;
  rr_set : rp_seen_hashes s = list_to_set (rp_seen_order s);
  rr_spaced : spaced max a.2;
}.

(** What a step yields: the events match the outcomes and are numbered on from
    the service's counter; an error is the abstract one, and the counter never
    goes back. *)
Definition rpc_yields (s s' : RpcIngestService P C) (r : list EventEnvelope + IngestError E)
    (v : list (TxHash * verdict) + IngestError E) : Prop :=
  rp_source_id s' = rp_source_id s /\
  match r, v with
  | inl events, inl outcomes =>
      event_view <$> events = outcomes /\ numbered (rp_next_seq_id s) events /\
      rp_next_seq_id s' = (rp_next_seq_id s + usize_of (length events))%N /\
      Forall (fun e => source_id e = rp_source_id s) events
  | inr err, inr err' => err = err' /\ (rp_next_seq_id s < rp_next_seq_id s')%N
  | _, _ => False
  end.

Lemma rpc_new_event_spec p s :
  let '(s', e) := rpc_new_event p s in
  rp_config s' = rp_config s /\ rp_provider s' = rp_provider s /\ rp_seen_order s' = rp_seen_order s /\
  rp_seen_hashes s' = rp_seen_hashes s /\ rp_source_id s' = rp_source_id s /\
  rp_next_seq_id s' = (rp_next_seq_id s + 1)%N /\
  seq_id e = rp_next_seq_id s /\ source_id e = rp_source_id s /\ payload e = p.
Proof.
  unfold rpc_new_event, read_unix_ms, read_mono_ns.
  destruct (now_unix_ms _) as [c1 t1]. cbn. destruct (now_mono_ns _) as [c2 t2]. by cbn.
Qed.

Lemma read_unix_spec s :
  let '(s', t) := read_unix_ms s in exists c, s' = with_clock c s.
Proof. unfold read_unix_ms. destruct (now_unix_ms _). eauto. Qed.
Lemma read_mono_spec s :
  let '(s', t) := read_mono_ns s in exists c, s' = with_clock c s.
Proof. unfold read_mono_ns. destruct (now_mono_ns _). eauto. Qed.

Lemma rpc_remember_spec a s h :
  rpc_rel a s ->
  rpc_remember_hash h s =
    if bool_decide (h ∈ last_n max a.2) then (s, false)
    else (with_rpc_seen (list_to_set (last_n max (a.2 ++ [h]))) (last_n max (a.2 ++ [h])) s, true).
Proof using Hmax.
  intros R. unfold rpc_remember_hash. rewrite (rr_set _ _ R), (rr_order _ _ R), (rr_config _ _ R).
  cbn [rpc_max_seen_hashes].
  destruct (decide (h ∈ last_n max a.2)) as [Hin|Hnin].
  - rewrite !bool_decide_eq_true_2; [done|done|by apply elem_of_list_to_set].
  - rewrite !bool_decide_eq_false_2; [|done|by rewrite elem_of_list_to_set].
    rewrite evict_oldest_spec, window_snoc. do 2 f_equal.
    rewrite <-window_snoc. unfold last_n at 4. apply set_evict.
    + apply NoDup_app. split; [by apply spaced_window_NoDup, (rr_spaced _ _ R)|].
      split; [|apply NoDup_singleton]. intros x Hx ->%list_elem_of_singleton. done.
    + rewrite list_to_set_app_L. cbn. by rewrite union_empty_r_L.
Qed.

(** A new event and a clock reading keep the relation. *)
Lemma rel_transfer a s s' :
  rpc_rel a s -> rp_config s' = rp_config s -> rp_provider s' = rp_provider s ->
  rp_seen_order s' = rp_seen_order s -> rp_seen_hashes s' = rp_seen_hashes s -> rpc_rel a s'.
Proof. intros [? ? ? ? ?] E1 E2 E3 E4. split; by rewrite ?E1, ?E2, ?E3, ?E4. Qed.

(** The hash has been remembered. *)
Lemma rel_accept a s h :
  rpc_rel a s -> h ∉ last_n max a.2 ->
  rpc_rel (a.1, a.2 ++ [h])
    (with_rpc_seen (list_to_set (last_n max (a.2 ++ [h]))) (last_n max (a.2 ++ [h])) s).
Proof. intros [? ? ? ? ?] Hh. split; try done. by apply spaced_snoc. Qed.

Lemma rel_provider a s p : rpc_rel a s -> rpc_rel (p, a.2) (with_provider p s).
Proof. by intros [? ? ? ? ?]. Qed.

Lemma yields_one s s1 s2 e v :
  rp_source_id s2 = rp_source_id s1 -> rp_next_seq_id s2 = (rp_next_seq_id s1 + 1)%N ->
  rp_source_id s1 = rp_source_id s -> rp_next_seq_id s1 = rp_next_seq_id s ->
  seq_id e = rp_next_seq_id s1 -> source_id e = rp_source_id s1 -> event_view e = v ->
  rpc_yields s s2 (inl [e]) (inl [v]).
Proof.
  intros Ho Hs Ho1 Hs1 He Hsrc <-. split; [congruence|]. split_and!; [done| |cbn; rewrite Hs, Hs1; done|].
  - apply numbered_cons; [congruence|apply numbered_nil].
  - constructor; [congruence|done].
Qed.

(** One drop event. *)
Lemma drop_step a s s1 h reason v :
  rpc_rel a s1 -> rp_source_id s1 = rp_source_id s -> rp_next_seq_id s1 = rp_next_seq_id s ->
  event_view (mkEnvelope 0 0 0 "" (PTxDropped (mkTxDropped h reason))) = (h, v) ->
  let '(s', e) := rpc_new_event (PTxDropped (mkTxDropped h reason)) s1 in
  rpc_rel a s' /\ rpc_yields s s' (inl [e]) (inl [(h, v)]).
Proof.
  intros R Ho Hs Hv. pose proof (rpc_new_event_spec (PTxDropped (mkTxDropped h reason)) s1) as H.
  destruct (rpc_new_event _ s1) as [s' e]. destruct H as (H1 & H2 & H3 & H4 & H5 & H6 & H7 & H8 & H9).
  split; [by eapply rel_transfer|]. eapply (yields_one s s1); try done.
  unfold event_view in *. rewrite H9. done.
Qed.

(** The three events of a fetched transaction, or the one of a sighting. *)
Lemma seen_step a s s1 p seen_payload h :
  rpc_rel a s1 -> rp_source_id s1 = rp_source_id s -> rp_next_seq_id s1 = rp_next_seq_id s ->
  p = PTxSeen seen_payload -> seen_hash seen_payload = h ->
  let '(s2, e) := rpc_new_event p s1 in
  rpc_rel a s2 /\ rpc_yields s s2 (inl [e]) (inl [(h, VSeen)]) /\
  rp_next_seq_id s2 = (rp_next_seq_id s + 1)%N /\ rp_source_id s2 = rp_source_id s.
Proof.
  intros R Ho Hs -> <-. pose proof (rpc_new_event_spec (PTxSeen seen_payload) s1) as H.
  destruct (rpc_new_event _ s1) as [s2 e]. destruct H as (H1 & H2 & H3 & H4 & H5 & H6 & H7 & H8 & H9).
  split; [by eapply rel_transfer|]. split; [|split; congruence].
  eapply (yields_one s s1); try done. unfold event_view. by rewrite H9.
Qed.

Lemma yields_snoc s s2 s3 s4 events vs e v :
  rpc_yields s s2 (inl events) (inl vs) ->
  rp_source_id s3 = rp_source_id s2 -> rp_next_seq_id s3 = rp_next_seq_id s2 ->
  rp_source_id s4 = rp_source_id s3 -> rp_next_seq_id s4 = (rp_next_seq_id s3 + 1)%N ->
  seq_id e = rp_next_seq_id s3 -> source_id e = rp_source_id s3 -> event_view e = v ->
  rpc_yields s s4 (inl (events ++ [e])) (inl (vs ++ [v])).
Proof.
  intros (Ho & <- & Hn & Hs & Hf) E1 E2 E3 E4 He Hsrc <-.
  split; [congruence|]. split_and!.
  - by rewrite fmap_app.
  - apply numbered_app; [done|]. apply numbered_cons; [congruence|apply numbered_nil].
  - rewrite E4, E2, Hs, length_app. unfold usize_of. cbn. lia.
  - apply Forall_app. split; [done|]. constructor; [congruence|done].
Qed.

Lemma fetched_step a s s2 events vs h tx ms :
  rpc_rel a s2 -> rpc_yields s s2 (inl events) (inl vs) ->
  let '(s5, t) := read_unix_ms s2 in
  let '(s6, fetched) := rpc_new_event (PTxFetched (mkTxFetched h (ms t))) s5 in
  let '(s7, decoded) := rpc_new_event (PTxDecoded (rpc_decoded tx)) s6 in
  rpc_rel a s7 /\
  rpc_yields s s7 (inl (events ++ [fetched] ++ [decoded])) (inl (vs ++ [(h, VFetched)] ++ [(rt_hash tx, VDecoded)])).
Proof.
  intros R Y. pose proof (read_unix_spec s2) as Hu. destruct (read_unix_ms s2) as [s5 t].
  destruct Hu as [c ->]. pose proof (rpc_new_event_spec (PTxFetched (mkTxFetched h (ms t))) (with_clock c s2)) as H.
  destruct (rpc_new_event _ (with_clock c s2)) as [s6 e1].
  destruct H as (A1 & A2 & A3 & A4 & A5 & A6 & A7 & A8 & A9).
  pose proof (rpc_new_event_spec (PTxDecoded (rpc_decoded tx)) s6) as H.
  destruct (rpc_new_event _ s6) as [s7 e2]. destruct H as (B1 & B2 & B3 & B4 & B5 & B6 & B7 & B8 & B9).
  split; [cbn in A1, A2, A3, A4; eapply rel_transfer; [exact R|congruence..]|].
  rewrite !(assoc_L (++)). eapply (yields_snoc s s6 s6 s7); try done; [|unfold event_view; by rewrite B9].
  eapply (yields_snoc s s2 (with_clock c s2) s6); try done. unfold event_view. by rewrite A9.
Qed.

Lemma process_hash_refines a s depth idx h :
  rpc_rel a s ->
  let '(s', r) := process_hash depth idx h s in
  let '(a', v) := abs_hash idx h a in
  rpc_rel a' s' /\ rpc_yields s s' r v.
Proof using Hmax.
  intros R. unfold process_hash, abs_hash. destruct a as [p accepted].
  rewrite (rr_config _ _ R); cbn [pending_batch_capacity].
  destruct (N.leb_spec cap idx) as [Hfull|Hroom].
  { pose proof (drop_step _ s s h (rpc_drop_reason s "QueueFull" "rpc.pending_batch" depth cap) VQueueFull
      R eq_refl eq_refl eq_refl) as H. by destruct (rpc_new_event _ s). }
  rewrite (rpc_remember_spec _ s h R). cbn [snd].
  destruct (bool_decide (h ∈ last_n max accepted)) eqn:Hd; cbn [negb].
  { pose proof (drop_step _ s s h (rpc_drop_reason s "Duplicate" "rpc.pending_batch" depth cap) VDuplicate
      R eq_refl eq_refl eq_refl) as H. by destruct (rpc_new_event _ s). }
  apply bool_decide_eq_false in Hd. pose proof (rel_accept _ s h R Hd) as R1. cbn [fst snd] in R1.
  set (s1 := with_rpc_seen _ _ s) in *.
  pose proof (read_unix_spec s1) as Hu. destruct (read_unix_ms s1) as [s2 t]. destruct Hu as [c2 ->].
  pose proof (read_mono_spec (with_clock c2 s1)) as Hm.
  destruct (read_mono_ns (with_clock c2 s1)) as [s3 u]. destruct Hm as [c3 ->].
  pose proof (seen_step _ s (with_clock c3 (with_clock c2 s1)) _ (mkTxSeen h "rpc-provider" t u) h
    ltac:(eapply rel_transfer; [exact R1|reflexivity..]) eq_refl eq_refl eq_refl eq_refl) as H.
  destruct (rpc_new_event _ (with_clock c3 (with_clock c2 s1))) as [s4 seen].
  destruct H as (R4 & Y4 & Hs4 & Ho4). rewrite (rr_provider _ _ R4). cbn [fst].
  destruct (fetch_transaction p h) as [p' [[tx|]|err]].
  - pose proof (fetched_step (p', accepted ++ [h]) s (with_provider p' s4) [seen] [(h, VSeen)] h tx (fun t => t)
      (rel_provider _ _ p' R4) Y4) as H.
    destruct (read_unix_ms (with_provider p' s4)) as [s5 t5].
    destruct (rpc_new_event _ s5) as [s6 fetched]. by destruct (rpc_new_event _ s6) as [s7 decoded].
  - split; [by apply (rel_provider _ _ p' R4)|done].
  - split; [by apply (rel_provider _ _ p' R4)|]. split; [done|]. split; [done|]. cbn. lia.
Qed.

Lemma process_hashes_refines hs a s depth idx :
  rpc_rel a s ->
  let '(s', r) := process_hashes depth idx hs s in
  let '(a', v) := abs_hashes idx hs a in
  rpc_rel a' s' /\ rpc_yields s s' r v.
Proof using Hmax.
  revert a s idx. induction hs as [|h hs IH]; intros a s idx R; cbn [process_hashes abs_hashes].
  - split; [done|]. split; [done|]. split_and!; [done|apply numbered_nil| |constructor].
    unfold usize_of; cbn; lia.
  - pose proof (process_hash_refines a s depth idx h R) as H1.
    destruct (process_hash depth idx h s) as [s1 r1]. destruct (abs_hash idx h a) as [a1 v1].
    destruct H1 as [R1 Y1]. destruct r1 as [events1|err1], v1 as [vs1|err1']; try by destruct Y1.
    specialize (IH a1 s1 (idx + 1)%N R1).
    destruct (process_hashes depth (idx + 1) hs s1) as [s2 r2].
    destruct (abs_hashes (idx + 1) hs a1) as [a2 v2]. destruct IH as [R2 Y2].
    destruct Y1 as (O1 & <- & N1 & S1 & F1). destruct Y2 as [O2 Y2].
    destruct r2 as [events2|err2], v2 as [vs2|err2']; try done; split; try done; split; try congruence.
    + destruct Y2 as (<- & N2 & S2 & F2). split_and!.
      * apply fmap_app.
      * apply numbered_app; [done|]. by rewrite <-S1.
      * rewrite S2, S1, length_app. unfold usize_of. lia.
      * apply Forall_app. split; [done|]. by rewrite O1 in F2.
    + destruct Y2 as [-> Hlt]. split; [done|]. lia.
Qed.

(** C28: one poll of the RPC service is the abstract poll.  Hashes at or past
    the batch capacity are dropped as queue-full, hashes among the last
    [max_seen_hashes] accepted ones as duplicates, and every other hash is
    accepted, sighted and fetched, in order; the events carry consecutive
    sequence ids and the service's source.  The first failed fetch ends the
    poll with that error, labelled with its hash; a failed request for
    the pending hashes ends it with a connection error and nothing accepted.  The service stays related to the abstract one in every case. *)
Theorem rpc_poll_refines a s (R : rpc_rel a s) :
  let '(s', r) := process_pending_batch s in
  let '(a', v) := abs_poll a in
  rpc_rel a' s' /\ rp_source_id s' = rp_source_id s /\
  match r, v with
  | inl events, inl outcomes =>
      event_view <$> events = outcomes /\ numbered (rp_next_seq_id s) events /\
      rp_next_seq_id s' = (rp_next_seq_id s + usize_of (length events))%N /\
      Forall (fun e => source_id e = rp_source_id s) events
  | inr err, inr err' => err = err'
  | _, _ => False
  end.
Proof using Hmax.
  unfold process_pending_batch, abs_poll. rewrite (rr_provider _ _ R).
  destruct (pending_hashes a.1) as [p [hs|err]].
  - pose proof (process_hashes_refines hs (p, a.2) (with_provider p s) (usize_of (length hs)) 0
      (rel_provider _ _ p R)) as H.
    destruct (process_hashes _ 0 hs (with_provider p s)) as [s' r].
    destruct (abs_hashes 0 hs (p, a.2)) as [a' v]. destruct H as [R' [Ho Y]].
    split; [done|]. split; [done|]. destruct r, v; try done. by destruct Y.
  - split; [|done]. by apply rel_provider.
Qed.

(** Where an abstract batch ends with an error, and what it accepted. *)
Lemma abs_hashes_error hs idx a a' err :
  abs_hashes idx hs a = (a', inr err) ->
  exists acc h e, a'.2 = a.2 ++ acc ++ [h] /\ Forall (fun x => x ∈ hs) (acc ++ [h]) /\ err = into_tx_fetch h e.
Proof.
  revert idx a. induction hs as [|h hs IH]; intros idx a Ea; cbn [abs_hashes] in Ea; [done|].
  destruct (abs_hash idx h a) as [a1 [vs1|err1]] eqn:E1.
  - destruct (abs_hashes (idx + 1) hs a1) as [a2 [vs2|err2]] eqn:E2; [done|].
    injection Ea as <- <-. destruct (IH _ _ E2) as (acc & h' & e & Hacc & Hin & ->).
    assert (exists pre, a1.2 = a.2 ++ pre /\ Forall (fun x => x ∈ h :: hs) pre) as (pre & Hpre & Hpin).
    { revert E1. unfold abs_hash. destruct a as [p accepted]. destruct (cap <=? idx)%N.
      { intros [= <- _]. exists []. by rewrite app_nil_r. }
      destruct (bool_decide _); [intros [= <- _]; exists []; by rewrite app_nil_r|].
      destruct (fetch_transaction p h) as [p' [[tx|]|e']]; intros [= <- _] || done;
        exists [h]; (split; [done|]); repeat constructor. }
    exists (pre ++ acc), h', e. split_and!; [by rewrite Hacc, Hpre, <-!(assoc_L (++))| |done].
    rewrite <-(assoc_L (++)). apply Forall_app. split; [done|].
    eapply Forall_impl; [exact Hin|]. intros x Hx. by right.
  - injection Ea as <- <-. revert E1. unfold abs_hash. destruct a as [p accepted].
    destruct (cap <=? idx)%N; [done|]. destruct (bool_decide _); [done|].
    destruct (fetch_transaction p h) as [p' [[tx|]|e']]; [done..|].
    intros [= <- <-]. exists [], h, e'. split_and!; [done| |done]. repeat constructor.
Qed.

(** A batch of remembered hashes is all duplicates. *)
Lemma abs_hashes_duplicates hs idx p accepted :
  (idx + usize_of (length hs) <= cap)%N -> Forall (fun h => h ∈ last_n max accepted) hs ->
  abs_hashes idx hs (p, accepted) = ((p, accepted), inl ((fun h => (h, VDuplicate)) <$> hs)).
Proof.
  intros Hcap Hin. revert idx Hcap. induction Hin as [|h hs Hh Hin IH]; intros idx Hcap; [done|].
  cbn [abs_hashes abs_hash]. unfold usize_of in Hcap; cbn in Hcap.
  destruct (N.leb_spec cap idx); [lia|]. rewrite bool_decide_eq_true_2 by done.
  rewrite IH by (unfold usize_of; lia). done.
Qed.

(** A failed fetch loses the whole poll.  When a poll ends with a fetch
    error, every hash it had accepted, the failing one included, stays in the
    window although its sighting was never emitted and sequence ids have been
    spent: a later poll that reports only such hashes, from any provider, is
    answered with duplicates, so those transactions never enter the event log
    while the window remembers them. *)
Theorem fetch_error_loses_events a s s' err p1 hs
  (R : rpc_rel a s) (Hpending : pending_hashes (rp_provider s) = (p1, inl hs))
  (Herr : process_pending_batch s = (s', inr err)) :
  (rp_next_seq_id s < rp_next_seq_id s')%N /\
  exists acc h e, err = into_tx_fetch h e /\ Forall (fun x => x ∈ hs) (acc ++ [h]) /\
  h ∈ last_n max (acc ++ [h]) /\
  forall p2 p3 hs2,
    pending_hashes p2 = (p3, inl hs2) -> (usize_of (length hs2) <= cap)%N ->
    Forall (fun x => x ∈ last_n max (acc ++ [h])) hs2 ->
    exists s'' events, process_pending_batch (with_provider p2 s') = (s'', inl events) /\
      event_view <$> events = (fun x => (x, VDuplicate)) <$> hs2.
Proof using Hmax.
  unfold process_pending_batch in Herr. rewrite Hpending in Herr.
  pose proof (process_hashes_refines hs (p1, a.2) (with_provider p1 s) (usize_of (length hs)) 0
    (rel_provider _ _ p1 R)) as H. rewrite Herr in H.
  destruct (abs_hashes 0 hs (p1, a.2)) as [a' [vs|err']] eqn:Ea; destruct H as [R' [_ Y]]; [done|].
  destruct Y as [<- Hseq]. split; [done|].
  destruct (abs_hashes_error _ _ _ _ _ Ea) as (acc & h & e & Hacc & Hin & ->). cbn [snd] in Hacc.
  exists acc, h, e. split_and!; [done|done| |].
  - apply last_n_app. rewrite last_n_all by (cbn; lia). by left.
  - intros p2 p3 hs2 Hp2 Hlen Hdup.
    pose proof (rpc_poll_refines (p2, a'.2) (with_provider p2 s') (rel_provider _ _ p2 R')) as H.
    unfold abs_poll in H. cbn [fst snd] in H. rewrite Hp2 in H.
    rewrite abs_hashes_duplicates in H; [|unfold usize_of in *; lia|].
    + destruct (process_pending_batch (with_provider p2 s')) as [s'' [events|?]]; [|by destruct H as (_ & _ & ?)].
      destruct H as (_ & _ & Hv & _). eauto.
    + rewrite Hacc. eapply Forall_impl; [exact Hdup|]. intros x Hx. by apply last_n_app.
Qed.
End refinement.

(** ** Concrete runs *)
#[local] Instance step_clock : IngestClock (Z * N) := {|
  now_unix_ms c := ((c.1 + 1, c.2)%Z, (c.1 + 1)%Z);
  now_mono_ns c := ((c.1, c.2 + 1)%N, (c.2 + 1)%N);
|}.

(** A provider whose fetch of one hash fails. *)
Record FlakyProvider := mkFlaky { fl_inner : InMemoryPendingTxProvider; fl_bad : TxHash }.
#[local] Instance flaky_provider : PendingTxProvider FlakyProvider string := {|
  pending_hashes p :=
    let '(inner, r) := pending_hashes (fl_inner p) in (mkFlaky inner (fl_bad p), r);
  fetch_transaction p hash :=
    if bool_decide (hash = fl_bad p) then (p, inr (OtherIngest (External "fetch failed")))
    else let '(inner, r) := fetch_transaction (fl_inner p) hash in (mkFlaky inner (fl_bad p), r);
|}.

Definition rpc_sample_tx (h : TxHash) : RawTransaction := mkRawTransaction h 2 [1; 2; 3; 4]%N.
Definition flaky_service (batches : list (list TxHash)) : RpcIngestService FlakyProvider (Z * N) :=
  rpc_with_config (mkFlaky (in_memory_provider_new batches [rpc_sample_tx 1; rpc_sample_tx 2]%N) 9)
    "rpc" (0%Z, 0%N) (mkRpcConfig 16 4).

Example rpc_sample :
  match (process_pending_batch (flaky_service [[1; 1; 2; 3; 4]%N])).2 with
  | inl events => event_view <$> events =
      [(1, VSeen); (1, VFetched); (1, VDecoded); (1, VDuplicate); (2, VSeen); (2, VFetched);
       (2, VDecoded); (3, VSeen); (4, VQueueFull)]%N
  | inr _ => False
  end.
Proof. vm_compute. reflexivity. Qed.

Lemma flaky_service_rel batches :
  rpc_rel 4 16 (rp_provider (flaky_service batches), []) (flaky_service batches).
Proof. by split. Qed.

Lemma rpc_poll_refines_witness :
  exists s' events, process_pending_batch (flaky_service [[1; 3]%N]) = (s', inl events) /\
  event_view <$> events = [(1, VSeen); (1, VFetched); (1, VDecoded); (3, VSeen)]%N.
Proof.
  pose proof (rpc_poll_refines 4 16 ltac:(lia) _ _ (flaky_service_rel [[1; 3]%N])) as H.
  destruct (process_pending_batch (flaky_service [[1; 3]%N])) as [s' [events|err]] eqn:E;
    [|vm_compute in E; discriminate].
  exists s', events. split; [reflexivity|].
  destruct (abs_poll _ _ _) as [a' [outcomes|?]] eqn:Ea; [|vm_compute in Ea; discriminate].
  destruct H as (_ & _ & -> & _). vm_compute in Ea. by injection Ea as _ <-.
Defined.

Lemma fetch_error_loses_events_witness :
  (1 < rp_next_seq_id (process_pending_batch (flaky_service [[1; 9; 2]; [1; 9]]%N)).1)%N /\
  exists acc h e, @into_tx_fetch string 9 (OtherIngest (External "fetch failed")) = into_tx_fetch h e /\
    Forall (fun x => x ∈ [1; 9; 2]%N) (acc ++ [h]).
Proof.
  destruct (process_pending_batch (flaky_service [[1; 9; 2]; [1; 9]]%N)) as [s' [events|err]] eqn:E;
    [vm_compute in E; discriminate|].
  destruct (fetch_error_loses_events 4 16 ltac:(lia) _ _ s' err _ [1; 9; 2]%N
    (flaky_service_rel [[1; 9; 2]; [1; 9]]%N) eq_refl E) as (Hs & acc & h & e & He & Hin & _).
  split; [exact Hs|]. exists acc, h, e. split; [|exact Hin].
  rewrite <-He. vm_compute in E. by injection E as _ <-.
Defined.
