(* ===== verification/Scheduler.v ===== *)
(** * Scheduler: state, admission and candidate dispatch
    (crates/scheduler/src/lib.rs)

    The data types of the scheduler crate and every method of
    [SchedulerState], as functions from the state to the state (and the value
    the method returns).  The actor that owns the state is in
    [SchedulerActor]. *)
From stdpp Require Import base gmap strings list numbers.
From S2P Require Import Prelude Common EventLog.

(** ** Data *)
Record ValidatedTransaction := mkValidated {
  vt_source_id : SourceId;
  vt_observed_at_unix_ms : Z;
  vt_observed_at_mono_ns : N;
  vt_calldata : list N;
  vt_decoded : TxDecoded;
}.
Definition vt_hash (tx : ValidatedTransaction) : TxHash := dec_hash (vt_decoded tx).
Definition vt_sender (tx : ValidatedTransaction) : Address := dec_sender (vt_decoded tx).
Definition vt_nonce (tx : ValidatedTransaction) : N := dec_nonce (vt_decoded tx).

Record SchedulerConfig := mkConfig {
  handoff_queue_capacity : N;
  max_pending_per_sender : N;
  replacement_fee_bump_bps : N;
}.
Definition scheduler_config_default : SchedulerConfig :=
  {| handoff_queue_capacity := 1024; max_pending_per_sender := 64;
     replacement_fee_bump_bps := 1000 |}.

Inductive SchedulerConfigError :=
  | HandoffQueueCapacityZero
  | MaxPendingPerSenderZero.

Record SchedulerCandidate := mkCandidate {
  cand_id : CandidateId;
  cand_tx_hash : TxHash;
  cand_member_tx_hashes : list TxHash;
  cand_score : N;
  cand_strategy : StrategyId;
  cand_detected_unix_ms : Z;
}.

Record SimulationTaskSpec := mkTask {
  task_candidate_id : CandidateId;
  task_tx_hash : TxHash;
  task_member_tx_hashes : list TxHash;
  task_block_number : N;
  task_generation : N;
}.

Record SchedulerSimulationResult := mkSimResult {
  res_candidate_id : CandidateId;
  res_tx_hash : TxHash;
  res_member_tx_hashes : list TxHash;
  res_block_number : N;
  res_generation : N;
  res_approved : bool;
}.

Record SchedulerBuilderHandoff := mkHandoff {
  handoff_candidate : SchedulerCandidate;
  handoff_block_number : N;
}.

Record SchedulerSimulationApplyOutcome := mkApplyOutcome {
  builder_handoffs : list SchedulerBuilderHandoff;
  stale_result_drop_total : N;
}.

Record SenderQueueSnapshot := mkSenderQueueSnapshot {
  sqs_sender : Address;
  sqs_queued : list ValidatedTransaction;
}.

Record PersistedSenderQueueEntry := mkPersistedEntry {
  pe_nonce : N;
  pe_hash : TxHash;
}.

Record PersistedSenderQueueSnapshot := mkPersistedQueue {
  pq_sender : Address;
  pq_queued : list PersistedSenderQueueEntry;
}.

Record PersistedSchedulerSnapshot := mkPersisted {
  ps_captured_at_unix_ms : Z;
  ps_captured_at_mono_ns : N;
  ps_event_seq_hi : N;
  ps_pending : list ValidatedTransaction;
  ps_executable_frontier : list TxHash;
  ps_sender_queues : list PersistedSenderQueueSnapshot;
}.

Record SchedulerSnapshot := mkSnapshot {
  snap_pending : list ValidatedTransaction;
  snap_ready : list ValidatedTransaction;
  snap_blocked : list ValidatedTransaction;
  snap_sender_queues : list SenderQueueSnapshot;
  snap_candidates : list SchedulerCandidate;
}.

Inductive SchedulerAdmission :=
  | AdmittedTx
  | Duplicate
  | Replaced (replaced_hash : TxHash)
  | UnderpricedReplacement
  | SenderLimitReached.

Definition is_admitted (a : SchedulerAdmission) : bool :=
  match a with AdmittedTx | Replaced _ => true | _ => false end.

Inductive SchedulerQueueState :=
  | Ready
  | Blocked (expected_nonce : N).

Record SchedulerQueueTransition := mkTransition {
  tr_hash : TxHash;
  tr_sender : Address;
  tr_nonce : N;
  tr_state : SchedulerQueueState;
}.

Record SchedulerAdmissionOutcome := mkOutcome {
  admission : SchedulerAdmission;
  queue_transitions : list SchedulerQueueTransition;
}.

Inductive SchedulerSnapshotError :=
  | DuplicatePendingHash (hash : TxHash)
  | MissingPendingTransaction (hash : TxHash)
  | DuplicateSenderNonce (sender : Address) (nonce : N)
  | QueueEntryMismatch (hash : TxHash)
  | ExecutableFrontierMismatch.

Record CandidateEntry := mkCandidateEntry {
  ce_candidate : SchedulerCandidate;
  ce_block_number : N;
  ce_generation : N;
}.

Record SenderQueueCounts := mkCounts { cnt_ready : N; cnt_blocked : N }.
Definition counts_default : SenderQueueCounts := {| cnt_ready := 0; cnt_blocked := 0 |}.

Record SenderQueuePosition := mkPosition {
  pos_hash : TxHash;
  pos_nonce : N;
  pos_state : SchedulerQueueState;
}.

#[export] Instance ValidatedTransaction_eq_dec : EqDecision ValidatedTransaction.
Proof. solve_decision. Defined.
#[export] Instance SchedulerCandidate_eq_dec : EqDecision SchedulerCandidate.
Proof. solve_decision. Defined.
#[export] Instance SchedulerQueueState_eq_dec : EqDecision SchedulerQueueState.
Proof. solve_decision. Defined.
#[export] Instance SenderQueuePosition_eq_dec : EqDecision SenderQueuePosition.
Proof. solve_decision. Defined.

Record SchedulerState := mkState {
  pending : gmap TxHash ValidatedTransaction;
  sender_queues : gmap Address (gmap N TxHash);
  sender_queue_counts : gmap Address SenderQueueCounts;
  candidates : gmap CandidateId CandidateEntry;
  head_block_number : N;
  admitted_total : N;
  duplicate_total : N;
  replacement_total : N;
  underpriced_replacement_total : N;
  sender_limit_drop_total : N;
  stale_simulation_drop_total : N;
  ready_total : N;
  blocked_total : N;
}.

Definition state_default : SchedulerState :=
  {| pending := ∅; sender_queues := ∅; sender_queue_counts := ∅; candidates := ∅;
     head_block_number := 0; admitted_total := 0; duplicate_total := 0;
     replacement_total := 0; underpriced_replacement_total := 0;
     sender_limit_drop_total := 0; stale_simulation_drop_total := 0;
     ready_total := 0; blocked_total := 0 |}.

(** *** Field assignments [self.f = v] *)
Definition set_queues p q (s : SchedulerState) : SchedulerState :=
  mkState p q (sender_queue_counts s) (candidates s) (head_block_number s)
    (admitted_total s) (duplicate_total s) (replacement_total s)
    (underpriced_replacement_total s) (sender_limit_drop_total s)
    (stale_simulation_drop_total s) (ready_total s) (blocked_total s).
Definition set_counts c r b (s : SchedulerState) : SchedulerState :=
  mkState (pending s) (sender_queues s) c (candidates s) (head_block_number s)
    (admitted_total s) (duplicate_total s) (replacement_total s)
    (underpriced_replacement_total s) (sender_limit_drop_total s)
    (stale_simulation_drop_total s) r b.
Definition set_candidates c (s : SchedulerState) : SchedulerState :=
  mkState (pending s) (sender_queues s) (sender_queue_counts s) c (head_block_number s)
    (admitted_total s) (duplicate_total s) (replacement_total s)
    (underpriced_replacement_total s) (sender_limit_drop_total s)
    (stale_simulation_drop_total s) (ready_total s) (blocked_total s).
Definition set_head h (s : SchedulerState) : SchedulerState :=
  mkState (pending s) (sender_queues s) (sender_queue_counts s) (candidates s) h
    (admitted_total s) (duplicate_total s) (replacement_total s)
    (underpriced_replacement_total s) (sender_limit_drop_total s)
    (stale_simulation_drop_total s) (ready_total s) (blocked_total s).
(** Admission counters: admitted, duplicate, replacement, underpriced, limit. *)
Definition set_totals a d r u l (s : SchedulerState) : SchedulerState :=
  mkState (pending s) (sender_queues s) (sender_queue_counts s) (candidates s)
    (head_block_number s) a d r u l
    (stale_simulation_drop_total s) (ready_total s) (blocked_total s).
Definition set_stale n (s : SchedulerState) : SchedulerState :=
  mkState (pending s) (sender_queues s) (sender_queue_counts s) (candidates s)
    (head_block_number s) (admitted_total s) (duplicate_total s) (replacement_total s)
    (underpriced_replacement_total s) (sender_limit_drop_total s)
    n (ready_total s) (blocked_total s).

Definition incr (n : N) : N := sat_add u64_max n 1.
Definition bump_admitted (s : SchedulerState) : SchedulerState :=
  set_totals (incr (admitted_total s)) (duplicate_total s) (replacement_total s)
    (underpriced_replacement_total s) (sender_limit_drop_total s) s.
Definition bump_duplicate (s : SchedulerState) : SchedulerState :=
  set_totals (admitted_total s) (incr (duplicate_total s)) (replacement_total s)
    (underpriced_replacement_total s) (sender_limit_drop_total s) s.
Definition bump_replacement (s : SchedulerState) : SchedulerState :=
  set_totals (admitted_total s) (duplicate_total s) (incr (replacement_total s))
    (underpriced_replacement_total s) (sender_limit_drop_total s) s.
Definition bump_underpriced (s : SchedulerState) : SchedulerState :=
  set_totals (admitted_total s) (duplicate_total s) (replacement_total s)
    (incr (underpriced_replacement_total s)) (sender_limit_drop_total s) s.
Definition bump_sender_limit (s : SchedulerState) : SchedulerState :=
  set_totals (admitted_total s) (duplicate_total s) (replacement_total s)
    (underpriced_replacement_total s) (incr (sender_limit_drop_total s)) s.

Definition validate_config (config : SchedulerConfig) :
    SchedulerConfig + SchedulerConfigError :=
  if (handoff_queue_capacity config =? 0)%N then inr HandoffQueueCapacityZero
  else if (max_pending_per_sender config =? 0)%N then inr MaxPendingPerSenderZero
  else inl config.

Definition normalized_member_hashes (tx_hash : TxHash) (members : list TxHash) :
    list TxHash :=
  match members with [] => [tx_hash] | _ => members end.

(** ** The nonce-gap state machine

    [queue_entry_state] mutates [next_executable_nonce] and [gap_seen]; the
    function returns their new values with the state of the entry. *)
Definition queue_entry_state (next : option N) (gap_seen : bool) (nonce : N) :
    SchedulerQueueState * option N * bool :=
  match next with
  | None => (Ready, checked_add u64_max nonce 1, gap_seen)
  | Some expected =>
      if negb gap_seen && (nonce =? expected)%N
      then (Ready, checked_add u64_max nonce 1, gap_seen)
      else (Blocked expected, Some expected, true)
  end.

(** The four loops over one sender queue, each from a loop state. *)
Fixpoint positions_loop (p : gmap TxHash ValidatedTransaction) (next : option N)
    (gap_seen : bool) (queue : list (N * TxHash)) : list SenderQueuePosition :=
  match queue with
  | [] => []
  | (nonce, hash) :: queue' =>
      if decide (is_Some (p !! hash)) then
        let '(state, next', gap') := queue_entry_state next gap_seen nonce in
        {| pos_hash := hash; pos_nonce := nonce; pos_state := state |} ::
          positions_loop p next' gap' queue'
      else positions_loop p next gap_seen queue'
  end.

Fixpoint classify_loop (p : gmap TxHash ValidatedTransaction) (next : option N)
    (gap_seen : bool) (queue : list (N * TxHash)) :
    list ValidatedTransaction * list ValidatedTransaction :=
  match queue with
  | [] => ([], [])
  | (nonce, hash) :: queue' =>
      match p !! hash with
      | None => classify_loop p next gap_seen queue'
      | Some tx =>
          let '(state, next', gap') := queue_entry_state next gap_seen nonce in
          let '(ready, blocked) := classify_loop p next' gap' queue' in
          match state with
          | Ready => (tx :: ready, blocked)
          | Blocked _ => (ready, tx :: blocked)
          end
      end
  end.

Fixpoint frontier_loop (p : gmap TxHash ValidatedTransaction) (next : option N)
    (gap_seen : bool) (queue : list (N * TxHash)) : list TxHash :=
  match queue with
  | [] => []
  | (nonce, hash) :: queue' =>
      if decide (is_Some (p !! hash)) then
        let '(state, next', gap') := queue_entry_state next gap_seen nonce in
        match state with
        | Ready => hash :: frontier_loop p next' gap' queue'
        | Blocked _ => frontier_loop p next' gap' queue'
        end
      else frontier_loop p next gap_seen queue'
  end.

Fixpoint counts_loop (p : gmap TxHash ValidatedTransaction) (next : option N)
    (gap_seen : bool) (acc : SenderQueueCounts) (queue : list (N * TxHash)) :
    SenderQueueCounts :=
  match queue with
  | [] => acc
  | (nonce, hash) :: queue' =>
      if decide (is_Some (p !! hash)) then
        let '(state, next', gap') := queue_entry_state next gap_seen nonce in
        let acc' :=
          match state with
          | Ready => {| cnt_ready := sat_add u64_max (cnt_ready acc) 1;
                        cnt_blocked := cnt_blocked acc |}
          | Blocked _ => {| cnt_ready := cnt_ready acc;
                            cnt_blocked := sat_add u64_max (cnt_blocked acc) 1 |}
          end in
        counts_loop p next' gap' acc' queue'
      else counts_loop p next gap_seen acc queue'
  end.

Definition classify_sender_queue_counts (p : gmap TxHash ValidatedTransaction)
    (queue : gmap N TxHash) : SenderQueueCounts :=
  counts_loop p None false counts_default (bt_iter queue).

Definition sender_queue_positions (s : SchedulerState) (sender : Address) :
    list SenderQueuePosition :=
  match sender_queues s !! sender with
  | None => []
  | Some queue => positions_loop (pending s) None false (bt_iter queue)
  end.

Definition classify_by_sender (s : SchedulerState) :
    list ValidatedTransaction * list ValidatedTransaction :=
  foldr (fun queue acc =>
      let '(ready, blocked) := classify_loop (pending s) None false (bt_iter queue) in
      (ready ++ acc.1, blocked ++ acc.2))
    ([], []) (bt_values (sender_queues s)).

Definition executable_frontier_hashes (s : SchedulerState) : list TxHash :=
  bt_values (sender_queues s) ≫= fun queue =>
    frontier_loop (pending s) None false (bt_iter queue).

Definition sender_queue_snapshots (s : SchedulerState) : list SenderQueueSnapshot :=
  (fun '(sender, queue) =>
     {| sqs_sender := sender;
        sqs_queued := omap (fun hash => pending s !! hash) (bt_values queue) |})
  <$> bt_iter (sender_queues s).

Definition persisted_sender_queue_snapshots (s : SchedulerState) :
    list PersistedSenderQueueSnapshot :=
  (fun '(sender, queue) =>
     {| pq_sender := sender;
        pq_queued := (fun '(nonce, hash) => {| pe_nonce := nonce; pe_hash := hash |})
                     <$> bt_iter queue |})
  <$> bt_iter (sender_queues s).

Definition snapshot (s : SchedulerState) : SchedulerSnapshot :=
  let classification := classify_by_sender s in
  {| snap_pending := bt_values (pending s);
     snap_ready := classification.1;
     snap_blocked := classification.2;
     snap_sender_queues := sender_queue_snapshots s;
     snap_candidates := ce_candidate <$> bt_values (candidates s) |}.

Definition pending_transactions (s : SchedulerState) (hashes : list TxHash) :
    list ValidatedTransaction :=
  omap (fun hash => pending s !! hash) hashes.

Definition persisted_snapshot (s : SchedulerState) (captured_at_unix_ms : Z)
    (captured_at_mono_ns : N) : PersistedSchedulerSnapshot :=
  {| ps_captured_at_unix_ms := captured_at_unix_ms;
     ps_captured_at_mono_ns := captured_at_mono_ns;
     ps_event_seq_hi := 0;
     ps_pending := bt_values (pending s);
     ps_executable_frontier := executable_frontier_hashes s;
     ps_sender_queues := persisted_sender_queue_snapshots s |}.

(** ** Counters per sender *)
Definition refresh_sender_counts (sender : Address) (s : SchedulerState) : SchedulerState :=
  let previous := default counts_default (sender_queue_counts s !! sender) in
  let counts := delete sender (sender_queue_counts s) in
  let ready := sat_sub (ready_total s) (cnt_ready previous) in
  let blocked := sat_sub (blocked_total s) (cnt_blocked previous) in
  let next :=
    match sender_queues s !! sender with
    | Some queue => classify_sender_queue_counts (pending s) queue
    | None => counts_default
    end in
  let counts' :=
    if negb (cnt_ready next =? 0)%N || negb (cnt_blocked next =? 0)%N
    then <[sender := next]> counts else counts in
  set_counts counts' (sat_add u64_max ready (cnt_ready next))
    (sat_add u64_max blocked (cnt_blocked next)) s.

Definition recompute_queue_counts (s : SchedulerState) : SchedulerState :=
  foldl (fun s sender => refresh_sender_counts sender s) (set_counts ∅ 0 0 s)
    (bt_keys (sender_queues s)).

(** [queue_transitions]: [previous_by_hash] is collected into a map, so the
    last position of a hash wins. *)
Definition previous_by_hash (previous : list SenderQueuePosition) :
    gmap TxHash SchedulerQueueState :=
  foldl (fun m pos => <[pos_hash pos := pos_state pos]> m) ∅ previous.

Definition queue_transitions_of (s : SchedulerState) (sender : Address)
    (previous_positions : list SenderQueuePosition) : list SchedulerQueueTransition :=
  let previous := previous_by_hash previous_positions in
  omap (fun position =>
      let transition :=
        {| tr_hash := pos_hash position; tr_sender := sender;
           tr_nonce := pos_nonce position; tr_state := pos_state position |} in
      match previous !! pos_hash position with
      | Some state =>
          if decide (state = pos_state position) then None else Some transition
      | None => Some transition
      end)
    (sender_queue_positions s sender).

(** ** Admission *)
Definition replacement_fee (tx_type : N) (gas_price_wei max_fee_per_gas_wei : option N) : N :=
  if (tx_type =? 0)%N || (tx_type =? 1)%N
  then default 0%N gas_price_wei
  else default 0%N
         (match max_fee_per_gas_wei with Some f => Some f | None => gas_price_wei end).

Definition tx_fee (tx : ValidatedTransaction) : N :=
  replacement_fee (dec_tx_type (vt_decoded tx)) (dec_gas_price_wei (vt_decoded tx))
    (dec_max_fee_per_gas_wei (vt_decoded tx)).

Definition replacement_threshold_fee (incumbent : ValidatedTransaction) (fee_bump_bps : N) : N :=
  div_ceil (sat_mul u128_max (tx_fee incumbent) (sat_add u128_max 10000 fee_bump_bps)) 10000.

(** [sender_queues.entry(sender).or_default().insert(nonce, hash)] *)
Definition queue_insert (queues : gmap Address (gmap N TxHash)) (sender : Address)
    (nonce : N) (hash : TxHash) : gmap Address (gmap N TxHash) :=
  <[sender := <[nonce := hash]> (default ∅ (queues !! sender))]> queues.

Definition admit_tx (config : SchedulerConfig) (tx : ValidatedTransaction) (s : SchedulerState) :
    SchedulerAdmissionOutcome * SchedulerState :=
  let hash := vt_hash tx in
  if decide (is_Some (pending s !! hash)) then
    ({| admission := Duplicate; queue_transitions := [] |}, bump_duplicate s)
  else
    let sender := vt_sender tx in
    let nonce := vt_nonce tx in
    let previous_positions := sender_queue_positions s sender in
    let admit_into (p : gmap TxHash ValidatedTransaction) (s : SchedulerState) :=
      set_queues (<[hash := tx]> p) (queue_insert (sender_queues s) sender nonce hash) s in
    match sender_queues s !! sender ≫= fun queue => queue !! nonce with
    | Some incumbent_hash =>
        match pending s !! incumbent_hash with
        | None =>
            let s' := refresh_sender_counts sender (bump_admitted (admit_into (pending s) s)) in
            ({| admission := AdmittedTx;
                queue_transitions := queue_transitions_of s' sender previous_positions |}, s')
        | Some incumbent =>
            if (replacement_threshold_fee incumbent (replacement_fee_bump_bps config)
                <=? tx_fee tx)%N then
              let s' :=
                refresh_sender_counts sender
                  (bump_replacement (bump_admitted
                     (admit_into (delete incumbent_hash (pending s)) s))) in
              ({| admission := Replaced incumbent_hash;
                  queue_transitions := queue_transitions_of s' sender previous_positions |}, s')
            else
              ({| admission := UnderpricedReplacement; queue_transitions := [] |},
               bump_underpriced s)
        end
    | None =>
        let sender_queue_len :=
          match sender_queues s !! sender with
          | Some queue => usize_of (size queue) | None => 0%N
          end in
        if (max_pending_per_sender config <=? sender_queue_len)%N then
          ({| admission := SenderLimitReached; queue_transitions := [] |}, bump_sender_limit s)
        else
          let s' := refresh_sender_counts sender (bump_admitted (admit_into (pending s) s)) in
          ({| admission := AdmittedTx;
              queue_transitions := queue_transitions_of s' sender previous_positions |}, s')
    end.

(** ** Candidates and simulation results *)
Definition next_generation (g : N) : N := N.max (sat_add u64_max g 1) 1.

Definition register_candidate (candidate : SchedulerCandidate) (s : SchedulerState) :
    SimulationTaskSpec * SchedulerState :=
  let generation :=
    match candidates s !! cand_id candidate with
    | Some entry => next_generation (ce_generation entry)
    | None => 1%N
    end in
  let task :=
    {| task_candidate_id := cand_id candidate;
       task_tx_hash := cand_tx_hash candidate;
       task_member_tx_hashes :=
         normalized_member_hashes (cand_tx_hash candidate) (cand_member_tx_hashes candidate);
       task_block_number := head_block_number s;
       task_generation := generation |} in
  (task,
   set_candidates
     (<[cand_id candidate :=
          {| ce_candidate := candidate; ce_block_number := head_block_number s;
             ce_generation := generation |}]> (candidates s)) s).

Fixpoint register_candidates (l : list SchedulerCandidate) (s : SchedulerState) :
    list SimulationTaskSpec * SchedulerState :=
  match l with
  | [] => ([], s)
  | candidate :: l' =>
      let '(task, s1) := register_candidate candidate s in
      let '(tasks, s2) := register_candidates l' s1 in (task :: tasks, s2)
  end.

Definition record_stale_simulation_result (s : SchedulerState) :
    SchedulerSimulationApplyOutcome * SchedulerState :=
  ({| builder_handoffs := []; stale_result_drop_total := 1 |},
   set_stale (incr (stale_simulation_drop_total s)) s).

Definition bump_generation (entry : CandidateEntry) : CandidateEntry :=
  {| ce_candidate := ce_candidate entry; ce_block_number := ce_block_number entry;
     ce_generation := next_generation (ce_generation entry) |}.

(** The freshness test of [apply_simulation_result]. *)
Definition result_is_stale (s : SchedulerState) (entry : CandidateEntry)
    (result : SchedulerSimulationResult) : bool :=
  let candidate := ce_candidate entry in
  let expected_members :=
    normalized_member_hashes (cand_tx_hash candidate) (cand_member_tx_hashes candidate) in
  let actual_members :=
    normalized_member_hashes (res_tx_hash result) (res_member_tx_hashes result) in
  negb (cand_tx_hash candidate =? res_tx_hash result)%N
  || negb (bool_decide (expected_members = actual_members))
  || negb (ce_block_number entry =? res_block_number result)%N
  || negb (ce_generation entry =? res_generation result)%N
  || negb (res_block_number result =? head_block_number s)%N.

Definition apply_simulation_result (result : SchedulerSimulationResult) (s : SchedulerState) :
    SchedulerSimulationApplyOutcome * SchedulerState :=
  match candidates s !! res_candidate_id result with
  | None => record_stale_simulation_result s
  | Some entry =>
      if result_is_stale s entry result then record_stale_simulation_result s
      else
        let handoff :=
          if res_approved result then
            [{| handoff_candidate := ce_candidate entry;
                handoff_block_number := res_block_number result |}]
          else [] in
        ({| builder_handoffs := handoff; stale_result_drop_total := 0 |},
         set_candidates (alter bump_generation (res_candidate_id result) (candidates s)) s)
  end.

Definition advance_head (block_number : N) (s : SchedulerState) : SchedulerState :=
  set_head block_number s.

(** Whether a candidate involves [hash]. *)
Definition candidate_mentions (hash : TxHash) (entry : CandidateEntry) : bool :=
  let candidate := ce_candidate entry in
  (cand_tx_hash candidate =? hash)%N
  || bool_decide (hash ∈ normalized_member_hashes (cand_tx_hash candidate)
                           (cand_member_tx_hashes candidate)).

Definition invalidate_candidate_hash (hash : TxHash) (s : SchedulerState) : SchedulerState :=
  let candidate_ids :=
    omap (fun '(candidate_id, entry) =>
            if candidate_mentions hash entry then Some candidate_id else None)
      (bt_iter (candidates s)) in
  foldl (fun s candidate_id =>
           set_candidates (alter bump_generation candidate_id (candidates s)) s)
    s candidate_ids.

(** ** Rehydration from a persisted snapshot *)
Definition insert_sender_queue_entry (queues : gmap Address (gmap N TxHash))
    (sender : Address) (nonce : N) (hash : TxHash) :
    gmap Address (gmap N TxHash) + SchedulerSnapshotError :=
  match default ∅ (queues !! sender) !! nonce with
  | Some _ => inr (DuplicateSenderNonce sender nonce)
  | None => inl (queue_insert queues sender nonce hash)
  end.

Fixpoint collect_pending (l : list ValidatedTransaction)
    (p : gmap TxHash ValidatedTransaction) :
    gmap TxHash ValidatedTransaction + SchedulerSnapshotError :=
  match l with
  | [] => inl p
  | tx :: l' =>
      match p !! vt_hash tx with
      | Some _ => inr (DuplicatePendingHash (vt_hash tx))
      | None => collect_pending l' (<[vt_hash tx := tx]> p)
      end
  end.

Fixpoint queues_from_txs (txs : list ValidatedTransaction)
    (queues : gmap Address (gmap N TxHash)) :
    gmap Address (gmap N TxHash) + SchedulerSnapshotError :=
  match txs with
  | [] => inl queues
  | tx :: txs' =>
      match insert_sender_queue_entry queues (vt_sender tx) (vt_nonce tx) (vt_hash tx) with
      | inr e => inr e
      | inl queues' => queues_from_txs txs' queues'
      end
  end.

Definition build_sender_queues_from_pending (p : gmap TxHash ValidatedTransaction) :
    gmap Address (gmap N TxHash) + SchedulerSnapshotError :=
  queues_from_txs (bt_values p) ∅.

(** The inner loop of [build_sender_queues_from_snapshot]. *)
Fixpoint queue_from_entries (p : gmap TxHash ValidatedTransaction) (sender : Address)
    (entries : list PersistedSenderQueueEntry) (queues : gmap Address (gmap N TxHash)) :
    gmap Address (gmap N TxHash) + SchedulerSnapshotError :=
  match entries with
  | [] => inl queues
  | entry :: entries' =>
      match p !! pe_hash entry with
      | None => inr (MissingPendingTransaction (pe_hash entry))
      | Some tx =>
          if negb (vt_sender tx =? sender)%N || negb (vt_nonce tx =? pe_nonce entry)%N
          then inr (QueueEntryMismatch (pe_hash entry))
          else
            match insert_sender_queue_entry queues sender (pe_nonce entry) (pe_hash entry) with
            | inr e => inr e
            | inl queues' => queue_from_entries p sender entries' queues'
            end
      end
  end.

Fixpoint queues_from_snapshot (p : gmap TxHash ValidatedTransaction)
    (l : list PersistedSenderQueueSnapshot) (queues : gmap Address (gmap N TxHash)) :
    gmap Address (gmap N TxHash) + SchedulerSnapshotError :=
  match l with
  | [] => inl queues
  | q :: l' =>
      match queue_from_entries p (pq_sender q) (pq_queued q) queues with
      | inr e => inr e
      | inl queues' => queues_from_snapshot p l' queues'
      end
  end.

Definition build_sender_queues_from_snapshot (l : list PersistedSenderQueueSnapshot)
    (p : gmap TxHash ValidatedTransaction) :
    gmap Address (gmap N TxHash) + SchedulerSnapshotError :=
  queues_from_snapshot p l ∅.

Definition from_persisted_snapshot (snap : PersistedSchedulerSnapshot) :
    SchedulerState + SchedulerSnapshotError :=
  match collect_pending (ps_pending snap) ∅ with
  | inr e => inr e
  | inl p =>
      match
        match ps_sender_queues snap with
        | [] => build_sender_queues_from_pending p
        | l => build_sender_queues_from_snapshot l p
        end
      with
      | inr e => inr e
      | inl queues =>
          let state := recompute_queue_counts (set_queues p queues state_default) in
          let restored_frontier := vt_hash <$> (classify_by_sender state).1 in
          match ps_executable_frontier snap with
          | [] => inl state
          | frontier =>
              if decide (restored_frontier = frontier) then inl state
              else inr ExecutableFrontierMismatch
          end
      end
  end.

(** [for tx in replay_transactions { state.admit(tx, &config); }] *)
Definition admit_all (config : SchedulerConfig) (txs : list ValidatedTransaction)
    (s : SchedulerState) : SchedulerState :=
  foldl (fun s tx => (admit_tx config tx s).2) s txs.

Inductive SchedulerInitError :=
  | InitConfig (e : SchedulerConfigError)
  | InitSnapshot (e : SchedulerSnapshotError).

(** [scheduler_channel_with_rehydration], up to the channel it opens: the
    validated configuration and the state the actor starts from. *)
Definition scheduler_rehydrate (config : SchedulerConfig)
    (snap : option PersistedSchedulerSnapshot)
    (replay_transactions : list ValidatedTransaction) :
    (SchedulerConfig * SchedulerState) + SchedulerInitError :=
  match validate_config config with
  | inr e => inr (InitConfig e)
  | inl config =>
      match
        match snap with
        | Some snap => from_persisted_snapshot snap
        | None => inl state_default
        end
      with
      | inr e => inr (InitSnapshot e)
      | inl state =>
          inl (config, admit_all config replay_transactions state)
      end
  end.

(** ** Sample transactions for the concrete instances of the theorems *)
Definition sample_tx (hash sender nonce fee : N) : ValidatedTransaction :=
  {| vt_source_id := "peer-1"; vt_observed_at_unix_ms := 0; vt_observed_at_mono_ns := 0;
     vt_calldata := [];
     vt_decoded :=
       {| dec_hash := hash; dec_tx_type := 2; dec_sender := sender; dec_nonce := nonce;
          dec_chain_id := Some 1%N; dec_to := None; dec_value_wei := None;
          dec_gas_limit := Some 21000%N; dec_gas_price_wei := None;
          dec_max_fee_per_gas_wei := Some fee; dec_max_priority_fee_per_gas_wei := None;
          dec_max_fee_per_blob_gas_wei := None; dec_calldata_len := None |} |}.
