(* ===== verification/SchedulerQueue.v ===== *)
(** * SchedulerQueue: the nonce-gap classification of a sender queue

    What the loops over one sender queue compute, stated without the loops:
    the run of consecutive nonces from the lowest one is Ready and every later
    entry is Blocked on the first missing nonce.  The lemmas here are what the
    invariant, refinement and snapshot files use about the queues. *)
From stdpp Require Import base gmap strings list numbers sorting.
From S2P Require Import Prelude Common EventLog Scheduler.

(** The states of the entries of a queue, from its nonces only. *)
Fixpoint states_loop (next : option N) (gap_seen : bool) (nonces : list N) :
    list SchedulerQueueState :=
  match nonces with
  | [] => []
  | nonce :: nonces' =>
      let '(state, next', gap') := queue_entry_state next gap_seen nonce in
      state :: states_loop next' gap' nonces'
  end.

Definition queue_states (queue : gmap N TxHash) : list SchedulerQueueState :=
  states_loop None false (bt_keys queue).

Definition mk_position (entry : N * TxHash) (state : SchedulerQueueState) :=
  {| pos_hash := entry.2; pos_nonce := entry.1; pos_state := state |}.

(** The positions of a queue all of whose hashes are pending. *)
Definition queue_positions (queue : gmap N TxHash) : list SenderQueuePosition :=
  zip_with mk_position (bt_iter queue) (queue_states queue).

Definition count_ready (states : list SchedulerQueueState) : N :=
  usize_of (length (filter (fun st => st = Ready) states)).
Definition count_blocked (states : list SchedulerQueueState) : N :=
  usize_of (length (filter (fun st => st <> Ready) states)).
Definition counts_of (queue : gmap N TxHash) : SenderQueueCounts :=
  {| cnt_ready := sat_add u64_max 0 (count_ready (queue_states queue));
     cnt_blocked := sat_add u64_max 0 (count_blocked (queue_states queue)) |}.

Definition all_present (p : gmap TxHash ValidatedTransaction) (l : list (N * TxHash)) : Prop :=
  Forall (fun entry => is_Some (p !! entry.2)) l.

(** The declarative state of nonce [n]: Ready when no nonce between a queued
    one and [n] is missing, Blocked on the first missing nonce otherwise. *)
Definition run_to (queue : gmap N TxHash) (n : N) : Prop :=
  forall k m, is_Some (queue !! k) -> (k <= m <= n)%N -> is_Some (queue !! m).
Definition first_gap (queue : gmap N TxHash) (g : N) : Prop :=
  queue !! g = None /\ (exists k, is_Some (queue !! k) /\ (k < g)%N) /\
  forall k m, is_Some (queue !! k) -> (k <= m < g)%N -> is_Some (queue !! m).
Definition state_spec (queue : gmap N TxHash) (n : N) (st : SchedulerQueueState) : Prop :=
  match st with
  | Ready => run_to queue n
  | Blocked g => first_gap queue g /\ (g < n)%N
  end.

Definition queue_in_range (queue : gmap N TxHash) : Prop :=
  forall n, is_Some (queue !! n) -> (n <= u64_max)%N.

(** ** The loops against [states_loop] *)
Lemma length_states_loop next gap l : length (states_loop next gap l) = length l.
Proof.
  revert next gap. induction l as [|n l IH]; intros; simpl; [done|].
  destruct (queue_entry_state next gap n) as [[st next'] gap']. simpl. by rewrite IH.
Qed.

Lemma positions_loop_states p next gap l :
  all_present p l ->
  positions_loop p next gap l = zip_with mk_position l (states_loop next gap l.*1).
Proof.
  intros Hl. revert next gap. induction Hl as [|[n h] l Hh Hl IH]; intros; csimpl; [done|].
  rewrite decide_True by done.
  destruct (queue_entry_state next gap n) as [[st next'] gap']. csimpl. by rewrite IH.
Qed.

Lemma frontier_loop_positions p next gap l :
  frontier_loop p next gap l =
    omap (fun pos => if decide (pos_state pos = Ready) then Some (pos_hash pos) else None)
      (positions_loop p next gap l).
Proof.
  revert next gap. induction l as [|[n h] l IH]; intros; csimpl; [done|].
  case_decide; [|done].
  destruct (queue_entry_state next gap n) as [[st next'] gap']. csimpl.
  destruct st; csimpl; by rewrite IH.
Qed.

(** The loop pushes in queue order, each transaction on the list of its state. *)
Lemma classify_loop_positions p next gap l :
  classify_loop p next gap l =
    (omap (fun pos => if decide (pos_state pos = Ready) then p !! pos_hash pos else None)
       (positions_loop p next gap l),
     omap (fun pos => if decide (pos_state pos = Ready) then None else p !! pos_hash pos)
       (positions_loop p next gap l)).
Proof.
  revert next gap. induction l as [|[n h] l IH]; intros; csimpl; [done|].
  destruct (p !! h) as [tx|] eqn:Hh; csimpl; [|by rewrite IH].
  destruct (queue_entry_state next gap n) as [[st next'] gap']. csimpl.
  rewrite IH. destruct st; csimpl; by rewrite ?Hh.
Qed.

Lemma counts_loop_states p next gap acc l :
  all_present p l -> (cnt_ready acc <= u64_max)%N -> (cnt_blocked acc <= u64_max)%N ->
  counts_loop p next gap acc l =
    {| cnt_ready := sat_add u64_max (cnt_ready acc) (count_ready (states_loop next gap l.*1));
       cnt_blocked :=
         sat_add u64_max (cnt_blocked acc) (count_blocked (states_loop next gap l.*1)) |}.
Proof.
  intros Hl. revert next gap acc.
  induction Hl as [|[n h] l Hh Hl IH]; intros next gap acc Hr Hb; csimpl.
  - destruct acc; unfold sat_add, count_ready, count_blocked, usize_of; simpl in *.
    f_equal; lia.
  - rewrite decide_True by done.
    destruct (queue_entry_state next gap n) as [[st next'] gap'].
    rewrite IH by (destruct st; simpl; auto using sat_add_le).
    unfold count_ready, count_blocked, usize_of. rewrite !filter_cons.
    destruct st; csimpl; f_equal; int_lia.
Qed.

Lemma counts_of_all_present p queue :
  all_present p (bt_iter queue) -> classify_sender_queue_counts p queue = counts_of queue.
Proof.
  intros Hp. unfold classify_sender_queue_counts, counts_of, queue_states, bt_keys.
  by rewrite counts_loop_states.
Qed.

Lemma count_ready_blocked states :
  (count_ready states + count_blocked states = usize_of (length states))%N.
Proof.
  unfold count_ready, count_blocked, usize_of.
  induction states as [|st states IH]; csimpl; [done|].
  rewrite !filter_cons. destruct st; csimpl; lia.
Qed.

Lemma length_queue_states queue : length (queue_states queue) = size queue.
Proof.
  unfold queue_states, bt_keys. by rewrite length_states_loop, length_fmap, length_bt_iter.
Qed.

Lemma counts_of_sum queue :
  (usize_of (size queue) <= u64_max)%N ->
  (cnt_ready (counts_of queue) + cnt_blocked (counts_of queue) = usize_of (size queue))%N.
Proof.
  intros Hs. pose proof (count_ready_blocked (queue_states queue)) as H.
  rewrite length_queue_states in H. simpl. int_lia.
Qed.

Lemma counts_of_nonzero queue :
  queue <> ∅ ->
  negb (cnt_ready (counts_of queue) =? 0)%N || negb (cnt_blocked (counts_of queue) =? 0)%N
    = true.
Proof.
  intros Hne. pose proof (count_ready_blocked (queue_states queue)) as H.
  rewrite length_queue_states in H.
  assert (size queue <> 0%nat) by (intros E; by apply map_size_empty_inv in E).
  simpl. unfold usize_of, sat_add, u64_max in *.
  destruct (N.eqb_spec (N.min (0 + count_ready (queue_states queue)) 18446744073709551615) 0);
    simpl; [|done].
  apply negb_true_iff, N.eqb_neq. lia.
Qed.

(** ** The declarative reading *)
Lemma states_loop_gap e l : states_loop (Some e) true l = replicate (length l) (Blocked e).
Proof. induction l as [|n l IH]; simpl; [done|]. by rewrite IH. Qed.

(** The main loop state: every nonce below [e] of the run has been seen. *)
Lemma states_loop_run e l i n st :
  StronglySorted (cmp_lt N.compare) l ->
  Forall (fun n => e <= n <= u64_max)%N l ->
  l !! i = Some n -> states_loop (Some e) false l !! i = Some st ->
  match st with
  | Ready => forall m, (e <= m <= n)%N -> m ∈ l
  | Blocked g => (e <= g < n)%N /\ (g ∉ l) /\ forall m, (e <= m < g)%N -> m ∈ l
  end.
Proof.
  revert e i. induction l as [|n0 l IH]; intros e i Hs Hr Hn Hst; [done|].
  apply StronglySorted_inv in Hs as [Hs Hlt]. inversion Hr as [|? ? He Hr']; subst.
  cbn [states_loop queue_entry_state negb andb] in Hst.
  destruct (N.eqb_spec n0 e) as [->|Hne].
  - destruct i as [|i]; simpl in *; simplify_eq.
    { intros m Hm. replace m with n by lia. by left. }
    assert (checked_add u64_max e 1 = Some (e + 1)%N) as Hc.
    { apply checked_add_Some. rewrite Forall_forall in Hlt, Hr'.
      apply list_elem_of_lookup_2 in Hn. specialize (Hlt _ Hn). specialize (Hr' _ Hn).
      simpl in Hlt, Hr'. rewrite N.compare_lt_iff in Hlt. lia. }
    rewrite Hc in Hst.
    assert (Forall (fun n => e + 1 <= n <= u64_max)%N l) as Hr1.
    { apply Forall_forall. intros m Hm. rewrite Forall_forall in Hlt, Hr'.
      specialize (Hlt _ Hm). specialize (Hr' _ Hm). simpl in Hlt, Hr'.
      rewrite N.compare_lt_iff in Hlt. lia. }
    specialize (IH (e + 1)%N i Hs Hr1 Hn Hst). destruct st as [|g].
    + intros m Hm. destruct (decide (m = e)) as [->|]; [by left|]. right. apply IH. lia.
    + destruct IH as (Hg & Hnin & Hall). split; [lia|]. split.
      * rewrite not_elem_of_cons. split; [lia|done].
      * intros m Hm. destruct (decide (m = e)) as [->|]; [by left|]. right. apply Hall. lia.
  - rewrite states_loop_gap in Hst.
    change (Blocked e :: replicate (length l) (Blocked e))
      with (replicate (length (n0 :: l)) (Blocked e)) in Hst.
    apply lookup_replicate in Hst as [-> _].
    assert (forall m, m ∈ n0 :: l -> (e < m)%N) as Hgt.
    { rewrite Forall_forall in Hlt. intros m. rewrite elem_of_cons. intros [->|Hm]; [lia|].
      specialize (Hlt _ Hm). simpl in Hlt. rewrite N.compare_lt_iff in Hlt. lia. }
    split; [|split].
    + split; [lia|]. apply Hgt. by eapply list_elem_of_lookup_2.
    + intros Hin. apply Hgt in Hin. lia.
    + intros; lia.
Qed.

Lemma states_loop_spec l i n st :
  StronglySorted (cmp_lt N.compare) l -> (forall k, k ∈ l -> (k <= u64_max)%N) ->
  l !! i = Some n -> states_loop None false l !! i = Some st ->
  match st with
  | Ready => forall k m, k ∈ l -> (k <= m <= n)%N -> m ∈ l
  | Blocked g => (g < n)%N /\ (g ∉ l) /\ (exists k, k ∈ l /\ (k < g)%N) /\
                 forall k m, k ∈ l -> (k <= m < g)%N -> m ∈ l
  end.
Proof.
  destruct l as [|n0 l]; intros Hs Hr Hn Hst; [done|].
  apply StronglySorted_inv in Hs as [Hs Hlt]. rewrite Forall_forall in Hlt.
  assert (forall k, k ∈ l -> (n0 < k)%N) as Hlt'
    by (intros k Hkl; specialize (Hlt _ Hkl); by rewrite N.compare_lt_iff in Hlt).
  assert (forall k, k ∈ n0 :: l -> (n0 <= k)%N) as Hmin.
  { intros k. rewrite elem_of_cons. intros [->|Hkl]; [lia|]. specialize (Hlt' _ Hkl). lia. }
  cbn [states_loop queue_entry_state] in Hst. destruct i as [|i]; simpl in Hn, Hst.
  { simplify_eq. intros k m Hk Hm. specialize (Hmin k Hk). replace m with n by lia. by left. }
  assert (n0 < n)%N as Hn0 by (apply Hlt'; by eapply list_elem_of_lookup_2).
  assert (n <= u64_max)%N as Hnr by (apply Hr; right; by eapply list_elem_of_lookup_2).
  assert (checked_add u64_max n0 1 = Some (n0 + 1)%N) as Hc by (apply checked_add_Some; lia).
  rewrite Hc in Hst. eapply (states_loop_run (n0 + 1)%N) in Hst; [|done| |done].
  - destruct st as [|g].
    + intros k m Hk Hm. specialize (Hmin k Hk).
      destruct (decide (m = n0)) as [->|]; [by left|]. right. apply Hst. lia.
    + destruct Hst as (Hg & Hnin & Hall). split; [lia|]. split; [|split].
      * rewrite not_elem_of_cons. split; [lia|done].
      * exists n0. split; [by left|lia].
      * intros k m Hk Hm. specialize (Hmin k Hk).
        destruct (decide (m = n0)) as [->|]; [by left|]. right. apply Hall. lia.
  - apply Forall_forall. intros k Hkl. specialize (Hlt' _ Hkl).
    split; [lia|]. apply Hr. by right.
Qed.

Lemma queue_states_spec queue i n st :
  queue_in_range queue ->
  bt_keys queue !! i = Some n -> queue_states queue !! i = Some st ->
  state_spec queue n st.
Proof.
  intros Hr Hn Hst. eapply states_loop_spec in Hst; [|apply bt_keys_sorted| |done].
  - destruct st as [|g]; simpl.
    + intros k m. rewrite <-!elem_of_bt_keys. apply Hst.
    + destruct Hst as (Hgn & Hg & (k & Hk & Hkg) & Hall). split; [split; [|split]|done].
      * by rewrite eq_None_not_Some, <-elem_of_bt_keys.
      * exists k. by rewrite <-elem_of_bt_keys.
      * intros k' m. rewrite <-!elem_of_bt_keys. apply Hall.
  - intros k. rewrite elem_of_bt_keys. apply Hr.
Qed.

(** The declarative states exclude each other. *)
Lemma state_spec_unique queue n st1 st2 :
  is_Some (queue !! n) -> state_spec queue n st1 -> state_spec queue n st2 -> st1 = st2.
Proof.
  intros Hn. destruct st1 as [|g1], st2 as [|g2]; simpl; try done.
  - intros Hrun [(Hg & (k & Hk & Hkg) & _) Hgn]. specialize (Hrun k g2 Hk ltac:(lia)).
    rewrite Hg in Hrun. by destruct Hrun.
  - intros [(Hg & (k & Hk & Hkg) & _) Hgn] Hrun. specialize (Hrun k g1 Hk ltac:(lia)).
    rewrite Hg in Hrun. by destruct Hrun.
  - intros [(Hg1 & (k1 & Hk1 & Hkg1) & Hall1) _] [(Hg2 & (k2 & Hk2 & Hkg2) & Hall2) _].
    f_equal. destruct (N.lt_trichotomy g1 g2) as [Hlt|[?|Hlt]]; [|done|].
    + specialize (Hall2 k1 g1 Hk1 ltac:(lia)). rewrite Hg1 in Hall2. by destruct Hall2.
    + specialize (Hall1 k2 g2 Hk2 ltac:(lia)). rewrite Hg2 in Hall1. by destruct Hall1.
Qed.

Lemma elem_of_queue_positions queue pos :
  pos ∈ queue_positions queue <->
  exists i, bt_iter queue !! i = Some (pos_nonce pos, pos_hash pos) /\
            queue_states queue !! i = Some (pos_state pos).
Proof.
  unfold queue_positions. rewrite list_elem_of_lookup. apply exist_proper. intros i.
  rewrite lookup_zip_with_Some. split.
  - intros ([n h] & st & -> & Hi & Hst). done.
  - intros [Hi Hst]. exists (pos_nonce pos, pos_hash pos), (pos_state pos).
    by destruct pos.
Qed.

Lemma queue_positions_spec queue pos :
  queue_in_range queue -> pos ∈ queue_positions queue ->
  queue !! pos_nonce pos = Some (pos_hash pos) /\
  state_spec queue (pos_nonce pos) (pos_state pos).
Proof.
  intros Hr (i & Hi & Hst)%elem_of_queue_positions. split.
  - apply elem_of_bt_iter. by eapply list_elem_of_lookup_2.
  - eapply queue_states_spec; [done| |done]. unfold bt_keys.
    by rewrite list_lookup_fmap, Hi.
Qed.

Lemma queue_positions_complete queue n h :
  queue !! n = Some h -> exists st, mk_position (n, h) st ∈ queue_positions queue.
Proof.
  intros Hn. apply elem_of_bt_iter, list_elem_of_lookup in Hn as [i Hi].
  assert (is_Some (queue_states queue !! i)) as [st Hst].
  { apply lookup_lt_is_Some. rewrite length_queue_states, <-length_bt_iter.
    by eapply lookup_lt_Some. }
  exists st. apply elem_of_queue_positions. by exists i.
Qed.

Lemma queue_positions_entries queue :
  (fun pos => (pos_nonce pos, pos_hash pos)) <$> queue_positions queue = bt_iter queue.
Proof.
  unfold queue_positions. apply list_eq. intros i.
  rewrite list_lookup_fmap, lookup_zip_with.
  destruct (bt_iter queue !! i) as [[n h]|] eqn:Hi; simpl; [|done].
  assert (is_Some (queue_states queue !! i)) as [st ->]; [|done].
  apply lookup_lt_is_Some. rewrite length_queue_states, <-length_bt_iter.
  by eapply lookup_lt_Some.
Qed.
