(* ===== verification/SchedulerInvariant.v ===== *)
(** * SchedulerInvariant: well-formedness of the scheduler state

    The invariant that ties [pending], [sender_queues] and the counters
    together, and its preservation by every operation of [SchedulerState]. *)
From stdpp Require Import base gmap strings list numbers sorting.
From S2P Require Import Prelude Common EventLog Scheduler SchedulerQueue.

(** [pending] and the sender queues describe the same transactions. *)
Record queues_wf (p : gmap TxHash ValidatedTransaction)
    (qs : gmap Address (gmap N TxHash)) : Prop := {
  qw_entry a q n h :
    qs !! a = Some q -> q !! n = Some h ->
    exists tx, p !! h = Some tx /\ vt_sender tx = a /\ vt_nonce tx = n;
  qw_pending h tx :
    p !! h = Some tx ->
    vt_hash tx = h /\
    exists q, qs !! vt_sender tx = Some q /\ q !! vt_nonce tx = Some h;
  qw_nonempty a q : qs !! a = Some q -> q <> ∅;
}.

Record scheduler_wf (s : SchedulerState) : Prop := {
  wf_queues : queues_wf (pending s) (sender_queues s);
  wf_counts : sender_queue_counts s = counts_of <$> sender_queues s;
  wf_ready : ready_total s = map_sum cnt_ready (sender_queue_counts s);
  wf_blocked : blocked_total s = map_sum cnt_blocked (sender_queue_counts s);
}.

(** No sender queue exceeds the configured limit. *)
Definition limit_ok (config : SchedulerConfig) (s : SchedulerState) : Prop :=
  forall a q, sender_queues s !! a = Some q ->
              (usize_of (size q) <= max_pending_per_sender config)%N.

(** The machine bound on the number of pending transactions. *)
Definition fits (p : gmap TxHash ValidatedTransaction) : Prop :=
  (usize_of (size p) <= u64_max)%N.

(** ** Queues *)
Lemma queues_wf_empty : queues_wf ∅ ∅.
Proof. split; intros *; by rewrite lookup_empty. Qed.

Section queues_wf.
Context (p : gmap TxHash ValidatedTransaction) (qs : gmap Address (gmap N TxHash)).
Context (Hwf : queues_wf p qs).

Lemma queues_present a q : qs !! a = Some q -> all_present p (bt_iter q).
Proof using Hwf.
  intros Hq. apply Forall_forall. intros [n h] Hin%elem_of_bt_iter; simpl.
  destruct (qw_entry _ _ Hwf a q n h Hq Hin) as (tx & -> & _). eauto.
Qed.

Lemma queues_counts a q :
  qs !! a = Some q -> classify_sender_queue_counts p q = counts_of q.
Proof using Hwf. intros Hq. by eapply counts_of_all_present, queues_present. Qed.

(** A hash sits in one slot only. *)
Lemma queues_slot_unique a1 q1 n1 a2 q2 n2 h :
  qs !! a1 = Some q1 -> q1 !! n1 = Some h ->
  qs !! a2 = Some q2 -> q2 !! n2 = Some h -> a1 = a2 /\ n1 = n2.
Proof using Hwf.
  intros Hq1 Hn1 Hq2 Hn2.
  destruct (qw_entry _ _ Hwf _ _ _ _ Hq1 Hn1) as (tx & Htx & <- & <-).
  destruct (qw_entry _ _ Hwf _ _ _ _ Hq2 Hn2) as (tx' & Htx' & <- & <-).
  by simplify_eq.
Qed.

Definition queue_hashes : list TxHash :=
  map_to_list qs ≫= fun aq => (map_to_list aq.2).*2.

Lemma elem_of_queue_hashes h :
  h ∈ queue_hashes <-> exists a q n, qs !! a = Some q /\ q !! n = Some h.
Proof.
  unfold queue_hashes. rewrite list_elem_of_bind. split.
  - intros ([a q] & Hh & Hq). apply elem_of_map_to_list in Hq.
    apply list_elem_of_fmap in Hh as ([n h'] & -> & Hn).
    apply elem_of_map_to_list in Hn. eauto.
  - intros (a & q & n & Hq & Hn). exists (a, q). split.
    + apply list_elem_of_fmap. exists (n, h). by rewrite elem_of_map_to_list.
    + by apply elem_of_map_to_list.
Qed.

Lemma queue_hashes_NoDup : NoDup queue_hashes.
Proof using Hwf.
  unfold queue_hashes. apply NoDup_bind.
  - intros [a1 q1] [a2 q2] h Hin1 Hin2 Hh1 Hh2; simpl in *.
    apply elem_of_map_to_list in Hin1, Hin2.
    apply list_elem_of_fmap in Hh1 as ([n1 h1] & E1 & Hn1%elem_of_map_to_list).
    apply list_elem_of_fmap in Hh2 as ([n2 h2] & E2 & Hn2%elem_of_map_to_list).
    simpl in *. subst h1 h2. destruct (queues_slot_unique a1 q1 n1 a2 q2 n2 h) as [-> ->]; auto.
    by simplify_eq.
  - intros [a q] Hq%elem_of_map_to_list; simpl.
    apply NoDup_fmap_2_strong; [|apply NoDup_map_to_list].
    intros [n1 h1] [n2 h2] Hn1%elem_of_map_to_list Hn2%elem_of_map_to_list; simpl.
    intros <-. by destruct (queues_slot_unique a q n1 a q n2 h1) as [_ ->].
  - apply NoDup_map_to_list.
Qed.

(** The queues hold every pending transaction exactly once. *)
Lemma queue_hashes_perm : queue_hashes ≡ₚ (map_to_list p).*1.
Proof using Hwf.
  apply NoDup_Permutation; [apply queue_hashes_NoDup|apply NoDup_fst_map_to_list|].
  intros h. rewrite elem_of_queue_hashes, list_elem_of_fmap. split.
  - intros (a & q & n & Hq & Hn).
    destruct (qw_entry _ _ Hwf _ _ _ _ Hq Hn) as (tx & Htx & _).
    exists (h, tx). by rewrite elem_of_map_to_list.
  - intros ([h' tx] & -> & Htx%elem_of_map_to_list).
    destruct (qw_pending _ _ Hwf _ _ Htx) as (_ & q & Hq & Hn). eauto.
Qed.

Lemma queues_size : map_sum (fun q => usize_of (size q)) qs = usize_of (size p).
Proof using Hwf.
  transitivity (usize_of (length queue_hashes)).
  - rewrite map_sum_list. unfold queue_hashes.
    induction (map_to_list qs) as [|[a q] l IH]; csimpl; [done|].
    rewrite IH, length_app, length_fmap, length_map_to_list. int_lia.
  - by rewrite queue_hashes_perm, length_fmap, length_map_to_list.
Qed.

Lemma queue_size_le a q : qs !! a = Some q -> (usize_of (size q) <= usize_of (size p))%N.
Proof using Hwf.
  intros Hq. rewrite <-queues_size.
  apply (map_sum_lookup_le (fun q => usize_of (size q)) qs a q Hq).
Qed.

Lemma queues_ready_le :
  fits p -> (map_sum cnt_ready (counts_of <$> qs) + map_sum cnt_blocked (counts_of <$> qs)
             = usize_of (size p))%N.
Proof using Hwf.
  intros Hfit. rewrite <-queues_size, !map_sum_fmap, <-map_sum_add.
  apply map_sum_ext. intros a q Hq. apply counts_of_sum.
  pose proof (queue_size_le a q Hq). unfold fits in Hfit. lia.
Qed.
End queues_wf.

(** ** Slot updates *)
Lemma queue_insert_lookup qs a n h :
  queue_insert qs a n h !! a = Some (<[n:=h]> (default ∅ (qs !! a))).
Proof. apply lookup_insert_eq. Qed.

Lemma queue_insert_lookup_ne qs a n h a' :
  a <> a' -> queue_insert qs a n h !! a' = qs !! a'.
Proof. apply lookup_insert_ne. Qed.

Lemma queue_insert_delete qs a n h : delete a (queue_insert qs a n h) = delete a qs.
Proof. unfold queue_insert. by rewrite delete_insert_eq. Qed.

(** Writing [tx] into its slot, after the incumbent [old] of that slot left
    [pending]: the one queue update that admission performs. *)
Lemma queues_wf_insert p qs tx (old : option TxHash) :
  queues_wf p qs -> p !! vt_hash tx = None ->
  qs !! vt_sender tx ≫= (fun q => q !! vt_nonce tx) = old ->
  queues_wf
    (<[vt_hash tx := tx]> (match old with Some h => delete h p | None => p end))
    (queue_insert qs (vt_sender tx) (vt_nonce tx) (vt_hash tx)).
Proof.
  intros Hwf Hnew Hold.
  assert (forall h tx', (match old with Some h => delete h p | None => p end) !! h = Some tx' ->
            p !! h = Some tx' /\ old <> Some h) as Hp.
  { intros h tx' H. destruct old as [h0|]; [|done].
    apply lookup_delete_Some in H as [? ?]. split; congruence. }
  assert (forall h tx', p !! h = Some tx' -> old <> Some h ->
            (match old with Some h => delete h p | None => p end) !! h = Some tx') as Hp'.
  { intros h tx' H Hne. destruct old as [h0|]; [|done]. apply lookup_delete_Some. by split; [congruence|]. }
  assert (forall a q n h, qs !! a = Some q -> q !! n = Some h ->
            old = Some h -> a = vt_sender tx /\ n = vt_nonce tx) as Hslot.
  { intros a q n h Hq Hn ->. apply bind_Some in Hold as (q' & Hq' & Hn').
    by eapply queues_slot_unique. }
  split.
  - intros a q n h Hq Hn. destruct (decide (a = vt_sender tx)) as [->|Hne].
    + rewrite queue_insert_lookup in Hq. injection Hq as <-.
      apply lookup_insert_Some in Hn as [[<- <-]|[Hnn Hn]].
      { exists tx. by rewrite lookup_insert_eq. }
      destruct (qs !! vt_sender tx) as [q|] eqn:Hq; simpl in Hn;
        [|by rewrite lookup_empty in Hn].
      destruct (qw_entry _ _ Hwf _ _ _ _ Hq Hn) as (tx' & Htx' & Hs & Hnon).
      exists tx'. split; [|done]. rewrite lookup_insert_ne by congruence.
      apply Hp'; [done|]. intros E. destruct (Hslot _ _ _ _ Hq Hn E). congruence.
    + rewrite queue_insert_lookup_ne in Hq by done.
      destruct (qw_entry _ _ Hwf _ _ _ _ Hq Hn) as (tx' & Htx' & Hs & Hnon).
      exists tx'. split; [|done]. rewrite lookup_insert_ne by congruence.
      apply Hp'; [done|]. intros E. destruct (Hslot _ _ _ _ Hq Hn E). congruence.
  - intros h tx' [[<- <-]|[Hne Hh]]%lookup_insert_Some.
    { split; [done|]. eexists. rewrite queue_insert_lookup. split; [done|].
      apply lookup_insert_eq. }
    apply Hp in Hh as [Hh Hno].
    destruct (qw_pending _ _ Hwf _ _ Hh) as (Hhash & q & Hq & Hn). split; [done|].
    destruct (decide (vt_sender tx' = vt_sender tx)) as [Es|Es].
    + eexists. rewrite Es, queue_insert_lookup. split; [done|].
      rewrite <-Es, Hq; simpl. rewrite lookup_insert_ne; [done|].
      intros En. apply Hno. rewrite <-Hold, <-Es, Hq; simpl. by rewrite En.
    + exists q. by rewrite queue_insert_lookup_ne.
  - intros a q Hq. destruct (decide (a = vt_sender tx)) as [->|Hne].
    + rewrite queue_insert_lookup in Hq. injection Hq as <-. apply insert_non_empty.
    + rewrite queue_insert_lookup_ne in Hq by done. by apply (qw_nonempty _ _ Hwf a).
Qed.

(** ** Counters

    [counted qs s]: the counters of [s] describe the queues [qs], which need
    not be its own (a refresh for one sender is under way). *)
Definition counted (qs : gmap Address (gmap N TxHash)) (s : SchedulerState) : Prop :=
  sender_queue_counts s = counts_of <$> qs /\
  ready_total s = map_sum cnt_ready (sender_queue_counts s) /\
  blocked_total s = map_sum cnt_blocked (sender_queue_counts s).

Lemma scheduler_wf_counted s :
  scheduler_wf s <-> queues_wf (pending s) (sender_queues s) /\ counted (sender_queues s) s.
Proof.
  unfold counted. split.
  - intros [Hq Hc Hr Hb]. auto.
  - intros (Hq & Hc & Hr & Hb). by constructor.
Qed.

Lemma sat_sub_sum (f : SenderQueueCounts -> N) (c : gmap Address SenderQueueCounts) a :
  f counts_default = 0%N ->
  sat_sub (map_sum f c) (f (default counts_default (c !! a))) = map_sum f (delete a c).
Proof.
  intros Hf. unfold sat_sub. destruct (c !! a) as [v|] eqn:Ha; simpl.
  - rewrite (map_sum_delete f c a v Ha). lia.
  - rewrite delete_id, Hf by done. lia.
Qed.

(** The refreshed table of counts. *)
Definition refreshed (a : Address) (cur qs : gmap Address (gmap N TxHash)) :=
  partial_alter (fun _ => cur !! a) a qs.

Lemma refreshed_lookup a cur qs : refreshed a cur qs !! a = cur !! a.
Proof. apply lookup_partial_alter_eq. Qed.
Lemma refreshed_lookup_ne a b cur qs : a <> b -> refreshed a cur qs !! b = qs !! b.
Proof. apply lookup_partial_alter_ne. Qed.

Lemma map_sum_refreshed (f : SenderQueueCounts -> N) a cur qs :
  f counts_default = 0%N ->
  (map_sum f (delete a (counts_of <$> qs))
   + f (from_option counts_of counts_default (cur !! a))
   = map_sum f (counts_of <$> refreshed a cur qs))%N.
Proof.
  intros Hf. unfold refreshed. destruct (cur !! a) as [q|]; simpl.
  - change (partial_alter (fun _ => Some q) a qs) with (<[a:=q]> qs).
    rewrite fmap_insert, map_sum_insert_delete. lia.
  - change (partial_alter (fun _ => None) a qs) with (delete a qs).
    rewrite fmap_delete, Hf. lia.
Qed.

Lemma map_sum_subset {K V} `{Countable K} (f : V -> N) (m1 m2 : gmap K V) :
  m1 ⊆ m2 -> (map_sum f m1 <= map_sum f m2)%N.
Proof.
  revert m2. induction m1 as [|k v m1 Hk IH] using map_ind; intros m2 Hsub.
  - rewrite map_sum_empty. lia.
  - rewrite map_sum_insert by done. rewrite (map_sum_delete f m2 k v).
    + apply N.add_le_mono_l, IH.
      rewrite <-(delete_insert_id m1 k v Hk). by apply delete_mono.
    + apply (lookup_weaken _ _ _ _ (lookup_insert_eq m1 k v) Hsub).
Qed.

Lemma refresh_queues a s :
  pending (refresh_sender_counts a s) = pending s /\
  sender_queues (refresh_sender_counts a s) = sender_queues s.
Proof. done. Qed.

(** A refresh for [a] replaces the counts of [a] by those of its queue. *)
Lemma refresh_counted a qs s :
  queues_wf (pending s) (sender_queues s) -> fits (pending s) ->
  delete a qs ⊆ sender_queues s -> counted qs s ->
  counted (refreshed a (sender_queues s) qs) (refresh_sender_counts a s).
Proof.
  intros Hwf Hfit Hsub (Hc & Hr & Hb).
  assert (refreshed a (sender_queues s) qs ⊆ sender_queues s) as Hsub'.
  { apply map_subseteq_spec. intros b q Hb'. destruct (decide (a = b)) as [<-|Hne].
    - by rewrite refreshed_lookup in Hb'.
    - rewrite refreshed_lookup_ne in Hb' by done. eapply lookup_weaken; [|exact Hsub].
      by rewrite lookup_delete_ne. }
  assert (match sender_queues s !! a with
          | Some queue => classify_sender_queue_counts (pending s) queue
          | None => counts_default end
          = from_option counts_of counts_default (sender_queues s !! a)) as Hnext.
  { destruct (sender_queues s !! a) as [q|] eqn:Hq; [|done]. by eapply queues_counts. }
  pose proof (queues_ready_le _ _ Hwf Hfit) as Hsum.
  pose proof (map_fmap_mono counts_of _ _ Hsub') as fmap_le.
  pose proof (map_sum_subset cnt_ready _ _ fmap_le) as Hler.
  pose proof (map_sum_subset cnt_blocked _ _ fmap_le) as Hleb.
  unfold counted, refresh_sender_counts; simpl. rewrite Hnext, Hr, Hb, Hc.
  rewrite !sat_sub_sum, !sat_add_exact by
    (done || rewrite map_sum_refreshed by done; unfold fits in Hfit; lia).
  rewrite !map_sum_refreshed by done.
  enough ((if negb (cnt_ready (from_option counts_of counts_default (sender_queues s !! a)) =? 0)%N
              || negb (cnt_blocked (from_option counts_of counts_default (sender_queues s !! a)) =? 0)%N
           then <[a:=from_option counts_of counts_default (sender_queues s !! a)]>
                  (delete a (counts_of <$> qs))
           else delete a (counts_of <$> qs)) = counts_of <$> refreshed a (sender_queues s) qs)
    as -> by done.
  unfold refreshed. destruct (sender_queues s !! a) as [q|] eqn:Hq; cbn [from_option].
  - rewrite counts_of_nonzero by (by eapply qw_nonempty).
    change (partial_alter (fun _ => Some q) a qs) with (<[a:=q]> qs).
    by rewrite fmap_insert, insert_delete_eq.
  - change (partial_alter (fun _ => None) a qs) with (delete a qs).
    by rewrite fmap_delete.
Qed.

Lemma refresh_wf a qs s :
  queues_wf (pending s) (sender_queues s) -> fits (pending s) -> counted qs s ->
  delete a qs = delete a (sender_queues s) -> scheduler_wf (refresh_sender_counts a s).
Proof.
  intros Hwf Hfit Hc Hd. apply scheduler_wf_counted. split; [done|].
  assert (refreshed a (sender_queues s) qs = sender_queues s) as E.
  { apply map_eq. intros b. destruct (decide (a = b)) as [<-|Hne].
    - apply refreshed_lookup.
    - rewrite refreshed_lookup_ne by done.
      by rewrite <-(lookup_delete_ne qs a b), Hd, lookup_delete_ne. }
  rewrite <-E at 1. apply refresh_counted; try done. rewrite Hd. apply delete_subseteq.
Qed.

Lemma foldl_refresh_wf l qs s :
  queues_wf (pending s) (sender_queues s) -> fits (pending s) ->
  qs ⊆ sender_queues s -> counted qs s ->
  (forall a, a ∉ l -> qs !! a = sender_queues s !! a) ->
  scheduler_wf (foldl (fun s a => refresh_sender_counts a s) s l).
Proof.
  revert qs s. induction l as [|a l IH]; intros qs s Hwf Hfit Hsub Hc Hout; simpl.
  - apply scheduler_wf_counted. split; [done|].
    replace (sender_queues s) with qs; [done|]. apply map_eq. intros b. apply Hout. set_solver.
  - apply (IH (refreshed a (sender_queues s) qs)); try done.
    + apply map_subseteq_spec. intros b q Hb. destruct (decide (a = b)) as [<-|Hne].
      * by rewrite refreshed_lookup in Hb.
      * rewrite refreshed_lookup_ne in Hb by done. by eapply lookup_weaken.
    + apply refresh_counted; try done. etrans; [apply delete_subseteq|done].
    + intros b Hb. destruct (decide (a = b)) as [<-|Hne]; [apply refreshed_lookup|].
      rewrite refreshed_lookup_ne by done. apply Hout. by intros [?|?]%elem_of_cons; [congruence|].
Qed.

Lemma foldl_refresh_fields l s :
  let s' := foldl (fun s a => refresh_sender_counts a s) s l in
  pending s' = pending s /\ sender_queues s' = sender_queues s /\
  candidates s' = candidates s /\ head_block_number s' = head_block_number s.
Proof.
  revert s. induction l as [|a l IH]; intros s; simpl; [done|].
  destruct (IH (refresh_sender_counts a s)) as (-> & -> & -> & ->). done.
Qed.

Lemma recompute_wf s :
  queues_wf (pending s) (sender_queues s) -> fits (pending s) ->
  scheduler_wf (recompute_queue_counts s).
Proof.
  intros Hwf Hfit. apply (foldl_refresh_wf _ ∅); try done.
  - apply map_empty_subseteq.
  - intros a Ha. rewrite lookup_empty. symmetry. apply eq_None_not_Some.
    by rewrite <-elem_of_bt_keys.
Qed.

Lemma recompute_fields s :
  pending (recompute_queue_counts s) = pending s /\
  sender_queues (recompute_queue_counts s) = sender_queues s /\
  candidates (recompute_queue_counts s) = candidates s.
Proof.
  unfold recompute_queue_counts.
  destruct (foldl_refresh_fields (bt_keys (sender_queues s)) (set_counts ∅ 0 0 s))
    as (-> & -> & -> & _). done.
Qed.

(** ** The branches of admission

    [slot s a n] is the pending transaction in the slot [(a, n)]. *)
Definition slot (s : SchedulerState) (a : Address) (n : N) : option TxHash :=
  sender_queues s !! a ≫= fun q => q !! n.

Definition sender_len (s : SchedulerState) (a : Address) : N :=
  match sender_queues s !! a with Some q => usize_of (size q) | None => 0%N end.

(** What admission does to the queues, branch by branch. *)
Inductive admit_branch (config : SchedulerConfig) (tx : ValidatedTransaction)
    (s : SchedulerState) : SchedulerAdmission ->
      gmap TxHash ValidatedTransaction -> gmap Address (gmap N TxHash) -> Prop :=
  | branch_duplicate :
      is_Some (pending s !! vt_hash tx) ->
      admit_branch config tx s Duplicate (pending s) (sender_queues s)
  | branch_limit :
      pending s !! vt_hash tx = None -> slot s (vt_sender tx) (vt_nonce tx) = None ->
      (max_pending_per_sender config <= sender_len s (vt_sender tx))%N ->
      admit_branch config tx s SenderLimitReached (pending s) (sender_queues s)
  | branch_admitted :
      pending s !! vt_hash tx = None -> slot s (vt_sender tx) (vt_nonce tx) = None ->
      (sender_len s (vt_sender tx) < max_pending_per_sender config)%N ->
      admit_branch config tx s AdmittedTx (<[vt_hash tx := tx]> (pending s))
        (queue_insert (sender_queues s) (vt_sender tx) (vt_nonce tx) (vt_hash tx))
  | branch_underpriced h inc :
      pending s !! vt_hash tx = None -> slot s (vt_sender tx) (vt_nonce tx) = Some h ->
      pending s !! h = Some inc ->
      (tx_fee tx < replacement_threshold_fee inc (replacement_fee_bump_bps config))%N ->
      admit_branch config tx s UnderpricedReplacement (pending s) (sender_queues s)
  | branch_replaced h inc :
      pending s !! vt_hash tx = None -> slot s (vt_sender tx) (vt_nonce tx) = Some h ->
      pending s !! h = Some inc ->
      (replacement_threshold_fee inc (replacement_fee_bump_bps config) <= tx_fee tx)%N ->
      admit_branch config tx s (Replaced h) (<[vt_hash tx := tx]> (delete h (pending s)))
        (queue_insert (sender_queues s) (vt_sender tx) (vt_nonce tx) (vt_hash tx)).

Lemma slot_pending s a n h :
  queues_wf (pending s) (sender_queues s) -> slot s a n = Some h ->
  exists inc, pending s !! h = Some inc /\ vt_sender inc = a /\ vt_nonce inc = n.
Proof. intros Hwf (q & Hq & Hn)%bind_Some. by eapply qw_entry. Qed.

Lemma admit_branch_spec config tx s :
  queues_wf (pending s) (sender_queues s) ->
  admit_branch config tx s (admission (admit_tx config tx s).1)
    (pending (admit_tx config tx s).2) (sender_queues (admit_tx config tx s).2).
Proof.
  intros Hwf. unfold admit_tx. case_decide as Hdup; simpl; [by constructor|].
  rewrite <-eq_None_not_Some in Hdup. fold (slot s (vt_sender tx) (vt_nonce tx)).
  destruct (slot s (vt_sender tx) (vt_nonce tx)) as [h|] eqn:Hs.
  - destruct (slot_pending _ _ _ _ Hwf Hs) as (inc & Hinc & _). rewrite Hinc.
    case (N.leb_spec _ (tx_fee tx)); intros Hfee; simpl; by econstructor.
  - fold (sender_len s (vt_sender tx)).
    case (N.leb_spec _ (sender_len s (vt_sender tx))); intros Hlen; simpl; by constructor.
Qed.

Lemma sender_len_le s a : queues_wf (pending s) (sender_queues s) ->
  (sender_len s a <= usize_of (size (pending s)))%N.
Proof.
  intros Hwf. unfold sender_len. destruct (sender_queues s !! a) as [q|] eqn:Hq; [|lia].
  by eapply queue_size_le.
Qed.

(** ** Admission preserves the invariant *)
Lemma bump_fields f s :
  f ∈ [bump_admitted; bump_duplicate; bump_replacement; bump_underpriced; bump_sender_limit] ->
  pending (f s) = pending s /\ sender_queues (f s) = sender_queues s /\
  sender_queue_counts (f s) = sender_queue_counts s /\
  ready_total (f s) = ready_total s /\ blocked_total (f s) = blocked_total s /\
  candidates (f s) = candidates s /\ head_block_number (f s) = head_block_number s.
Proof. rewrite !elem_of_cons. by intros [->|[->|[->|[->|[->|[]%not_elem_of_nil]]]]]. Qed.

(** Every operation that leaves these five fields alone preserves the invariant. *)
Lemma wf_same_queues s s' :
  scheduler_wf s -> pending s' = pending s -> sender_queues s' = sender_queues s ->
  sender_queue_counts s' = sender_queue_counts s -> ready_total s' = ready_total s ->
  blocked_total s' = blocked_total s -> scheduler_wf s'.
Proof. intros [] Hp Hq Hc Hr Hb. split; congruence. Qed.

Lemma size_insert_le {K V} `{Countable K} (m : gmap K V) k v :
  size (<[k:=v]> m) <= S (size m).
Proof. rewrite map_size_insert. destruct (m !! k); simpl; lia. Qed.

(** The states that the two admitting branches refresh. *)
Definition inserted (tx : ValidatedTransaction) (p : gmap TxHash ValidatedTransaction)
    (s : SchedulerState) : SchedulerState :=
  set_queues (<[vt_hash tx := tx]> p)
    (queue_insert (sender_queues s) (vt_sender tx) (vt_nonce tx) (vt_hash tx)) s.

Lemma refresh_inserted_wf (f : SchedulerState -> SchedulerState) tx old s :
  (forall s, pending (f s) = pending s /\ sender_queues (f s) = sender_queues s /\
     sender_queue_counts (f s) = sender_queue_counts s /\
     ready_total (f s) = ready_total s /\ blocked_total (f s) = blocked_total s) ->
  scheduler_wf s -> (usize_of (size (pending s)) < u64_max)%N ->
  pending s !! vt_hash tx = None -> slot s (vt_sender tx) (vt_nonce tx) = old ->
  scheduler_wf (refresh_sender_counts (vt_sender tx)
    (f (inserted tx (match old with Some h => delete h (pending s) | None => pending s end) s))).
Proof.
  intros Hf [Hwf Hc Hr Hb] Hsize Hnew Hold.
  set (s1 := inserted tx _ s).
  destruct (Hf s1) as (E1 & E2 & E3 & E4 & E5).
  apply (refresh_wf _ (sender_queues s)).
  - rewrite E1, E2. by apply queues_wf_insert.
  - rewrite E1. unfold fits, usize_of in *. simpl.
    apply (N.le_trans _ (N.of_nat (S (size (pending s))))); [|lia].
    enough (size (<[vt_hash tx:=tx]> (match old with Some h => delete h (pending s) | None => pending s end))
            <= S (size (pending s))) by lia.
    etrans; [apply size_insert_le|]. apply le_n_S.
    destruct old; [apply map_subseteq_size, delete_subseteq|done].
  - unfold counted. rewrite E3, E4, E5. done.
  - rewrite E2. symmetry. apply queue_insert_delete.
Qed.

(** Admission preserves the scheduler invariant: [pending] and the sender
    queues keep describing the same transactions, the counts of every sender
    are those of its queue, and the ready and blocked totals are their exact
    sums (no counter saturates while the pending set fits a [u64]). *)
Lemma admit_wf config tx s
  (Hwf : scheduler_wf s) (Hsize : (usize_of (size (pending s)) < u64_max)%N) :
  scheduler_wf (admit_tx config tx s).2.
Proof.
  unfold admit_tx. case_decide as Hdup; simpl.
  { by apply (wf_same_queues s). }
  rewrite <-eq_None_not_Some in Hdup. fold (slot s (vt_sender tx) (vt_nonce tx)).
  destruct (slot s (vt_sender tx) (vt_nonce tx)) as [h|] eqn:Hs.
  - destruct (slot_pending _ _ _ _ (wf_queues _ Hwf) Hs) as (inc & Hinc & _). rewrite Hinc.
    destruct (_ <=? _)%N; simpl; [|by apply (wf_same_queues s)].
    by apply (refresh_inserted_wf (fun s => bump_replacement (bump_admitted s)) tx (Some h)).
  - destruct (_ <=? _)%N; simpl; [by apply (wf_same_queues s)|].
    by apply (refresh_inserted_wf bump_admitted tx None).
Qed.

(** Every branch leaves the rest of the state alone. *)
Lemma admit_candidates config tx s :
  candidates (admit_tx config tx s).2 = candidates s /\
  head_block_number (admit_tx config tx s).2 = head_block_number s.
Proof.
  unfold admit_tx. case_decide; [done|].
  destruct (_ ≫= _) as [h|]; [destruct (pending s !! h)|]; [| |];
    repeat destruct (_ <=? _)%N; done.
Qed.

(** ** The sender limit *)
Lemma admit_limit config tx s :
  scheduler_wf s -> limit_ok config s -> limit_ok config (admit_tx config tx s).2.
Proof.
  intros [Hwf _ _ _] Hlim. pose proof (admit_branch_spec config tx s Hwf) as Hb.
  unfold limit_ok. remember (sender_queues (admit_tx config tx s).2) as qs' eqn:E; clear E.
  remember (pending (admit_tx config tx s).2) as p' eqn:E; clear E.
  destruct Hb as [Hdup|Hnew Hslot Hlen|Hnew Hslot Hlen|h inc Hnew Hslot Hinc Hfee
                 |h inc Hnew Hslot Hinc Hfee]; try done.
  - intros a q. destruct (decide (a = vt_sender tx)) as [->|];
      [|rewrite queue_insert_lookup_ne by done; apply Hlim].
    rewrite queue_insert_lookup. intros [= <-]. unfold sender_len in Hlen.
    destruct (sender_queues s !! vt_sender tx) as [q|] eqn:Hq; simpl; unfold usize_of in *.
    + pose proof (size_insert_le q (vt_nonce tx) (vt_hash tx)). lia.
    + pose proof (size_insert_le (∅ : gmap N TxHash) (vt_nonce tx) (vt_hash tx)) as Hle.
      rewrite map_size_empty in Hle. lia.
  - intros a q. destruct (decide (a = vt_sender tx)) as [->|];
      [|rewrite queue_insert_lookup_ne by done; apply Hlim].
    rewrite queue_insert_lookup. intros [= <-].
    apply bind_Some in Hslot as (q & Hq & Hn). rewrite Hq; simpl.
    rewrite (map_size_insert_Some _ _ q) by done. by apply (Hlim (vt_sender tx)).
Qed.

(** The nonces of a machine state are [u64]s. *)
Definition in_range (s : SchedulerState) : Prop :=
  forall h tx, pending s !! h = Some tx -> (vt_nonce tx <= u64_max)%N.

Lemma admit_pending_inv config tx s h t :
  queues_wf (pending s) (sender_queues s) ->
  pending (admit_tx config tx s).2 !! h = Some t -> pending s !! h = Some t \/ t = tx.
Proof.
  intros Hwf Ht. pose proof (admit_branch_spec config tx s Hwf) as Hb.
  revert Hb Ht. generalize (pending (admit_tx config tx s).2). intros p'.
  generalize (sender_queues (admit_tx config tx s).2), (admission (admit_tx config tx s).1).
  intros qs' o Hb. destruct Hb; auto.
  - intros [[_ ->]|[_ ?]]%lookup_insert_Some; auto.
  - intros [[_ ->]|[_ Ht]]%lookup_insert_Some; auto.
    apply lookup_delete_Some in Ht as [_ ?]. auto.
Qed.

Lemma queue_in_range_wf s a q :
  queues_wf (pending s) (sender_queues s) -> in_range s ->
  sender_queues s !! a = Some q -> queue_in_range q.
Proof.
  intros Hwf Hr Hq n [h Hn]. destruct (qw_entry _ _ Hwf _ _ _ _ Hq Hn) as (tx & Htx & _ & <-).
  by eapply Hr.
Qed.

(** ** The initial state and a concrete one *)
Lemma scheduler_wf_default : scheduler_wf state_default.
Proof. apply scheduler_wf_counted. split; [apply queues_wf_empty|done]. Qed.

(** Nonces 7 and 9 of sender 5 are queued, 8 is missing. *)
Definition gap_state : SchedulerState :=
  admit_all scheduler_config_default [sample_tx 1 5 7 100; sample_tx 2 5 9 100] state_default.

Lemma admit_all_wf config txs s :
  scheduler_wf s -> (usize_of (size (pending s) + length txs) <= u64_max)%N ->
  scheduler_wf (admit_all config txs s).
Proof.
  revert s. induction txs as [|tx txs IH]; intros s Hwf Hsize; simpl; [done|].
  unfold usize_of in *. simpl in Hsize. apply IH.
  - apply admit_wf; [done|]. int_lia.
  - enough (size (pending (admit_tx config tx s).2) <= S (size (pending s))) by (int_lia).
    pose proof (admit_branch_spec config tx s (wf_queues _ Hwf)) as Hb.
    revert Hb. generalize (pending (admit_tx config tx s).2). intros p'.
    generalize (sender_queues (admit_tx config tx s).2), (admission (admit_tx config tx s).1).
    intros qs' o Hb. destruct Hb; try lia.
    + apply size_insert_le.
    + etrans; [apply size_insert_le|]. apply le_n_S, map_subseteq_size, delete_subseteq.
Qed.

Lemma gap_state_wf : scheduler_wf gap_state.
Proof. apply admit_all_wf; [apply scheduler_wf_default|vm_compute; discriminate]. Qed.

Lemma gap_state_range : in_range gap_state.
Proof.
  assert (map_Forall (fun _ tx => (vt_nonce tx <= u64_max)%N) (pending gap_state)) as H.
  { apply (bool_decide_unpack _). vm_compute. exact I. }
  exact H.
Qed.
