(* ===== verification/SchedulerRefinement.v ===== *)
(** * SchedulerRefinement: admission as a (sender, nonce)-indexed pool

    What the scheduler promises its callers, without the hash index, the
    queues and the counters: a finite map from (sender, nonce) to one
    transaction.  [admit_tx] refines [abs_admit] on that map. *)
From stdpp Require Import base gmap strings list numbers sorting.
From S2P Require Import Prelude Common EventLog Scheduler SchedulerQueue SchedulerInvariant.

Abbreviation Pool := (gmap (Address * N) ValidatedTransaction).

(** The transactions a pool holds for one sender. *)
Definition sender_part (pool : Pool) (a : Address) : Pool :=
  filter (fun kv => kv.1.1 = a) pool.

Definition abs_admit (config : SchedulerConfig) (tx : ValidatedTransaction) (pool : Pool) :
    SchedulerAdmission * Pool :=
  let key := (vt_sender tx, vt_nonce tx) in
  if decide (map_Exists (fun _ t => vt_hash t = vt_hash tx) pool) then (Duplicate, pool)
  else
    match pool !! key with
    | Some incumbent =>
        if (replacement_threshold_fee incumbent (replacement_fee_bump_bps config)
            <=? tx_fee tx)%N
        then (Replaced (vt_hash incumbent), <[key := tx]> pool)
        else (UnderpricedReplacement, pool)
    | None =>
        if (max_pending_per_sender config <=? usize_of (size (sender_part pool (vt_sender tx))))%N
        then (SenderLimitReached, pool)
        else (AdmittedTx, <[key := tx]> pool)
    end.

(** The abstraction function reads [pending] only. *)
Definition pool_key (tx : ValidatedTransaction) : Address * N := (vt_sender tx, vt_nonce tx).
Definition abs_pool (s : SchedulerState) : Pool :=
  list_to_map ((fun tx => (pool_key tx, tx)) <$> (map_to_list (pending s)).*2).

Section abs.
Context (s : SchedulerState) (Hwf : queues_wf (pending s) (sender_queues s)).

Lemma elem_of_pending_values tx :
  tx ∈ (map_to_list (pending s)).*2 <-> pending s !! vt_hash tx = Some tx.
Proof using Hwf.
  rewrite list_elem_of_fmap. split.
  - intros ([h tx'] & -> & Hh%elem_of_map_to_list); simpl.
    by destruct (qw_pending _ _ Hwf _ _ Hh) as [-> _].
  - intros Hh. exists (vt_hash tx, tx). by rewrite elem_of_map_to_list.
Qed.

Lemma pool_key_inj t1 t2 :
  pending s !! vt_hash t1 = Some t1 -> pending s !! vt_hash t2 = Some t2 ->
  pool_key t1 = pool_key t2 -> t1 = t2.
Proof using Hwf.
  intros H1 H2 [= Es En].
  destruct (qw_pending _ _ Hwf _ _ H1) as (_ & q1 & Hq1 & Hn1).
  destruct (qw_pending _ _ Hwf _ _ H2) as (_ & q2 & Hq2 & Hn2).
  rewrite Es, Hq2 in Hq1. rewrite En in Hn1. congruence.
Qed.

Lemma pending_values_NoDup : NoDup (pool_key <$> (map_to_list (pending s)).*2).
Proof using Hwf.
  apply NoDup_fmap_2_strong.
  - intros t1 t2 H1%elem_of_pending_values H2%elem_of_pending_values. by apply pool_key_inj.
  - apply NoDup_fmap_2_strong; [|apply NoDup_map_to_list].
    intros [h1 t1] [h2 t2] H1%elem_of_map_to_list H2%elem_of_map_to_list; simpl.
    intros <-. destruct (qw_pending _ _ Hwf _ _ H1) as [<- _].
    by destruct (qw_pending _ _ Hwf _ _ H2) as [<- _].
Qed.

Lemma abs_pool_Some k tx :
  abs_pool s !! k = Some tx <-> pending s !! vt_hash tx = Some tx /\ pool_key tx = k.
Proof using Hwf.
  unfold abs_pool. rewrite <-elem_of_list_to_map.
  - rewrite list_elem_of_fmap. split.
    + intros (t & [= -> ->] & Ht). by rewrite <-elem_of_pending_values.
    + intros [Ht <-]. exists tx. by rewrite elem_of_pending_values.
  - rewrite <-list_fmap_compose. apply pending_values_NoDup.
Qed.

Lemma abs_pool_slot a n :
  abs_pool s !! (a, n) = slot s a n ≫= fun h => pending s !! h.
Proof using Hwf.
  apply option_eq. intros tx. rewrite abs_pool_Some, bind_Some. split.
  - intros [Hp [= <- <-]]. exists (vt_hash tx). split; [|done].
    destruct (qw_pending _ _ Hwf _ _ Hp) as (_ & q & Hq & Hn).
    unfold slot. by rewrite Hq.
  - intros (h & Hs & Hh). destruct (qw_pending _ _ Hwf _ _ Hh) as [-> _].
    split; [done|]. destruct (slot_pending _ _ _ _ Hwf Hs) as (tx' & Htx' & <- & <-).
    by simplify_eq.
Qed.

Lemma abs_pool_exists tx :
  map_Exists (fun _ t => vt_hash t = vt_hash tx) (abs_pool s) <->
  is_Some (pending s !! vt_hash tx).
Proof using Hwf.
  split.
  - intros (k & t & [Ht _]%abs_pool_Some & <-). eauto.
  - intros [t Ht]. destruct (qw_pending _ _ Hwf _ _ Ht) as [E _].
    exists (pool_key t), t. split; [|done]. rewrite abs_pool_Some. by rewrite E.
Qed.

Lemma sender_part_size a : usize_of (size (sender_part (abs_pool s) a)) = sender_len s a.
Proof using Hwf.
  transitivity (usize_of (size (default ∅ (sender_queues s !! a))));
    [|unfold sender_len; by destruct (sender_queues s !! a)].
  f_equal. rewrite <-!length_map_to_list, <-(length_fmap fst (map_to_list (sender_part _ _))),
    <-(length_fmap (pair a ∘ fst) (map_to_list (default _ _))).
  apply Permutation_length, NoDup_Permutation.
  - apply NoDup_fst_map_to_list.
  - rewrite list_fmap_compose. apply NoDup_fmap; [apply _|].
    apply NoDup_fst_map_to_list.
  - intros [b n]. rewrite !list_elem_of_fmap. split.
    + intros ([k tx] & -> & Hk%elem_of_map_to_list).
      apply map_lookup_filter_Some in Hk as [Hk Ha]. simpl in *. subst a.
      destruct k as [a m]. rewrite abs_pool_slot in Hk. simpl.
      apply bind_Some in Hk as (h & (q & Hq & Hm)%bind_Some & _).
      exists (m, h). rewrite Hq, elem_of_map_to_list. done.
    + intros ([m h] & [= -> ->] & Hm%elem_of_map_to_list).
      destruct (sender_queues s !! a) as [q|] eqn:Hq; simpl in Hm;
        [|by rewrite lookup_empty in Hm].
      destruct (qw_entry _ _ Hwf _ _ _ _ Hq Hm) as (tx & Htx & _).
      exists ((a, m), tx). unfold sender_part. rewrite elem_of_map_to_list, map_lookup_filter_Some.
      split; [done|]. split; [|done]. rewrite abs_pool_slot. unfold slot.
      rewrite Hq; simpl. by rewrite Hm.
Qed.
End abs.

(** The pool after a slot update. *)
Lemma abs_pool_insert s s' tx (old : option TxHash) :
  queues_wf (pending s) (sender_queues s) ->
  pending s !! vt_hash tx = None -> slot s (vt_sender tx) (vt_nonce tx) = old ->
  pending s' = <[vt_hash tx := tx]>
                 (match old with Some h => delete h (pending s) | None => pending s end) ->
  sender_queues s' = queue_insert (sender_queues s) (vt_sender tx) (vt_nonce tx) (vt_hash tx) ->
  abs_pool s' = <[pool_key tx := tx]> (abs_pool s).
Proof.
  intros Hwf Hnew Hold Hp Hq.
  assert (queues_wf (pending s') (sender_queues s')) as Hwf'.
  { rewrite Hp, Hq. by apply queues_wf_insert. }
  apply map_eq. intros k. apply option_eq. intros t.
  rewrite abs_pool_Some, lookup_insert_Some, abs_pool_Some by done. split.
  - intros [Ht Hk]. destruct (decide (pool_key tx = k)) as [E|E].
    + left. split; [done|]. apply (pool_key_inj s'); [done| |done|congruence].
      rewrite Hp. apply lookup_insert_eq.
    + right. split; [done|]. split; [|done]. rewrite Hp, lookup_insert_Some in Ht.
      destruct Ht as [[_ ->]|[_ Ht]]; [done|].
      destruct old; [|done]. by apply lookup_delete_Some in Ht as [_ ?].
  - intros [[<- ->]|(Hk & Ht & <-)].
    + split; [|done]. rewrite Hp. apply lookup_insert_eq.
    + split; [|done]. rewrite Hp, lookup_insert_ne by congruence.
      destruct old as [h|]; [|done]. apply lookup_delete_Some. split; [|done].
      intros ->. destruct (slot_pending _ _ _ _ Hwf Hold) as (t' & Ht' & Es & En).
      simplify_eq. apply Hk. unfold pool_key. by rewrite Es, En.
Qed.

Lemma abs_pool_same s s' :
  pending s' = pending s -> abs_pool s' = abs_pool s.
Proof. unfold abs_pool. by intros ->. Qed.

(** C2: [admit_tx] refines the (sender, nonce) pool: on a well-formed state it
    returns the verdict of [abs_admit] (duplicate hash, replacement by fee,
    under-priced replacement, sender limit, plain admission) and its new state
    abstracts to the new pool. *)
Theorem admit_refines config tx s (Hwf : scheduler_wf s) :
  (admission (admit_tx config tx s).1, abs_pool (admit_tx config tx s).2) =
    abs_admit config tx (abs_pool s).
Proof.
  destruct Hwf as [Hwf _ _ _].
  pose proof (admit_branch_spec config tx s Hwf) as Hb.
  unfold abs_admit. rewrite abs_pool_slot, sender_part_size by done.
  remember (admission _) as o eqn:Ho; clear Ho.
  remember (pending (admit_tx config tx s).2) as p' eqn:Hp'.
  remember (sender_queues (admit_tx config tx s).2) as qs' eqn:Hqs'.
  destruct Hb as [Hdup|Hnew Hslot Hlen|Hnew Hslot Hlen|h inc Hnew Hslot Hinc Hfee
                 |h inc Hnew Hslot Hinc Hfee].
  - rewrite decide_True by (by apply abs_pool_exists). by rewrite (abs_pool_same s).
  - rewrite decide_False, Hslot by (rewrite abs_pool_exists, Hnew by done; apply is_Some_None).
    simpl. rewrite (proj2 (N.leb_le _ _) Hlen). by rewrite (abs_pool_same s).
  - rewrite decide_False, Hslot by (rewrite abs_pool_exists, Hnew by done; apply is_Some_None).
    simpl. rewrite (proj2 (N.leb_gt _ _) Hlen). by rewrite (abs_pool_insert s _ tx None).
  - rewrite decide_False, Hslot by (rewrite abs_pool_exists, Hnew by done; apply is_Some_None).
    simpl. rewrite Hinc; simpl. rewrite (proj2 (N.leb_gt _ _) Hfee).
    by rewrite (abs_pool_same s).
  - rewrite decide_False, Hslot by (rewrite abs_pool_exists, Hnew by done; apply is_Some_None).
    simpl. rewrite Hinc; simpl. rewrite (proj2 (N.leb_le _ _) Hfee).
    rewrite (abs_pool_insert s _ tx (Some h)) by done.
    by destruct (qw_pending _ _ Hwf _ _ Hinc) as [-> _].
Qed.

Lemma admit_refines_witness :
  (admission (admit_tx scheduler_config_default (sample_tx 3 5 7 110) gap_state).1,
   abs_pool (admit_tx scheduler_config_default (sample_tx 3 5 7 110) gap_state).2) =
    (Replaced 1, <[(5, 7) := sample_tx 3 5 7 110]> (abs_pool gap_state))%N.
Proof.
  rewrite (admit_refines scheduler_config_default (sample_tx 3 5 7 110) gap_state gap_state_wf).
  vm_compute. reflexivity.
Defined.

(** ** The replacement rule *)

(** The fee bump.  While [fee * (10000 + bps)] fits a [u128], a transaction
    replaces an incumbent exactly when its fee is at least the incumbent's
    raised by [bps] basis points, rounded up, so in particular never below the
    incumbent's fee.  Past that bound the product saturates and the threshold
    is the constant [ceil(u128::MAX / 10000)], which lies below the
    incumbent's fee whenever that fee exceeds it. *)
Theorem replacement_rule inc fee bps :
  let product := (tx_fee inc * (10000 + bps))%N in
  (10000 + bps <= u128_max)%N ->
  ((product <= u128_max)%N ->
     ((replacement_threshold_fee inc bps <= fee)%N <-> (product <= fee * 10000)%N) /\
     (tx_fee inc <= replacement_threshold_fee inc bps)%N) /\
  ((u128_max < product)%N ->
     replacement_threshold_fee inc bps = 34028236692093846346337460743176822%N /\
     ((34028236692093846346337460743176822 < tx_fee inc)%N ->
        (replacement_threshold_fee inc bps < tx_fee inc)%N)).
Proof.
  cbn zeta. intros Hbps. unfold replacement_threshold_fee, sat_add.
  rewrite (N.min_l (10000 + bps)) by done. unfold sat_mul. split; intros Hp.
  - rewrite N.min_l by done. split; [by apply div_ceil_spec|].
    apply N.le_ngt. intros Hlt.
    assert (div_ceil (tx_fee inc * (10000 + bps)) 10000 <= tx_fee inc - 1)%N as Hle by lia.
    apply div_ceil_spec in Hle; [|done]. nia.
  - rewrite N.min_r by lia. change (div_ceil u128_max 10000) with 34028236692093846346337460743176822%N.
    split; [done|]. done.
Qed.

Lemma replacement_rule_witness :
  (replacement_threshold_fee (sample_tx 1 5 7 100) 1000 <= 110)%N /\
  ((replacement_threshold_fee (sample_tx 1 5 7 100) 1000 <= 110)%N <->
     (100 * (10000 + 1000) <= 110 * 10000)%N).
Proof.
  split; [vm_compute; discriminate|].
  refine (proj1 (proj1 (replacement_rule (sample_tx 1 5 7 100) 110 1000 _) _));
    vm_compute; discriminate.
Defined.
