(* ===== verification/SchedulerViews.v ===== *)
(** * SchedulerViews: what the scheduler reports about its queues

    The snapshot (ready and blocked transactions), the executable frontier and
    the queue transitions of an admission, against the declarative state of a
    queue entry. *)
From stdpp Require Import base gmap strings list numbers sorting.
From S2P Require Import Prelude Common EventLog Scheduler SchedulerQueue SchedulerInvariant.

Section omap.
Context {A B : Type}.

Lemma omap_split (P : A -> Prop) `{!forall x, Decision (P x)} (f : A -> option B) (l : list A) :
  omap (fun x => if decide (P x) then f x else None) l ++
  omap (fun x => if decide (P x) then None else f x) l ≡ₚ omap f l.
Proof.
  induction l as [|x l IH]; csimpl; [done|]. case_decide.
  - destruct (f x); csimpl; by rewrite IH.
  - destruct (f x); csimpl; [|done]. by rewrite <-IH, Permutation_middle.
Qed.

Lemma bind_app_perm (f g : A -> list B) (l : list A) :
  (l ≫= f) ++ (l ≫= g) ≡ₚ l ≫= fun x => f x ++ g x.
Proof.
  induction l as [|x l IH]; csimpl; [done|]. rewrite <-IH.
  rewrite <-!(assoc_L (++)). f_equiv. rewrite !(assoc_L (++)). f_equiv. apply Permutation_app_comm.
Qed.

Lemma omap_bind {C} (f : B -> option C) (g : A -> list B) (l : list A) :
  omap f (l ≫= g) = l ≫= fun x => omap f (g x).
Proof. induction l as [|x l IH]; csimpl; [done|]. by rewrite omap_app, IH. Qed.

Lemma bind_ext_elem (f g : A -> list B) (l : list A) :
  (forall x, x ∈ l -> f x = g x) -> l ≫= f = l ≫= g.
Proof.
  induction l as [|x l IH]; csimpl; intros Hfg; [done|].
  rewrite (Hfg x), IH; [done| |by left]. intros y Hy. apply Hfg. by right.
Qed.

Lemma omap_fmap_l {C} (f : B -> option C) (g : A -> B) (l : list A) :
  omap f (g <$> l) = omap (fun x => f (g x)) l.
Proof. induction l as [|x l IH]; csimpl; [done|]. by rewrite IH. Qed.

Lemma fmap_bind {C} (f : B -> C) (g : A -> list B) (l : list A) :
  f <$> (l ≫= g) = l ≫= fun x => f <$> g x.
Proof. induction l as [|x l IH]; csimpl; [done|]. by rewrite fmap_app, IH. Qed.
End omap.

Definition ready_part (p : gmap TxHash ValidatedTransaction) (q : gmap N TxHash) :=
  omap (fun pos => if decide (pos_state pos = Ready) then p !! pos_hash pos else None)
    (queue_positions q).
Definition blocked_part (p : gmap TxHash ValidatedTransaction) (q : gmap N TxHash) :=
  omap (fun pos => if decide (pos_state pos = Ready) then None else p !! pos_hash pos)
    (queue_positions q).

Section views.
Context (s : SchedulerState) (Hwf : queues_wf (pending s) (sender_queues s)).

Lemma positions_loop_queue a q :
  sender_queues s !! a = Some q ->
  positions_loop (pending s) None false (bt_iter q) = queue_positions q.
Proof using Hwf. intros Hq. by rewrite positions_loop_states by (by eapply queues_present). Qed.

Lemma sender_queue_positions_eq a :
  sender_queue_positions s a = from_option queue_positions [] (sender_queues s !! a).
Proof using Hwf.
  unfold sender_queue_positions. destruct (sender_queues s !! a) as [q|] eqn:Hq; [|done].
  by eapply positions_loop_queue.
Qed.

Lemma classify_by_sender_eq :
  classify_by_sender s =
    (bt_values (sender_queues s) ≫= ready_part (pending s),
     bt_values (sender_queues s) ≫= blocked_part (pending s)).
Proof using Hwf.
  assert (forall q, q ∈ bt_values (sender_queues s) ->
            classify_loop (pending s) None false (bt_iter q) =
              (ready_part (pending s) q, blocked_part (pending s) q)) as Hq.
  { intros q [a Ha]%elem_of_bt_values. rewrite classify_loop_positions.
    by erewrite positions_loop_queue. }
  unfold classify_by_sender. induction (bt_values (sender_queues s)) as [|q l IH]; csimpl; [done|].
  rewrite Hq, IH; [done| |by left]. intros q' Hq'. apply Hq. by right.
Qed.

Lemma executable_frontier_eq :
  executable_frontier_hashes s = vt_hash <$> (classify_by_sender s).1.
Proof using Hwf.
  rewrite classify_by_sender_eq; simpl. unfold executable_frontier_hashes.
  rewrite fmap_bind. apply bind_ext_elem. intros q [a Ha]%elem_of_bt_values.
  rewrite frontier_loop_positions. erewrite positions_loop_queue by done.
  unfold ready_part. rewrite list_fmap_omap. apply list_omap_ext, Forall2_same_length_lookup_2; [done|].
  intros i pos ? Hi Hi'. simplify_eq. apply list_elem_of_lookup_2 in Hi.
  case_decide; [|done].
  assert ((pos_nonce pos, pos_hash pos) ∈ bt_iter q) as Hin.
  { rewrite <-queue_positions_entries. apply list_elem_of_fmap. eauto. }
  apply elem_of_bt_iter in Hin.
  destruct (qw_entry _ _ Hwf _ _ _ _ Ha Hin) as (tx & Htx & _). rewrite Htx; simpl.
  by destruct (qw_pending _ _ Hwf _ _ Htx) as [-> _].
Qed.

Lemma classified_perm :
  (classify_by_sender s).1 ++ (classify_by_sender s).2 ≡ₚ bt_values (pending s).
Proof using Hwf.
  rewrite classify_by_sender_eq; simpl. rewrite bind_app_perm.
  transitivity (omap (fun h => pending s !! h) (queue_hashes (sender_queues s))).
  - unfold queue_hashes. rewrite omap_bind. unfold bt_values.
    rewrite list_fmap_bind, (bt_iter_perm (sender_queues s)).
    induction (map_to_list (sender_queues s)) as [|[a q] l IH]; csimpl; [done|].
    rewrite IH. f_equiv. unfold ready_part, blocked_part. rewrite omap_split.
    rewrite omap_fmap_l, <-(bt_iter_perm q), <-queue_positions_entries, omap_fmap_l. done.
  - rewrite (queue_hashes_perm _ _ Hwf), omap_fmap_l. unfold bt_values. rewrite bt_iter_perm.
    assert (forall kv, kv ∈ map_to_list (pending s) -> pending s !! kv.1 = Some kv.2) as Hin.
    { by intros [k v] ?%elem_of_map_to_list. }
    revert Hin. generalize (map_to_list (pending s)). intros l.
    induction l as [|[k v] l IH]; csimpl; intros Hin; [done|].
    pose proof (Hin (k, v) ltac:(by left)) as E; simpl in E. rewrite E; csimpl. f_equiv. apply IH.
    intros; apply Hin; by right.
Qed.
End views.

(** ** Membership *)
Lemma elem_of_classified s :
  queues_wf (pending s) (sender_queues s) -> in_range s -> forall tx,
  (tx ∈ (classify_by_sender s).1 <->
    pending s !! vt_hash tx = Some tx /\
    exists q, sender_queues s !! vt_sender tx = Some q /\ run_to q (vt_nonce tx)) /\
  (tx ∈ (classify_by_sender s).2 <->
    pending s !! vt_hash tx = Some tx /\
    exists q g, sender_queues s !! vt_sender tx = Some q /\ first_gap q g /\ (g < vt_nonce tx)%N).
Proof.
  intros Hwf Hr tx. rewrite classify_by_sender_eq by done; simpl.
  rewrite !list_elem_of_bind. unfold ready_part, blocked_part.
  assert (forall a q pos, sender_queues s !! a = Some q -> pos ∈ queue_positions q ->
            pending s !! pos_hash pos = Some tx ->
            vt_sender tx = a /\ vt_nonce tx = pos_nonce pos /\ vt_hash tx = pos_hash pos /\
            state_spec q (vt_nonce tx) (pos_state pos)) as Hpos.
  { intros a q pos Ha Hin Hp.
    destruct (queue_positions_spec q pos (queue_in_range_wf s a q Hwf Hr Ha) Hin) as [Hn Hst].
    destruct (qw_entry _ _ Hwf _ _ _ _ Ha Hn) as (tx' & Htx' & Hs & Hnon).
    destruct (qw_pending _ _ Hwf _ _ Hp) as [Hh _]. simplify_eq. by rewrite Hnon. }
  assert (pending s !! vt_hash tx = Some tx -> exists q st,
            sender_queues s !! vt_sender tx = Some q /\
            mk_position (vt_nonce tx, vt_hash tx) st ∈ queue_positions q /\
            state_spec q (vt_nonce tx) st /\ is_Some (q !! vt_nonce tx)) as Hex.
  { intros Hp. destruct (qw_pending _ _ Hwf _ _ Hp) as (_ & q & Hq & Hn).
    destruct (queue_positions_complete q _ _ Hn) as [st Hst]. exists q, st.
    split; [done|]. split; [done|]. split; [|eauto].
    by destruct (Hpos (vt_sender tx) q _ Hq Hst Hp) as (_ & _ & _ & ?). }
  split; split.
  - intros (q & Hin & [a Ha]%elem_of_bt_values).
    apply list_elem_of_omap in Hin as (pos & Hpin & Hp). case_decide as Hst; [|done].
    destruct (Hpos a q pos Ha Hpin Hp) as (Hs & Hn & Hh & Hspec). rewrite Hh.
    split; [done|]. exists q. rewrite Hs. rewrite Hst in Hspec. done.
  - intros (Hp & q & Hq & Hrun). destruct (Hex Hp) as (q' & st & Hq' & Hin & Hspec & Hn).
    rewrite Hq in Hq'. injection Hq' as <-. assert (st = Ready) as -> by (by eapply (state_spec_unique q (vt_nonce tx))).
    exists q. split; [|apply elem_of_bt_values; eauto]. apply list_elem_of_omap.
    eexists. split; [done|]. by rewrite decide_True.
  - intros (q & Hin & [a Ha]%elem_of_bt_values).
    apply list_elem_of_omap in Hin as (pos & Hpin & Hp). case_decide as Hst; [done|].
    destruct (Hpos a q pos Ha Hpin Hp) as (Hs & Hn & Hh & Hspec). rewrite Hh.
    split; [done|]. destruct (pos_state pos) as [|g]; [done|].
    exists q, g. rewrite Hs. by destruct Hspec.
  - intros (Hp & q & g & Hq & Hgap & Hg). destruct (Hex Hp) as (q' & st & Hq' & Hin & Hspec & Hn).
    rewrite Hq in Hq'. injection Hq' as <-. assert (st = Blocked g) as -> by (by eapply (state_spec_unique q (vt_nonce tx))).
    exists q. split; [|apply elem_of_bt_values; eauto]. apply list_elem_of_omap.
    eexists. split; [done|]. by rewrite decide_False.
Qed.

(** C6: the snapshot published by a well-formed scheduler with 64-bit nonces
    (what [reachable_state_ok] keeps) is exact. Its ready and blocked lists
    partition the pending transactions; a transaction is ready exactly when no
    nonce between a queued nonce of its sender and its own is missing, and
    blocked exactly when the first missing nonce of its sender lies below its
    own; the executable frontier lists the hashes of the ready transactions in
    order. (A scheduler restored from a snapshot with a transaction outside its
    queues is not well formed and shows it in neither list,
    [rehydration_keeps_orphans].) *)
Theorem snapshot_exact s (Hwf : scheduler_wf s) (Hr : in_range s) :
  let snap := snapshot s in
  snap_ready snap ++ snap_blocked snap ≡ₚ snap_pending snap /\
  (forall tx, tx ∈ snap_ready snap <->
     pending s !! vt_hash tx = Some tx /\
     exists q, sender_queues s !! vt_sender tx = Some q /\ run_to q (vt_nonce tx)) /\
  (forall tx, tx ∈ snap_blocked snap <->
     pending s !! vt_hash tx = Some tx /\
     exists q g, sender_queues s !! vt_sender tx = Some q /\ first_gap q g /\
                 (g < vt_nonce tx)%N) /\
  executable_frontier_hashes s = vt_hash <$> snap_ready snap.
Proof.
  destruct Hwf as [Hwf _ _ _]. split; [by apply classified_perm|].
  split; [intros; by apply elem_of_classified|].
  split; [intros; by apply elem_of_classified|by apply executable_frontier_eq].
Qed.

Lemma snapshot_exact_witness :
  vt_hash <$> snap_ready (snapshot gap_state) = [1%N] /\
  vt_hash <$> snap_blocked (snapshot gap_state) = [2%N] /\
  snap_ready (snapshot gap_state) ++ snap_blocked (snapshot gap_state)
    ≡ₚ snap_pending (snapshot gap_state).
Proof.
  split; [vm_compute; reflexivity|]. split; [vm_compute; reflexivity|].
  exact (proj1 (snapshot_exact gap_state gap_state_wf gap_state_range)).
Defined.

(** ** Queue transitions *)
Definition status_map (s : SchedulerState) (a : Address) : gmap TxHash SchedulerQueueState :=
  previous_by_hash (sender_queue_positions s a).

(** What a listener does with the transitions of one admission. *)
Definition apply_transitions (m : gmap TxHash SchedulerQueueState)
    (l : list SchedulerQueueTransition) : gmap TxHash SchedulerQueueState :=
  foldl (fun m t => <[tr_hash t := tr_state t]> m) m l.

Lemma foldl_insert_lookup {A} (key : A -> TxHash) (val : A -> SchedulerQueueState) l
    (m : gmap TxHash SchedulerQueueState) h st :
  NoDup (key <$> l) ->
  foldl (fun m x => <[key x := val x]> m) m l !! h = Some st <->
  (exists x, x ∈ l /\ key x = h /\ val x = st) \/ (h ∉ key <$> l) /\ m !! h = Some st.
Proof.
  revert m. induction l as [|x l IH]; intros m; csimpl; intros Hnd.
  - split; [intros ?; right; split; [by apply not_elem_of_nil|done]|].
    intros [(x & []%not_elem_of_nil & _)|[_ ?]]; done.
  - apply NoDup_cons in Hnd as [Hx Hnd]. rewrite (IH _ Hnd). split.
    + intros [(y & Hy & <- & <-)|[Hh Hm]].
      * left. exists y. split; [by right|done].
      * apply lookup_insert_Some in Hm as [[<- <-]|[Hne Hm]].
        { left. exists x. split; [by left|done]. }
        right. split; [|done]. by rewrite not_elem_of_cons.
    + intros [(y & [->|Hy]%elem_of_cons & <- & <-)|[Hh Hm]].
      * right. split; [done|]. apply lookup_insert_eq.
      * left. by exists y.
      * apply not_elem_of_cons in Hh as [Hne Hh]. right. split; [done|].
        by rewrite lookup_insert_ne.
Qed.

Section transitions.
Context (s : SchedulerState) (Hwf : queues_wf (pending s) (sender_queues s)).

Lemma positions_hashes_NoDup a : NoDup (pos_hash <$> sender_queue_positions s a).
Proof using Hwf.
  rewrite sender_queue_positions_eq by done.
  destruct (sender_queues s !! a) as [q|] eqn:Hq; simpl; [|constructor].
  change pos_hash with (snd ∘ (fun pos => (pos_nonce pos, pos_hash pos))).
  rewrite list_fmap_compose, queue_positions_entries, bt_iter_perm.
  apply NoDup_fmap_2_strong; [|apply NoDup_map_to_list].
  intros [n1 h1] [n2 h2] H1%elem_of_map_to_list H2%elem_of_map_to_list; simpl.
  intros <-. by destruct (queues_slot_unique _ _ Hwf a q n1 a q n2 h1) as [_ ->].
Qed.

Lemma status_map_lookup a h st :
  status_map s a !! h = Some st <->
  exists pos, pos ∈ sender_queue_positions s a /\ pos_hash pos = h /\ pos_state pos = st.
Proof using Hwf.
  unfold status_map, previous_by_hash. rewrite foldl_insert_lookup by apply positions_hashes_NoDup.
  rewrite lookup_empty. split; [by intros [?|[_ ?]]|by left].
Qed.

(** A hash has a status exactly when it is queued. *)
Lemma status_map_dom a h :
  is_Some (status_map s a !! h) <-> exists n, slot s a n = Some h.
Proof using Hwf.
  split.
  - intros [st (pos & Hpos & <- & <-)%status_map_lookup].
    rewrite sender_queue_positions_eq in Hpos by done. unfold slot.
    destruct (sender_queues s !! a) as [q|]; simpl in *; [|by apply not_elem_of_nil in Hpos].
    exists (pos_nonce pos). apply elem_of_bt_iter. rewrite <-queue_positions_entries.
    apply list_elem_of_fmap. eauto.
  - intros (n & (q & Hq & Hn)%bind_Some).
    destruct (queue_positions_complete q n h Hn) as [st Hst]. exists st.
    apply status_map_lookup. exists (mk_position (n, h) st). split; [|done].
    rewrite sender_queue_positions_eq by done. rewrite Hq. exact Hst.
Qed.

Lemma elem_of_transitions a prev t :
  t ∈ queue_transitions_of s a prev <->
  tr_sender t = a /\ mk_position (tr_nonce t, tr_hash t) (tr_state t) ∈ sender_queue_positions s a
  /\ previous_by_hash prev !! tr_hash t <> Some (tr_state t).
Proof using.
  unfold queue_transitions_of. rewrite list_elem_of_omap. split.
  - intros (pos & Hpos & Ht). destruct (previous_by_hash prev !! pos_hash pos) as [st|] eqn:Hst.
    + case_decide as E; [done|]. injection Ht as <-. simpl. rewrite Hst.
      split; [done|]. split; [by destruct pos|congruence].
    + injection Ht as <-. simpl. rewrite Hst. split; [done|]. by destruct pos.
  - intros (<- & Hpos & Hst). eexists. split; [exact Hpos|]. simpl.
    destruct (previous_by_hash prev !! tr_hash t) as [st|]; [rewrite decide_False by congruence|];
      by destruct t.
Qed.

Lemma transitions_hashes_NoDup a prev : NoDup (tr_hash <$> queue_transitions_of s a prev).
Proof using Hwf.
  pose proof (positions_hashes_NoDup a) as Hnd. unfold queue_transitions_of.
  assert (forall l, tr_hash <$> omap (fun position =>
      match previous_by_hash prev !! pos_hash position with
      | Some state =>
          if decide (state = pos_state position) then None
          else Some {| tr_hash := pos_hash position; tr_sender := a;
                       tr_nonce := pos_nonce position; tr_state := pos_state position |}
      | None => Some {| tr_hash := pos_hash position; tr_sender := a;
                        tr_nonce := pos_nonce position; tr_state := pos_state position |}
      end) l `sublist_of` pos_hash <$> l) as Hsub.
  { induction l as [|pos l IH]; csimpl; [done|].
    destruct (_ !! _); [case_decide|]; csimpl; by constructor. }
  eapply sublist_NoDup; [exact Hnd|apply Hsub].
Qed.
End transitions.

(** The hash an admission displaced. *)
Definition displaced (o : SchedulerAdmission) (m : gmap TxHash SchedulerQueueState) :=
  match o with Replaced h => delete h m | _ => m end.

Lemma replay_transitions s s' a (old : option TxHash) :
  queues_wf (pending s) (sender_queues s) -> queues_wf (pending s') (sender_queues s') ->
  (forall n h, slot s a n = Some h -> old <> Some h -> slot s' a n = Some h) ->
  (forall n, old = slot s' a n -> slot s' a n = None) ->
  apply_transitions (match old with Some h => delete h (status_map s a) | None => status_map s a end)
    (queue_transitions_of s' a (sender_queue_positions s a)) = status_map s' a.
Proof.
  intros Hwf Hwf' Hkeep Hgone. apply map_eq. intros h. apply option_eq. intros st.
  unfold apply_transitions.
  rewrite foldl_insert_lookup by (by apply transitions_hashes_NoDup).
  fold (status_map s a). split.
  - intros [(t & Ht & <- & <-)|[Hno Hold]].
    + apply elem_of_transitions in Ht as (_ & Hpos & _). apply status_map_lookup; [done|]. eauto.
    + assert (status_map s a !! h = Some st /\ old <> Some h) as [Hst Hne].
      { destruct old as [h'|]; [|done]. apply lookup_delete_Some in Hold as [? ?]. split; congruence. }
      assert (is_Some (status_map s a !! h)) as [n Hn]%(status_map_dom s Hwf) by eauto.
      assert (is_Some (status_map s' a !! h)) as [st' Hst'].
      { apply (status_map_dom s' Hwf'). exists n. by apply Hkeep. }
      destruct (decide (st' = st)) as [->|Hd]; [done|]. exfalso. apply Hno.
      apply (status_map_lookup s' Hwf') in Hst' as (pos & Hpos & <- & <-).
      apply list_elem_of_fmap.
      exists {| tr_hash := pos_hash pos; tr_sender := a; tr_nonce := pos_nonce pos;
                tr_state := pos_state pos |}.
      split; [done|]. apply elem_of_transitions. split; [done|]. split; [by destruct pos|].
      simpl. fold (status_map s a). rewrite Hst. congruence.
  - intros Hst. assert (is_Some (status_map s' a !! h)) as [n Hn]%(status_map_dom s' Hwf') by eauto.
    destruct (decide (status_map s a !! h = Some st /\ old <> Some h /\
                h ∉ tr_hash <$> queue_transitions_of s' a (sender_queue_positions s a)))
      as [(Hold & Hne & Hno)|Hd].
    + right. split; [done|]. destruct old as [h'|]; [|done].
      apply lookup_delete_Some. split; congruence.
    + left. apply (status_map_lookup s' Hwf') in Hst as (pos & Hpos & <- & <-).
      exists {| tr_hash := pos_hash pos; tr_sender := a; tr_nonce := pos_nonce pos;
                tr_state := pos_state pos |}. split; [|done].
      apply elem_of_transitions. split; [done|]. split; [by destruct pos|]. simpl.
      fold (status_map s a). intros Hold. apply Hd. split; [done|]. split.
      * intros ->. rewrite <-Hn in Hgone. specialize (Hgone n eq_refl). congruence.
      * intros (t & Ht & Hin)%list_elem_of_fmap.
        apply elem_of_transitions in Hin as (_ & Htpos & Hnew).
        apply Hnew. fold (status_map s a). rewrite <-Ht, Hold.
        assert (status_map s' a !! tr_hash t = Some (tr_state t)) as E1
          by (apply status_map_lookup; [done|]; eauto).
        assert (status_map s' a !! tr_hash t = Some (pos_state pos)) as E2
          by (apply status_map_lookup; [done|]; eauto).
        congruence.
Qed.

Lemma admit_transitions config tx s :
  queues_wf (pending s) (sender_queues s) ->
  let '(o, s') := admit_tx config tx s in
  queue_transitions o =
    if is_admitted (admission o)
    then queue_transitions_of s' (vt_sender tx) (sender_queue_positions s (vt_sender tx))
    else [].
Proof.
  intros Hwf. unfold admit_tx. case_decide; [done|].
  fold (slot s (vt_sender tx) (vt_nonce tx)).
  destruct (slot s (vt_sender tx) (vt_nonce tx)) as [h|] eqn:Hs.
  - destruct (slot_pending _ _ _ _ Hwf Hs) as (inc & -> & _). by destruct (_ <=? _)%N.
  - by destruct (_ <=? _)%N.
Qed.

Lemma slot_queue_insert s s' tx a n :
  sender_queues s' = queue_insert (sender_queues s) (vt_sender tx) (vt_nonce tx) (vt_hash tx) ->
  slot s' a n = if decide ((a, n) = (vt_sender tx, vt_nonce tx)) then Some (vt_hash tx)
                else slot s a n.
Proof.
  intros Hq. unfold slot. rewrite Hq. destruct (decide (a = vt_sender tx)) as [->|Hne].
  - rewrite queue_insert_lookup; simpl. case_decide as E; simplify_eq.
    + by rewrite lookup_insert_eq.
    + rewrite lookup_insert_ne by congruence. by destruct (sender_queues s !! vt_sender tx).
  - rewrite queue_insert_lookup_ne by done. rewrite decide_False by congruence. done.
Qed.

Lemma status_map_same s s' a :
  sender_queues s' = sender_queues s ->
  queues_wf (pending s) (sender_queues s) -> queues_wf (pending s') (sender_queues s') ->
  status_map s' a = status_map s a.
Proof.
  intros Hq Hwf Hwf'. unfold status_map. by rewrite !sender_queue_positions_eq, Hq.
Qed.

(** C7: the transitions an admission returns are a complete delta: a listener
    that drops the replaced hash and applies them in order to its copy of the
    sender's queue states gets exactly the states of the new queue; the other
    senders' states do not change. *)
Theorem transitions_complete config tx s (Hwf : scheduler_wf s)
  (Hsize : (usize_of (size (pending s)) < u64_max)%N) :
  let '(o, s') := admit_tx config tx s in
  apply_transitions (displaced (admission o) (status_map s (vt_sender tx))) (queue_transitions o)
    = status_map s' (vt_sender tx) /\
  forall a, a <> vt_sender tx -> status_map s' a = status_map s a.
Proof.
  pose proof (wf_queues _ (admit_wf config tx s Hwf Hsize)) as Hwf'.
  destruct Hwf as [Hwf _ _ _].
  pose proof (admit_transitions config tx s Hwf) as Ht.
  pose proof (admit_branch_spec config tx s Hwf) as Hb.
  destruct (admit_tx config tx s) as [o s']; cbn [fst snd] in *. rewrite Ht; clear Ht.
  remember (sender_queues s') as qs' eqn:Hqs. remember (pending s') as p' eqn:Hps.
  remember (admission o) as adm eqn:Ho.
  assert (qs' = sender_queues s -> forall a, status_map s' a = status_map s a) as Hsame.
  { intros E a. apply status_map_same; congruence. }
  destruct Hb as [Hdup|Hnew Hslot Hlen|Hnew Hslot Hlen|h inc Hnew Hslot Hinc Hfee
                 |h inc Hnew Hslot Hinc Hfee]; simpl.
  1,2,4: split; intros; by rewrite Hsame.
  - split.
    + apply (replay_transitions s s' (vt_sender tx) None); [done|congruence| |congruence].
      intros n h Hn _. rewrite (slot_queue_insert s s' tx) by done. case_decide; congruence.
    + intros a Ha. unfold status_map. f_equal.
      rewrite !sender_queue_positions_eq, <-Hqs by congruence.
      by rewrite queue_insert_lookup_ne.
  - assert (h <> vt_hash tx) as Hne by congruence. split.
    + apply (replay_transitions s s' (vt_sender tx) (Some h)); [done|congruence| |].
      * intros n h' Hn Hh. rewrite (slot_queue_insert s s' tx) by done. case_decide; congruence.
      * intros n. rewrite (slot_queue_insert s s' tx) by done. case_decide as E; [congruence|].
        intros Hn. exfalso. apply E. f_equal.
        symmetry in Hn. apply bind_Some in Hn as (q & Hq & Hn), Hslot as (q2 & Hq2 & Hn2).
        by destruct (queues_slot_unique _ _ Hwf _ _ _ _ _ _ _ Hq Hn Hq2 Hn2) as [_ ->].
    + intros a Ha. unfold status_map. f_equal.
      rewrite !sender_queue_positions_eq, <-Hqs by congruence.
      by rewrite queue_insert_lookup_ne.
Qed.

Lemma transitions_complete_witness :
  queue_transitions (admit_tx scheduler_config_default (sample_tx 3 5 8 100) gap_state).1 =
    [{| tr_hash := 3; tr_sender := 5; tr_nonce := 8; tr_state := Ready |};
     {| tr_hash := 2; tr_sender := 5; tr_nonce := 9; tr_state := Ready |}]%N /\
  apply_transitions (status_map gap_state 5)
    (queue_transitions (admit_tx scheduler_config_default (sample_tx 3 5 8 100) gap_state).1)
  = status_map (admit_tx scheduler_config_default (sample_tx 3 5 8 100) gap_state).2 5.
Proof.
  split; [vm_compute; reflexivity|].
  pose proof (transitions_complete scheduler_config_default (sample_tx 3 5 8 100) gap_state
                gap_state_wf ltac:(vm_compute; reflexivity)) as H.
  assert (admission (admit_tx scheduler_config_default (sample_tx 3 5 8 100) gap_state).1 = AdmittedTx)
    as E by (vm_compute; reflexivity).
  destruct (admit_tx scheduler_config_default (sample_tx 3 5 8 100) gap_state) as [o s'].
  simpl in E. rewrite E in H. exact (proj1 H).
Defined.
