(* ===== verification/SchedulerSnapshot.v ===== *)
(** * SchedulerSnapshot: persisting and rehydrating the scheduler

    [persisted_snapshot] and [from_persisted_snapshot] are inverse on
    well-formed states, and what rehydration accepts is consistent. *)
From stdpp Require Import base gmap strings list numbers sorting.
From S2P Require Import Prelude Common EventLog Scheduler SchedulerQueue SchedulerInvariant SchedulerViews.

(** ** Recomputing the counters *)
Lemma foldl_refresh_set_counts l s :
  exists c r b, foldl (fun s a => refresh_sender_counts a s) s l = set_counts c r b s.
Proof.
  revert s. induction l as [|a l IH]; intros s; simpl.
  - exists (sender_queue_counts s), (ready_total s), (blocked_total s). by destruct s.
  - destruct (IH (refresh_sender_counts a s)) as (c & r & b & ->). by exists c, r, b.
Qed.

(** The state rehydration builds: queues and their counters, nothing else. *)
Definition queue_state (p : gmap TxHash ValidatedTransaction)
    (qs : gmap Address (gmap N TxHash)) : SchedulerState :=
  set_counts (counts_of <$> qs) (map_sum cnt_ready (counts_of <$> qs))
    (map_sum cnt_blocked (counts_of <$> qs)) (set_queues p qs state_default).

Lemma recompute_default p qs :
  queues_wf p qs -> fits p ->
  recompute_queue_counts (set_queues p qs state_default) = queue_state p qs.
Proof.
  intros Hwf Hfit.
  destruct (recompute_wf (set_queues p qs state_default) Hwf Hfit) as [_ Hc Hr Hb].
  destruct (recompute_fields (set_queues p qs state_default)) as (_ & Hq & _).
  rewrite Hq in Hc. rewrite Hc in Hr, Hb. revert Hc Hr Hb.
  unfold recompute_queue_counts.
  destruct (foldl_refresh_set_counts (bt_keys (sender_queues (set_queues p qs state_default)))
              (set_counts ∅ 0 0 (set_queues p qs state_default))) as (c & r & b & ->).
  unfold queue_state. simpl. by intros -> -> ->.
Qed.

(** ** The pending list *)
Lemma collect_pending_ok l p p' :
  collect_pending l p = inl p' <->
  NoDup (vt_hash <$> l) /\ (forall tx, tx ∈ l -> p !! vt_hash tx = None) /\
  p' = list_to_map ((fun tx => (vt_hash tx, tx)) <$> l) ∪ p.
Proof.
  revert p. induction l as [|tx l IH]; intros p; csimpl.
  - rewrite (left_id_L ∅ (∪)). split.
    + intros [= ->]. split; [constructor|]. split; [|done]. by intros ? ?%not_elem_of_nil.
    + by intros (_ & _ & ->).
  - destruct (p !! vt_hash tx) as [t|] eqn:Htx.
    { split; [done|]. intros (_ & Hnone & _). rewrite (Hnone tx) in Htx; [done|by left]. }
    rewrite IH, NoDup_cons. split.
    + intros (Hnd & Hnone & ->). split; [split; [|done]|split].
      * intros (t & Ht & Hin)%list_elem_of_fmap. specialize (Hnone t Hin).
        rewrite <-Ht, lookup_insert_eq in Hnone. done.
      * intros t [->|Hin]%elem_of_cons; [done|]. specialize (Hnone t Hin).
        by apply lookup_insert_None in Hnone as [? _].
      * rewrite <-insert_union_l, <-insert_union_r; [done|].
        apply not_elem_of_list_to_map_1. rewrite <-list_fmap_compose; simpl.
        intros (t & Ht & Hin)%list_elem_of_fmap; simpl in Ht. specialize (Hnone t Hin).
        rewrite <-Ht, lookup_insert_eq in Hnone. done.
    + intros ([Hx Hnd] & Hnone & ->). split; [done|]. split.
      * intros t Hin. rewrite lookup_insert_ne; [apply Hnone; by right|].
        intros E. apply Hx. rewrite E. by apply list_elem_of_fmap_2.
      * rewrite <-insert_union_l, <-insert_union_r; [done|].
        apply not_elem_of_list_to_map_1. rewrite <-list_fmap_compose. done.
Qed.

Lemma pending_values_pairs p :
  (forall h tx, p !! h = Some tx -> vt_hash tx = h) ->
  (fun tx => (vt_hash tx, tx)) <$> bt_values p = bt_iter p.
Proof.
  intros Hp. unfold bt_values. rewrite <-list_fmap_compose.
  assert (forall kv, kv ∈ bt_iter p -> vt_hash kv.2 = kv.1) as Hin.
  { intros [h tx] ?%elem_of_bt_iter. by apply Hp. }
  revert Hin. generalize (bt_iter p). intros l.
  induction l as [|[h tx] l IH]; csimpl; intros Hin; [done|].
  pose proof (Hin (h, tx) ltac:(by left)) as E; simpl in E. rewrite E, IH; [done|].
  intros; apply Hin; by right.
Qed.

Lemma collect_pending_values p :
  (forall h tx, p !! h = Some tx -> vt_hash tx = h) ->
  collect_pending (bt_values p) ∅ = inl p.
Proof.
  intros Hp. apply collect_pending_ok. pose proof (pending_values_pairs p Hp) as E.
  split; [|split].
  - change vt_hash with (fst ∘ (fun tx => (vt_hash tx, tx))).
    rewrite list_fmap_compose, E. apply bt_keys_NoDup.
  - intros. apply lookup_empty.
  - by rewrite E, list_to_map_bt_iter, (right_id_L ∅ (∪)).
Qed.

(** ** The sender queues *)
Definition persisted_entry (nh : N * TxHash) : PersistedSenderQueueEntry :=
  {| pe_nonce := nh.1; pe_hash := nh.2 |}.

Section build.
Context (p : gmap TxHash ValidatedTransaction).

(** One sender: the entries extend that sender's queue. *)
Lemma queue_from_entries_ok a l q0 qs :
  (forall n h, (n, h) ∈ l -> exists tx, p !! h = Some tx /\ vt_sender tx = a /\ vt_nonce tx = n) ->
  NoDup l.*1 -> (forall n, n ∈ l.*1 -> q0 !! n = None) ->
  queue_from_entries p a (persisted_entry <$> l) (<[a := q0]> qs) =
    inl (<[a := list_to_map l ∪ q0]> qs).
Proof.
  revert q0. induction l as [|[n h] l IH]; intros q0 Hp Hnd Hnone; csimpl.
  - by rewrite (left_id_L ∅ (∪)).
  - destruct (Hp n h) as (tx & -> & -> & ->); [by left|].
    rewrite !N.eqb_refl; simpl. apply NoDup_cons in Hnd as [Hn Hnd].
    unfold insert_sender_queue_entry. rewrite lookup_insert_eq; simpl.
    rewrite Hnone by (by left). unfold queue_insert.
    rewrite lookup_insert_eq, insert_insert_eq; simpl. rewrite IH; [|by intros; apply Hp; right|done|].
    + by rewrite <-insert_union_l, <-insert_union_r by (by apply not_elem_of_list_to_map_1).
    + intros m Hm. rewrite lookup_insert_ne by (by intros ->). apply Hnone. by right.
Qed.

Lemma queue_from_entries_fresh a l qs :
  (forall n h, (n, h) ∈ l -> exists tx, p !! h = Some tx /\ vt_sender tx = a /\ vt_nonce tx = n) ->
  NoDup l.*1 -> l <> [] -> qs !! a = None ->
  queue_from_entries p a (persisted_entry <$> l) qs = inl (<[a := list_to_map l]> qs).
Proof.
  destruct l as [|[n h] l]; [done|]. intros Hp Hnd _ Hqs.
  apply NoDup_cons in Hnd as [Hn Hnd]. simpl in *.
  destruct (Hp n h) as (tx & -> & -> & ->); [by left|].
  rewrite !N.eqb_refl; simpl. unfold insert_sender_queue_entry. rewrite Hqs; simpl.
  rewrite lookup_empty. unfold queue_insert. rewrite Hqs; simpl.
  rewrite queue_from_entries_ok; [|by intros; apply Hp; right|done|].
  - by rewrite insert_empty, <-insert_union_singleton_r by (by apply not_elem_of_list_to_map_1).
  - intros m Hm. rewrite insert_empty, lookup_singleton_ne by (by intros ->). done.
Qed.

Lemma queues_from_snapshot_ok (l : list (Address * gmap N TxHash)) qs :
  (forall a q, (a, q) ∈ l -> q <> ∅ /\ forall n h, q !! n = Some h ->
     exists tx, p !! h = Some tx /\ vt_sender tx = a /\ vt_nonce tx = n) ->
  NoDup l.*1 -> (forall a, a ∈ l.*1 -> qs !! a = None) ->
  queues_from_snapshot p
    ((fun '(a, q) => {| pq_sender := a; pq_queued := persisted_entry <$> bt_iter q |}) <$> l) qs
    = inl (list_to_map l ∪ qs).
Proof.
  revert qs. induction l as [|[a q] l IH]; intros qs Hp Hnd Hnone; csimpl.
  - by rewrite (left_id_L ∅ (∪)).
  - destruct (Hp a q) as [Hne Hq]; [by left|]. apply NoDup_cons in Hnd as [Ha Hnd].
    rewrite queue_from_entries_fresh.
    + rewrite list_to_map_bt_iter, IH; [|by intros; apply Hp; right|done|].
      * by rewrite <-insert_union_l, <-insert_union_r by (by apply not_elem_of_list_to_map_1).
      * intros b Hb. rewrite lookup_insert_ne by (by intros ->). apply Hnone. by right.
    + intros n h Hn%elem_of_bt_iter. by apply Hq.
    + apply bt_keys_NoDup.
    + by rewrite bt_iter_nil.
    + apply Hnone. by left.
Qed.
End build.

Definition persisted_queues (qs : gmap Address (gmap N TxHash)) : list PersistedSenderQueueSnapshot :=
  (fun '(a, q) => {| pq_sender := a; pq_queued := persisted_entry <$> bt_iter q |}) <$> bt_iter qs.

Lemma persisted_queues_eq s : persisted_sender_queue_snapshots s = persisted_queues (sender_queues s).
Proof.
  unfold persisted_sender_queue_snapshots. apply list_fmap_ext. intros i [a q] _. f_equal.
  apply list_fmap_ext. by intros j [n h] _.
Qed.

Lemma queues_from_persisted p qs :
  queues_wf p qs ->
  match persisted_queues qs with
  | [] => build_sender_queues_from_pending p
  | l => build_sender_queues_from_snapshot l p
  end = inl qs.
Proof.
  intros Hq.
  assert (build_sender_queues_from_snapshot (persisted_queues qs) p = inl qs) as E.
  { unfold build_sender_queues_from_snapshot, persisted_queues. rewrite queues_from_snapshot_ok.
    - by rewrite list_to_map_bt_iter, (right_id_L ∅ (∪)).
    - intros a q Ha%elem_of_bt_iter. split; [by eapply qw_nonempty|].
      intros n h Hn. by eapply qw_entry.
    - apply bt_keys_NoDup.
    - intros. apply lookup_empty. }
  destruct (persisted_queues qs) eqn:Hl; [|done].
  apply fmap_nil_inv, bt_iter_nil in Hl. subst qs. unfold build_sender_queues_from_pending.
  assert (p = ∅) as ->; [|done]. apply map_empty. intros h.
  apply eq_None_not_Some. intros [tx Htx].
  by destruct (qw_pending _ _ Hq _ _ Htx) as (_ & q & Hqq & _).
Qed.

(** Rehydrating well-formed queues: what is left to check is the frontier. *)
Lemma from_persisted_wf p qs ms ns seq frontier :
  queues_wf p qs -> fits p ->
  from_persisted_snapshot (mkPersisted ms ns seq (bt_values p) frontier (persisted_queues qs)) =
    if decide (frontier = [] \/ executable_frontier_hashes (queue_state p qs) = frontier)
    then inl (queue_state p qs) else inr ExecutableFrontierMismatch.
Proof.
  intros Hq Hfit. unfold from_persisted_snapshot. cbn [ps_pending ps_sender_queues ps_executable_frontier].
  rewrite collect_pending_values by (intros h tx Hh; apply (qw_pending _ _ Hq _ _ Hh)).
  rewrite queues_from_persisted, recompute_default by done. cbv zeta.
  rewrite <-(executable_frontier_eq (queue_state p qs)) by done.
  destruct frontier as [|h frontier]; [by rewrite decide_True by auto|].
  case_decide as E; [by rewrite decide_True by auto|].
  rewrite decide_False; [done|]. by intros [?|?].
Qed.

(** C16: persisting and rehydrating a well-formed scheduler gives back its
    pending transactions, its sender queues, their counters and the ready and
    blocked totals; candidates, the head and the admission counters start from
    their defaults. *)
Theorem persisted_roundtrip s ms ns (Hwf : scheduler_wf s) (Hfit : fits (pending s)) :
  from_persisted_snapshot (persisted_snapshot s ms ns) =
    inl (mkState (pending s) (sender_queues s) (sender_queue_counts s) ∅ 0 0 0 0 0 0 0
           (ready_total s) (blocked_total s)).
Proof.
  pose proof Hwf as [Hq Hc Hr Hb]. unfold persisted_snapshot.
  rewrite persisted_queues_eq, from_persisted_wf by done.
  rewrite decide_True by (right; reflexivity). unfold queue_state. by rewrite Hr, Hb, Hc.
Qed.

Lemma persisted_roundtrip_witness :
  from_persisted_snapshot (persisted_snapshot gap_state 5 6) =
    inl (mkState (pending gap_state) (sender_queues gap_state) (sender_queue_counts gap_state)
           ∅ 0 0 0 0 0 0 0 1 1)%N.
Proof.
  rewrite (persisted_roundtrip gap_state 5 6 gap_state_wf ltac:(vm_compute; discriminate)).
  vm_compute. reflexivity.
Defined.

(** ** What rehydration accepts *)
Definition backed (p : gmap TxHash ValidatedTransaction) (qs : gmap Address (gmap N TxHash)) : Prop :=
  forall a q n h, qs !! a = Some q -> q !! n = Some h ->
    exists tx, p !! h = Some tx /\ vt_sender tx = a /\ vt_nonce tx = n.
Definition no_empty_queue (qs : gmap Address (gmap N TxHash)) : Prop :=
  forall a q, qs !! a = Some q -> q <> ∅.

Lemma insert_entry_ok p qs a n h tx qs' :
  insert_sender_queue_entry qs a n h = inl qs' -> p !! h = Some tx -> vt_sender tx = a ->
  vt_nonce tx = n -> backed p qs -> no_empty_queue qs ->
  backed p qs' /\ no_empty_queue qs' /\ qs' = queue_insert qs a n h /\
  default ∅ (qs !! a) !! n = None.
Proof.
  unfold insert_sender_queue_entry. intros Hins Htx Hs Hn Hb Hne.
  destruct (default ∅ (qs !! a) !! n) eqn:Hslot; [done|]. injection Hins as <-.
  split; [|split; [|done]].
  - intros b q m k. destruct (decide (b = a)) as [->|Hba];
      [rewrite queue_insert_lookup|rewrite queue_insert_lookup_ne by done; apply Hb].
    intros [= <-]. rewrite lookup_insert_Some. intros [[<- <-]|[_ Hk]]; [eauto|].
    destruct (qs !! a) as [q|] eqn:Hq; simpl in Hk; [by eapply Hb|by rewrite lookup_empty in Hk].
  - intros b q. destruct (decide (b = a)) as [->|Hba];
      [rewrite queue_insert_lookup|rewrite queue_insert_lookup_ne by done; apply Hne].
    intros [= <-]. apply insert_non_empty.
Qed.

Lemma queue_from_entries_backed p a l qs qs' :
  queue_from_entries p a l qs = inl qs' -> backed p qs -> no_empty_queue qs ->
  backed p qs' /\ no_empty_queue qs'.
Proof.
  revert qs. induction l as [|e l IH]; intros qs; simpl; [by intros [= ->]|].
  destruct (p !! pe_hash e) as [tx|] eqn:Htx; [|done].
  destruct (N.eqb_spec (vt_sender tx) a) as [Hs|]; simpl; [|done].
  destruct (N.eqb_spec (vt_nonce tx) (pe_nonce e)) as [Hn|]; simpl; [|done].
  destruct (insert_sender_queue_entry _ _ _ _) as [qs1|] eqn:Hins; [|done].
  intros Hl Hb Hne. destruct (insert_entry_ok _ _ _ _ _ _ _ Hins Htx Hs Hn Hb Hne) as (? & ? & _).
  by apply (IH qs1).
Qed.

Lemma queues_from_snapshot_backed p l qs qs' :
  queues_from_snapshot p l qs = inl qs' -> backed p qs -> no_empty_queue qs ->
  backed p qs' /\ no_empty_queue qs'.
Proof.
  revert qs. induction l as [|q l IH]; intros qs; simpl; [by intros [= ->]|].
  destruct (queue_from_entries _ _ _ _) as [qs1|] eqn:Hq; [|done].
  intros Hl Hb Hne. destruct (queue_from_entries_backed _ _ _ _ _ Hq Hb Hne). by apply (IH qs1).
Qed.

Lemma queues_from_txs_backed p txs qs qs' :
  queues_from_txs txs qs = inl qs' -> (forall tx, tx ∈ txs -> p !! vt_hash tx = Some tx) ->
  backed p qs -> no_empty_queue qs ->
  backed p qs' /\ no_empty_queue qs' /\
  (forall tx, tx ∈ txs -> exists q, qs' !! vt_sender tx = Some q /\ q !! vt_nonce tx = Some (vt_hash tx))
  /\ (forall a q n h, qs !! a = Some q -> q !! n = Some h ->
        exists q', qs' !! a = Some q' /\ q' !! n = Some h).
Proof.
  revert qs. induction txs as [|tx txs IH]; intros qs; simpl.
  - intros [= ->] _ ? ?. split; [done|]. split; [done|]. split; [|eauto].
    by intros ? ?%not_elem_of_nil.
  - destruct (insert_sender_queue_entry _ _ _ _) as [qs1|] eqn:Hins; [|done].
    intros Hl Hp Hb Hne.
    destruct (insert_entry_ok p _ _ _ _ tx _ Hins (Hp tx ltac:(by left)) eq_refl eq_refl Hb Hne)
      as (Hb1 & Hne1 & -> & Hslot).
    destruct (IH _ Hl (fun t Ht => Hp t ltac:(by right)) Hb1 Hne1) as (? & ? & Hin & Hkeep).
    split; [done|]. split; [done|]. split.
    + intros t [->|Ht]%elem_of_cons; [|by apply Hin].
      eapply Hkeep; [apply queue_insert_lookup|apply lookup_insert_eq].
    + intros a q n h Hq Hn. destruct (decide (a = vt_sender tx)) as [->|Hne'].
      * rewrite Hq in Hslot; simpl in Hslot. eapply Hkeep; [apply queue_insert_lookup|].
        rewrite Hq; simpl. by rewrite lookup_insert_ne by congruence.
      * eapply Hkeep; [|done]. by rewrite queue_insert_lookup_ne.
Qed.

(** Rehydration accepts only consistent snapshots.  When
    [from_persisted_snapshot] succeeds, no pending hash is listed twice, every
    queue entry is backed by a pending transaction of that sender and nonce,
    the restored frontier is the persisted one unless that is absent, and a
    snapshot without sender queues yields a fully well-formed state. *)
Theorem rehydration_sound snap s
  (Hok : from_persisted_snapshot snap = inl s) (Hfit : fits (pending s)) :
  NoDup (vt_hash <$> ps_pending snap) /\
  pending s = list_to_map ((fun tx => (vt_hash tx, tx)) <$> ps_pending snap) /\
  backed (pending s) (sender_queues s) /\
  (ps_executable_frontier snap <> [] ->
     vt_hash <$> (classify_by_sender s).1 = ps_executable_frontier snap) /\
  (ps_sender_queues snap = [] -> scheduler_wf s).
Proof.
  unfold from_persisted_snapshot in Hok.
  destruct (collect_pending _ _) as [p|] eqn:Hp; [|done].
  apply collect_pending_ok in Hp as (Hnd & _ & Hp). rewrite (right_id_L ∅ (∪)) in Hp.
  destruct (match ps_sender_queues snap with [] => _ | _ => _ end) as [qs|] eqn:Hqs; [|done].
  destruct (recompute_fields (set_queues p qs state_default)) as (Ep & Eq & _).
  set (s0 := recompute_queue_counts (set_queues p qs state_default)) in *.
  assert (s = s0 /\ (ps_executable_frontier snap <> [] ->
            vt_hash <$> (classify_by_sender s0).1 = ps_executable_frontier snap)) as [-> Hf].
  { cbv zeta in Hok. destruct (ps_executable_frontier snap); [by simplify_eq|].
    case_decide; by simplify_eq. }
  assert (backed p ∅ /\ no_empty_queue ∅) as [Hb0 Hne0]
    by (split; [intros a q n h Hq|intros a q Hq]; by rewrite lookup_empty in Hq).
  assert (forall tx, tx ∈ bt_values p -> p !! vt_hash tx = Some tx) as Hpin.
  { intros tx [h Hh]%elem_of_bt_values. rewrite Hp in Hh |- *.
    apply elem_of_list_to_map_2 in Hh as Hin.
    apply list_elem_of_fmap in Hin as (t & [= -> ->] & _). done. }
  assert (backed p qs) as Hb.
  { destruct (ps_sender_queues snap).
    - by destruct (queues_from_txs_backed p _ _ _ Hqs Hpin Hb0 Hne0).
    - by destruct (queues_from_snapshot_backed p _ _ _ Hqs Hb0 Hne0). }
  split; [done|]. rewrite Ep, Eq; simpl. split; [done|]. split; [done|]. split; [done|].
  intros Hnil. rewrite Hnil in Hqs.
  destruct (queues_from_txs_backed p _ _ _ Hqs Hpin Hb0 Hne0) as (_ & Hne & Hin & _).
  apply recompute_wf; [|by rewrite Ep in Hfit]. split.
  - exact Hb.
  - intros h tx Hh. simpl in Hh.
    assert (tx ∈ bt_values p) as Htx by (apply elem_of_bt_values; eauto).
    assert (vt_hash tx = h) as <-.
    { rewrite Hp in Hh. apply elem_of_list_to_map_2, list_elem_of_fmap in Hh as (t & [= -> ->] & _).
      done. }
    split; [done|]. by apply Hin.
  - exact Hne.
Qed.

(** The orphan: a snapshot whose sender queues omit a pending transaction is
    accepted, and the restored state is not well formed. *)
Definition orphan_snapshot : PersistedSchedulerSnapshot :=
  {| ps_captured_at_unix_ms := 0; ps_captured_at_mono_ns := 0; ps_event_seq_hi := 0;
     ps_pending := [sample_tx 1 5 7 100; sample_tx 2 6 0 100]; ps_executable_frontier := [1%N];
     ps_sender_queues := [{| pq_sender := 5; pq_queued := [{| pe_nonce := 7; pe_hash := 1 |}] |}] |}.

(** The consistency checks of rehydration are incomplete: a snapshot that
    lists sender queues but leaves a pending transaction out of them is
    accepted, and the transaction is then pending without being ready or
    blocked. *)
Theorem rehydration_keeps_orphans :
  exists s, from_persisted_snapshot orphan_snapshot = inl s /\ ~ scheduler_wf s /\
    is_Some (pending s !! 2%N) /\
    (forall tx, tx ∈ (classify_by_sender s).1 ++ (classify_by_sender s).2 -> vt_hash tx <> 2%N).
Proof.
  destruct (from_persisted_snapshot orphan_snapshot) as [s|e] eqn:E; [|vm_compute in E; discriminate].
  exists s. vm_compute in E. injection E as <-. split; [done|]. split; [|split].
  - intros [[_ Hp _] _ _ _].
    destruct (Hp 2%N (sample_tx 2 6 0 100) eq_refl) as (_ & q & Hq & _).
    vm_compute in Hq. discriminate.
  - vm_compute. eauto.
  - intros tx Hin. vm_compute in Hin. apply list_elem_of_singleton in Hin as ->. done.
Qed.

Lemma rehydration_sound_witness :
  exists s, from_persisted_snapshot (persisted_snapshot gap_state 5 6) = inl s /\
    backed (pending s) (sender_queues s).
Proof.
  destruct (from_persisted_snapshot (persisted_snapshot gap_state 5 6)) as [s|e] eqn:E;
    [|vm_compute in E; discriminate].
  exists s. split; [done|].
  assert (fits (pending s)) as Hfit by (vm_compute in E; injection E as <-; vm_compute; discriminate).
  exact (proj1 (proj2 (proj2 (rehydration_sound (persisted_snapshot gap_state 5 6) s E Hfit)))).
Defined.
