(* ===== verification/SchedulerActor.v ===== *)
(** * SchedulerActor: commands, the bounded ingress queue and the actor loop

    [SchedulerHandle], [SharedState] and [SchedulerRuntime] of
    crates/scheduler/src/lib.rs.  Handles enqueue commands from any number of
    tasks without waiting; one runtime task receives them in order and applies
    each under the write lock.  The channel is tokio's and stays abstract: the
    class [Channel] states the documented behaviour of [mpsc::channel]. *)
From stdpp Require Import base gmap strings list numbers sorting relations.
From S2P Require Import Prelude Common EventLog Scheduler SchedulerQueue SchedulerInvariant.

(** ** Commands *)
Inductive SchedulerCommand :=
  | CmdAdmit (tx : ValidatedTransaction) (wants_reply : bool)
  | CmdRegisterCandidates (cands : list SchedulerCandidate)
  | CmdApplySimulationResult (result : SchedulerSimulationResult)
  | CmdInvalidateCandidateHash (hash : TxHash)
  | CmdAdvanceHead (block_number : N).

Inductive CommandReply :=
  | ReplyAdmission (o : SchedulerAdmissionOutcome)
  | ReplyDispatch (tasks : list SimulationTaskSpec)
  | ReplyApply (o : SchedulerSimulationApplyOutcome)
  | ReplyUnit
  | NoReply.

(** One arm of the [match] of [SchedulerRuntime::run], with the method of
    [SharedState] it calls. *)
Definition handle_command (config : SchedulerConfig) (cmd : SchedulerCommand)
    (s : SchedulerState) : CommandReply * SchedulerState :=
  match cmd with
  | CmdAdmit tx wants_reply =>
      let '(o, s') := admit_tx config tx s in
      (if wants_reply then ReplyAdmission o else NoReply, s')
  | CmdRegisterCandidates cands =>
      let '(tasks, s') := register_candidates cands s in (ReplyDispatch tasks, s')
  | CmdApplySimulationResult result =>
      let '(o, s') := apply_simulation_result result s in (ReplyApply o, s')
  | CmdInvalidateCandidateHash hash => (ReplyUnit, invalidate_candidate_hash hash s)
  | CmdAdvanceHead block_number => (ReplyUnit, advance_head block_number s)
  end.

Fixpoint run_commands (config : SchedulerConfig) (cmds : list SchedulerCommand)
    (s : SchedulerState) : list CommandReply * SchedulerState :=
  match cmds with
  | [] => ([], s)
  | cmd :: cmds' =>
      let '(reply, s1) := handle_command config cmd s in
      let '(replies, s2) := run_commands config cmds' s1 in (reply :: replies, s2)
  end.

(** ** The channel: [tokio::sync::mpsc::channel] *)
Class Channel (M C : Type) := {
  ch_new : N -> C;
  ch_capacity : C -> N;
  ch_queue : C -> list M;
  ch_try_send : M -> C -> option C;
  ch_recv : C -> option (M * C);
}.
Class ChannelLaws (M C : Type) `{Channel M C} : Prop := {
  ch_new_spec n : ch_queue (ch_new n) = [] /\ ch_capacity (ch_new n) = n;
  ch_try_send_ok m c c' : ch_try_send m c = Some c' ->
    (usize_of (length (ch_queue c)) < ch_capacity c)%N /\
    ch_queue c' = ch_queue c ++ [m] /\ ch_capacity c' = ch_capacity c;
  ch_try_send_full m c : ch_try_send m c = None ->
    (ch_capacity c <= usize_of (length (ch_queue c)))%N;
  ch_recv_some m c c' : ch_recv c = Some (m, c') ->
    ch_queue c = m :: ch_queue c' /\ ch_capacity c' = ch_capacity c;
  ch_recv_none c : ch_recv c = None -> ch_queue c = [];
}.

(** A concrete channel: a list with a capacity. *)
Record ListChannel (M : Type) := mkListChannel { lc_capacity : N; lc_items : list M }.
Arguments mkListChannel {M}. Arguments lc_capacity {M}. Arguments lc_items {M}.
#[export] Instance list_channel M : Channel M (ListChannel M) := {
  ch_new n := mkListChannel n [];
  ch_capacity := lc_capacity;
  ch_queue := lc_items;
  ch_try_send m c :=
    if (usize_of (length (lc_items c)) <? lc_capacity c)%N
    then Some (mkListChannel (lc_capacity c) (lc_items c ++ [m])) else None;
  ch_recv c :=
    match lc_items c with
    | [] => None
    | m :: l => Some (m, mkListChannel (lc_capacity c) l)
    end;
}.
#[export] Instance list_channel_laws M : ChannelLaws M (ListChannel M).
Proof.
  split; simpl.
  - done.
  - intros m [n l] c'; simpl. case (N.ltb_spec _ n); [|done]. by intros ? [= <-].
  - intros m [n l]; simpl. by case (N.ltb_spec _ n).
  - intros m [n [|x l]] c'; simpl; [done|]. by intros [= -> <-].
  - by intros [n [|x l]].
Qed.

(** ** The system

    [SharedState] with the two ends of the channel.  [sys_updates] holds the
    atomic updates that handle calls have still to perform after their
    [try_send]: other tasks and the actor run in between. *)
Inductive HandleUpdate :=
  | UpdDepth   (* after [Ok]: [fetch_max] of the depth at that moment *)
  | UpdFull    (* after [Full]: [fetch_add 1], then the peak *)
  | UpdFullPeak.

Record System (C : Type) := mkSystem {
  sys_config : SchedulerConfig;
  sys_state : SchedulerState;
  sys_channel : C;
  sys_open : bool;
  sys_queue_full_drop_total : N;
  sys_queue_depth_peak : N;
  sys_updates : list HandleUpdate;
}.
Arguments mkSystem {C}. Arguments sys_config {C}. Arguments sys_state {C}.
Arguments sys_channel {C}. Arguments sys_open {C}. Arguments sys_queue_full_drop_total {C}.
Arguments sys_queue_depth_peak {C}. Arguments sys_updates {C}.

Inductive SchedulerEnqueueError := QueueFull | QueueClosed.

(** What an observer sees of a step. *)
Inductive Event :=
  | EvSend (cmd : SchedulerCommand) (result : unit + SchedulerEnqueueError)
  | EvUpdate (u : HandleUpdate)
  | EvProcess (cmd : SchedulerCommand) (reply : CommandReply)
  | EvClose.

Section system.
Context {C : Type} `{Channel SchedulerCommand C}.

(** [scheduler_channel_with_state] *)
Definition scheduler_channel_with_state (config : SchedulerConfig) (state : SchedulerState) :
    System C :=
  {| sys_config := config; sys_state := state;
     sys_channel := ch_new (handoff_queue_capacity config); sys_open := true;
     sys_queue_full_drop_total := 0; sys_queue_depth_peak := 0; sys_updates := [] |}.

(** [scheduler_channel_with_rehydration]; [scheduler_channel] is the case of
    no snapshot and no transactions. *)
Definition scheduler_channel_with_rehydration (config : SchedulerConfig)
    (snap : option PersistedSchedulerSnapshot) (replay_transactions : list ValidatedTransaction) :
    System C + SchedulerInitError :=
  match scheduler_rehydrate config snap replay_transactions with
  | inl (config, state) => inl (scheduler_channel_with_state config state)
  | inr e => inr e
  end.

Definition set_channel ch (sys : System C) : System C :=
  mkSystem (sys_config sys) (sys_state sys) ch (sys_open sys)
    (sys_queue_full_drop_total sys) (sys_queue_depth_peak sys) (sys_updates sys).
Definition set_updates full peak us (sys : System C) : System C :=
  mkSystem (sys_config sys) (sys_state sys) (sys_channel sys) (sys_open sys) full peak us.

(** [try_send_command], up to its first atomic counter update. *)
Definition try_send_command (cmd : SchedulerCommand) (sys : System C) :
    (unit + SchedulerEnqueueError) * System C :=
  if sys_open sys then
    match ch_try_send cmd (sys_channel sys) with
    | Some ch =>
        (inl tt, set_updates (sys_queue_full_drop_total sys) (sys_queue_depth_peak sys)
                   (UpdDepth :: sys_updates sys) (set_channel ch sys))
    | None =>
        (inr QueueFull,
         set_updates (sys_queue_full_drop_total sys) (sys_queue_depth_peak sys)
           (UpdFull :: sys_updates sys) sys)
    end
  else (inr QueueClosed, sys).

(** [max_capacity().saturating_sub(capacity())] *)
Definition queue_depth (sys : System C) : N :=
  sat_sub (ch_capacity (sys_channel sys))
    (sat_sub (ch_capacity (sys_channel sys)) (usize_of (length (ch_queue (sys_channel sys))))).

(** The counter updates that follow; [fetch_add] wraps. *)
Definition perform_update (u : HandleUpdate) (rest : list HandleUpdate) (sys : System C) :
    System C :=
  match u with
  | UpdDepth =>
      set_updates (sys_queue_full_drop_total sys)
        (N.max (sys_queue_depth_peak sys) (queue_depth sys)) rest sys
  | UpdFull =>
      set_updates (cast 64 (sys_queue_full_drop_total sys + 1)) (sys_queue_depth_peak sys)
        (UpdFullPeak :: rest) sys
  | UpdFullPeak =>
      set_updates (sys_queue_full_drop_total sys)
        (N.max (sys_queue_depth_peak sys) (ch_capacity (sys_channel sys))) rest sys
  end.

(** One turn of [SchedulerRuntime::run]. *)
Definition process_next (sys : System C) : option (SchedulerCommand * CommandReply * System C) :=
  match ch_recv (sys_channel sys) with
  | None => None
  | Some (cmd, ch) =>
      let '(reply, s') := handle_command (sys_config sys) cmd (sys_state sys) in
      Some (cmd, reply,
            mkSystem (sys_config sys) s' ch (sys_open sys) (sys_queue_full_drop_total sys)
              (sys_queue_depth_peak sys) (sys_updates sys))
  end.

Inductive step : System C -> Event -> System C -> Prop :=
  | step_send sys cmd r sys' :
      try_send_command cmd sys = (r, sys') -> step sys (EvSend cmd r) sys'
  | step_update sys us1 u us2 :
      sys_updates sys = us1 ++ u :: us2 ->
      step sys (EvUpdate u) (perform_update u (us1 ++ us2) sys)
  | step_process sys cmd reply sys' :
      sys_open sys = true -> process_next sys = Some (cmd, reply, sys') ->
      step sys (EvProcess cmd reply) sys'
  | step_close sys :
      (* the runtime task ends: the receiver is dropped *)
      step sys EvClose
        (mkSystem (sys_config sys) (sys_state sys) (sys_channel sys) false
           (sys_queue_full_drop_total sys) (sys_queue_depth_peak sys) (sys_updates sys)).

Inductive trace : System C -> list Event -> System C -> Prop :=
  | trace_nil sys : trace sys [] sys
  | trace_snoc sys1 sys2 sys3 tr e :
      trace sys1 tr sys2 -> step sys2 e sys3 -> trace sys1 (tr ++ [e]) sys3.

(** The commands a trace accepted into the queue, and those it processed. *)
Definition accepted_commands (tr : list Event) : list SchedulerCommand :=
  omap (fun e => match e with EvSend cmd (inl _) => Some cmd | _ => None end) tr.
Definition processed_commands (tr : list Event) : list SchedulerCommand :=
  omap (fun e => match e with EvProcess cmd _ => Some cmd | _ => None end) tr.
Definition trace_replies (tr : list Event) : list CommandReply :=
  omap (fun e => match e with EvProcess _ r => Some r | _ => None end) tr.
End system.

(** [SchedulerHandle::metrics] *)
Record SchedulerMetrics := mkMetrics {
  m_admitted_total : N; m_duplicate_total : N; m_replacement_total : N;
  m_underpriced_replacement_total : N; m_sender_limit_drop_total : N;
  m_queue_full_drop_total : N; m_pending_total : N; m_ready_total : N; m_blocked_total : N;
  m_sender_total : N; m_stale_simulation_drop_total : N; m_queue_depth : N;
  m_queue_depth_peak : N; m_handoff_queue_capacity : N;
}.
Definition metrics {C} `{Channel SchedulerCommand C} (sys : System C) : SchedulerMetrics :=
  let s := sys_state sys in
  mkMetrics (admitted_total s) (duplicate_total s) (replacement_total s)
    (underpriced_replacement_total s) (sender_limit_drop_total s)
    (sys_queue_full_drop_total sys) (usize_of (size (pending s))) (ready_total s)
    (blocked_total s) (usize_of (size (sender_queues s))) (stale_simulation_drop_total s)
    (queue_depth sys) (sys_queue_depth_peak sys) (ch_capacity (sys_channel sys)).

(** ** Commands preserve the invariant *)
Definition same_queues (s s' : SchedulerState) : Prop :=
  pending s' = pending s /\ sender_queues s' = sender_queues s /\
  sender_queue_counts s' = sender_queue_counts s /\ ready_total s' = ready_total s /\
  blocked_total s' = blocked_total s.
#[export] Instance same_queues_preorder : PreOrder same_queues.
Proof.
  split; [by intros ?|]. intros s1 s2 s3 (? & ? & ? & ? & ?) (? & ? & ? & ? & ?).
  repeat split; congruence.
Qed.

Lemma register_candidates_same l s : same_queues s (register_candidates l s).2.
Proof.
  revert s. induction l as [|cand l IH]; intros s; simpl; [done|].
  specialize (IH (register_candidate cand s).2).
  unfold register_candidate in *; simpl in *.
  destruct (register_candidates l _) as [tasks s2]; simpl in *. by etrans; [|exact IH].
Qed.

Lemma apply_simulation_result_same r s : same_queues s (apply_simulation_result r s).2.
Proof.
  unfold apply_simulation_result. destruct (candidates s !! _); [|done].
  by destruct (result_is_stale _ _ _).
Qed.

Lemma foldl_set_candidates_same (f : SchedulerState -> CandidateId -> gmap CandidateId CandidateEntry)
    ids s :
  same_queues s (foldl (fun s id => set_candidates (f s id) s) s ids).
Proof.
  revert s. induction ids as [|id ids IH]; intros s; simpl; [done|].
  etrans; [|apply IH]. done.
Qed.

Lemma invalidate_same h s : same_queues s (invalidate_candidate_hash h s).
Proof. apply (foldl_set_candidates_same (fun s id => alter bump_generation id (candidates s))). Qed.

Definition command_nonce_ok (cmd : SchedulerCommand) : Prop :=
  match cmd with CmdAdmit tx _ => (vt_nonce tx <= u64_max)%N | _ => True end.

(** The invariant of the state behind the write lock. *)
Record state_ok (config : SchedulerConfig) (s : SchedulerState) : Prop := {
  ok_wf : scheduler_wf s;
  ok_limit : limit_ok config s;
  ok_range : in_range s;
}.

Lemma state_ok_same config s s' : state_ok config s -> same_queues s s' -> state_ok config s'.
Proof.
  intros [Hwf Hl Hr] (Hp & Hq & Hc & Hr' & Hb). split.
  - by apply (wf_same_queues s).
  - intros a q. rewrite Hq. apply Hl.
  - intros h tx. rewrite Hp. apply Hr.
Qed.

Lemma admit_size config tx s :
  queues_wf (pending s) (sender_queues s) ->
  size (pending (admit_tx config tx s).2) <= S (size (pending s)).
Proof.
  intros Hwf. pose proof (admit_branch_spec config tx s Hwf) as Hb.
  revert Hb. generalize (pending (admit_tx config tx s).2). intros p'.
  generalize (sender_queues (admit_tx config tx s).2), (admission (admit_tx config tx s).1).
  intros qs' o Hb. destruct Hb; try lia.
  - apply size_insert_le.
  - etrans; [apply size_insert_le|]. apply le_n_S, map_subseteq_size, delete_subseteq.
Qed.

Lemma handle_command_ok config cmd s :
  state_ok config s -> (usize_of (size (pending s)) < u64_max)%N -> command_nonce_ok cmd ->
  state_ok config (handle_command config cmd s).2 /\
  size (pending (handle_command config cmd s).2) <= S (size (pending s)).
Proof.
  intros Hok Hsize Hn.
  assert (forall s', same_queues s s' -> state_ok config s' /\ size (pending s') <= S (size (pending s)))
    as Hsame.
  { intros s' Hs. split; [by eapply state_ok_same|]. destruct Hs as [-> _]. lia. }
  destruct cmd as [tx w|l|r|h|n]; simpl.
  - destruct (admit_tx config tx s) as [o s'] eqn:E; simpl.
    replace s' with (admit_tx config tx s).2 by (by rewrite E). destruct Hok as [Hwf Hl Hr].
    split; [|by apply admit_size, Hwf]. split.
    + by apply admit_wf.
    + by apply admit_limit.
    + intros h t [Ht| ->]%admit_pending_inv; [by eapply Hr|done|by destruct Hwf].
  - pose proof (register_candidates_same l s). destruct (register_candidates l s). by apply Hsame.
  - pose proof (apply_simulation_result_same r s). destruct (apply_simulation_result r s).
    by apply Hsame.
  - apply Hsame, invalidate_same.
  - by apply (Hsame (advance_head n s)).
Qed.

Lemma run_commands_ok config cmds s :
  state_ok config s -> Forall command_nonce_ok cmds ->
  (usize_of (size (pending s) + length cmds) <= u64_max)%N ->
  state_ok config (run_commands config cmds s).2 /\
  (usize_of (size (pending (run_commands config cmds s).2)) <= u64_max)%N.
Proof.
  revert s. induction cmds as [|cmd cmds IH]; intros s Hok Hn Hsize; simpl in *.
  - split; [done|]. int_lia.
  - apply Forall_cons in Hn as [Hn1 Hn2]. unfold usize_of in *.
    destruct (handle_command_ok config cmd s Hok ltac:(int_lia) Hn1) as [Hok' Hs'].
    destruct (handle_command config cmd s) as [r s1]; simpl in *.
    specialize (IH s1 Hok' Hn2 ltac:(lia)). by destruct (run_commands config cmds s1).
Qed.

Lemma run_commands_app config l1 l2 s :
  run_commands config (l1 ++ l2) s =
    let '(r1, s1) := run_commands config l1 s in
    let '(r2, s2) := run_commands config l2 s1 in (r1 ++ r2, s2).
Proof.
  revert s. induction l1 as [|cmd l1 IH]; intros s; simpl.
  - by destruct (run_commands config l2 s).
  - destruct (handle_command config cmd s) as [r s1]. rewrite IH.
    destruct (run_commands config l1 s1) as [r1 s2]. by destruct (run_commands config l2 s2).
Qed.

Section traces.
Context {C : Type} `{ChannelLaws SchedulerCommand C}.

(** What every trace preserves: order, content and bounds of the queue. *)
Record sys_inv (config : SchedulerConfig) (s0 : SchedulerState) (tr : list Event)
    (sys : System C) : Prop := {
  inv_config : sys_config sys = config;
  inv_capacity : ch_capacity (sys_channel sys) = handoff_queue_capacity config;
  inv_fifo : accepted_commands tr = processed_commands tr ++ ch_queue (sys_channel sys);
  inv_state : run_commands config (processed_commands tr) s0 = (trace_replies tr, sys_state sys);
  inv_length : (usize_of (length (ch_queue (sys_channel sys))) <= handoff_queue_capacity config)%N;
  inv_peak : (sys_queue_depth_peak sys <= handoff_queue_capacity config)%N;
}.

Lemma sys_inv_init config s0 : sys_inv config s0 [] (scheduler_channel_with_state config s0).
Proof using All.
  destruct (ch_new_spec (M:=SchedulerCommand) (C:=C) (handoff_queue_capacity config)) as [Hq Hc].
  split; simpl; rewrite ?Hq, ?Hc; try done; unfold usize_of; simpl; lia.
Qed.

Lemma queue_depth_le (sys : System C) : (queue_depth sys <= ch_capacity (sys_channel sys))%N.
Proof using. unfold queue_depth, sat_sub. lia. Qed.

Lemma sys_inv_step config s0 tr sys e sys' :
  sys_inv config s0 tr sys -> step sys e sys' -> sys_inv config s0 (tr ++ [e]) sys'.
Proof using All.
  intros [Hcfg Hcap Hfifo Hstate Hlen Hpeak] Hstep.
  destruct Hstep as [sys cmd r sys' Hsend|sys us1 u us2 Hu|sys cmd reply sys' Hopen Hproc|sys].
  - unfold try_send_command in Hsend.
    destruct (sys_open sys); [destruct (ch_try_send _ _) as [ch|] eqn:Hch|]; simplify_eq/=;
      split; unfold accepted_commands, processed_commands, trace_replies in *;
      rewrite ?omap_snoc; simpl; rewrite ?app_nil_r; try done;
      destruct (ch_try_send_ok _ _ _ Hch) as (Hlt & Hq & Hc).
    + congruence.
    + by rewrite Hq, Hfifo, (assoc_L (++)).
    + rewrite Hq, length_app. unfold usize_of in *; simpl. lia.
  - split; unfold accepted_commands, processed_commands, trace_replies in *;
      rewrite ?omap_snoc; simpl; rewrite ?app_nil_r; destruct u; simpl; try done.
    + pose proof (queue_depth_le sys). lia.
    + lia.
  - unfold process_next in Hproc.
    destruct (ch_recv (sys_channel sys)) as [[cmd' ch]|] eqn:Hch; [|done].
    destruct (handle_command _ _ _) as [rep s'] eqn:Hh. injection Hproc as -> -> <-.
    destruct (ch_recv_some _ _ _ Hch) as [Hq Hc].
    split; unfold accepted_commands, processed_commands, trace_replies in *;
      rewrite ?omap_snoc; simpl; rewrite ?app_nil_r; try done.
    + congruence.
    + by rewrite Hfifo, Hq, <-(assoc_L (++)).
    + rewrite run_commands_app, Hstate; simpl. rewrite <-Hcfg, Hh. done.
    + rewrite Hq in Hlen. unfold usize_of in *; simpl in *. lia.
  - split; unfold accepted_commands, processed_commands, trace_replies in *;
      rewrite ?omap_snoc; simpl; rewrite ?app_nil_r; done.
Qed.

Lemma trace_inv config s0 tr sys :
  trace (scheduler_channel_with_state config s0) tr sys -> sys_inv config s0 tr sys.
Proof using All.
  intros Htr. remember (scheduler_channel_with_state config s0) as sys0 eqn:E.
  induction Htr as [|sys1 sys2 sys3 tr e Htr IH Hstep]; subst.
  - apply sys_inv_init.
  - eapply sys_inv_step; [by apply IH|done].
Qed.
End traces.

(** C3: the actor linearises its handles.  In every interleaving of handle
    calls, counter updates and actor turns, over any channel that is a bounded
    FIFO, the accepted commands are the processed ones followed by the queued
    ones, the state and every reply are those of running the processed
    commands one after the other, and the queue and the reported peak never
    exceed the configured capacity. *)
Theorem actor_linearises {C} `{ChannelLaws SchedulerCommand C} config s0 tr (sys : System C)
  (Htr : trace (scheduler_channel_with_state config s0) tr sys) :
  accepted_commands tr = processed_commands tr ++ ch_queue (sys_channel sys) /\
  run_commands config (processed_commands tr) s0 = (trace_replies tr, sys_state sys) /\
  (m_queue_depth (metrics sys) <= handoff_queue_capacity config)%N /\
  (m_queue_depth_peak (metrics sys) <= handoff_queue_capacity config)%N.
Proof.
  destruct (trace_inv config s0 tr sys Htr) as [_ Hcap Hfifo Hstate _ Hpeak].
  split; [done|]. split; [done|]. split; [|done].
  rewrite <-Hcap. apply queue_depth_le.
Qed.

Lemma state_ok_default config : state_ok config state_default.
Proof.
  split; [apply scheduler_wf_default| |].
  - intros a q. simpl. by rewrite lookup_empty.
  - intros h tx. simpl. by rewrite lookup_empty.
Qed.

Lemma admit_all_run config txs s :
  admit_all config txs s = (run_commands config ((fun tx => CmdAdmit tx false) <$> txs) s).2.
Proof.
  revert s. induction txs as [|tx txs IH]; intros s; csimpl; [done|].
  rewrite IH. destruct (admit_tx config tx s) as [o s1]; simpl.
  by destruct (run_commands config _ s1).
Qed.

(** A boot without a snapshot starts from a state that satisfies the invariant. *)
Lemma rehydrate_ok config txs config' s :
  scheduler_rehydrate config None txs = inl (config', s) ->
  Forall (fun tx => (vt_nonce tx <= u64_max)%N) txs -> (usize_of (length txs) <= u64_max)%N ->
  config' = config /\ state_ok config s /\
  (usize_of (size (pending s)) <= u64_max)%N.
Proof.
  unfold scheduler_rehydrate, validate_config. intros Hr Hn Hlen.
  destruct (_ =? 0)%N; [done|]. destruct (_ =? 0)%N; [done|]. injection Hr as <- <-.
  split; [done|]. rewrite admit_all_run. apply run_commands_ok.
  - apply state_ok_default.
  - by apply Forall_fmap.
  - simpl. by rewrite map_size_empty, length_fmap.
Qed.

Lemma state_ok_totals config s :
  state_ok config s -> (usize_of (size (pending s)) <= u64_max)%N ->
  (ready_total s + blocked_total s = usize_of (size (pending s)))%N.
Proof.
  intros [[Hq Hc Hr Hb] _ _] Hfit. rewrite Hr, Hb, Hc. by apply queues_ready_le.
Qed.

(** C1: the actor keeps the scheduler well formed. Suppose it starts in a
    well-formed state whose sender queues are within the configured limit and
    whose nonces fit in 64 bits, as the empty scheduler does, that the accepted
    transactions have 64-bit nonces, and that fewer than 2^64 of them are ever
    in play. Then after any trace of the actor, whatever the interleaving, the
    pending map and the sender queues describe the same transactions, every
    counter is exact, no sender queue is longer than the configured limit, and
    the metrics account for each pending transaction once, as ready or as
    blocked. The start condition matters: rehydration also accepts snapshots
    whose states are not well formed ([rehydration_keeps_orphans]). *)
Theorem reachable_state_ok {C} `{ChannelLaws SchedulerCommand C} config s0 tr (sys : System C)
  (Hok : state_ok config s0)
  (Hnonces : Forall command_nonce_ok (accepted_commands tr))
  (Hsize : (usize_of (size (pending s0) + length (accepted_commands tr)) <= u64_max)%N)
  (Htr : trace (scheduler_channel_with_state config s0) tr sys) :
  state_ok config (sys_state sys) /\
  (m_ready_total (metrics sys) + m_blocked_total (metrics sys) = m_pending_total (metrics sys))%N.
Proof.
  destruct (trace_inv config s0 tr sys Htr) as [_ _ Hfifo Hstate _ _].
  rewrite Hfifo in Hnonces, Hsize. apply Forall_app in Hnonces as [Hn _].
  rewrite length_app in Hsize.
  destruct (run_commands_ok config (processed_commands tr) s0 Hok Hn) as [Hok' Hs'].
  { int_lia. }
  rewrite Hstate in Hok', Hs'. split; [done|]. by eapply state_ok_totals.
Qed.

(** A handle admits nonces 7 and 9 of one sender and registers nothing else;
    the actor has processed the first command. *)
Definition sample_trace : list Event :=
  [EvSend (CmdAdmit (sample_tx 1 5 7 100) true) (inl tt);
   EvSend (CmdAdmit (sample_tx 2 5 9 100) false) (inl tt);
   EvUpdate UpdDepth;
   EvProcess (CmdAdmit (sample_tx 1 5 7 100) true)
     (ReplyAdmission {| admission := AdmittedTx;
        queue_transitions := [{| tr_hash := 1; tr_sender := 5; tr_nonce := 7; tr_state := Ready |}] |})].
Definition sample_system : System (ListChannel SchedulerCommand) :=
  mkSystem scheduler_config_default
    (admit_all scheduler_config_default [sample_tx 1 5 7 100] state_default)
    (mkListChannel 1024 [CmdAdmit (sample_tx 2 5 9 100) false]) true 0 2 [UpdDepth].

Lemma sample_trace_ok :
  trace (scheduler_channel_with_state scheduler_config_default state_default) sample_trace
    sample_system.
Proof.
  unfold sample_trace.
  change (trace (scheduler_channel_with_state (C:=ListChannel SchedulerCommand)
    scheduler_config_default state_default)
    (((([] ++ [EvSend (CmdAdmit (sample_tx 1 5 7 100) true) (inl tt)])
       ++ [EvSend (CmdAdmit (sample_tx 2 5 9 100) false) (inl tt)])
       ++ [EvUpdate UpdDepth])
       ++ [EvProcess (CmdAdmit (sample_tx 1 5 7 100) true)
     (ReplyAdmission {| admission := AdmittedTx;
        queue_transitions := [{| tr_hash := 1; tr_sender := 5; tr_nonce := 7; tr_state := Ready |}] |})])
    sample_system).
  eapply trace_snoc; [eapply trace_snoc; [eapply trace_snoc; [eapply trace_snoc;
    [apply trace_nil|] |] |] |].
  - by apply step_send.
  - by apply step_send.
  - by apply (step_update _ [] UpdDepth [UpdDepth]).
  - apply step_process; [done|]. vm_compute. reflexivity.
Qed.

Lemma actor_linearises_witness :
  accepted_commands sample_trace =
    processed_commands sample_trace ++ [CmdAdmit (sample_tx 2 5 9 100) false].
Proof.
  exact (proj1 (actor_linearises scheduler_config_default state_default sample_trace
                  sample_system sample_trace_ok)).
Defined.

Lemma reachable_state_ok_witness :
  m_ready_total (metrics sample_system) = 1%N /\ state_ok scheduler_config_default (sys_state sample_system).
Proof.
  split; [vm_compute; reflexivity|].
  apply (reachable_state_ok scheduler_config_default state_default sample_trace sample_system).
  - apply state_ok_default.
  - by repeat constructor.
  - vm_compute. discriminate.
  - apply sample_trace_ok.
Defined.
