(* ===== verification/SchedulerCandidates.v ===== *)
(** * SchedulerCandidates: generations and builder handoffs

    A candidate carries a generation; registering it again, invalidating one of
    its hashes and accepting a result all advance it.  A simulation result is
    handed to the builder only while its generation is the current one, so
    each generation of a candidate is handed off at most once. *)
From stdpp Require Import base gmap strings list numbers sorting.
From S2P Require Import Prelude Common EventLog Scheduler SchedulerQueue SchedulerInvariant SchedulerActor.

(** The (candidate, generation) a command handed to the builder. *)
Definition handoff_key (cmd : SchedulerCommand) (reply : CommandReply) :
    option (CandidateId * N) :=
  match cmd, reply with
  | CmdApplySimulationResult r, ReplyApply o =>
      match builder_handoffs o with
      | [] => None
      | _ => Some (res_candidate_id r, res_generation r)
      end
  | _, _ => None
  end.

Fixpoint handoff_keys (cmds : list SchedulerCommand) (replies : list CommandReply) :
    list (CandidateId * N) :=
  match cmds, replies with
  | cmd :: cmds', reply :: replies' =>
      option_list (handoff_key cmd reply) ++ handoff_keys cmds' replies'
  | _, _ => []
  end.

(** How far a command can advance a generation. *)
Definition weight (cmd : SchedulerCommand) : N :=
  match cmd with CmdRegisterCandidates l => usize_of (length l) | _ => 1 end.
Definition weights (cmds : list SchedulerCommand) : N :=
  foldr (fun cmd acc => weight cmd + acc)%N 0%N cmds.

Definition gens_le (s : SchedulerState) (b : N) : Prop :=
  forall id e, candidates s !! id = Some e -> (ce_generation e <= b)%N.
(** Generation [g] of candidate [id] is past. *)
Definition past (s : SchedulerState) (key : CandidateId * N) : Prop :=
  exists e, candidates s !! key.1 = Some e /\ (key.2 < ce_generation e)%N.

Lemma next_generation_lt g : (g < u64_max)%N -> next_generation g = (g + 1)%N.
Proof. unfold next_generation, sat_add. lia. Qed.

(** ** Lookups after each operation *)
Lemma foldl_alter_lookup (ids : list CandidateId) s id :
  NoDup ids ->
  candidates (foldl (fun s i => set_candidates (alter bump_generation i (candidates s)) s) s ids)
    !! id = (if decide (id ∈ ids) then bump_generation <$> candidates s !! id
             else candidates s !! id).
Proof.
  revert s. induction ids as [|i ids IH]; intros s Hnd; cbn [foldl].
  - rewrite decide_False; [done|]. apply not_elem_of_nil.
  - apply NoDup_cons in Hnd as [Hi Hnd]. rewrite (IH _ Hnd); cbn [candidates set_candidates].
    destruct (decide (id = i)) as [->|Hne].
    + rewrite (decide_False (P := i ∈ ids)) by done. rewrite decide_True by (by left).
      apply lookup_alter_eq.
    + rewrite lookup_alter_ne by done.
      destruct (decide (id ∈ ids)) as [Hin|Hin].
      * by rewrite decide_True by (by right).
      * rewrite decide_False; [done|]. by rewrite not_elem_of_cons.
Qed.

Lemma invalidate_lookup h s id :
  candidates (invalidate_candidate_hash h s) !! id =
    (fun e => if candidate_mentions h e then bump_generation e else e) <$> candidates s !! id.
Proof.
  unfold invalidate_candidate_hash.
  set (ids := omap _ (bt_iter (candidates s))).
  assert (forall i, i ∈ ids <-> exists e, candidates s !! i = Some e /\ candidate_mentions h e = true)
    as Hids.
  { intros i. unfold ids. rewrite list_elem_of_omap. split.
    - intros ([i' e] & Hin & Hm). apply elem_of_bt_iter in Hin.
      destruct (candidate_mentions h e) eqn:Hc; [|done]. injection Hm as ->. eauto.
    - intros (e & He & Hm). exists (i, e). rewrite elem_of_bt_iter. by rewrite Hm. }
  rewrite foldl_alter_lookup.
  - destruct (candidates s !! id) as [e|] eqn:He; simpl; [|by case_decide].
    destruct (candidate_mentions h e) eqn:Hm; case_decide as Hin; try done.
    + destruct Hin. apply Hids. eauto.
    + apply Hids in Hin as (e' & He' & Hm'). congruence.
  - unfold ids. assert (forall l : list (CandidateId * CandidateEntry),
      omap (fun '(i, e) => if candidate_mentions h e then Some i else None) l `sublist_of` l.*1) as Hsub.
    { induction l as [|[i e] l IH]; csimpl; [done|].
      destruct (candidate_mentions h e); csimpl; by constructor. }
    eapply sublist_NoDup; [apply (bt_keys_NoDup (candidates s))|apply Hsub].
Qed.

(** ** Generations only grow *)
Definition gens_mono (s s' : SchedulerState) : Prop :=
  forall key, past s key -> past s' key.

#[export] Instance gens_mono_preorder : PreOrder gens_mono.
Proof. split; [by intros ? ?|]. intros s1 s2 s3 H12 H23 key. auto. Qed.

Lemma register_candidate_gens cand s b :
  gens_le s b -> (b < u64_max)%N ->
  gens_le (register_candidate cand s).2 (b + 1) /\ gens_mono s (register_candidate cand s).2 /\
  forall e, candidates s !! cand_id cand = Some e ->
    past (register_candidate cand s).2 (cand_id cand, ce_generation e).
Proof.
  intros Hle Hb. unfold register_candidate; simpl.
  assert (forall e, candidates s !! cand_id cand = Some e ->
            next_generation (ce_generation e) = (ce_generation e + 1)%N) as Hnext.
  { intros e He. specialize (Hle _ _ He). apply next_generation_lt. lia. }
  split; [|split].
  - intros id e. simpl. rewrite lookup_insert_Some. intros [[<- <-]|[_ He]]; simpl.
    + destruct (candidates s !! cand_id cand) as [e|] eqn:He; [|lia].
      rewrite (Hnext e) by done. specialize (Hle _ _ He). lia.
    + specialize (Hle _ _ He). lia.
  - intros [id g] (e & He & Hg); simpl in *. unfold past; simpl.
    destruct (decide (cand_id cand = id)) as [<-|Hne].
    + rewrite lookup_insert_eq, He. eexists. split; [done|]. simpl. rewrite Hnext by done. lia.
    + rewrite lookup_insert_ne by done. eauto.
  - intros e He. unfold past; simpl. rewrite lookup_insert_eq, He.
    eexists. split; [done|]. simpl. rewrite Hnext by done. lia.
Qed.

Lemma register_candidates_cons cand l s :
  (register_candidates (cand :: l) s).2 =
    (register_candidates l (register_candidate cand s).2).2.
Proof.
  simpl. by destruct (register_candidates l _).
Qed.

Lemma register_candidates_gens l s b :
  gens_le s b -> (b + usize_of (length l) <= u64_max)%N ->
  gens_le (register_candidates l s).2 (b + usize_of (length l)) /\
  gens_mono s (register_candidates l s).2.
Proof.
  revert s b. induction l as [|cand l IH]; intros s b Hle Hb; [|rewrite register_candidates_cons];
    unfold usize_of in *; cbn [length] in *.
  - split; [|done]. simpl. by rewrite N.add_0_r.
  - destruct (register_candidate_gens cand s b Hle) as (Hle' & Hm & _); [lia|].
    destruct (IH (register_candidate cand s).2 (b + 1)%N Hle') as [Hle2 Hm2]; [lia|].
    split; [|etrans; [exact Hm|exact Hm2]].
    intros id e He. specialize (Hle2 id e He). lia.
Qed.

Lemma bump_generation_gens s s' b :
  (forall id, candidates s' !! id = candidates s !! id \/
              candidates s' !! id = bump_generation <$> candidates s !! id) ->
  gens_le s b -> (b < u64_max)%N -> gens_le s' (b + 1) /\ gens_mono s s'.
Proof.
  intros Hs Hle Hb. split.
  - intros id e He. destruct (Hs id) as [E|E]; rewrite E in He.
    + specialize (Hle _ _ He). lia.
    + apply fmap_Some in He as (e' & He & ->). specialize (Hle _ _ He). simpl.
      rewrite next_generation_lt by lia. lia.
  - intros [id g] (e & He & Hg); unfold past; simpl in *. destruct (Hs id) as [E|E]; rewrite E, He.
    + eauto.
    + simpl. eexists. split; [done|]. simpl. specialize (Hle _ _ He).
      rewrite next_generation_lt by lia. lia.
Qed.

(** When a result is handed off: the freshness test in full. *)
Lemma apply_result_key r s o s' :
  apply_simulation_result r s = (o, s') -> builder_handoffs o <> [] ->
  exists e, candidates s !! res_candidate_id r = Some e /\ ce_generation e = res_generation r /\
    res_approved r = true /\ result_is_stale s e r = false /\
    s' = set_candidates (alter bump_generation (res_candidate_id r) (candidates s)) s.
Proof.
  unfold apply_simulation_result, record_stale_simulation_result. intros Happ Hne.
  destruct (candidates s !! res_candidate_id r) as [e|] eqn:He; [|by simplify_eq/=].
  destruct (result_is_stale s e r) eqn:Hst; [by simplify_eq/=|].
  destruct (res_approved r) eqn:Ha; simplify_eq/=. exists e. split; [done|].
  pose proof Hst as Hst'. unfold result_is_stale in Hst. rewrite !orb_false_iff, !negb_false_iff, !N.eqb_eq in Hst.
  by destruct Hst as [[[[_ _] _] Hg] _].
Qed.

Lemma handle_command_gens config cmd s b :
  gens_le s b -> (b + weight cmd <= u64_max)%N ->
  let '(reply, s') := handle_command config cmd s in
  gens_le s' (b + weight cmd) /\ gens_mono s s' /\
  forall key, handoff_key cmd reply = Some key ->
    past s' key /\ exists e, candidates s !! key.1 = Some e /\ ce_generation e = key.2.
Proof.
  intros Hle Hb. destruct cmd as [tx w|l|r|h|n]; simpl in *.
  - destruct (admit_tx config tx s) as [o s'] eqn:E.
    assert (candidates s' = candidates s) as Hc.
    { replace s' with (admit_tx config tx s).2 by (by rewrite E). apply admit_candidates. }
    assert (gens_le s' (b + 1) /\ gens_mono s s') as [? ?].
    { split.
      - intros id e He. rewrite Hc in He. specialize (Hle _ _ He). lia.
      - intros key. unfold past. by rewrite Hc. }
    done.
  - destruct (register_candidates l s) as [ts s'] eqn:E.
    destruct (register_candidates_gens l s b Hle Hb) as [? ?]. rewrite E in *. done.
  - destruct (apply_simulation_result r s) as [o s'] eqn:E.
    assert (forall id, candidates s' !! id = candidates s !! id \/
              candidates s' !! id = bump_generation <$> candidates s !! id) as Hs.
    { intros id. unfold apply_simulation_result, record_stale_simulation_result in E.
      destruct (candidates s !! res_candidate_id r) as [e|]; [|simplify_eq/=; auto].
      destruct (result_is_stale s e r); simplify_eq/=; [auto|].
      destruct (decide (id = res_candidate_id r)) as [->|Hne].
      - right. apply lookup_alter_eq.
      - left. by apply lookup_alter_ne. }
    destruct (bump_generation_gens s s' b Hs Hle) as [? ?]; [lia|].
    split; [done|]. split; [done|]. intros key Hkey.
    assert (builder_handoffs o <> []) as Hne by (by intros E0; rewrite E0 in Hkey).
    destruct (apply_result_key r s o s' E Hne) as (e & He & Hg & _ & _ & ->).
    assert (key = (res_candidate_id r, res_generation r)) as -> by
      (destruct (builder_handoffs o); simplify_eq; done).
    simpl. split; [|eauto]. unfold past; simpl. rewrite lookup_alter_eq, He; simpl.
    eexists. split; [done|]. simpl. specialize (Hle _ _ He). rewrite next_generation_lt by lia. lia.
  - destruct (bump_generation_gens s (invalidate_candidate_hash h s) b) as [? ?];
      [|done|lia|done].
    intros id. rewrite invalidate_lookup. destruct (candidates s !! id) as [e|]; simpl; [|auto].
    destruct (candidate_mentions h e); auto.
  - split; [|split; [intros key Hk; exact Hk|done]].
    intros id e He. specialize (Hle id e He). lia.
Qed.

(** ** Command sequences *)
Lemma run_commands_keys config cmds s b :
  gens_le s b -> (b + weights cmds <= u64_max)%N ->
  let '(replies, s') := run_commands config cmds s in
  gens_mono s s' /\ NoDup (handoff_keys cmds replies) /\
  (forall key, key ∈ handoff_keys cmds replies -> past s' key /\ ~ past s key).
Proof.
  revert s b. induction cmds as [|cmd cmds IH]; intros s b Hle Hb; simpl in *.
  - split; [done|]. split; [constructor|]. by intros ? ?%not_elem_of_nil.
  - pose proof (handle_command_gens config cmd s b Hle) as Hcmd.
    destruct (handle_command config cmd s) as [r s1].
    destruct Hcmd as (Hle1 & Hm1 & Hkey); [lia|].
    specialize (IH s1 (b + weight cmd)%N Hle1).
    destruct (run_commands config cmds s1) as [rs s2].
    destruct IH as (Hm2 & Hnd & Hkeys); [lia|].
    split; [etrans; [exact Hm1|exact Hm2]|]. destruct (handoff_key cmd r) as [key|] eqn:Hk; csimpl.
    + destruct (Hkey key eq_refl) as (Hpast & e & He & Hg). split.
      * constructor; [|done]. intros Hin. by destruct (Hkeys key Hin) as [_ []].
      * intros k [->|Hin]%elem_of_cons.
        -- split; [by apply Hm2|]. intros (e' & He' & Hlt). simplify_eq. lia.
        -- destruct (Hkeys k Hin) as [? Hno]. split; [done|]. intros Hp. by apply Hno, Hm1.
    + split; [done|]. intros k Hin. destruct (Hkeys k Hin) as [? Hno].
      split; [done|]. intros Hp. by apply Hno, Hm1.
Qed.

(** C8: no generation of a candidate reaches the builder twice: over any
    sequence of commands from a state whose generations are at most [b], the
    (candidate, generation) pairs handed off are distinct, as long as the
    sequence cannot drive a generation past [u64::MAX]. *)
Theorem handoff_at_most_once config cmds s b
  (Hgens : gens_le s b) (Hbound : (b + weights cmds <= u64_max)%N) :
  NoDup (handoff_keys cmds (run_commands config cmds s).1).
Proof.
  pose proof (run_commands_keys config cmds s b Hgens Hbound) as Hk.
  by destruct (run_commands config cmds s) as [rs s']; destruct Hk as (_ & ? & _).
Qed.

(** Commands after which the current generation of [e] is past. *)
Definition supersedes (cmd : SchedulerCommand) (id : CandidateId) (e : CandidateEntry) : Prop :=
  match cmd with
  | CmdRegisterCandidates l => id ∈ cand_id <$> l
  | CmdInvalidateCandidateHash h => candidate_mentions h e = true
  | _ => False
  end.

Lemma register_candidates_past l s b id e :
  gens_le s b -> (b + usize_of (length l) <= u64_max)%N ->
  candidates s !! id = Some e -> id ∈ cand_id <$> l ->
  past (register_candidates l s).2 (id, ce_generation e).
Proof.
  revert s b. induction l as [|cand l IH]; intros s b Hle Hb He Hin;
    [by apply not_elem_of_nil in Hin|].
  rewrite register_candidates_cons, fmap_cons in *. unfold usize_of in *. cbn [length] in Hb.
  destruct (register_candidate_gens cand s b Hle) as (Hle1 & _ & Hpast); [lia|].
  assert (id <> cand_id cand -> candidates (register_candidate cand s).2 !! id = Some e) as Hother.
  { intros Hne. unfold register_candidate; simpl. by rewrite lookup_insert_ne. }
  destruct (register_candidates_gens l (register_candidate cand s).2 (b + 1) Hle1) as [_ Hm];
    [int_lia|].
  apply elem_of_cons in Hin as [->|Hin]; [by apply Hm, Hpast|].
  destruct (decide (id = cand_id cand)) as [->|Hne]; [by apply Hm, Hpast|].
  apply (IH _ (b + 1)%N Hle1); [lia|by apply Hother|done].
Qed.

(** A superseded candidate is never built.  Once a candidate is registered
    again, or a hash it involves is invalidated, no later command hands off
    its old generation or any earlier one, whatever the commands are. *)
Theorem superseded_never_handed_off config s b id e cmd cmds
  (Hentry : candidates s !! id = Some e) (Hsup : supersedes cmd id e)
  (Hgens : gens_le s b) (Hbound : (b + weights (cmd :: cmds) <= u64_max)%N) :
  forall g, (g <= ce_generation e)%N ->
    (id, g) ∉ handoff_keys (cmd :: cmds) (run_commands config (cmd :: cmds) s).1.
Proof.
  intros g Hg. change (weights (cmd :: cmds)) with (weight cmd + weights cmds)%N in Hbound.
  cbn [run_commands].
  pose proof (handle_command_gens config cmd s b Hgens) as Hcmd.
  assert (past (handle_command config cmd s).2 (id, ce_generation e)) as (e1 & He1 & Hlt).
  { destruct cmd as [| l | | h | ]; try done; simpl in *.
    - pose proof (register_candidates_past l s b id e Hgens ltac:(lia) Hentry Hsup) as Hp.
      by destruct (register_candidates l s).
    - unfold past; simpl. rewrite invalidate_lookup, Hentry; simpl. rewrite Hsup.
      eexists. split; [done|]. simpl. specialize (Hgens _ _ Hentry).
      rewrite next_generation_lt by lia. lia. }
  assert (forall reply, handoff_key cmd reply = None) as Hnone by (by destruct cmd; intros []).
  destruct (handle_command config cmd s) as [r s1]. destruct Hcmd as (Hle1 & _ & _); [lia|].
  cbn [snd] in He1. pose proof (run_commands_keys config cmds s1 (b + weight cmd) Hle1) as Hk.
  destruct (run_commands config cmds s1) as [rs s2]. destruct Hk as (_ & _ & Hkeys); [lia|].
  cbn [fst handoff_keys]. rewrite Hnone; simpl. intros Hin. apply (Hkeys _ Hin).
  exists e1. simpl in *. split; [done|lia].
Qed.

(** ** Fresh results *)
Definition result_of_task (task : SimulationTaskSpec) (approved : bool) :
    SchedulerSimulationResult :=
  {| res_candidate_id := task_candidate_id task; res_tx_hash := task_tx_hash task;
     res_member_tx_hashes := task_member_tx_hashes task;
     res_block_number := task_block_number task; res_generation := task_generation task;
     res_approved := approved |}.

Lemma normalized_idemp h l :
  normalized_member_hashes h (normalized_member_hashes h l) = normalized_member_hashes h l.
Proof. by destruct l. Qed.

(** The result of a current task is accepted: right after a candidate is
    registered, an approved result echoing the task hands exactly that
    candidate to the builder at the registered block, a rejected one hands off
    nothing, and neither counts as stale. *)
Theorem fresh_result_accepted cand s approved :
  let '(task, s1) := register_candidate cand s in
  (apply_simulation_result (result_of_task task approved) s1).1 =
    {| builder_handoffs :=
         if approved then [{| handoff_candidate := cand;
                              handoff_block_number := head_block_number s |}] else [];
       stale_result_drop_total := 0 |}.
Proof.
  unfold register_candidate, apply_simulation_result; simpl. rewrite lookup_insert_eq.
  unfold result_is_stale; simpl. rewrite normalized_idemp, !N.eqb_refl, bool_decide_true by done.
  done.
Qed.

(** One candidate is registered, built, invalidated and reported again. *)
Definition sample_candidate : SchedulerCandidate :=
  {| cand_id := "cand-1"; cand_tx_hash := 1; cand_member_tx_hashes := [1; 2]%N;
     cand_score := 10; cand_strategy := "Sandwich"; cand_detected_unix_ms := 0 |}.
Definition sample_result (g : N) : SchedulerSimulationResult :=
  {| res_candidate_id := "cand-1"; res_tx_hash := 1; res_member_tx_hashes := [1; 2]%N;
     res_block_number := 0; res_generation := g; res_approved := true |}.
Definition sample_commands : list SchedulerCommand :=
  [CmdRegisterCandidates [sample_candidate]; CmdApplySimulationResult (sample_result 1);
   CmdApplySimulationResult (sample_result 1); CmdInvalidateCandidateHash 2;
   CmdApplySimulationResult (sample_result 3)].

Lemma gens_le_default : gens_le state_default 0.
Proof. intros id e. simpl. by rewrite lookup_empty. Qed.

Lemma handoff_at_most_once_witness :
  handoff_keys sample_commands (run_commands scheduler_config_default sample_commands state_default).1
    = [("cand-1", 1%N); ("cand-1", 3%N)] /\
  NoDup (handoff_keys sample_commands
           (run_commands scheduler_config_default sample_commands state_default).1).
Proof.
  split; [vm_compute; reflexivity|].
  apply (handoff_at_most_once scheduler_config_default sample_commands state_default 0).
  - apply gens_le_default.
  - vm_compute. discriminate.
Defined.

Definition registered_state : SchedulerState := (register_candidate sample_candidate state_default).2.

Lemma superseded_never_handed_off_witness :
  ("cand-1", 1%N) ∉
    handoff_keys [CmdInvalidateCandidateHash 2; CmdApplySimulationResult (sample_result 1)]
      (run_commands scheduler_config_default
         [CmdInvalidateCandidateHash 2; CmdApplySimulationResult (sample_result 1)]
         registered_state).1.
Proof.
  apply (superseded_never_handed_off scheduler_config_default registered_state 1 "cand-1"
           {| ce_candidate := sample_candidate; ce_block_number := 0; ce_generation := 1 |}).
  - vm_compute. reflexivity.
  - vm_compute. reflexivity.
  - intros id e He. unfold registered_state in He. simpl in He.
    apply lookup_singleton_Some in He as [_ <-]. vm_compute. discriminate.
  - vm_compute. discriminate.
  - simpl. lia.
Defined.
