(* ===== verification/CandidateLifecycle.v ===== *)
(** * CandidateLifecycle: candidates across search, simulation and assembly
    (crates/replay/src/mempool_state.rs, [CandidateLifecycleState])

    The replay model of searcher candidates: one entry per candidate id and an
    index from transaction hashes to the candidates they were queued for. *)
From stdpp Require Import base gmap strings list numbers sorting.
From S2P Require Import Prelude Common EventLog.

Record CandidateLifecycleEntry := mkCandidateEntry {
  cle_tx_hash : TxHash;
  cle_member_tx_hashes : list TxHash;
  cle_chain_id : option N;
  cle_strategy : string;
  cle_score : N;
  cle_protocol : string;
  cle_category : string;
  cle_feature_engine_version : string;
  cle_scorer_version : string;
  cle_strategy_version : string;
  cle_reasons : list string;
  cle_detected_unix_ms : Z;
  cle_simulation_status : option string;
  cle_assembly_status : option string;
  cle_simulation_block_number : option N;
  cle_assembly_block_number : option N;
  cle_assembly_reason : option string;
  cle_replaced_candidate_ids : list string;
}.
Definition candidate_entry_default : CandidateLifecycleEntry :=
  mkCandidateEntry 0 [] None "" 0 "" "" "" "" "" [] 0 None None None None None [].

Record CandidateLifecycleSnapshot := mkCandidateSnapshot {
  cls_seq_id : N;
  cls_candidates : gmap string CandidateLifecycleEntry;
}.

(** [BTreeMap<TxHash, BTreeSet<String>>]: a set is a map to [unit]. *)
Record CandidateLifecycleState := mkCandidateState {
  candidates_by_id : gmap string CandidateLifecycleEntry;
  tx_candidates : gmap TxHash (gmap string unit);
}.
Definition candidate_state_default : CandidateLifecycleState := mkCandidateState ∅ ∅.

Definition index_candidate (candidate_id : string) (tx_hash : TxHash) (s : CandidateLifecycleState) :
    CandidateLifecycleState :=
  {| candidates_by_id := candidates_by_id s;
     tx_candidates :=
       <[tx_hash := <[candidate_id := tt]> (default ∅ (tx_candidates s !! tx_hash))]>
         (tx_candidates s) |}.

(** [*candidates.entry(id).or_default()] updated by [f]. *)
Definition update_candidate (candidate_id : string)
    (f : CandidateLifecycleEntry -> CandidateLifecycleEntry) (s : CandidateLifecycleState) :
    CandidateLifecycleState :=
  {| candidates_by_id :=
       <[candidate_id := f (default candidate_entry_default (candidates_by_id s !! candidate_id))]>
         (candidates_by_id s);
     tx_candidates := tx_candidates s |}.

(** The assignments of each event to the entry. *)
Definition on_queued (q : CandidateQueued) (c : CandidateLifecycleEntry) : CandidateLifecycleEntry :=
  {| cle_tx_hash := cq_tx_hash q; cle_member_tx_hashes := cq_member_tx_hashes q;
     cle_chain_id := cq_chain_id q; cle_strategy := cq_strategy q; cle_score := cq_score q;
     cle_protocol := cq_protocol q; cle_category := cq_category q;
     cle_feature_engine_version := cq_feature_engine_version q;
     cle_scorer_version := cq_scorer_version q; cle_strategy_version := cq_strategy_version q;
     cle_reasons := cq_reasons q; cle_detected_unix_ms := cq_detected_unix_ms q;
     cle_simulation_status := cle_simulation_status c;
     cle_assembly_status := cle_assembly_status c;
     cle_simulation_block_number := cle_simulation_block_number c;
     cle_assembly_block_number := cle_assembly_block_number c;
     cle_assembly_reason := cle_assembly_reason c;
     cle_replaced_candidate_ids := cle_replaced_candidate_ids c |}.
Definition on_dispatched (d : SimDispatched) (c : CandidateLifecycleEntry) : CandidateLifecycleEntry :=
  {| cle_tx_hash := sd_tx_hash d;
     cle_member_tx_hashes :=
       match cle_member_tx_hashes c with [] => sd_member_tx_hashes d | l => l end;
     cle_chain_id := cle_chain_id c; cle_strategy := cle_strategy c; cle_score := cle_score c;
     cle_protocol := cle_protocol c; cle_category := cle_category c;
     cle_feature_engine_version := cle_feature_engine_version c;
     cle_scorer_version := cle_scorer_version c; cle_strategy_version := cle_strategy_version c;
     cle_reasons := cle_reasons c; cle_detected_unix_ms := cle_detected_unix_ms c;
     cle_simulation_status := cle_simulation_status c;
     cle_assembly_status := cle_assembly_status c;
     cle_simulation_block_number := Some (sd_block_number d);
     cle_assembly_block_number := cle_assembly_block_number c;
     cle_assembly_reason := cle_assembly_reason c;
     cle_replaced_candidate_ids := cle_replaced_candidate_ids c |}.
Definition on_completed (d : SimCompleted) (c : CandidateLifecycleEntry) : CandidateLifecycleEntry :=
  {| cle_tx_hash := simc_hash d; cle_member_tx_hashes := cle_member_tx_hashes c;
     cle_chain_id := cle_chain_id c; cle_strategy := cle_strategy c; cle_score := cle_score c;
     cle_protocol := cle_protocol c; cle_category := cle_category c;
     cle_feature_engine_version := cle_feature_engine_version c;
     cle_scorer_version := cle_scorer_version c; cle_strategy_version := cle_strategy_version c;
     cle_reasons := cle_reasons c; cle_detected_unix_ms := cle_detected_unix_ms c;
     cle_simulation_status := Some (simc_status d);
     cle_assembly_status := cle_assembly_status c;
     cle_simulation_block_number := cle_simulation_block_number c;
     cle_assembly_block_number := cle_assembly_block_number c;
     cle_assembly_reason := cle_assembly_reason c;
     cle_replaced_candidate_ids := cle_replaced_candidate_ids c |}.
Definition on_assembly (d : AssemblyDecisionApplied) (c : CandidateLifecycleEntry) :
    CandidateLifecycleEntry :=
  {| cle_tx_hash := ada_tx_hash d; cle_member_tx_hashes := cle_member_tx_hashes c;
     cle_chain_id := cle_chain_id c; cle_strategy := cle_strategy c; cle_score := cle_score c;
     cle_protocol := cle_protocol c; cle_category := cle_category c;
     cle_feature_engine_version := cle_feature_engine_version c;
     cle_scorer_version := cle_scorer_version c; cle_strategy_version := cle_strategy_version c;
     cle_reasons := cle_reasons c; cle_detected_unix_ms := cle_detected_unix_ms c;
     cle_simulation_status := cle_simulation_status c;
     cle_assembly_status := Some (ada_decision d);
     cle_simulation_block_number := cle_simulation_block_number c;
     cle_assembly_block_number := Some (ada_block_number d);
     cle_assembly_reason := ada_reason d;
     cle_replaced_candidate_ids := ada_replaced_candidate_ids d |}.

Definition candidate_apply_event (s : CandidateLifecycleState) (event : EventEnvelope) :
    CandidateLifecycleState :=
  match payload event with
  | PCandidateQueued q =>
      update_candidate (cq_candidate_id q) (on_queued q)
        (index_candidate (cq_candidate_id q) (cq_tx_hash q) s)
  | PSimDispatched d =>
      update_candidate (sd_candidate_id d) (on_dispatched d)
        (index_candidate (sd_candidate_id d) (sd_tx_hash d) s)
  | PSimCompleted d =>
      let candidate_ids := bt_keys (default ∅ (tx_candidates s !! simc_hash d)) in
      foldl (fun s id => update_candidate id (on_completed d) s) s candidate_ids
  | PAssemblyDecisionApplied d =>
      update_candidate (ada_candidate_id d) (on_assembly d)
        (index_candidate (ada_candidate_id d) (ada_tx_hash d) s)
  | _ => s
  end.

Definition candidate_snapshot (s : CandidateLifecycleState) (seq_id : N) : CandidateLifecycleSnapshot :=
  {| cls_seq_id := seq_id; cls_candidates := candidates_by_id s |}.

(** ** One candidate's view

    What the events say about a single candidate: its entry, and the hashes
    whose simulation results belong to it. *)
Definition candidate_view : Type := option CandidateLifecycleEntry * gset TxHash.

Definition view_update (hash : TxHash) (f : CandidateLifecycleEntry -> CandidateLifecycleEntry)
    (v : candidate_view) : candidate_view :=
  (Some (f (default candidate_entry_default v.1)), {[hash]} ∪ v.2).

Definition view_step (id : string) (v : candidate_view) (event : EventEnvelope) : candidate_view :=
  match payload event with
  | PCandidateQueued q =>
      if bool_decide (cq_candidate_id q = id) then view_update (cq_tx_hash q) (on_queued q) v else v
  | PSimDispatched d =>
      if bool_decide (sd_candidate_id d = id) then view_update (sd_tx_hash d) (on_dispatched d) v else v
  | PSimCompleted d =>
      if bool_decide (simc_hash d ∈ v.2) then view_update (simc_hash d) (on_completed d) v else v
  | PAssemblyDecisionApplied d =>
      if bool_decide (ada_candidate_id d = id) then view_update (ada_tx_hash d) (on_assembly d) v else v
  | _ => v
  end.

Definition view_of (id : string) (events : list EventEnvelope) : candidate_view :=
  foldl (view_step id) (None, ∅) events.

(** The event names the candidate. *)
Definition names_candidate (id : string) (event : EventEnvelope) : bool :=
  match payload event with
  | PCandidateQueued q => bool_decide (cq_candidate_id q = id)
  | PSimDispatched d => bool_decide (sd_candidate_id d = id)
  | PAssemblyDecisionApplied d => bool_decide (ada_candidate_id d = id)
  | _ => false
  end.

Definition indexed (s : CandidateLifecycleState) (id : string) (h : TxHash) : Prop :=
  default ∅ (tx_candidates s !! h) !! id = Some tt.

(** The state represents the view of a candidate. *)
Record represents (s : CandidateLifecycleState) (id : string) (v : candidate_view) : Prop := {
  rep_entry : candidates_by_id s !! id = v.1;
  rep_index h : indexed s id h <-> h ∈ v.2;
}.

Lemma update_candidate_foldl id f l s :
  NoDup l ->
  candidates_by_id (foldl (fun s i => update_candidate i f s) s l) !! id =
    if bool_decide (id ∈ l) then Some (f (default candidate_entry_default (candidates_by_id s !! id)))
    else candidates_by_id s !! id.
Proof.
  intros Hl. revert s. induction Hl as [|i l Hi Hl IH]; intros s; [done|]. cbn [foldl]. rewrite IH.
  destruct (decide (id = i)) as [->|Hne].
  - rewrite (bool_decide_eq_false_2 _ Hi), bool_decide_eq_true_2 by set_solver.
    cbn. by rewrite lookup_insert_eq.
  - cbn. rewrite lookup_insert_ne by done.
    destruct (decide (id ∈ l)); [rewrite !bool_decide_eq_true_2 by set_solver; done|].
    by rewrite !bool_decide_eq_false_2 by set_solver.
Qed.

Lemma update_candidate_foldl_index f l s :
  tx_candidates (foldl (fun s i => update_candidate i f s) s l) = tx_candidates s.
Proof. revert s. induction l as [|i l IH]; intros s; [done|]. cbn. by rewrite IH. Qed.

(** Recording [f] for candidate [id'] under [hash]. *)
Lemma represents_update s id v id' hash f :
  represents s id v ->
  represents (update_candidate id' f (index_candidate id' hash s)) id
    (if bool_decide (id' = id) then view_update hash f v else v).
Proof.
  intros [He Hi]. destruct (decide (id' = id)) as [->|Hne].
  - rewrite bool_decide_eq_true_2 by done. constructor; cbn.
    + by rewrite lookup_insert_eq, He.
    + intros h. unfold indexed. cbn. destruct (decide (hash = h)) as [->|Hh].
      * rewrite lookup_insert_eq. cbn. rewrite lookup_insert_eq. set_solver.
      * rewrite lookup_insert_ne by done. rewrite elem_of_union, elem_of_singleton, <-Hi.
        unfold indexed. naive_solver.
  - rewrite bool_decide_eq_false_2 by done. constructor; cbn.
    + by rewrite lookup_insert_ne.
    + intros h. rewrite <-Hi. unfold indexed. cbn. destruct (decide (hash = h)) as [->|Hh].
      * rewrite lookup_insert_eq. cbn. by rewrite lookup_insert_ne.
      * by rewrite lookup_insert_ne.
Qed.

Lemma represents_step s id v event :
  represents s id v -> represents (candidate_apply_event s event) id (view_step id v event).
Proof.
  intros Hr. unfold candidate_apply_event, view_step.
  destruct (payload event) as [| | | | |q|d| |d|d| | | | | |]; try done;
    try by apply represents_update.
  destruct Hr as [He Hi]. constructor.
  - rewrite update_candidate_foldl by apply bt_keys_NoDup. specialize (Hi (simc_hash d)).
    unfold indexed in Hi.
    rewrite (bool_decide_ext (id ∈ bt_keys _) (simc_hash d ∈ v.2)).
    2:{ rewrite elem_of_bt_keys, <-Hi. split; [by intros [[] ?]|by eexists]. }
    case_bool_decide; [|done]. by rewrite He.
  - intros h. unfold indexed. rewrite update_candidate_foldl_index.
    case_bool_decide as Hd; [|apply Hi]. cbn. rewrite elem_of_union, elem_of_singleton, <-Hi.
    unfold indexed. split; [by right|]. intros [->|?]; [|done]. by apply Hi.
Qed.

Lemma view_step_exists id v event :
  is_Some (view_step id v event).1 <->
  is_Some v.1 \/ names_candidate id event = true \/
  (exists d, payload event = PSimCompleted d /\ simc_hash d ∈ v.2).
Proof.
  unfold view_step, names_candidate.
  destruct (payload event) as [| | | | |q|d| |d|d| | | | | |];
    try (split; [by left|intros [?|[?|(? & [=] & _)]]; done]).
  all: case_bool_decide; cbn; (split; [intros Hs|intros [Hs|[?|(? & E & ?)]]]);
    try done; try (by left); try (by right; left); try by simplify_eq.
  - right; right. by exists d.
Qed.

Lemma view_of_snoc id events event : view_of id (events ++ [event]) = view_step id (view_of id events) event.
Proof. unfold view_of. by rewrite foldl_snoc. Qed.

(** Events that can change the view: those naming the candidate, and
    simulation results. *)
Definition concerns (id : string) (event : EventEnvelope) : bool :=
  names_candidate id event || match payload event with PSimCompleted _ => true | _ => false end.

Lemma view_step_skip id v event : concerns id event = false -> view_step id v event = v.
Proof.
  unfold concerns, names_candidate, view_step.
  destruct (payload event); cbn; rewrite ?orb_false_r; try done; by intros ->.
Qed.

Lemma view_of_filter id events :
  view_of id (filter (fun e => concerns id e = true) events) = view_of id events.
Proof.
  unfold view_of. generalize (@None CandidateLifecycleEntry, (∅ : gset TxHash)).
  induction events as [|e events IH]; intros v; [done|]. rewrite filter_cons.
  destruct (concerns id e) eqn:E; [rewrite decide_True by done; apply IH|].
  rewrite decide_False by done. cbn. by rewrite IH, (view_step_skip id v e E).
Qed.

Lemma view_step_hashes id v event :
  (v.2 <> ∅ -> is_Some v.1) -> (view_step id v event).2 <> ∅ -> is_Some (view_step id v event).1.
Proof.
  intros Hv. unfold view_step.
  destruct (payload event); try apply Hv; case_bool_decide; try apply Hv; done.
Qed.

Lemma view_of_spec id events :
  represents (foldl candidate_apply_event candidate_state_default events) id (view_of id events) /\
  ((view_of id events).2 <> ∅ -> is_Some (view_of id events).1) /\
  (is_Some (view_of id events).1 <-> exists e, e ∈ events /\ names_candidate id e = true).
Proof.
  induction events as [|e events IH] using rev_ind.
  - split; [|split].
    + constructor; [done|]. intros h. unfold indexed. cbn. set_solver.
    + done.
    + cbn. split; [by intros [? ?]|]. intros (e & He & _). by apply not_elem_of_nil in He.
  - destruct IH as (Hr & Hh & Hs). rewrite foldl_snoc, view_of_snoc. split; [|split].
    + by apply represents_step.
    + by apply view_step_hashes.
    + rewrite view_step_exists, Hs. setoid_rewrite elem_of_app. setoid_rewrite list_elem_of_singleton.
      split; [|naive_solver].
      intros [(e' & ? & ?)|[?|(d & _ & Hd)]]; [naive_solver|naive_solver|].
      assert (is_Some (view_of id events).1) as (e' & ? & ?)%Hs by (apply Hh; set_solver).
      naive_solver.
Qed.

(** The lifecycle snapshot holds, for every candidate, exactly what the
    events that concern it say: its entry is the fold of its own queue,
    dispatch and assembly events and of the simulation results of the hashes
    it was indexed under by then; a candidate is in the snapshot exactly when
    some event named it; and two logs that agree on the events concerning a
    candidate, however they interleave with those of others, give it the same
    entry. *)
Theorem candidate_lifecycle_exact events id seq :
  let snap es := candidate_snapshot (foldl candidate_apply_event candidate_state_default es) seq in
  cls_candidates (snap events) !! id = (view_of id events).1 /\
  (is_Some (cls_candidates (snap events) !! id) <->
     exists e, e ∈ events /\ names_candidate id e = true) /\
  (forall events', filter (fun e => concerns id e = true) events' =
                   filter (fun e => concerns id e = true) events ->
     cls_candidates (snap events') !! id = cls_candidates (snap events) !! id).
Proof.
  cbv zeta. cbn [candidate_snapshot cls_candidates].
  pose proof (view_of_spec id events) as ([He _] & _ & Hs).
  split; [done|]. split; [by rewrite He|]. intros events' Hf.
  pose proof (view_of_spec id events') as ([He' _] & _ & _).
  by rewrite He, He', <-view_of_filter, Hf, view_of_filter.
Qed.

(** A bundle's simulation result arrives under its first hash only: a result
    for another member is not attributed to the candidate. *)
Example member_result_ignored :
  let queued := mkCandidateQueued "b" 1 [1%N; 2%N] None "" 0 "" "" "" "" "" [] 0 in
  let completed h := mkSimCompleted h "s" "ok" "" "" "" None None None in
  let s h := foldl candidate_apply_event candidate_state_default
    [sample_event 1 (PCandidateQueued queued); sample_event 2 (PSimCompleted (completed h))] in
  (cle_simulation_status <$> candidates_by_id (s 1%N) !! "b"%string) = Some (Some "ok"%string) /\
  (cle_simulation_status <$> candidates_by_id (s 2%N) !! "b"%string) = Some None.
Proof. by vm_compute. Qed.
