(* ===== verification/ReplayMempool.v ===== *)
(** * ReplayMempool: the mempool state machine of replay
    (crates/replay/src/mempool_state.rs, [MempoolState])

    Reconstructs the lifecycle of every transaction and the sender queues from
    the event log.  The hash maps are finite maps; only [pending_hashes]
    iterates over one, in an order the class [HashIter] leaves open. *)
From stdpp Require Import base gmap strings list numbers sorting.
From S2P Require Import Prelude Common EventLog.

(** ** Data *)
Inductive ReplayQueueState := RReady | RBlocked (expected_nonce : N).

Record ReplaySenderQueueEntry := mkReplayEntry {
  rqe_hash : TxHash;
  rqe_nonce : N;
  rqe_state : ReplayQueueState;
}.
Record ReplaySenderQueue := mkReplayQueue {
  rq_sender : Address;
  rq_queued : list ReplaySenderQueueEntry;
}.

Inductive TxLifecycleStatus :=
  | StPending
  | StReplaced (by_hash : TxHash)
  | StDropped (reason : string)
  | StConfirmedProvisional (block_number : N) (block_hash : BlockHash)
  | StConfirmedFinal (block_number : N) (block_hash : BlockHash).

Inductive StateTransition :=
  | TrPending (hash : TxHash)
  | TrReplaced (old_hash new_hash : TxHash)
  | TrDropped (hash : TxHash) (reason : string)
  | TrConfirmedProvisional (hash : TxHash) (block_hash : BlockHash)
  | TrConfirmedFinal (hash : TxHash) (block_hash : BlockHash)
  | TrReorgReopened (hash : TxHash) (old_block_hash new_block_hash : BlockHash)
  | TrQueueReady (hash : TxHash) (sender : Address) (nonce : N)
  | TrQueueBlocked (hash : TxHash) (sender : Address) (nonce : N) (expected_nonce : option N).

#[export] Instance ReplayQueueState_eq_dec : EqDecision ReplayQueueState.
Proof. solve_decision. Defined.
#[export] Instance TxLifecycleStatus_eq_dec : EqDecision TxLifecycleStatus.
Proof. solve_decision. Defined.
#[export] Instance ReplaySenderQueueEntry_eq_dec : EqDecision ReplaySenderQueueEntry.
Proof. solve_decision. Defined.
#[export] Instance ReplaySenderQueue_eq_dec : EqDecision ReplaySenderQueue.
Proof. solve_decision. Defined.

Record TxEntry := mkTxEntry {
  te_sender : option Address;
  te_nonce : option N;
  te_status : TxLifecycleStatus;
  te_queue_state : option ReplayQueueState;
}.

Record MempoolState := mkMempool {
  ms_txs : gmap TxHash TxEntry;
  ms_sender_queues : gmap Address (gmap N TxHash);
  ms_block_confirmations : gmap BlockHash (gset TxHash);
}.
Definition mempool_default : MempoolState := mkMempool ∅ ∅ ∅.

Definition set_txs txs (s : MempoolState) : MempoolState :=
  mkMempool txs (ms_sender_queues s) (ms_block_confirmations s).
Definition set_sender_queues qs (s : MempoolState) : MempoolState :=
  mkMempool (ms_txs s) qs (ms_block_confirmations s).
Definition set_confirmations c (s : MempoolState) : MempoolState :=
  mkMempool (ms_txs s) (ms_sender_queues s) c.

Definition set_status st (e : TxEntry) : TxEntry :=
  mkTxEntry (te_sender e) (te_nonce e) st (te_queue_state e).
Definition set_queue_state q (e : TxEntry) : TxEntry :=
  mkTxEntry (te_sender e) (te_nonce e) (te_status e) q.
(** The new status of an entry that leaves the queue. *)
Definition retire st (e : TxEntry) : TxEntry := set_queue_state None (set_status st e).

Definition is_pending (st : TxLifecycleStatus) : bool :=
  match st with StPending => true | _ => false end.

(** [(sender, nonce)] of a known transaction, [(None, None)] otherwise. *)
Definition known_slot (s : MempoolState) (hash : TxHash) : option Address * option N :=
  match ms_txs s !! hash with
  | Some e => (te_sender e, te_nonce e)
  | None => (None, None)
  end.

(** ** Queue maintenance *)
Definition replay_entry_state (next : option N) (gap_seen : bool) (nonce : N) :
    ReplayQueueState * option N * bool :=
  match next with
  | None => (RReady, checked_add u64_max nonce 1, gap_seen)
  | Some expected =>
      if negb gap_seen && (nonce =? expected)%N
      then (RReady, checked_add u64_max nonce 1, gap_seen)
      else (RBlocked expected, Some expected, true)
  end.

Definition ensure_sender_queue_entry (hash : TxHash) (sender : Address) (nonce : N)
    (s : MempoolState) : MempoolState :=
  let old := default (mkTxEntry (Some sender) (Some nonce) StPending None) (ms_txs s !! hash) in
  mkMempool
    (<[hash := mkTxEntry (Some sender) (Some nonce) StPending (te_queue_state old)]> (ms_txs s))
    (<[sender := <[nonce := hash]> (default ∅ (ms_sender_queues s !! sender))]>
       (ms_sender_queues s))
    (ms_block_confirmations s).

Definition remove_sender_queue_entry (hash : TxHash) (sender : Address) (nonce : N)
    (s : MempoolState) : MempoolState :=
  match ms_sender_queues s !! sender with
  | None => s
  | Some queue =>
      let queue' := if decide (queue !! nonce = Some hash) then delete nonce queue else queue in
      set_sender_queues
        (if decide (queue' = ∅) then delete sender (ms_sender_queues s)
         else <[sender := queue']> (ms_sender_queues s)) s
  end.

(** The classification loop of [recompute_sender_queue_states]: the nonces to
    drop and the states to write. *)
Fixpoint recompute_loop (txs : gmap TxHash TxEntry) (next : option N) (gap_seen : bool)
    (entries : list (N * TxHash)) : list N * list (TxHash * ReplayQueueState) :=
  match entries with
  | [] => ([], [])
  | (nonce, hash) :: entries' =>
      match txs !! hash with
      | Some e =>
          if is_pending (te_status e) then
            let '(state, next', gap') := replay_entry_state next gap_seen nonce in
            let '(stale, updates) := recompute_loop txs next' gap' entries' in
            (stale, (hash, state) :: updates)
          else
            let '(stale, updates) := recompute_loop txs next gap_seen entries' in
            (nonce :: stale, updates)
      | None =>
          let '(stale, updates) := recompute_loop txs next gap_seen entries' in
          (nonce :: stale, updates)
      end
  end.

Definition recompute_sender_queue_states (sender : Address) (s : MempoolState) : MempoolState :=
  match ms_sender_queues s !! sender with
  | None => s
  | Some queue =>
      let entries := bt_iter queue in
      let cleared :=
        foldl (fun txs '(_, hash) => alter (set_queue_state None) hash txs) (ms_txs s) entries in
      let '(stale, updates) := recompute_loop cleared None false entries in
      let queue' := foldl (fun q nonce => delete nonce q) queue stale in
      mkMempool
        (foldl (fun txs '(hash, state) => alter (set_queue_state (Some state)) hash txs)
           cleared updates)
        (if decide (queue' = ∅) then delete sender (ms_sender_queues s)
         else <[sender := queue']> (ms_sender_queues s))
        (ms_block_confirmations s)
  end.

(** [if let (Some(sender), Some(nonce)) = (sender, nonce) { remove; recompute }] *)
Definition leave_queue (hash : TxHash) (slot : option Address * option N) (s : MempoolState) :
    MempoolState :=
  match slot with
  | (Some sender, Some nonce) =>
      recompute_sender_queue_states sender (remove_sender_queue_entry hash sender nonce s)
  | _ => s
  end.

(** ** Event handlers *)
Definition apply_decoded (d : TxDecoded) (s : MempoolState) : list StateTransition * MempoolState :=
  let '(transitions, s1) :=
    match ms_sender_queues s !! dec_sender d ≫= fun queue => queue !! dec_nonce d with
    | Some old_hash =>
        if decide (old_hash = dec_hash d) then ([], s)
        else ([TrReplaced old_hash (dec_hash d)],
              set_txs (alter (retire (StReplaced (dec_hash d))) old_hash (ms_txs s)) s)
    | None => ([], s)
    end in
  let s2 := ensure_sender_queue_entry (dec_hash d) (dec_sender d) (dec_nonce d) s1 in
  (transitions ++ [TrPending (dec_hash d)], recompute_sender_queue_states (dec_sender d) s2).

Definition apply_dropped (d : TxDropped) (s : MempoolState) : list StateTransition * MempoolState :=
  let slot := known_slot s (dropped_hash d) in
  let status := StDropped (dropped_reason d) in
  let old := default (mkTxEntry None None status None) (ms_txs s !! dropped_hash d) in
  ([TrDropped (dropped_hash d) (dropped_reason d)],
   leave_queue (dropped_hash d) slot
     (set_txs (<[dropped_hash d := retire status old]> (ms_txs s)) s)).

(** The two confirmation arms of [apply_event]. *)
Definition apply_confirmed (c : TxConfirmed) (status : TxLifecycleStatus)
    (transition : StateTransition) (s : MempoolState) : list StateTransition * MempoolState :=
  let slot := known_slot s (confirmed_hash c) in
  let old := default (mkTxEntry None None StPending None) (ms_txs s !! confirmed_hash c) in
  let s1 :=
    leave_queue (confirmed_hash c) slot
      (set_txs (<[confirmed_hash c := retire status old]> (ms_txs s)) s) in
  let confirmations := ms_block_confirmations s1 in
  ([transition],
   set_confirmations
     (<[confirmed_block_hash c :=
          {[confirmed_hash c]} ∪ default ∅ (confirmations !! confirmed_block_hash c)]>
        confirmations) s1).

Definition apply_replaced (r : TxReplaced) (s : MempoolState) :
    list StateTransition * MempoolState :=
  let slot := known_slot s (replaced_hash r) in
  ([TrReplaced (replaced_hash r) (replaced_by r)],
   leave_queue (replaced_hash r) slot
     (set_txs (alter (retire (StReplaced (replaced_by r))) (replaced_hash r) (ms_txs s)) s)).

Definition confirmed_in (st : TxLifecycleStatus) (block : BlockHash) : bool :=
  match st with
  | StConfirmedProvisional _ b | StConfirmedFinal _ b => (b =? block)%N
  | _ => false
  end.

Definition apply_reorg (r : TxReorged) (s : MempoolState) : list StateTransition * MempoolState :=
  match ms_txs s !! reorged_hash r with
  | None => ([], s)
  | Some e =>
      if confirmed_in (te_status e) (reorged_old_block_hash r) then
        let s1 := set_txs (alter (set_status StPending) (reorged_hash r) (ms_txs s)) s in
        let s2 :=
          match te_sender e, te_nonce e with
          | Some sender, Some nonce =>
              recompute_sender_queue_states sender
                (ensure_sender_queue_entry (reorged_hash r) sender nonce s1)
          | _, _ => s1
          end in
        ([TrReorgReopened (reorged_hash r) (reorged_old_block_hash r) (reorged_new_block_hash r)],
         set_confirmations
           (alter (fun set => set ∖ {[reorged_hash r]}) (reorged_old_block_hash r)
              (ms_block_confirmations s2)) s2)
      else ([], s)
  end.

Definition apply_ready (r : TxReady) (s : MempoolState) : list StateTransition * MempoolState :=
  let s1 :=
    recompute_sender_queue_states (ready_sender r)
      (ensure_sender_queue_entry (ready_hash r) (ready_sender r) (ready_nonce r) s) in
  ([TrQueueReady (ready_hash r) (ready_sender r) (ready_nonce r)],
   set_txs (alter (set_queue_state (Some RReady)) (ready_hash r) (ms_txs s1)) s1).

Definition apply_blocked (b : TxBlocked) (s : MempoolState) : list StateTransition * MempoolState :=
  let s1 :=
    recompute_sender_queue_states (blocked_sender b)
      (ensure_sender_queue_entry (blocked_hash b) (blocked_sender b) (blocked_nonce b) s) in
  ([TrQueueBlocked (blocked_hash b) (blocked_sender b) (blocked_nonce b) (blocked_expected_nonce b)],
   match blocked_expected_nonce b with
   | Some n => set_txs (alter (set_queue_state (Some (RBlocked n))) (blocked_hash b) (ms_txs s1)) s1
   | None => s1
   end).

Definition apply_event (event : EventEnvelope) (s : MempoolState) :
    list StateTransition * MempoolState :=
  match payload event with
  | PTxDecoded d => apply_decoded d s
  | PTxDropped d => apply_dropped d s
  | PTxReady r => apply_ready r s
  | PTxBlocked b => apply_blocked b s
  | PTxConfirmedProvisional c =>
      apply_confirmed c (StConfirmedProvisional (confirmed_block_number c) (confirmed_block_hash c))
        (TrConfirmedProvisional (confirmed_hash c) (confirmed_block_hash c)) s
  | PTxConfirmedFinal c =>
      apply_confirmed c (StConfirmedFinal (confirmed_block_number c) (confirmed_block_hash c))
        (TrConfirmedFinal (confirmed_hash c) (confirmed_block_hash c)) s
  | PTxReorged r => apply_reorg r s
  | PTxReplaced r => apply_replaced r s
  | PTxSeen _ | PTxFetched _ | PCandidateQueued _ | PSimDispatched _ | POppDetected _
  | PSimCompleted _ | PAssemblyDecisionApplied _ | PBundleSubmitted _ => ([], s)
  end.

Definition apply_all (events : list EventEnvelope) (s : MempoolState) : MempoolState :=
  foldl (fun s e => (apply_event e s).2) s events.

(** ** Seeds *)
Definition from_pending_hashes (pending_hashes : list TxHash) : MempoolState :=
  set_txs (foldl (fun txs hash => <[hash := mkTxEntry None None StPending None]> txs) ∅
             pending_hashes) mempool_default.

Definition seed_entry (sender : Address) (s : MempoolState) (entry : ReplaySenderQueueEntry) :
    MempoolState :=
  mkMempool
    (match ms_txs s !! rqe_hash entry with
     | Some _ => ms_txs s
     | None => <[rqe_hash entry :=
                   mkTxEntry (Some sender) (Some (rqe_nonce entry)) StPending
                     (Some (rqe_state entry))]> (ms_txs s)
     end)
    (<[sender := <[rqe_nonce entry := rqe_hash entry]> (default ∅ (ms_sender_queues s !! sender))]>
       (ms_sender_queues s))
    (ms_block_confirmations s).

Definition from_checkpoint (pending_hashes : list TxHash) (queues : list ReplaySenderQueue) :
    MempoolState :=
  foldl (fun s queue => foldl (seed_entry (rq_sender queue)) s (rq_queued queue))
    (from_pending_hashes pending_hashes) queues.

(** ** Views *)
Definition lifecycle (s : MempoolState) (hash : TxHash) : option TxLifecycleStatus :=
  te_status <$> ms_txs s !! hash.

(** The iteration order of a hash map. *)
Class HashIter := {
  hash_iter {V} : gmap TxHash V -> list (TxHash * V);
  hash_iter_perm {V} (m : gmap TxHash V) : hash_iter m ≡ₚ map_to_list m;
}.

Definition pending_hashes `{HashIter} (s : MempoolState) : list TxHash :=
  omap (fun '(hash, e) => if is_pending (te_status e) then Some hash else None)
    (hash_iter (ms_txs s)).

Fixpoint queue_view_loop (txs : gmap TxHash TxEntry) (next : option N) (gap_seen : bool)
    (entries : list (N * TxHash)) : list ReplaySenderQueueEntry :=
  match entries with
  | [] => []
  | (nonce, hash) :: entries' =>
      match txs !! hash with
      | Some e =>
          if is_pending (te_status e) then
            let '(computed, next', gap') := replay_entry_state next gap_seen nonce in
            {| rqe_hash := hash; rqe_nonce := nonce;
               rqe_state := default computed (te_queue_state e) |} ::
              queue_view_loop txs next' gap' entries'
          else queue_view_loop txs next gap_seen entries'
      | None => queue_view_loop txs next gap_seen entries'
      end
  end.

Definition sender_queues_view (s : MempoolState) : list ReplaySenderQueue :=
  omap (fun '(sender, queue) =>
      match queue_view_loop (ms_txs s) None false (bt_iter queue) with
      | [] => None
      | queued => Some {| rq_sender := sender; rq_queued := queued |}
      end)
    (bt_iter (ms_sender_queues s)).
