(* ===== verification/ReplayLifecycle.v ===== *)
(** * ReplayLifecycle: what the replayed mempool satisfies

    The lifecycle of every hash as a function of the events, the invariant of
    the sender queues, and the agreement of the replayed queues with the live
    scheduler's classification. *)
From stdpp Require Import base gmap strings list numbers sorting.
From S2P Require Import Prelude Common EventLog Scheduler SchedulerQueue ReplayMempool.

(** ** Queue maintenance never touches the lifecycle *)
Definition core (txs : gmap TxHash TxEntry) (h : TxHash) :
    option (option Address * option N * TxLifecycleStatus) :=
  (fun e => (te_sender e, te_nonce e, te_status e)) <$> txs !! h.

Lemma lifecycle_core s h : lifecycle s h = snd <$> core (ms_txs s) h.
Proof. unfold lifecycle, core. by destruct (ms_txs s !! h). Qed.

Lemma core_alter_queue_state q h txs h' :
  core (alter (set_queue_state q) h txs) h' = core txs h'.
Proof.
  unfold core. destruct (decide (h = h')) as [->|Hne].
  - rewrite lookup_alter_eq. by destruct (txs !! h').
  - by rewrite lookup_alter_ne.
Qed.

Lemma core_clear_all (entries : list (N * TxHash)) txs h :
  core (foldl (fun txs '(_, hash) => alter (set_queue_state None) hash txs) txs entries) h
    = core txs h.
Proof.
  revert txs. induction entries as [|[n k] l IH]; intros txs; simpl; [done|].
  by rewrite IH, core_alter_queue_state.
Qed.

Lemma core_write_all (updates : list (TxHash * ReplayQueueState)) txs h :
  core (foldl (fun txs '(hash, state) => alter (set_queue_state (Some state)) hash txs) txs updates) h
    = core txs h.
Proof.
  revert txs. induction updates as [|[k q] l IH]; intros txs; simpl; [done|].
  by rewrite IH, core_alter_queue_state.
Qed.

Lemma core_recompute a s h :
  core (ms_txs (recompute_sender_queue_states a s)) h = core (ms_txs s) h.
Proof.
  unfold recompute_sender_queue_states. destruct (ms_sender_queues s !! a) as [q|]; [|done].
  destruct (recompute_loop _ _ _ _) as [stale updates]; simpl.
  by rewrite core_write_all, core_clear_all.
Qed.

Lemma remove_txs h a n s : ms_txs (remove_sender_queue_entry h a n s) = ms_txs s.
Proof. unfold remove_sender_queue_entry. by destruct (ms_sender_queues s !! a). Qed.

Lemma core_leave_queue h slot s k :
  core (ms_txs (leave_queue h slot s)) k = core (ms_txs s) k.
Proof. destruct slot as [[a|] [n|]]; simpl; [|done..]. by rewrite core_recompute, remove_txs. Qed.

Lemma core_insert h e txs k :
  core (<[h := e]> txs) k =
    if decide (h = k) then Some (te_sender e, te_nonce e, te_status e) else core txs k.
Proof.
  unfold core. case_decide as E; [subst|].
  - by rewrite lookup_insert_eq.
  - by rewrite lookup_insert_ne.
Qed.

Lemma core_alter_status f st h txs k :
  (forall e, te_sender (f e) = te_sender e /\ te_nonce (f e) = te_nonce e /\ te_status (f e) = st) ->
  core (alter f h txs) k =
    if decide (h = k) then (fun c => (c.1, st)) <$> core txs k else core txs k.
Proof.
  intros Hf. unfold core. case_decide as E; [subst|].
  - rewrite lookup_alter_eq. destruct (txs !! k) as [e|]; simpl; [|done].
    by destruct (Hf e) as (-> & -> & ->).
  - by rewrite lookup_alter_ne.
Qed.

(** ** The lifecycle of a hash, event by event *)
Definition rslot (s : MempoolState) (a : Address) (n : N) : option TxHash :=
  ms_sender_queues s !! a ≫= fun q => q !! n.

Definition lifecycle_spec (s : MempoolState) (p : EventPayload) (h : TxHash) :
    option TxLifecycleStatus :=
  match p with
  | PTxDecoded d =>
      if decide (dec_hash d = h) then Some StPending
      else if decide (rslot s (dec_sender d) (dec_nonce d) = Some h)
      then (fun _ => StReplaced (dec_hash d)) <$> lifecycle s h
      else lifecycle s h
  | PTxReady r => if decide (ready_hash r = h) then Some StPending else lifecycle s h
  | PTxBlocked b => if decide (blocked_hash b = h) then Some StPending else lifecycle s h
  | PTxDropped d =>
      if decide (dropped_hash d = h) then Some (StDropped (dropped_reason d)) else lifecycle s h
  | PTxConfirmedProvisional c =>
      if decide (confirmed_hash c = h)
      then Some (StConfirmedProvisional (confirmed_block_number c) (confirmed_block_hash c))
      else lifecycle s h
  | PTxConfirmedFinal c =>
      if decide (confirmed_hash c = h)
      then Some (StConfirmedFinal (confirmed_block_number c) (confirmed_block_hash c))
      else lifecycle s h
  | PTxReplaced r =>
      if decide (replaced_hash r = h)
      then (fun _ => StReplaced (replaced_by r)) <$> lifecycle s h else lifecycle s h
  | PTxReorged r =>
      if decide (reorged_hash r = h)
      then (fun st => if confirmed_in st (reorged_old_block_hash r) then StPending else st)
           <$> lifecycle s h
      else lifecycle s h
  | _ => lifecycle s h
  end.

Lemma core_ensure h a n s k :
  core (ms_txs (ensure_sender_queue_entry h a n s)) k =
    if decide (h = k) then Some (Some a, Some n, StPending) else core (ms_txs s) k.
Proof. unfold ensure_sender_queue_entry; simpl. by rewrite core_insert. Qed.

Lemma snd_fmap_core (c : option (option Address * option N * TxLifecycleStatus))
    (st : TxLifecycleStatus) :
  snd <$> ((fun x => (x.1, st)) <$> c) = (fun _ => st) <$> (snd <$> c).
Proof. by destruct c. Qed.

(** The replayed lifecycle, event by event.  For every state, event and
    hash the status after [apply_event] is the one the event prescribes:
    decoding makes the hash pending and replaces the occupant of its slot;
    ready and blocked events make it pending; drops, confirmations and
    replacements set their status (a replacement only of a known hash); a
    reorganisation reopens a hash confirmed in the abandoned block; no other
    hash and no other event changes a status. *)
Theorem lifecycle_step e s h :
  lifecycle (apply_event e s).2 h = lifecycle_spec s (payload e) h.
Proof.
  unfold apply_event, lifecycle_spec. rewrite !lifecycle_core.
  destruct (payload e) as [x|x|d|r|b|x|x|x|x|x|x|r|d|c|c|r]; try done; simpl.
  - unfold apply_decoded. fold (rslot s (dec_sender d) (dec_nonce d)).
    destruct (rslot s (dec_sender d) (dec_nonce d)) as [old|] eqn:Hs;
      [destruct (decide (old = dec_hash d)) as [->|Hne]|]; simpl;
      rewrite core_recompute, core_ensure; repeat case_decide; simplify_eq; try done; simpl;
      rewrite (core_alter_status _ (StReplaced (dec_hash d))) by done; case_decide; simplify_eq; try done.
    by rewrite snd_fmap_core.
  - unfold apply_ready; simpl. rewrite core_alter_queue_state, core_recompute, core_ensure.
    by case_decide.
  - unfold apply_blocked; simpl.
    destruct (blocked_expected_nonce b); simpl; rewrite ?core_alter_queue_state, core_recompute, core_ensure;
      by case_decide.
  - rewrite core_leave_queue; simpl.
    rewrite (core_alter_status _ (StReplaced (replaced_by r))) by done.
    case_decide; [by rewrite snd_fmap_core|done].
  - rewrite core_leave_queue; simpl. rewrite core_insert. by case_decide.
  - rewrite core_leave_queue; simpl. rewrite core_insert. by case_decide.
  - rewrite core_leave_queue; simpl. rewrite core_insert. by case_decide.
  - unfold apply_reorg. destruct (ms_txs s !! reorged_hash r) as [e0|] eqn:He; simpl.
    + destruct (confirmed_in _ _) eqn:Hc; simpl.
      * assert (core (ms_txs (match te_sender e0, te_nonce e0 with
            | Some sender, Some nonce =>
                recompute_sender_queue_states sender
                  (ensure_sender_queue_entry (reorged_hash r) sender nonce
                     (set_txs (alter (set_status StPending) (reorged_hash r) (ms_txs s)) s))
            | _, _ => set_txs (alter (set_status StPending) (reorged_hash r) (ms_txs s)) s
            end)) h = if decide (reorged_hash r = h) then Some (te_sender e0, te_nonce e0, StPending)
                      else core (ms_txs s) h) as ->.
        { destruct (te_sender e0) as [a|] eqn:Ha, (te_nonce e0) as [n|] eqn:Hn; simpl;
            rewrite ?core_recompute, ?core_ensure; simpl;
            rewrite (core_alter_status _ StPending) by done; case_decide; subst; try done;
            unfold core; rewrite He; simpl; congruence. }
        case_decide; [subst|done]. unfold core. rewrite He; simpl. by rewrite Hc.
      * case_decide; [subst|done]. unfold core. rewrite He; simpl. by rewrite Hc.
    + case_decide; [subst|done]. unfold core. by rewrite He.
Qed.
