(* ===== verification/ReplayQueues.v ===== *)
(** * ReplayQueues: the sender queues that replay reconstructs

    Under logs in which a hash always names the same sender and nonce (a
    transaction hash commits to both), every queue slot of the replayed state
    holds a pending transaction of that sender and nonce, and after a decoded
    event the queue reads as the live scheduler classifies it. *)
From stdpp Require Import base gmap strings list numbers sorting.
From S2P Require Import Prelude Common EventLog Scheduler SchedulerQueue SchedulerInvariant SchedulerViews ReplayMempool ReplayLifecycle.

Definition pendb (txs : gmap TxHash TxEntry) (h : TxHash) : bool :=
  match txs !! h with Some e => is_pending (te_status e) | None => false end.

Lemma pendb_core txs h :
  pendb txs h = match core txs h with Some (_, st) => is_pending st | None => false end.
Proof. unfold pendb, core. by destruct (txs !! h). Qed.

Lemma pendb_ext txs txs' h : core txs' h = core txs h -> pendb txs' h = pendb txs h.
Proof. intros E. by rewrite !pendb_core, E. Qed.

Definition to_replay (st : SchedulerQueueState) : ReplayQueueState :=
  match st with Ready => RReady | Blocked n => RBlocked n end.
Definition to_entry (pos : SenderQueuePosition) : ReplaySenderQueueEntry :=
  {| rqe_hash := pos_hash pos; rqe_nonce := pos_nonce pos; rqe_state := to_replay (pos_state pos) |}.

Lemma replay_entry_state_eq next gap n :
  replay_entry_state next gap n =
    let '(st, next', gap') := queue_entry_state next gap n in (to_replay st, next', gap').
Proof.
  unfold replay_entry_state, queue_entry_state. destruct next; [|done]. by destruct (_ && _).
Qed.

(** ** The loop of [recompute_sender_queue_states] *)
Definition live_part (txs : gmap TxHash TxEntry) (l : list (N * TxHash)) : list (N * TxHash) :=
  filter (fun nh => pendb txs nh.2 = true) l.

Lemma recompute_loop_eq txs next gap l :
  recompute_loop txs next gap l =
    ((filter (fun nh => pendb txs nh.2 <> true) l).*1,
     zip (live_part txs l).*2 (to_replay <$> states_loop next gap (live_part txs l).*1)).
Proof.
  revert next gap. induction l as [|[n h] l IH]; intros next gap; [done|].
  unfold live_part in *. rewrite !filter_cons; simpl. unfold pendb in *.
  destruct (txs !! h) as [e|] eqn:He; simpl; [|by rewrite IH].
  destruct (is_pending (te_status e)); simpl; [|by rewrite IH].
  rewrite replay_entry_state_eq.
  destruct (queue_entry_state next gap n) as [[st next'] gap']; simpl. by rewrite IH.
Qed.

Lemma foldl_delete_lookup (l : list N) (q : gmap N TxHash) n :
  foldl (fun q k => delete k q) q l !! n = if decide (n ∈ l) then None else q !! n.
Proof.
  revert q. induction l as [|k l IH]; intros q; cbn [foldl].
  - rewrite decide_False; [done|]. apply not_elem_of_nil.
  - rewrite IH. destruct (decide (n ∈ l)) as [Hin|Hin].
    + by rewrite decide_True by (by right).
    + destruct (decide (n = k)) as [->|Hne].
      * rewrite decide_True by (by left). apply lookup_delete_eq.
      * rewrite decide_False by (by rewrite not_elem_of_cons). by apply lookup_delete_ne.
Qed.

Lemma delete_stale txs (q : gmap N TxHash) :
  foldl (fun q k => delete k q) q (filter (fun nh => pendb txs nh.2 <> true) (bt_iter q)).*1
    = filter (fun nh => pendb txs nh.2 = true) q.
Proof.
  apply map_eq. intros n. rewrite foldl_delete_lookup.
  destruct (q !! n) as [h|] eqn:Hn.
  - destruct (pendb txs h) eqn:Hp.
    + rewrite decide_False.
      * symmetry. apply map_lookup_filter_Some. done.
      * intros ([n' h'] & -> & Hin)%list_elem_of_fmap.
        apply list_elem_of_filter in Hin as [Hnp Hin%elem_of_bt_iter]. simpl in *. congruence.
    + rewrite decide_True.
      * symmetry. apply map_lookup_filter_None. right. simpl. congruence.
      * apply list_elem_of_fmap. exists (n, h). split; [done|].
        apply list_elem_of_filter. rewrite elem_of_bt_iter. simpl. by rewrite Hp.
  - replace (filter (fun nh => pendb txs nh.2 = true) q !! n) with (@None TxHash).
    + by case_decide.
    + symmetry. apply map_lookup_filter_None. by left.
Qed.

Lemma bt_iter_live txs (q : gmap N TxHash) :
  bt_iter (filter (fun nh => pendb txs nh.2 = true) q) = live_part txs (bt_iter q).
Proof.
  apply bt_iter_unique.
  - unfold live_part. pose proof (bt_iter_sorted q) as Hs. revert Hs.
    generalize (bt_iter q). intros l. induction 1 as [|x l Hs IH Hall]; [constructor|].
    rewrite filter_cons. case_decide; [|done]. constructor; [done|].
    apply Forall_forall. intros y [_ Hy]%list_elem_of_filter. by eapply Forall_forall in Hall.
  - intros n h. unfold live_part. rewrite list_elem_of_filter, elem_of_bt_iter, map_lookup_filter_Some.
    simpl. tauto.
Qed.

Definition live_queue (txs : gmap TxHash TxEntry) (q : gmap N TxHash) : gmap N TxHash :=
  filter (fun nh => pendb txs nh.2 = true) q.

(** ** What a recomputation does *)
Lemma recompute_queues a s :
  ms_sender_queues (recompute_sender_queue_states a s) =
    match ms_sender_queues s !! a with
    | None => ms_sender_queues s
    | Some q =>
        if decide (live_queue (ms_txs s) q = ∅) then delete a (ms_sender_queues s)
        else <[a := live_queue (ms_txs s) q]> (ms_sender_queues s)
    end.
Proof.
  unfold recompute_sender_queue_states. destruct (ms_sender_queues s !! a) as [q|]; [|done].
  rewrite recompute_loop_eq; simpl.
  rewrite delete_stale.
  assert (forall txs', (forall h, core txs' h = core (ms_txs s) h) ->
            filter (fun nh => pendb txs' nh.2 = true) q = live_queue (ms_txs s) q) as ->.
  { intros txs' Hc. unfold live_queue. apply map_filter_ext. intros n h _; simpl.
    by rewrite (pendb_ext (ms_txs s) txs') by apply Hc. }
  - done.
  - intros h. apply core_clear_all.
Qed.

Lemma rslot_recompute a s b n :
  rslot (recompute_sender_queue_states a s) b n =
    if decide (b = a)
    then rslot s b n ≫= fun h => if pendb (ms_txs s) h then Some h else None
    else rslot s b n.
Proof.
  unfold rslot. rewrite recompute_queues.
  destruct (ms_sender_queues s !! a) as [q|] eqn:Hq; simpl.
  - destruct (decide (b = a)) as [->|Hne].
    + rewrite Hq; simpl.
      assert (live_queue (ms_txs s) q !! n = q !! n ≫= fun h => if pendb (ms_txs s) h then Some h else None)
        as Hl.
      { unfold live_queue. rewrite map_lookup_filter. destruct (q !! n) as [h|]; simpl; [|done].
        unfold guard. destruct (pendb (ms_txs s) h); simpl; by repeat case_decide. }
      rewrite <-Hl. case_decide as He.
      * rewrite lookup_delete_eq; simpl. by rewrite He, lookup_empty.
      * by rewrite lookup_insert_eq.
    + case_decide; [by rewrite lookup_delete_ne by congruence|by rewrite lookup_insert_ne by congruence].
  - case_decide; [subst; by rewrite Hq|done].
Qed.

Lemma clear_all_other (l : list (N * TxHash)) (txs : gmap TxHash TxEntry) h :
  h ∉ l.*2 ->
  foldl (fun txs '(_, hash) => alter (set_queue_state None) hash txs) txs l !! h = txs !! h.
Proof.
  revert txs. induction l as [|[n k] l IH]; intros txs; csimpl; [done|].
  rewrite not_elem_of_cons. intros [Hne Hin]. rewrite IH by done. by rewrite lookup_alter_ne.
Qed.

Lemma write_all_other (l : list (TxHash * ReplayQueueState)) (txs : gmap TxHash TxEntry) h :
  h ∉ l.*1 ->
  foldl (fun txs '(hash, state) => alter (set_queue_state (Some state)) hash txs) txs l !! h
    = txs !! h.
Proof.
  revert txs. induction l as [|[k q] l IH]; intros txs; csimpl; [done|].
  rewrite not_elem_of_cons. intros [Hne Hin]. rewrite IH by done. by rewrite lookup_alter_ne.
Qed.

Lemma write_all_in (l : list (TxHash * ReplayQueueState)) (txs : gmap TxHash TxEntry) h st :
  NoDup l.*1 -> (h, st) ∈ l ->
  foldl (fun txs '(hash, state) => alter (set_queue_state (Some state)) hash txs) txs l !! h
    = set_queue_state (Some st) <$> txs !! h.
Proof.
  revert txs. induction l as [|[k q] l IH]; intros txs; csimpl; [by intros _ ?%not_elem_of_nil|].
  intros [Hk Hnd]%NoDup_cons [[= -> ->]|Hin]%elem_of_cons.
  - rewrite write_all_other by done. apply lookup_alter_eq.
  - rewrite IH by done. rewrite lookup_alter_ne; [done|]. intros ->. apply Hk.
    apply list_elem_of_fmap. by exists (h, st).
Qed.

Lemma recompute_other a s h :
  (forall n, rslot s a n <> Some h) -> ms_txs (recompute_sender_queue_states a s) !! h = ms_txs s !! h.
Proof.
  intros Hno. unfold recompute_sender_queue_states, rslot in *.
  destruct (ms_sender_queues s !! a) as [q|] eqn:Hq; [|done]. simpl in Hno.
  rewrite recompute_loop_eq; simpl.
  assert (h ∉ (bt_iter q).*2) as Hh.
  { intros ([n k] & -> & Hin)%list_elem_of_fmap. apply elem_of_bt_iter in Hin. by apply (Hno n). }
  rewrite write_all_other, clear_all_other; [done|done|].
  intros Hin. apply Hh. apply list_elem_of_fmap in Hin as ([k st] & -> & Hin).
  apply elem_of_zip_l in Hin. apply list_elem_of_fmap in Hin as (nh & -> & Hin).
  apply list_elem_of_filter in Hin as [_ Hin]. simpl. by apply list_elem_of_fmap_2.
Qed.

(** The entries of sender [a] carry the scheduler's classification. *)
Definition annotated (s : MempoolState) (a : Address) : Prop :=
  forall q, ms_sender_queues s !! a = Some q ->
  forall pos, pos ∈ queue_positions q ->
  exists e, ms_txs s !! pos_hash pos = Some e /\ te_status e = StPending /\
            te_queue_state e = Some (to_replay (pos_state pos)).

Lemma zip_positions (l : list (N * TxHash)) (sts : list SchedulerQueueState) :
  zip l.*2 (to_replay <$> sts) =
    (fun pos => (pos_hash pos, to_replay (pos_state pos))) <$> zip_with mk_position l sts.
Proof.
  revert sts. induction l as [|[n h] l IH]; intros [|st sts]; csimpl; try done. by rewrite IH.
Qed.

Lemma queue_hashes_NoDup_2 (q : gmap N TxHash) :
  (forall n1 n2 h, q !! n1 = Some h -> q !! n2 = Some h -> n1 = n2) -> NoDup (bt_iter q).*2.
Proof.
  intros Hinj. apply NoDup_fmap_2_strong; [|rewrite bt_iter_perm; apply NoDup_map_to_list].
  intros [n1 h1] [n2 h2] H1%elem_of_bt_iter H2%elem_of_bt_iter; simpl. intros <-.
  by rewrite (Hinj n1 n2 h1).
Qed.

Lemma positions_hashes (q : gmap N TxHash) : pos_hash <$> queue_positions q = (bt_iter q).*2.
Proof.
  rewrite <-queue_positions_entries, <-list_fmap_compose. done.
Qed.

Lemma recompute_annotated a s :
  (forall n1 n2 h, rslot s a n1 = Some h -> rslot s a n2 = Some h -> n1 = n2) ->
  annotated (recompute_sender_queue_states a s) a.
Proof.
  intros Hinj q' Hq' pos Hpos. rewrite recompute_queues in Hq'. unfold rslot in Hinj.
  destruct (ms_sender_queues s !! a) as [q|] eqn:Hq; [|congruence].
  assert (q' = live_queue (ms_txs s) q) as ->.
  { case_decide; [by rewrite lookup_delete_eq in Hq'|]. rewrite lookup_insert_eq in Hq'. congruence. }
  clear Hq'. simpl in Hinj. set (q' := live_queue (ms_txs s) q) in *.
  assert (forall n h, q' !! n = Some h -> q !! n = Some h /\ pendb (ms_txs s) h = true) as Hl.
  { intros n h. unfold q', live_queue. by rewrite map_lookup_filter_Some. }
  unfold recompute_sender_queue_states. rewrite Hq, recompute_loop_eq; simpl.
  set (cleared := foldl _ (ms_txs s) (bt_iter q)).
  assert (forall h, core cleared h = core (ms_txs s) h) as Hc by (intros; apply core_clear_all).
  assert (live_part cleared (bt_iter q) = bt_iter q') as ->.
  { unfold q', live_queue. rewrite bt_iter_live. unfold live_part.
    apply list_filter_iff. intros [n h]; simpl. by rewrite (pendb_ext (ms_txs s) cleared). }
  rewrite zip_positions.
  change (zip_with mk_position (bt_iter q') (states_loop None false (bt_iter q').*1))
    with (queue_positions q').
  assert ((pos_nonce pos, pos_hash pos) ∈ bt_iter q') as Hin%elem_of_bt_iter.
  { rewrite <-queue_positions_entries. apply list_elem_of_fmap. eauto. }
  rewrite (write_all_in _ _ (pos_hash pos) (to_replay (pos_state pos))).
  - destruct (Hl _ _ Hin) as [_ Hp]. rewrite <-(pendb_ext _ _ _ (Hc (pos_hash pos))) in Hp.
    unfold pendb in Hp. destruct (cleared !! pos_hash pos) as [e|]; [|done]. simpl.
    eexists. split; [done|]. split; [|done]. simpl. by destruct (te_status e).
  - assert (((fun pos => (pos_hash pos, to_replay (pos_state pos))) <$> queue_positions q').*1
            = (bt_iter q').*2) as -> by (rewrite <-positions_hashes, <-list_fmap_compose; done).
    apply queue_hashes_NoDup_2. intros n1 n2 h [H1 _]%Hl [H2 _]%Hl. by eapply Hinj.
  - apply list_elem_of_fmap. eauto.
Qed.

Lemma annotated_ext s s' a :
  annotated s a -> ms_sender_queues s' !! a = ms_sender_queues s !! a ->
  (forall n h, rslot s a n = Some h -> ms_txs s' !! h = ms_txs s !! h) -> annotated s' a.
Proof.
  intros Ha Hq Ht q Hq' pos Hpos. rewrite Hq in Hq'. rewrite (Ht (pos_nonce pos)); [by eapply Ha|].
  unfold rslot. rewrite Hq'; simpl. apply elem_of_bt_iter. rewrite <-queue_positions_entries.
  apply list_elem_of_fmap. eauto.
Qed.

Lemma queue_view_loop_eq txs next gap l :
  (forall n h, (n, h) ∈ l -> exists e, txs !! h = Some e /\ te_status e = StPending) ->
  queue_view_loop txs next gap l =
    zip_with (fun nh st =>
        {| rqe_hash := nh.2; rqe_nonce := nh.1;
           rqe_state := default (to_replay st) (txs !! nh.2 ≫= te_queue_state) |})
      l (states_loop next gap l.*1).
Proof.
  revert next gap. induction l as [|[n h] l IH]; intros next gap Hl; csimpl; [done|].
  destruct (Hl n h) as (e & He & Hst); [by left|]. rewrite He, Hst; simpl.
  rewrite replay_entry_state_eq.
  destruct (queue_entry_state next gap n) as [[st next'] gap']; csimpl.
  f_equal. apply IH. intros; apply (Hl n0 h0). by right.
Qed.

(** The view of an annotated queue is the scheduler's. *)
Lemma annotated_view s a q :
  annotated s a -> ms_sender_queues s !! a = Some q ->
  queue_view_loop (ms_txs s) None false (bt_iter q) = to_entry <$> queue_positions q.
Proof.
  intros Ha Hq.
  assert (forall i n h, bt_iter q !! i = Some (n, h) -> exists e st, ms_txs s !! h = Some e /\
            te_status e = StPending /\ queue_states q !! i = Some st /\
            te_queue_state e = Some (to_replay st)) as Hi.
  { intros i n h Hi.
    assert (is_Some (queue_states q !! i)) as [st Hst].
    { apply lookup_lt_is_Some. rewrite length_queue_states, <-length_bt_iter.
      by eapply lookup_lt_Some. }
    destruct (Ha q Hq (mk_position (n, h) st)) as (e & He & Hs & Hqs).
    { apply elem_of_queue_positions. by exists i. }
    exists e, st. done. }
  rewrite queue_view_loop_eq.
  - unfold queue_positions. apply list_eq. intros i.
    rewrite list_lookup_fmap, !lookup_zip_with.
    change (states_loop None false (bt_iter q).*1) with (queue_states q).
    destruct (bt_iter q !! i) as [[n h]|] eqn:Hb; simpl; [|done].
    destruct (Hi i n h Hb) as (e & st & He & _ & Hst & Hqs). rewrite Hst; simpl.
    rewrite He; simpl. by rewrite Hqs.
  - intros n h [i Hb]%list_elem_of_lookup. destruct (Hi i n h Hb) as (e & st & He & Hs & _). eauto.
Qed.

(** ** Slots after each queue operation *)
Lemma rslot_ensure h a n s b m :
  rslot (ensure_sender_queue_entry h a n s) b m =
    if decide ((b, m) = (a, n)) then Some h else rslot s b m.
Proof.
  unfold rslot, ensure_sender_queue_entry; simpl. destruct (decide (b = a)) as [->|Hne].
  - rewrite lookup_insert_eq; simpl. case_decide as E; simplify_eq.
    + by rewrite lookup_insert_eq.
    + rewrite lookup_insert_ne by congruence. by destruct (ms_sender_queues s !! a).
  - rewrite lookup_insert_ne by done. rewrite decide_False by congruence. done.
Qed.

Lemma rslot_remove h a n s b m :
  rslot (remove_sender_queue_entry h a n s) b m =
    if decide ((b, m) = (a, n) /\ rslot s a n = Some h) then None else rslot s b m.
Proof.
  unfold remove_sender_queue_entry, rslot. destruct (ms_sender_queues s !! a) as [q|] eqn:Hq;
    simpl; [|case_decide as E; [by destruct E|done]].
  set (q' := if decide (q !! n = Some h) then delete n q else q).
  assert (q' !! m = if decide (m = n /\ q !! n = Some h) then None else q !! m) as Hm.
  { unfold q'. case_decide as E.
    - destruct (decide (m = n)) as [->|Hne].
      + rewrite decide_True by done. apply lookup_delete_eq.
      + rewrite decide_False by tauto. by apply lookup_delete_ne.
    - by rewrite decide_False by tauto. }
  destruct (decide (b = a)) as [->|Hne].
  - transitivity (q' !! m).
    + destruct (decide (q' = ∅)) as [E|E]; [|by rewrite lookup_insert_eq].
      rewrite lookup_delete_eq; simpl. by rewrite E, lookup_empty.
    + rewrite Hm, Hq; simpl. clear Hm q'.
      destruct (decide (m = n /\ q !! n = Some h)) as [[-> E]|E].
      * by rewrite decide_True.
      * rewrite decide_False; [done|]. intros [[= ->] ?]. by apply E.
  - rewrite (decide_False (P := (b, m) = (a, n) /\ _)) by (intros [[=] _]; congruence).
    destruct (decide (q' = ∅)); [by rewrite lookup_delete_ne by done|by rewrite lookup_insert_ne by done].
Qed.

Definition queues_nonempty (s : MempoolState) : Prop :=
  forall a q, ms_sender_queues s !! a = Some q -> q <> ∅.

Lemma recompute_nonempty a s : queues_nonempty s ->
  queues_nonempty (recompute_sender_queue_states a s).
Proof.
  intros Hn b q. rewrite recompute_queues. destruct (ms_sender_queues s !! a) as [q0|]; [|apply Hn].
  case_decide as E; [rewrite lookup_delete_Some|rewrite lookup_insert_Some];
    [intros [_ ?]|intros [[_ <-]|[_ ?]]]; by eauto.
Qed.

Lemma ensure_nonempty h a n s : queues_nonempty s ->
  queues_nonempty (ensure_sender_queue_entry h a n s).
Proof.
  intros Hn b q. simpl. rewrite lookup_insert_Some. intros [[_ <-]|[_ ?]]; [|by eauto].
  apply insert_non_empty.
Qed.

Lemma remove_nonempty h a n s : queues_nonempty s ->
  queues_nonempty (remove_sender_queue_entry h a n s).
Proof.
  intros Hn b q. unfold remove_sender_queue_entry.
  destruct (ms_sender_queues s !! a) as [q0|]; simpl; [|apply Hn].
  set (q' := if decide (q0 !! n = Some h) then delete n q0 else q0).
  case_decide as E; [rewrite lookup_delete_Some|rewrite lookup_insert_Some];
    [intros [_ ?]|intros [[_ <-]|[_ ?]]]; by eauto.
Qed.

Lemma recompute_confirmations a s :
  ms_block_confirmations (recompute_sender_queue_states a s) = ms_block_confirmations s.
Proof.
  unfold recompute_sender_queue_states. destruct (ms_sender_queues s !! a); [|done].
  by destruct (recompute_loop _ _ _ _).
Qed.

Lemma remove_confirmations h a n s :
  ms_block_confirmations (remove_sender_queue_entry h a n s) = ms_block_confirmations s.
Proof. unfold remove_sender_queue_entry. by destruct (ms_sender_queues s !! a). Qed.

Lemma leave_confirmations h slot s :
  ms_block_confirmations (leave_queue h slot s) = ms_block_confirmations s.
Proof.
  destruct slot as [[a|] [n|]]; simpl; [|done..].
  by rewrite recompute_confirmations, remove_confirmations.
Qed.

(** ** The invariant

    [slot_of h] is the sender and nonce the transaction with hash [h] signs. *)
Section coherent.
Context (slot_of : TxHash -> Address * N).

Definition coherent (p : EventPayload) : Prop :=
  match p with
  | PTxDecoded d => slot_of (dec_hash d) = (dec_sender d, dec_nonce d)
  | PTxReady r => slot_of (ready_hash r) = (ready_sender r, ready_nonce r)
  | PTxBlocked b => slot_of (blocked_hash b) = (blocked_sender b, blocked_nonce b)
  | _ => True
  end.

Record mempool_wf (s : MempoolState) : Prop := {
  mw_slot a n h : rslot s a n = Some h ->
    slot_of h = (a, n) /\ core (ms_txs s) h = Some (Some a, Some n, StPending);
  mw_entry h a n st : core (ms_txs s) h = Some (Some a, Some n, st) -> slot_of h = (a, n);
  mw_nonempty a q : ms_sender_queues s !! a = Some q -> q <> ∅;
  mw_confirmed h c st b : core (ms_txs s) h = Some (c, st) -> confirmed_in st b = true ->
    exists set, ms_block_confirmations s !! b = Some set /\ h ∈ set;
}.

Lemma mempool_wf_ext s s' :
  mempool_wf s -> (forall h, core (ms_txs s') h = core (ms_txs s) h) ->
  ms_sender_queues s' = ms_sender_queues s ->
  ms_block_confirmations s' = ms_block_confirmations s -> mempool_wf s'.
Proof using.
  intros [Hs He Hn Hc] Hcore Hq Hb. unfold rslot in *. split.
  - intros a n h. unfold rslot. rewrite Hq, Hcore. apply Hs.
  - intros h a n st. rewrite Hcore. apply He.
  - intros a q. rewrite Hq. apply Hn.
  - intros h c st b. rewrite Hcore, Hb. apply Hc.
Qed.

Lemma slot_inj s a n1 n2 h :
  mempool_wf s -> rslot s a n1 = Some h -> rslot s a n2 = Some h -> n1 = n2.
Proof using.
  intros Hwf H1 H2. destruct (mw_slot _ Hwf _ _ _ H1), (mw_slot _ Hwf _ _ _ H2). congruence.
Qed.

(** *** A transaction enters the slot [(a, n)] *)
Section enqueue.
Context (s : MempoolState) (txs1 : gmap TxHash TxEntry) (h : TxHash) (a : Address) (n : N).
Context (Hwf : mempool_wf s) (Hh : slot_of h = (a, n)).
Context (Hsame : forall k, k <> h -> rslot s a n <> Some k -> txs1 !! k = ms_txs s !! k).
Context (Hold : forall k, k <> h -> rslot s a n = Some k ->
           core txs1 k = core (ms_txs s) k \/
           exists r, core txs1 k = Some (Some a, Some n, StReplaced r)).

Definition enqueued : MempoolState :=
  recompute_sender_queue_states a (ensure_sender_queue_entry h a n (set_txs txs1 s)).

Lemma enqueued_core k :
  core (ms_txs enqueued) k = if decide (h = k) then Some (Some a, Some n, StPending) else core txs1 k.
Proof using. unfold enqueued. by rewrite core_recompute, core_ensure. Qed.

Lemma enqueued_slot b m :
  rslot enqueued b m = if decide ((b, m) = (a, n)) then Some h else rslot s b m.
Proof using All.
  unfold enqueued. rewrite rslot_recompute, !rslot_ensure.
  change (rslot (set_txs txs1 s) b m) with (rslot s b m).
  destruct (decide ((b, m) = (a, n))) as [[= -> ->]|Hne].
  - rewrite decide_True by done; simpl. unfold pendb. simpl. by rewrite lookup_insert_eq.
  - destruct (decide (b = a)) as [->|]; [|done].
    destruct (rslot s a m) as [k|] eqn:Hk; simpl; [|done].
    destruct (mw_slot _ Hwf _ _ _ Hk) as [Hf Hc].
    assert (k <> h) as Hkh by (intros ->; congruence).
    assert (rslot s a n <> Some k) as Hno.
    { intros E. apply Hne. f_equal. by eapply slot_inj. }
    unfold pendb; simpl. rewrite lookup_insert_ne by congruence. rewrite Hsame by done.
    unfold core in Hc. destruct (ms_txs s !! k) as [e|]; [|done].
    injection Hc as _ _ Hst. simpl. by rewrite Hst.
Qed.

Lemma enqueued_wf : mempool_wf enqueued.
Proof using All.
  pose proof enqueued_slot as Hs. pose proof enqueued_core as Hc.
  assert (forall k, k <> h -> core txs1 k = core (ms_txs s) k \/
            exists r, core txs1 k = Some (Some a, Some n, StReplaced r) /\ slot_of k = (a, n)) as Hcase.
  { intros k Hk. destruct (decide (rslot s a n = Some k)) as [E|E].
    - destruct (Hold k Hk E) as [|[r Hr]]; [auto|]. right. exists r. split; [done|].
      by destruct (mw_slot _ Hwf _ _ _ E).
    - left. unfold core. by rewrite Hsame. }
  split.
  - intros b m k. rewrite Hs, Hc. case_decide as E; [intros [= <-]; by rewrite decide_True; simplify_eq|].
    intros Hk. destruct (mw_slot _ Hwf _ _ _ Hk) as [Hf Hck]. split; [done|].
    rewrite decide_False by congruence.
    assert (k <> h) as Hkh by congruence. unfold core. rewrite Hsame; [done|done|].
    intros E'. destruct (mw_slot _ Hwf _ _ _ E'). congruence.
  - intros k b m st. rewrite Hc. case_decide as E; [intros; simplify_eq; done|].
    destruct (Hcase k) as [->|(r & -> & Hf)]; [congruence|apply Hwf|]. intros; by simplify_eq.
  - apply recompute_nonempty, ensure_nonempty. intros b q. apply (mw_nonempty _ Hwf).
  - intros k c st b. rewrite Hc. unfold enqueued. rewrite recompute_confirmations; simpl.
    case_decide as E; [intros; by simplify_eq|].
    destruct (Hcase k) as [->|(r & -> & _)]; [congruence|apply Hwf|]. intros; by simplify_eq.
Qed.

Lemma enqueued_annotated b : annotated s b \/ b = a -> annotated enqueued b.
Proof using All.
  intros Hb. destruct (decide (b = a)) as [->|Hne].
  - apply recompute_annotated. intros n1 n2 k. rewrite !rslot_ensure.
    intros H1 H2. destruct (mw_slot _ enqueued_wf a n1 k) as [E1 _].
    { rewrite enqueued_slot. exact H1. }
    destruct (mw_slot _ enqueued_wf a n2 k) as [E2 _]; [|congruence].
    rewrite enqueued_slot. exact H2.
  - destruct Hb as [Hb|]; [|done]. apply (annotated_ext s); [done| |].
    + unfold enqueued. rewrite recompute_queues; simpl. rewrite lookup_insert_eq.
      case_decide; [rewrite lookup_delete_ne by done|rewrite lookup_insert_ne by done];
        by rewrite lookup_insert_ne by done.
    + intros m k Hk. destruct (mw_slot _ Hwf _ _ _ Hk) as [Hf _].
      unfold enqueued. rewrite recompute_other; simpl.
      * rewrite lookup_insert_ne by congruence. apply Hsame; [congruence|].
        intros E. destruct (mw_slot _ Hwf _ _ _ E). congruence.
      * intros m'. rewrite rslot_ensure. case_decide; [congruence|].
        intros E. destruct (mw_slot _ Hwf _ _ _ E). congruence.
Qed.
End enqueue.

(** *** A transaction leaves the queues *)
Section leave.
Context (s : MempoolState) (txs1 : gmap TxHash TxEntry) (h : TxHash).
Context (Hwf : mempool_wf s).
Context (Hsame : forall k, k <> h -> txs1 !! k = ms_txs s !! k).
Context (Hret : forall c st, core txs1 h = Some (c, st) ->
           is_pending st = false /\ c = known_slot s h).

Definition left_state : MempoolState := leave_queue h (known_slot s h) (set_txs txs1 s).

Lemma known_slot_of a n : known_slot s h = (Some a, Some n) -> slot_of h = (a, n).
Proof using Hwf.
  unfold known_slot. destruct (ms_txs s !! h) as [e|] eqn:He; [|done]. intros [= Ha Hn].
  apply (mw_entry _ Hwf h a n (te_status e)). unfold core. rewrite He; simpl. by rewrite Ha, Hn.
Qed.

Lemma slot_known b m : rslot s b m = Some h -> known_slot s h = (Some b, Some m).
Proof using Hwf.
  intros Hk. destruct (mw_slot _ Hwf _ _ _ Hk) as [_ Hc]. unfold core in Hc. unfold known_slot.
  destruct (ms_txs s !! h); [|done]. simpl in Hc. congruence.
Qed.

Lemma pendb_other b m k : rslot s b m = Some k -> k <> h -> pendb txs1 k = true.
Proof using Hwf Hsame.
  intros Hk Hne. destruct (mw_slot _ Hwf _ _ _ Hk) as [_ Hc]. unfold pendb.
  rewrite Hsame by done. unfold core in Hc. destruct (ms_txs s !! k); [|done].
  injection Hc as _ _ ->. done.
Qed.

Lemma left_slot b m :
  rslot left_state b m = if decide (rslot s b m = Some h) then None else rslot s b m.
Proof using All.
  unfold left_state, leave_queue. destruct (known_slot s h) as [[a|] [n|]] eqn:Hk.
  2,3,4: rewrite decide_False; [done|]; intros E; apply slot_known in E; congruence.
  rewrite rslot_recompute, !rslot_remove, remove_txs; simpl.
  change (rslot (set_txs txs1 s) a n) with (rslot s a n).
  change (rslot (set_txs txs1 s) b m) with (rslot s b m).
  destruct (decide (rslot s b m = Some h)) as [E|E].
  - assert ((b, m) = (a, n)) as [= -> ->] by (apply slot_known in E; congruence).
    rewrite decide_True by done. rewrite decide_True by done. done.
  - rewrite (decide_False (P := (b, m) = (a, n) /\ _)) by (intros [[= -> ->] ?]; done).
    case_decide as Hb; [|done]. destruct (rslot s b m) as [k|] eqn:Hs; simpl; [|done].
    by rewrite (pendb_other b m k) by congruence.
Qed.

Lemma left_core k : core (ms_txs left_state) k = core txs1 k.
Proof using. unfold left_state. by rewrite core_leave_queue. Qed.

Lemma left_nonempty : queues_nonempty left_state.
Proof using All.
  unfold left_state, leave_queue. destruct (known_slot s h) as [[a|] [n|]];
    try apply recompute_nonempty, remove_nonempty; intros b q; apply (mw_nonempty _ Hwf).
Qed.

(** The confirmations recorded next keep those of the others. *)
Lemma left_wf confs :
  (forall b set k, ms_block_confirmations s !! b = Some set -> k ∈ set ->
     exists set', confs !! b = Some set' /\ k ∈ set') ->
  (forall c st b, core txs1 h = Some (c, st) -> confirmed_in st b = true ->
     exists set, confs !! b = Some set /\ h ∈ set) ->
  mempool_wf (set_confirmations confs left_state).
Proof using All.
  intros Hmore Hh. split.
  - intros b m k. change (rslot (set_confirmations confs left_state) b m) with (rslot left_state b m).
    rewrite left_slot. case_decide as E; [done|]. intros Hk.
    destruct (mw_slot _ Hwf _ _ _ Hk) as [Hf Hc]. split; [done|].
    simpl. rewrite left_core. unfold core. by rewrite Hsame by congruence.
  - intros k a n st. simpl. rewrite left_core. intros Hc.
    destruct (decide (k = h)) as [->|Hne].
    + destruct (Hret _ _ Hc) as [_ Hk]. by apply known_slot_of.
    + unfold core in Hc. rewrite Hsame in Hc by done. by apply (mw_entry _ Hwf k a n st).
  - apply left_nonempty.
  - intros k c st b. simpl. rewrite left_core. intros Hc Hb.
    destruct (decide (k = h)) as [->|Hne]; [by eapply Hh|].
    unfold core in Hc. rewrite Hsame in Hc by done.
    destruct (mw_confirmed _ Hwf k c st b Hc Hb) as (set & Hset & Hin). by eapply Hmore.
Qed.

Lemma left_annotated b : annotated s b -> annotated left_state b.
Proof using All.
  intros Hb. unfold left_state, leave_queue.
  assert (annotated (set_txs txs1 s) b \/ exists m, rslot s b m = Some h) as Hcase.
  { destruct (decide (rslot s b (default 0%N (known_slot s h).2) = Some h)) as [E|E]; [eauto|].
    left. apply (annotated_ext s); [done|done|]. intros m k Hk. apply Hsame. intros ->.
    apply E. by rewrite (slot_known b m Hk). }
  destruct (known_slot s h) as [[a|] [n|]] eqn:Hk.
  2,3,4: destruct Hcase as [?|[m E%slot_known]]; [done|congruence].
  destruct (decide (b = a)) as [->|Hne].
  - apply recompute_annotated. intros n1 n2 k. rewrite !rslot_remove.
    repeat case_decide; try done.
    change (rslot (set_txs txs1 s) a n1) with (rslot s a n1).
    change (rslot (set_txs txs1 s) a n2) with (rslot s a n2). by apply slot_inj.
  - destruct Hcase as [Hc|[m E%slot_known]]; [|congruence].
    apply (annotated_ext (set_txs txs1 s)); [done| |].
    + rewrite recompute_queues.
      destruct (ms_sender_queues (remove_sender_queue_entry h a n (set_txs txs1 s)) !! a) as [q|];
        [case_decide; [rewrite lookup_delete_ne by done|rewrite lookup_insert_ne by done]|];
        unfold remove_sender_queue_entry; simpl; destruct (ms_sender_queues s !! a); try done; simpl;
        case_decide; by rewrite ?lookup_delete_ne, ?lookup_insert_ne by done.
    + intros m k Hkk. rewrite recompute_other; [by rewrite remove_txs|].
      intros m'. rewrite rslot_remove. case_decide; [done|].
      change (rslot (set_txs txs1 s) a m') with (rslot s a m').
      change (rslot (set_txs txs1 s) b m) with (rslot s b m) in Hkk.
      intros E. destruct (mw_slot _ Hwf _ _ _ E), (mw_slot _ Hwf _ _ _ Hkk). congruence.
Qed.
End leave.

(** *** Events *)
Lemma set_txs_id s : set_txs (ms_txs s) s = s.
Proof using. by destruct s. Qed.
Lemma set_confirmations_id s : set_confirmations (ms_block_confirmations s) s = s.
Proof using. by destruct s. Qed.

(** Ready and blocked events overwrite the state of one entry. *)
Definition overrides (p : EventPayload) (a : Address) : bool :=
  match p with
  | PTxReady r => (ready_sender r =? a)%N
  | PTxBlocked b => (blocked_sender b =? a)%N
  | _ => false
  end.
Definition decodes (p : EventPayload) (a : Address) : Prop :=
  match p with PTxDecoded d => dec_sender d = a | _ => False end.

Definition event_ok (s : MempoolState) (p : EventPayload) (s' : MempoolState) : Prop :=
  mempool_wf s' /\
  forall a, (annotated s a /\ overrides p a = false) \/ decodes p a -> annotated s' a.

Lemma decoded_ok d s : mempool_wf s -> coherent (PTxDecoded d) ->
  event_ok s (PTxDecoded d) (apply_decoded d s).2.
Proof using.
  intros Hwf Hcoh. simpl in Hcoh. unfold apply_decoded.
  fold (rslot s (dec_sender d) (dec_nonce d)).
  assert (forall txs1,
    (forall k, k <> dec_hash d -> rslot s (dec_sender d) (dec_nonce d) <> Some k -> txs1 !! k = ms_txs s !! k) ->
    (forall k, k <> dec_hash d -> rslot s (dec_sender d) (dec_nonce d) = Some k ->
       core txs1 k = core (ms_txs s) k \/
       exists r, core txs1 k = Some (Some (dec_sender d), Some (dec_nonce d), StReplaced r)) ->
    event_ok s (PTxDecoded d) (enqueued s txs1 (dec_hash d) (dec_sender d) (dec_nonce d))) as Hgo.
  { intros txs1 H1 H2. split; [by apply enqueued_wf|]. intros a Ha.
    apply enqueued_annotated; try done. destruct Ha as [[? _]|Ha]; [by left|by right]. }
  destruct (rslot s (dec_sender d) (dec_nonce d)) as [old|] eqn:Hs;
    [destruct (decide (old = dec_hash d)) as [->|Hne]|]; simpl.
  - rewrite <-(set_txs_id s) at 2. apply Hgo; [done|by left].
  - apply Hgo.
    + intros k _ Hk. apply lookup_alter_ne. congruence.
    + intros k _ [= <-]. right. exists (dec_hash d).
      rewrite (core_alter_status _ (StReplaced (dec_hash d))), decide_True by done.
      by destruct (mw_slot _ Hwf _ _ _ Hs) as [_ ->].
  - rewrite <-(set_txs_id s) at 2. apply Hgo; [done|by left].
Qed.

(** Ready and blocked: the entry is queued, then its state may be overwritten. *)
Lemma override_ok p h a n (f : gmap TxHash TxEntry -> gmap TxHash TxEntry) s :
  mempool_wf s -> slot_of h = (a, n) -> overrides p a = true -> (forall b, ~ decodes p b) ->
  (forall b, overrides p b = true -> b = a) ->
  (forall txs k, core (f txs) k = core txs k) -> (forall txs k, k <> h -> f txs !! k = txs !! k) ->
  let s1 := recompute_sender_queue_states a (ensure_sender_queue_entry h a n s) in
  event_ok s p (set_txs (f (ms_txs s1)) s1).
Proof using.
  intros Hwf Hh Hov Hnd Hov' Hcore Hother s1.
  assert (s1 = enqueued s (ms_txs s) h a n) as -> by (unfold s1, enqueued; by rewrite set_txs_id).
  assert (mempool_wf (enqueued s (ms_txs s) h a n)) as Hwf1 by (apply enqueued_wf; auto).
  split.
  - apply (mempool_wf_ext (enqueued s (ms_txs s) h a n)); [done| |done|done]. intros k. apply Hcore.
  - intros b [[Hb Hnb]|Hd]; [|by destruct (Hnd b)].
    apply (annotated_ext (enqueued s (ms_txs s) h a n)); [|done|].
    + apply enqueued_annotated; auto.
    + intros m k Hk. simpl. apply Hother. intros ->.
      destruct (mw_slot _ Hwf1 _ _ _ Hk). assert (b = a) as -> by congruence. congruence.
Qed.

Lemma leave_ok p s txs1 h confs :
  mempool_wf s -> (forall k, k <> h -> txs1 !! k = ms_txs s !! k) ->
  (forall c st, core txs1 h = Some (c, st) -> is_pending st = false /\ c = known_slot s h) ->
  (forall b set k, ms_block_confirmations s !! b = Some set -> k ∈ set ->
     exists set', confs !! b = Some set' /\ k ∈ set') ->
  (forall c st b, core txs1 h = Some (c, st) -> confirmed_in st b = true ->
     exists set, confs !! b = Some set /\ h ∈ set) ->
  (forall b, ~ decodes p b) ->
  event_ok s p (set_confirmations confs (leave_queue h (known_slot s h) (set_txs txs1 s))).
Proof using.
  intros Hwf H1 H2 H3 H4 Hnd. split; [by apply (left_wf s txs1 h)|].
  intros b [[Hb _]|Hd]; [|by destruct (Hnd b)].
  apply (annotated_ext (left_state s txs1 h)); [|done|done]. by apply left_annotated.
Qed.

Lemma core_known s h c st : core (ms_txs s) h = Some (c, st) -> c = known_slot s h.
Proof using. unfold core, known_slot. destruct (ms_txs s !! h); [|done]. by intros [= <- _]. Qed.

Lemma retire_known s h st e :
  ms_txs s !! h = Some e \/ (ms_txs s !! h = None /\ te_sender e = None /\ te_nonce e = None) ->
  forall c st', core (<[h := retire st e]> (ms_txs s)) h = Some (c, st') ->
  st' = st /\ c = known_slot s h.
Proof using.
  intros He c st'. rewrite core_insert, decide_True by done. simpl. intros [= <- <-].
  split; [done|]. unfold known_slot. by destruct He as [->|(-> & -> & ->)].
Qed.

Lemma dropped_known d s c st :
  let old := default (mkTxEntry None None (StDropped (dropped_reason d)) None) (ms_txs s !! dropped_hash d) in
  core (<[dropped_hash d := retire (StDropped (dropped_reason d)) old]> (ms_txs s)) (dropped_hash d) = Some (c, st) ->
  st = StDropped (dropped_reason d) /\ c = known_slot s (dropped_hash d).
Proof using. apply retire_known. destruct (ms_txs s !! dropped_hash d); auto. Qed.

Lemma replaced_known r s c st :
  core (alter (retire (StReplaced (replaced_by r))) (replaced_hash r) (ms_txs s)) (replaced_hash r) = Some (c, st) ->
  st = StReplaced (replaced_by r) /\ c = known_slot s (replaced_hash r).
Proof using.
  rewrite (core_alter_status _ (StReplaced (replaced_by r))), decide_True by done.
  destruct (core (ms_txs s) (replaced_hash r)) as [[c0 st0]|] eqn:Hc; simpl; [|done].
  intros [= <- <-]. split; [done|]. by eapply core_known.
Qed.

Lemma dropped_ok d s : mempool_wf s -> event_ok s (PTxDropped d) (apply_dropped d s).2.
Proof using.
  intros Hwf. unfold apply_dropped; cbn [snd].
  set (old := default _ _). set (txs1 := <[_ := _]> _).
  assert (forall c st, core txs1 (dropped_hash d) = Some (c, st) ->
            st = StDropped (dropped_reason d) /\ c = known_slot s (dropped_hash d)) as Hk by apply dropped_known.
  rewrite <-(set_confirmations_id (leave_queue _ _ _)).
  rewrite leave_confirmations. apply leave_ok; try done; simpl.
  - intros k Hne. by apply lookup_insert_ne.
  - intros c st Hc. by destruct (Hk c st Hc) as [-> ->].
  - eauto.
  - intros c st b Hc. by destruct (Hk c st Hc) as [-> _].
  - auto.
Qed.

Lemma replaced_ok r s : mempool_wf s -> event_ok s (PTxReplaced r) (apply_replaced r s).2.
Proof using.
  intros Hwf. unfold apply_replaced; cbn [snd]. set (txs1 := alter _ _ _).
  assert (forall c st, core txs1 (replaced_hash r) = Some (c, st) ->
            st = StReplaced (replaced_by r) /\ c = known_slot s (replaced_hash r)) as Hk by apply replaced_known.
  rewrite <-(set_confirmations_id (leave_queue _ _ _)).
  rewrite leave_confirmations. apply leave_ok; try done; simpl.
  - intros k Hne. by apply lookup_alter_ne.
  - intros c st Hc. by destruct (Hk c st Hc) as [-> ->].
  - eauto.
  - intros c st b Hc. by destruct (Hk c st Hc) as [-> _].
  - auto.
Qed.

Lemma confirmed_ok p c st tr s :
  mempool_wf s -> is_pending st = false ->
  (forall b, confirmed_in st b = true -> b = confirmed_block_hash c) ->
  (forall b, ~ decodes p b) -> event_ok s p (apply_confirmed c st tr s).2.
Proof using.
  intros Hwf Hnp Hst Hnd. unfold apply_confirmed; cbn [snd].
  rewrite leave_confirmations.
  set (old := default _ (ms_txs s !! confirmed_hash c)).
  set (txs1 := <[confirmed_hash c := retire st old]> (ms_txs s)).
  assert (forall c0 st0, core txs1 (confirmed_hash c) = Some (c0, st0) ->
            st0 = st /\ c0 = known_slot s (confirmed_hash c)) as Hk.
  { apply retire_known. unfold old. destruct (ms_txs s !! confirmed_hash c); auto. }
  apply leave_ok; try done; simpl.
  - intros k Hne. by apply lookup_insert_ne.
  - intros c0 st0 Hc. by destruct (Hk c0 st0 Hc) as [-> ->].
  - intros b set k Hb Hin. destruct (decide (b = confirmed_block_hash c)) as [->|Hne].
    + rewrite lookup_insert_eq, Hb; simpl. eexists. split; [done|]. set_solver.
    + rewrite lookup_insert_ne by done. eauto.
  - intros c0 st0 b Hc Hb. destruct (Hk c0 st0 Hc) as [-> _]. rewrite (Hst b Hb), lookup_insert_eq.
    eexists. split; [done|]. set_solver.
Qed.

Lemma reorg_ok r s : mempool_wf s -> event_ok s (PTxReorged r) (apply_reorg r s).2.
Proof using.
  intros Hwf. set (h := reorged_hash r).
  assert (event_ok s (PTxReorged r) s) as Hsame.
  { split; [done|]. intros a [[? _]|[]]. done. }
  unfold apply_reorg. fold h. destruct (ms_txs s !! h) as [e|] eqn:He; [|done].
  destruct (confirmed_in _ _) eqn:Hconf; [|done]. cbn [snd].
  set (txs1 := alter (set_status StPending) h (ms_txs s)).
  assert (forall k, k <> h -> txs1 !! k = ms_txs s !! k) as H1 by (intros; by apply lookup_alter_ne).
  assert (core txs1 h = Some (te_sender e, te_nonce e, StPending)) as Hch.
  { unfold txs1. rewrite (core_alter_status _ StPending), decide_True by done.
    unfold core. by rewrite He. }
  assert (forall b m, rslot s b m <> Some h) as Hno.
  { intros b m Hs. destruct (mw_slot _ Hwf _ _ _ Hs) as [_ Hc]. unfold core in Hc.
    rewrite He in Hc. simpl in Hc. injection Hc as _ _ Hst. by rewrite Hst in Hconf. }
  (* shrinking the confirmations of the reopened hash *)
  assert (forall s', mempool_wf s' -> (exists c, core (ms_txs s') h = Some (c, StPending)) ->
            mempool_wf (set_confirmations
              (alter (fun set => set ∖ {[h]}) (reorged_old_block_hash r) (ms_block_confirmations s')) s'))
    as Hshrink.
  { intros s' [Hs' He' Hn' Hc'] [c0 Hp]. split; [exact Hs'|exact He'|exact Hn'|].
    intros k c st b Hc Hb. simpl in *. destruct (Hc' k c st b Hc Hb) as (set & Hset & Hin).
    assert (k <> h) by (intros ->; by simplify_eq).
    destruct (decide (reorged_old_block_hash r = b)) as [<-|Hne].
    - rewrite lookup_alter_eq, Hset; simpl. eexists. split; [done|].
      apply elem_of_difference. by rewrite elem_of_singleton.
    - rewrite lookup_alter_ne by done. eauto. }
  destruct (te_sender e) as [a|] eqn:Ha, (te_nonce e) as [n|] eqn:Hn.
  { assert (slot_of h = (a, n)) as Hf.
    { apply (mw_entry _ Hwf h a n (te_status e)). unfold core. by rewrite He; simpl; rewrite Ha, Hn. }
    fold (enqueued s txs1 h a n).
    assert (mempool_wf (enqueued s txs1 h a n)) as Hwf'.
    { apply enqueued_wf; try done; intros k Hk; [by intros _; apply H1|]. left.
      unfold core. by rewrite H1. }
    split.
    - apply Hshrink; [done|]. rewrite enqueued_core, decide_True by done. eauto.
    - intros b [[Hb _]|[]]. apply (annotated_ext (enqueued s txs1 h a n)); [|done|done].
      apply enqueued_annotated; try done; [intros; by apply H1| |by left].
      intros k Hk _. left. unfold core. by rewrite H1. }
  all: split; [apply Hshrink; [|eauto]|
    intros b [[Hb _]|[]]; apply (annotated_ext s); [done|done|];
    intros m k Hk; simpl; apply H1; intros ->; by apply (Hno b m)].
  all: destruct Hwf as [Hs' He' Hn' Hc']; split; [|simpl|exact Hn'|simpl].
  all: try (intros b m k Hk; destruct (Hs' b m k Hk) as [Hf Hck]; split; [done|];
            simpl; unfold core; rewrite H1; [done|by intros ->; apply (Hno b m)]).
  all: try (intros k b m st Hck; destruct (decide (k = h)) as [->|Hne];
            [congruence|unfold core in Hck; rewrite H1 in Hck by done; by apply (He' k b m st)]).
  all: intros k c st b Hck Hb; destruct (decide (k = h)) as [->|Hne];
       [by rewrite Hch in Hck; simplify_eq|unfold core in Hck; rewrite H1 in Hck by done;
        by apply (Hc' k c st b)].
Qed.

Lemma event_step e s : mempool_wf s -> coherent (payload e) ->
  event_ok s (payload e) (apply_event e s).2.
Proof using.
  intros Hwf Hcoh. unfold apply_event.
  destruct (payload e) as [x|x|d|r|b|x|x|x|x|x|x|r|d|c|c|r].
  all: try (split; [done|]; intros a [[? _]|[]]; done).
  - by apply decoded_ok.
  - apply (override_ok (PTxReady r) (ready_hash r) (ready_sender r) (ready_nonce r)
             (fun txs => alter (set_queue_state (Some RReady)) (ready_hash r) txs)); simpl; auto.
    + apply N.eqb_refl.
    + intros b. by rewrite N.eqb_eq.
    + intros. apply core_alter_queue_state.
    + intros. by apply lookup_alter_ne.
  - unfold apply_blocked; cbn [snd].
    destruct (blocked_expected_nonce b) as [n|].
    + apply (override_ok (PTxBlocked b) (blocked_hash b) (blocked_sender b) (blocked_nonce b)
               (fun txs => alter (set_queue_state (Some (RBlocked n))) (blocked_hash b) txs)); simpl; auto.
      * apply N.eqb_refl.
      * intros c. by rewrite N.eqb_eq.
      * intros. apply core_alter_queue_state.
      * intros. by apply lookup_alter_ne.
    + rewrite <-(set_txs_id (recompute_sender_queue_states _ _)).
      apply (override_ok (PTxBlocked b) (blocked_hash b) (blocked_sender b) (blocked_nonce b) id);
        simpl; auto.
      * apply N.eqb_refl.
      * intros c. by rewrite N.eqb_eq.
  - by apply replaced_ok.
  - by apply dropped_ok.
  - apply confirmed_ok; auto. simpl. intros b. rewrite N.eqb_eq. auto.
  - apply confirmed_ok; auto. simpl. intros b. rewrite N.eqb_eq. auto.
  - by apply reorg_ok.
Qed.

Lemma mempool_wf_default : mempool_wf mempool_default.
Proof using.
  split.
  - intros a n h. unfold rslot; simpl. by rewrite lookup_empty.
  - intros h a n st. unfold core; simpl. by rewrite lookup_empty.
  - intros a q. simpl. by rewrite lookup_empty.
  - intros h c st b. unfold core; simpl. by rewrite lookup_empty.
Qed.

Lemma apply_all_wf events s :
  mempool_wf s -> Forall (fun e => coherent (payload e)) events -> mempool_wf (apply_all events s).
Proof using.
  intros Hwf Hall. revert s Hwf. induction Hall as [|e l He Hl IH]; intros s Hwf; simpl; [done|].
  apply IH. by apply event_step.
Qed.

Lemma apply_all_annotated events s a :
  mempool_wf s -> annotated s a -> Forall (fun e => coherent (payload e)) events ->
  Forall (fun e => overrides (payload e) a = false) events -> annotated (apply_all events s) a.
Proof using.
  intros Hwf Ha Hall. revert s Hwf Ha.
  induction Hall as [|e l He Hl IH]; intros s Hwf Ha Ho; simpl; [done|].
  apply Forall_cons in Ho as [Ho Hol].
  destruct (event_step e s Hwf He) as [Hwf' Hann]. apply IH; auto.
Qed.
End coherent.

(** Replayed queues are sound.  After any log whose events agree on the
    sender and nonce of each hash, every queue slot (a, n) holds a transaction
    that is pending, was sent by [a] and has nonce [n]; a hash occupies one
    slot at most; no queue is empty; and every transaction reported as
    confirmed in a block is recorded in that block's confirmation set. *)
Theorem replay_queues_wf slot_of events
  (Hcoh : Forall (fun e => coherent slot_of (payload e)) events) :
  let s := apply_all events mempool_default in
  (forall a n h, rslot s a n = Some h ->
     exists e, ms_txs s !! h = Some e /\ te_status e = StPending /\
               te_sender e = Some a /\ te_nonce e = Some n) /\
  (forall a1 n1 a2 n2 h, rslot s a1 n1 = Some h -> rslot s a2 n2 = Some h -> a1 = a2 /\ n1 = n2) /\
  (forall a q, ms_sender_queues s !! a = Some q -> q <> ∅) /\
  (forall h st b, lifecycle s h = Some st -> confirmed_in st b = true ->
     exists set, ms_block_confirmations s !! b = Some set /\ h ∈ set).
Proof.
  cbn zeta. pose proof (apply_all_wf slot_of events _ (mempool_wf_default slot_of) Hcoh) as Hwf.
  revert Hwf. generalize (apply_all events mempool_default). intros s Hwf. repeat split.
  - intros a n h Hs. destruct (mw_slot _ _ Hwf _ _ _ Hs) as [_ Hc]. unfold core in Hc.
    destruct (ms_txs s !! h) as [e|]; [|done]. injection Hc as ? ? ?. eauto 6.
  - destruct (mw_slot _ _ Hwf _ _ _ H), (mw_slot _ _ Hwf _ _ _ H0). congruence.
  - destruct (mw_slot _ _ Hwf _ _ _ H), (mw_slot _ _ Hwf _ _ _ H0). congruence.
  - apply (mw_nonempty _ _ Hwf).
  - intros h st b Hl Hb. rewrite lifecycle_core in Hl.
    destruct (core (ms_txs s) h) as [[c st']|] eqn:Hc; [|done]. injection Hl as ->.
    by apply (mw_confirmed _ _ Hwf h c st b).
Qed.

(** C17: replay and the live scheduler classify alike, for logs in which a hash
    always comes with the same sender and nonce. Once a transaction of a sender
    has been decoded, and while no ready or blocked event about that sender
    follows, the queue that replay reports for the sender is Ready on the run
    of consecutive nonces and Blocked on the first missing nonce afterwards;
    and any scheduler with consistent queues that holds the same nonces and
    hashes for the sender reports exactly the same entries. (That the two hold
    the same nonces and hashes is the subject of the live log, [EndToEnd].) *)
Theorem replay_matches_scheduler slot_of before d_event d after q
  (Hcoh : Forall (fun e => coherent slot_of (payload e)) (before ++ d_event :: after))
  (Hd : payload d_event = PTxDecoded d)
  (Hafter : Forall (fun e => overrides (payload e) (dec_sender d) = false) after)
  (Hq : ms_sender_queues (apply_all (before ++ d_event :: after) mempool_default)
          !! dec_sender d = Some q) :
  let reported := queue_view_loop (ms_txs (apply_all (before ++ d_event :: after) mempool_default))
    None false (bt_iter q) in
  reported = to_entry <$> queue_positions q /\
  forall s, queues_wf (pending s) (sender_queues s) -> sender_queues s !! dec_sender d = Some q ->
    reported = to_entry <$> sender_queue_positions s (dec_sender d).
Proof.
  cbv zeta. enough (queue_view_loop (ms_txs (apply_all (before ++ d_event :: after) mempool_default))
    None false (bt_iter q) = to_entry <$> queue_positions q) as E.
  { split; [exact E|]. intros s Hs Hsq. rewrite sender_queue_positions_eq, Hsq by done. exact E. }
  apply (annotated_view _ (dec_sender d)); [|done]. clear Hq.
  apply Forall_app in Hcoh as [Hb Hda]. apply Forall_cons in Hda as [Hde Ha].
  unfold apply_all. rewrite foldl_app; simpl.
  pose proof (apply_all_wf slot_of before _ (mempool_wf_default slot_of) Hb) as Hwf.
  destruct (event_step slot_of d_event _ Hwf Hde) as [Hwf' Hann].
  apply (apply_all_annotated slot_of after); [done| |done|done].
  apply Hann. right. by rewrite Hd.
Qed.

(** A log of three transactions of two senders: one is blocked, confirmed and
    reorganised. *)
Definition sample_slot_of (h : TxHash) : Address * N :=
  if (h =? 1)%N then (5, 7)%N else if (h =? 2)%N then (5, 9)%N else (6, 0)%N.
Definition sample_log : list EventEnvelope :=
  [sample_event 1 (PTxDecoded (sample_decoded 1 5 7));
   sample_event 2 (PTxDecoded (sample_decoded 2 5 9));
   sample_event 3 (PTxDecoded (sample_decoded 3 6 0));
   sample_event 4 (PTxConfirmedProvisional
     {| confirmed_hash := 3; confirmed_block_number := 10; confirmed_block_hash := 77 |});
   sample_event 5 (PTxReorged
     {| reorged_hash := 3; reorged_old_block_hash := 77; reorged_new_block_hash := 78 |})]%N.

Lemma sample_log_coherent : Forall (fun e => coherent sample_slot_of (payload e)) sample_log.
Proof. repeat constructor. Qed.

Lemma replay_queues_wf_witness :
  rslot (apply_all sample_log mempool_default) 5 9 = Some 2%N /\
  exists e, ms_txs (apply_all sample_log mempool_default) !! 2%N = Some e /\ te_status e = StPending /\
            te_sender e = Some 5%N /\ te_nonce e = Some 9%N.
Proof.
  split; [vm_compute; reflexivity|].
  apply (proj1 (replay_queues_wf sample_slot_of sample_log sample_log_coherent)).
  vm_compute. reflexivity.
Defined.

Lemma replay_matches_scheduler_witness :
  let q := default ∅ (ms_sender_queues (apply_all sample_log mempool_default) !! 5%N) in
  to_entry <$> queue_positions q =
    [{| rqe_hash := 1; rqe_nonce := 7; rqe_state := RReady |};
     {| rqe_hash := 2; rqe_nonce := 9; rqe_state := RBlocked 8 |}]%N /\
  queue_view_loop (ms_txs (apply_all sample_log mempool_default)) None false (bt_iter q) =
    to_entry <$> sender_queue_positions gap_state 5.
Proof.
  split; [vm_compute; reflexivity|].
  apply (replay_matches_scheduler sample_slot_of
           [sample_event 1 (PTxDecoded (sample_decoded 1 5 7))]
           (sample_event 2 (PTxDecoded (sample_decoded 2 5 9))) (sample_decoded 2 5 9)
           (drop 2 sample_log)).
  - apply sample_log_coherent.
  - reflexivity.
  - repeat constructor.
  - vm_compute. reflexivity.
  - apply gap_state_wf.
  - vm_compute. reflexivity.
Defined.
