(* ===== verification/Replay.v ===== *)
(** * Replay: frames, checkpoints and their hashes (crates/replay/src/lib.rs)

    Derives frames and checkpoints from an event log by running the mempool of
    [ReplayMempool] over the log in canonical order.  SHA-256 is a parameter;
    what the code feeds to it is modelled byte by byte. *)
From stdpp Require Import base gmap strings list numbers sorting.
From S2P Require Import Prelude Common EventLog ReplayMempool.

Inductive ReplayMode := DeterministicEventReplay | SnapshotReplay.

Record ReplayFrame := mkFrame {
  frame_seq_hi : N;
  frame_timestamp_unix_ms : Z;
  frame_pending : list TxHash;
  frame_sender_queues : list ReplaySenderQueue;
}.

Record LifecycleCheckpoint := mkCheckpoint {
  cp_seq_id : N;
  cp_pending_hashes : list TxHash;
  cp_sender_queues : list ReplaySenderQueue;
}.

Record CheckpointHash := mkCheckpointHash {
  ch_seq_id : N;
  ch_pending_count : N;
  ch_checkpoint_hash : list N;
}.

Record ReplayDiffSummary := mkDiff {
  from_seq_id : N;
  to_seq_id : N;
  from_pending_count : N;
  to_pending_count : N;
  from_checkpoint_hash : list N;
  to_checkpoint_hash : list N;
  added_pending : list TxHash;
  removed_pending : list TxHash;
}.

Inductive ReplayError :=
  | CheckpointMismatch (seq : N) (expected actual : list N)
  | OtherError.

(** [v.sort_unstable()] on hashes: equal hashes are indistinguishable. *)
Definition sort_hashes (l : list TxHash) : list TxHash := sort_by N.compare l.

Section replay.
Context `{HashIter}.

(** The frame literal the three loops push. *)
Definition frame_at (state : MempoolState) (event : EventEnvelope) : ReplayFrame :=
  {| frame_seq_hi := seq_id event;
     frame_timestamp_unix_ms := ingest_ts_unix_ms event;
     frame_pending := sort_hashes (pending_hashes state);
     frame_sender_queues := sender_queues_view state |}.

(** [for (idx, event) in sorted.iter().enumerate()], from [idx]; [len] is
    [sorted.len()]. *)
Fixpoint deterministic_loop (stride len idx : N) (state : MempoolState)
    (events : list EventEnvelope) : list ReplayFrame :=
  match events with
  | [] => []
  | event :: events' =>
      let state' := (apply_event event state).2 in
      let should_emit := ((idx + 1) mod stride =? 0)%N || (idx + 1 =? len)%N in
      (if should_emit then [frame_at state' event] else []) ++
        deterministic_loop stride len (idx + 1) state' events'
  end.

Definition replay_deterministic (events : list EventEnvelope) (stride : N) : list ReplayFrame :=
  let sorted := sort_deterministic events in
  deterministic_loop stride (usize_of (length sorted)) 0 mempool_default sorted.

(** [usize::is_multiple_of] *)
Definition is_multiple_of (n k : N) : bool :=
  if (k =? 0)%N then (n =? 0)%N else (n mod k =? 0)%N.

Fixpoint snapshot_loop (stride len count : N) (state : MempoolState)
    (events : list EventEnvelope) : list ReplayFrame :=
  match events with
  | [] => []
  | event :: events' =>
      let count := (count + 1)%N in
      let state' := (apply_event event state).2 in
      (if is_multiple_of count stride || (count =? len)%N
       then [frame_at state' event] else []) ++
        snapshot_loop stride len count state' events'
  end.

Definition replay_snapshot (events : list EventEnvelope) (stride : N) : list ReplayFrame :=
  let sorted := sort_deterministic events in
  snapshot_loop stride (usize_of (length sorted)) 0 mempool_default sorted.

Definition replay_frames (events : list EventEnvelope) (mode : ReplayMode) (stride : N) :
    list ReplayFrame :=
  match mode with
  | DeterministicEventReplay => replay_deterministic events (N.max stride 1)
  | SnapshotReplay => replay_snapshot events (N.max stride 1)
  end.

(** ** Checkpoints *)
Fixpoint checkpoints_loop (checkpoints : gset N) (state : MempoolState)
    (events : list EventEnvelope) : list LifecycleCheckpoint :=
  match events with
  | [] => []
  | event :: events' =>
      let state' := (apply_event event state).2 in
      (if decide (seq_id event ∈ checkpoints) then
         [{| cp_seq_id := seq_id event;
             cp_pending_hashes := sort_hashes (pending_hashes state');
             cp_sender_queues := sender_queues_view state' |}]
       else []) ++ checkpoints_loop checkpoints state' events'
  end.

Definition lifecycle_checkpoints (events : list EventEnvelope) (checkpoint_seq_ids : list N) :
    list LifecycleCheckpoint :=
  checkpoints_loop (list_to_set checkpoint_seq_ids) mempool_default (sort_deterministic events).

Definition lifecycle_snapshot (events : list EventEnvelope) (checkpoint_seq_id : N) :
    option LifecycleCheckpoint :=
  head (lifecycle_checkpoints events [checkpoint_seq_id]).

Definition replay_from_checkpoint (events : list EventEnvelope)
    (checkpoint : LifecycleCheckpoint) (stride : N) : list ReplayFrame :=
  let sorted_tail :=
    filter (fun event => (cp_seq_id checkpoint < seq_id event)%N) (sort_deterministic events) in
  let state :=
    match cp_sender_queues checkpoint with
    | [] => from_pending_hashes (cp_pending_hashes checkpoint)
    | queues => from_checkpoint (cp_pending_hashes checkpoint) queues
    end in
  deterministic_loop (N.max stride 1) (usize_of (length sorted_tail)) 0 state sorted_tail.

(** ** Parity *)
Definition pending_by_seq (frames : list ReplayFrame) : gmap N (list TxHash) :=
  foldl (fun m frame => <[frame_seq_hi frame := frame_pending frame]> m) ∅ frames.

Definition lifecycle_parity (events : list EventEnvelope) (checkpoint_seq_ids : list N) :
    gmap N bool :=
  let expected := lifecycle_checkpoints events checkpoint_seq_ids in
  let deterministic_by_seq :=
    pending_by_seq (replay_frames events DeterministicEventReplay 1) in
  foldl (fun m checkpoint =>
      <[cp_seq_id checkpoint :=
          bool_decide (default [] (deterministic_by_seq !! cp_seq_id checkpoint)
                       = cp_pending_hashes checkpoint)]> m)
    ∅ expected.

Definition current_lifecycle (events : list EventEnvelope) (hash : TxHash) :
    option TxLifecycleStatus :=
  lifecycle (apply_all (sort_deterministic events) mempool_default) hash.
End replay.

(** ** Checkpoint hashes: the bytes fed to the digest *)
Definition queue_state_bytes (st : ReplayQueueState) : list N :=
  match st with
  | RReady => [0%N]
  | RBlocked expected_nonce => 1%N :: le_bytes 8 expected_nonce
  end.
Definition queue_entry_bytes (e : ReplaySenderQueueEntry) : list N :=
  hash_bytes (rqe_hash e) ++ le_bytes 8 (rqe_nonce e) ++ queue_state_bytes (rqe_state e).
Definition sender_queue_bytes (q : ReplaySenderQueue) : list N :=
  address_bytes (rq_sender q) ++ le_bytes 8 (usize_of (length (rq_queued q))) ++
    (rq_queued q ≫= queue_entry_bytes).
(** [hash_sender_queues] *)
Definition sender_queues_bytes (queues : list ReplaySenderQueue) : list N :=
  le_bytes 8 (usize_of (length queues)) ++ (queues ≫= sender_queue_bytes).

Definition checkpoint_bytes (checkpoint : LifecycleCheckpoint) : list N :=
  let pending_hashes := sort_hashes (cp_pending_hashes checkpoint) in
  le_bytes 8 (cp_seq_id checkpoint) ++ le_bytes 8 (usize_of (length pending_hashes)) ++
    (pending_hashes ≫= hash_bytes) ++ sender_queues_bytes (cp_sender_queues checkpoint).

Definition frame_bytes (frame : ReplayFrame) : list N :=
  le_bytes 8 (frame_seq_hi frame) ++ le_bytes_i64 (frame_timestamp_unix_ms frame) ++
    le_bytes 8 (usize_of (length (frame_pending frame))) ++
    (frame_pending frame ≫= hash_bytes) ++ sender_queues_bytes (frame_sender_queues frame).

Section hashes.
Context `{HashIter} (sha256 : list N -> list N).

Definition lifecycle_checkpoint_hash (checkpoint : LifecycleCheckpoint) : list N :=
  sha256 (checkpoint_bytes checkpoint).

Definition frame_checkpoint_hash (frame : ReplayFrame) : list N := sha256 (frame_bytes frame).

Definition verify_lifecycle_checkpoint_hash (checkpoint : LifecycleCheckpoint)
    (expected : list N) : list N + ReplayError :=
  let actual := lifecycle_checkpoint_hash checkpoint in
  if decide (actual = expected) then inl actual
  else inr (CheckpointMismatch (cp_seq_id checkpoint) expected actual).

Definition deterministic_checkpoint_hashes (events : list EventEnvelope) (stride : N) :
    list CheckpointHash :=
  (fun frame =>
     {| ch_seq_id := frame_seq_hi frame;
        ch_pending_count := usize_of (length (frame_pending frame));
        ch_checkpoint_hash := frame_checkpoint_hash frame |})
  <$> replay_frames events DeterministicEventReplay (N.max stride 1).

(** [checkpoint_hash_parity_percent], up to its last step: the numerator and
    the denominator it divides as [f64], or the constant it returns. *)
Definition checkpoint_parity (reference_events candidate_events : list EventEnvelope)
    (stride : N) : (N * N) + N :=
  let reference := deterministic_checkpoint_hashes reference_events (N.max stride 1) in
  let candidate := deterministic_checkpoint_hashes candidate_events (N.max stride 1) in
  match reference with
  | [] => inr (match candidate with [] => 100%N | _ => 0%N end)
  | _ =>
      let candidate_by_seq : gmap N (list N) :=
        foldl (fun m c => <[ch_seq_id c := ch_checkpoint_hash c]> m) ∅ candidate in
      inl (usize_of (length (filter (fun c =>
             candidate_by_seq !! ch_seq_id c = Some (ch_checkpoint_hash c)) reference)),
           usize_of (length reference))
  end.

Definition replay_diff_summary (events : list EventEnvelope) (from to : N) :
    option ReplayDiffSummary :=
  let '(from, to) := if (from <=? to)%N then (from, to) else (to, from) in
  match lifecycle_snapshot events from with
  | None => None
  | Some from_checkpoint =>
      match lifecycle_snapshot events to with
      | None => None
      | Some to_checkpoint =>
          let from_set : gset TxHash := list_to_set (cp_pending_hashes from_checkpoint) in
          let to_set : gset TxHash := list_to_set (cp_pending_hashes to_checkpoint) in
          Some {| from_seq_id := from; to_seq_id := to;
                  from_pending_count := usize_of (length (cp_pending_hashes from_checkpoint));
                  to_pending_count := usize_of (length (cp_pending_hashes to_checkpoint));
                  from_checkpoint_hash := lifecycle_checkpoint_hash from_checkpoint;
                  to_checkpoint_hash := lifecycle_checkpoint_hash to_checkpoint;
                  added_pending := sort_hashes (elements (to_set ∖ from_set));
                  removed_pending := sort_hashes (elements (from_set ∖ to_set)) |}
      end
  end.
End hashes.
