(* ===== verification/ReplayProps.v ===== *)
(** * ReplayProps: determinism of replay and its checkpoints

    Which frames are emitted, independence of the input order and of the hash
    map iteration order, parity of checkpoints and frames, diffs, and the
    unambiguous encoding behind checkpoint hashes. *)
From stdpp Require Import base gmap strings list numbers sorting.
From S2P Require Import Prelude Common EventLog ReplayMempool ReplayLifecycle ReplayQueues Replay.

(** ** The pending list does not depend on the hash map *)
Lemma pending_hashes_perm (I1 I2 : HashIter) s :
  pending_hashes (H := I1) s ≡ₚ pending_hashes (H := I2) s.
Proof.
  unfold pending_hashes. rewrite (@hash_iter_perm I1), (@hash_iter_perm I2). done.
Qed.

Lemma sort_hashes_perm l1 l2 : l1 ≡ₚ l2 -> sort_hashes l1 = sort_hashes l2.
Proof.
  intros Hp. apply (sort_by_Permutation N.compare); [|done].
  intros x y _ _. apply N.compare_eq_iff.
Qed.

Lemma frame_at_iter (I1 I2 : HashIter) s e :
  frame_at (H := I1) s e = frame_at (H := I2) s e.
Proof. unfold frame_at. f_equal. apply sort_hashes_perm, pending_hashes_perm. Qed.

Section frames.
Context `{HashIter}.

Lemma elem_of_pending_hashes s h : h ∈ pending_hashes s <-> lifecycle s h = Some StPending.
Proof.
  unfold pending_hashes, lifecycle. rewrite list_elem_of_omap. split.
  - intros ([k e] & Hin & Hs). rewrite hash_iter_perm, elem_of_map_to_list in Hin.
    destruct (te_status e) eqn:He; simplify_eq/=. by rewrite Hin; simpl; rewrite He.
  - destruct (ms_txs s !! h) as [e|] eqn:He; [|done]. intros [= Hs].
    exists (h, e). rewrite hash_iter_perm, elem_of_map_to_list, Hs. done.
Qed.

Lemma pending_hashes_NoDup s : NoDup (pending_hashes s).
Proof.
  unfold pending_hashes. rewrite hash_iter_perm.
  pose proof (NoDup_fst_map_to_list (ms_txs s)) as Hnd. revert Hnd.
  generalize (map_to_list (ms_txs s)). intros l.
  assert (omap (fun '(hash, e) => if is_pending (te_status e) then Some hash else None) l
            `sublist_of` l.*1) as Hsub.
  { induction l as [|[h e] l IH]; csimpl; [done|].
    destruct (is_pending (te_status e)); csimpl; by constructor. }
  intros Hnd. eapply sublist_NoDup; [exact Hnd|exact Hsub].
Qed.

(** ** The emitted frames *)
Definition frame_after (state : MempoolState) (events : list EventEnvelope) (i : nat) :
    option ReplayFrame :=
  frame_at (apply_all (take i events) state) <$> events !! pred i.

Definition emits (stride len : N) (i : nat) : Prop :=
  (usize_of i mod stride = 0 \/ usize_of i = len)%N.

#[export] Instance emits_dec stride len i : Decision (emits stride len i).
Proof. unfold emits. apply _. Defined.

Lemma emits_bool stride len i :
  (usize_of i mod stride =? 0)%N || (usize_of i =? len)%N = bool_decide (emits stride len i).
Proof.
  apply eq_true_iff_eq. rewrite orb_true_iff, !N.eqb_eq, bool_decide_eq_true. done.
Qed.

Lemma deterministic_loop_spec stride len idx state events :
  deterministic_loop stride len (usize_of idx) state events =
    omap (fun i => frame_after state events i)
      (filter (fun i => emits stride len (idx + i)) (seq 1 (length events))).
Proof.
  revert idx state. induction events as [|e l IH]; intros idx state; [done|].
  cbn [deterministic_loop length seq].
  replace (usize_of idx + 1)%N with (usize_of (S idx)) by (int_lia).
  rewrite IH, emits_bool, filter_cons. rewrite <-(fmap_S_seq 1 (length l)), filter_fmap.
  replace (filter (fun i => emits stride len (idx + S i)) (seq 1 (length l)))
    with (filter (fun i => emits stride len (S idx + i)) (seq 1 (length l)))
    by (apply list_filter_iff; intros i; by replace (idx + S i) with (S idx + i) by lia).
  assert (forall il, Forall (fun i => 0 < i) il ->
            omap (fun i => frame_after (apply_event e state).2 l i) il =
            omap (fun i => frame_after state (e :: l) i) (S <$> il)) as Hshift.
  { induction 1 as [|i il Hi Hil IHil]; csimpl; [done|]. rewrite IHil.
    destruct i as [|i]; [lia|]. done. }
  rewrite Hshift.
  - assert (bool_decide (emits stride len (S idx)) = bool_decide (emits stride len (idx + 1))) as ->
      by (by rewrite Nat.add_1_r).
    destruct (decide (emits stride len (idx + 1))) as [Hd|Hd].
    + rewrite bool_decide_true by done. reflexivity.
    + rewrite bool_decide_false by done. reflexivity.
  - apply Forall_forall. intros i [_ Hi]%list_elem_of_filter. apply elem_of_seq in Hi. lia.
Qed.

Lemma snapshot_loop_eq stride len count state events :
  (0 < stride)%N ->
  snapshot_loop stride len count state events = deterministic_loop stride len count state events.
Proof.
  intros Hs. revert count state. induction events as [|e l IH]; intros count state; simpl; [done|].
  unfold is_multiple_of. destruct (N.eqb_spec stride 0); [lia|]. by rewrite IH.
Qed.

(** The frames of a replay.  In both modes frame [i] of the canonical
    order is emitted exactly when [i] is a multiple of the stride (at least
    1) or the last event, in order, and it shows the pending hashes and the
    sender queues after the first [i] events. *)
Theorem replay_frames_exact events mode stride :
  let sorted := sort_deterministic events in
  replay_frames events mode stride =
    omap (fun i => frame_after mempool_default sorted i)
      (filter (fun i => emits (N.max stride 1) (usize_of (length sorted)) i)
         (seq 1 (length sorted))).
Proof.
  cbn zeta. destruct mode; cbn [replay_frames].
  - apply (deterministic_loop_spec _ _ 0).
  - unfold replay_snapshot. rewrite snapshot_loop_eq by lia. apply (deterministic_loop_spec _ _ 0).
Qed.
End frames.

(** ** Determinism *)
Lemma deterministic_loop_iter (I1 I2 : HashIter) stride len idx s l :
  deterministic_loop (H := I1) stride len idx s l = deterministic_loop (H := I2) stride len idx s l.
Proof.
  revert idx s. induction l as [|e l IH]; intros idx s; simpl; [done|].
  by rewrite IH, (frame_at_iter I1 I2).
Qed.

(** Replay is deterministic.  Two logs with the same events give the same
    frames, whatever order they are stored in, whatever the replay mode is and
    however the hash maps of the two runs iterate, provided the canonical key
    (sequence id, source, hash) tells the events apart. *)
Theorem replay_deterministic_result (I1 I2 : HashIter) events1 events2 mode1 mode2 stride
  (Hperm : events1 ≡ₚ events2)
  (Hkeys : forall a b, a ∈ events1 -> b ∈ events1 -> order_key a = order_key b -> a = b) :
  replay_frames (H := I1) events1 mode1 stride = replay_frames (H := I2) events2 mode2 stride.
Proof.
  assert (sort_deterministic events1 = sort_deterministic events2) as E.
  { apply (sort_by_Permutation cmp_deterministic); [|done].
    intros x y Hx Hy Hxy. apply Hkeys; [done..|]. by apply cmp_deterministic_eq. }
  assert (forall (I : HashIter) l m, replay_frames (H := I) l m stride =
            deterministic_loop (H := I) (N.max stride 1)
              (usize_of (length (sort_deterministic l))) 0 mempool_default (sort_deterministic l)) as Hm.
  { intros I l []; [done|]. unfold replay_frames, replay_snapshot.
    by rewrite snapshot_loop_eq by lia. }
  rewrite !Hm, E. apply deterministic_loop_iter.
Qed.

(** ** Parity of checkpoints and frames *)
Section parity.
Context `{HashIter}.

Definition frame_checkpoint (f : ReplayFrame) : LifecycleCheckpoint :=
  {| cp_seq_id := frame_seq_hi f; cp_pending_hashes := frame_pending f;
     cp_sender_queues := frame_sender_queues f |}.

(** Checkpoints are the frames of stride 1 at the requested ids. *)
Lemma checkpoints_frames ids len idx s l :
  checkpoints_loop ids s l =
    frame_checkpoint <$> filter (fun f => frame_seq_hi f ∈ ids) (deterministic_loop 1 len idx s l).
Proof.
  revert idx s. induction l as [|e l IH]; intros idx s; [done|].
  cbn [checkpoints_loop deterministic_loop]. rewrite N.mod_1_r. cbn [N.eqb orb].
  rewrite filter_app, fmap_app, <-IH. f_equal.
  destruct (decide (seq_id e ∈ ids)).
  - by rewrite filter_cons_True.
  - by rewrite filter_cons_False.
Qed.

Lemma last_fmap_filter id (ids : gset N) (fs : list ReplayFrame) :
  id ∈ ids ->
  last (filter (fun c => cp_seq_id c = id)
          (frame_checkpoint <$> filter (fun f => frame_seq_hi f ∈ ids) fs))
    = frame_checkpoint <$> last (filter (fun f => frame_seq_hi f = id) fs).
Proof.
  intros Hid. rewrite filter_fmap, fmap_last. f_equal. f_equal.
  rewrite list_filter_filter. apply list_filter_iff. intros f. simpl. split; [tauto|]. by intros ->.
Qed.

(** Checkpoints agree with frames.  The parity map has an entry for
    exactly the requested ids that occur in the log, and every entry is
    [true]: the pending hashes of the checkpoint are those of the
    deterministic frame at the same id. *)
Theorem lifecycle_parity_true events ids id :
  lifecycle_parity events ids !! id =
    if decide (id ∈ ids /\ id ∈ (seq_id <$> events)) then Some true else None.
Proof.
  unfold lifecycle_parity, lifecycle_checkpoints.
  set (fs := replay_frames events DeterministicEventReplay 1).
  set (want := list_to_set ids : gset N).
  rewrite (checkpoints_frames want (usize_of (length (sort_deterministic events))) 0).
  change (deterministic_loop 1 _ 0 mempool_default (sort_deterministic events)) with fs.
  rewrite foldl_insert_last.
  assert (frame_seq_hi <$> fs = seq_id <$> sort_deterministic events) as Hseq.
  { unfold fs, replay_frames, replay_deterministic. change (N.max 1 1) with 1%N.
    generalize (usize_of (length (sort_deterministic events))), 0%N, mempool_default.
    intros len. induction (sort_deterministic events) as [|e l IH]; intros idx s; [done|].
    cbn [deterministic_loop]. rewrite N.mod_1_r; csimpl. by rewrite IH. }
  assert (id ∈ (seq_id <$> events) <-> is_Some (last (filter (fun f => frame_seq_hi f = id) fs))) as Hin.
  { rewrite last_is_Some.
    assert ((seq_id <$> events) ≡ₚ (frame_seq_hi <$> fs)) as ->.
    { rewrite Hseq. apply fmap_Permutation. symmetry. apply sort_by_perm. }
    rewrite list_elem_of_fmap. split.
    - intros (f & -> & Hf) Hnil.
      assert (f ∈ filter (fun g => frame_seq_hi g = frame_seq_hi f) fs) as Hff
        by (by apply list_elem_of_filter). rewrite Hnil in Hff. by apply not_elem_of_nil in Hff.
    - destruct (filter _ fs) as [|f l] eqn:Hf; [done|]. intros _.
      assert (f ∈ filter (fun f => frame_seq_hi f = id) fs) as [<- Hff]%list_elem_of_filter
        by (rewrite Hf; by left). eauto. }
  destruct (decide (id ∈ ids)) as [Hid|Hid].
  - rewrite last_fmap_filter by (by apply elem_of_list_to_set).
    destruct (last (filter (fun f => frame_seq_hi f = id) fs)) as [f|] eqn:Hf; simpl.
    + rewrite decide_True by (split; [done|]; apply Hin; eauto). f_equal.
      apply bool_decide_true. unfold pending_by_seq. rewrite foldl_insert_last.
      apply last_Some_elem_of in Hf as Hff. apply list_elem_of_filter in Hff as [<- _].
      by rewrite Hf.
    + rewrite decide_False; [by rewrite lookup_empty|]. intros [_ Hi].
      apply Hin in Hi. by destruct Hi.
  - rewrite (decide_False (P := id ∈ ids /\ _)) by tauto.
    assert (filter (fun c => cp_seq_id c = id)
          (frame_checkpoint <$> filter (fun f => frame_seq_hi f ∈ want) fs) = []) as ->; [|done].
    rewrite filter_fmap, list_filter_filter.
    assert (forall l, filter (fun f => cp_seq_id (frame_checkpoint f) = id /\ frame_seq_hi f ∈ want) l = []) as ->;
      [|done].
    intros l. induction l as [|f l IH]; [done|]. rewrite filter_cons_False; [done|].
    simpl. intros [<- Hw]. apply elem_of_list_to_set in Hw. done.
Qed.
End parity.

(** ** Diffs *)
Section diff.
Context `{HashIter} (sha256 : list N -> list N).

Lemma checkpoints_pending ids s l c :
  c ∈ checkpoints_loop ids s l -> exists s', cp_pending_hashes c = sort_hashes (pending_hashes s').
Proof.
  revert s. induction l as [|e l IH]; intros s; simpl; [by intros ?%not_elem_of_nil|].
  intros [Hc|Hc]%elem_of_app; [|by eapply IH].
  case_decide; [|by apply not_elem_of_nil in Hc].
  apply list_elem_of_singleton in Hc as ->. eauto.
Qed.

Lemma snapshot_NoDup events id c :
  lifecycle_snapshot events id = Some c -> NoDup (cp_pending_hashes c).
Proof.
  unfold lifecycle_snapshot. intros Hc%head_Some_elem_of.
  apply checkpoints_pending in Hc as [s ->]. unfold sort_hashes.
  rewrite sort_by_perm. apply pending_hashes_NoDup.
Qed.

Lemma sort_elements_sorted (X : gset TxHash) :
  StronglySorted (cmp_lt N.compare) (sort_hashes (elements X)).
Proof.
  apply (sorted_le_lt N.compare).
  - unfold sort_hashes. rewrite sort_by_perm. apply NoDup_elements.
  - intros x y _ _. apply N.compare_eq_iff.
  - apply (sort_by_sorted N.compare).
Qed.

(** A diff is exact.  The summary between two checkpoints is oriented
    from the lower id, its added and removed lists are the set differences of
    the two pending lists, strictly sorted, they account for the change of
    the pending count, and swapping the arguments changes nothing. *)
Theorem replay_diff_exact events a b d
  (Hd : replay_diff_summary sha256 events a b = Some d) :
  replay_diff_summary sha256 events b a = Some d /\
  exists cf ct, lifecycle_snapshot events (N.min a b) = Some cf /\
    lifecycle_snapshot events (N.max a b) = Some ct /\
    (forall h, h ∈ added_pending d <-> h ∈ cp_pending_hashes ct /\ (h ∉ cp_pending_hashes cf)) /\
    (forall h, h ∈ removed_pending d <-> h ∈ cp_pending_hashes cf /\ (h ∉ cp_pending_hashes ct)) /\
    StronglySorted (cmp_lt N.compare) (added_pending d) /\
    StronglySorted (cmp_lt N.compare) (removed_pending d) /\
    (to_pending_count d + usize_of (length (removed_pending d)) =
     from_pending_count d + usize_of (length (added_pending d)))%N.
Proof.
  assert (forall x y, replay_diff_summary sha256 events x y =
            replay_diff_summary sha256 events (N.min x y) (N.max x y)) as Hcanon.
  { intros x y. unfold replay_diff_summary.
    replace (N.min x y <=? N.max x y)%N with true by (symmetry; apply N.leb_le; lia).
    destruct (N.leb_spec x y).
    - by rewrite N.min_l, N.max_r by lia.
    - by rewrite N.min_r, N.max_l by lia. }
  split; [by rewrite Hcanon, N.min_comm, N.max_comm, <-Hcanon|].
  rewrite Hcanon in Hd. unfold replay_diff_summary in Hd.
  replace (N.min a b <=? N.max a b)%N with true in Hd by (symmetry; apply N.leb_le; lia).
  destruct (lifecycle_snapshot events (N.min a b)) as [cf|] eqn:Hf; [|done].
  destruct (lifecycle_snapshot events (N.max a b)) as [ct|] eqn:Ht; [|done].
  injection Hd as <-; simpl. exists cf, ct. split; [done|]. split; [done|].
  split; [intros h; unfold sort_hashes; rewrite elem_of_sort_by; set_solver|].
  split; [intros h; unfold sort_hashes; rewrite elem_of_sort_by; set_solver|].
  split; [apply sort_elements_sorted|]. split; [apply sort_elements_sorted|].
  pose proof (snapshot_NoDup _ _ _ Hf) as Hnf. pose proof (snapshot_NoDup _ _ _ Ht) as Hnt.
  unfold sort_hashes. rewrite !length_sort_by.
  set (F := list_to_set (cp_pending_hashes cf) : gset TxHash).
  set (T := list_to_set (cp_pending_hashes ct) : gset TxHash).
  change (length (elements (F ∖ T))) with (size (F ∖ T)).
  change (length (elements (T ∖ F))) with (size (T ∖ F)).
  rewrite <-(size_list_to_set (C := gset TxHash) (cp_pending_hashes cf)) by done.
  rewrite <-(size_list_to_set (C := gset TxHash) (cp_pending_hashes ct)) by done.
  fold F T. pose proof (size_union_alt F T) as H1. pose proof (size_union_alt T F) as H2.
  rewrite (union_comm_L T F) in H2. int_lia.
Qed.
End diff.

(** ** Checkpoint hashes *)
Definition queue_entry_ok (e : ReplaySenderQueueEntry) : Prop :=
  hash_ok (rqe_hash e) /\ u64_ok (rqe_nonce e) /\
  match rqe_state e with RReady => True | RBlocked n => u64_ok n end.
Definition sender_queue_ok (q : ReplaySenderQueue) : Prop :=
  address_ok (rq_sender q) /\ u64_ok (usize_of (length (rq_queued q))) /\
  Forall queue_entry_ok (rq_queued q).
(** A checkpoint whose fields fit the machine types of the source. *)
Definition checkpoint_ok (c : LifecycleCheckpoint) : Prop :=
  u64_ok (cp_seq_id c) /\ u64_ok (usize_of (length (cp_pending_hashes c))) /\
  Forall hash_ok (cp_pending_hashes c) /\
  u64_ok (usize_of (length (cp_sender_queues c))) /\ Forall sender_queue_ok (cp_sender_queues c).

Lemma prefix_free_entry : prefix_free queue_entry_ok queue_entry_bytes.
Proof.
  intros [h1 n1 s1] [h2 n2 s2] r1 r2 (Hh1 & Hn1 & Hs1) (Hh2 & Hn2 & Hs2). unfold queue_entry_bytes; cbn [rqe_hash rqe_nonce rqe_state] in *.
  rewrite <-!(assoc_L (++)). intros E.
  apply prefix_free_hash in E as [-> E]; [|done..].
  apply prefix_free_le in E as [-> E]; [|done..].
  destruct s1 as [|m1], s2 as [|m2]; cbn [queue_state_bytes app] in E; [|done|done|].
  - by injection E as ->.
  - apply (f_equal tail) in E; cbn [tail] in E. by apply (prefix_free_le m1 m2) in E as [-> ->].
Qed.

Lemma prefix_free_queue : prefix_free sender_queue_ok sender_queue_bytes.
Proof.
  intros [a1 l1] [a2 l2] r1 r2 (Ha1 & Hl1) (Ha2 & Hl2). unfold sender_queue_bytes; cbn [rq_sender rq_queued] in *.
  rewrite <-!(assoc_L (++)). intros E.
  apply prefix_free_address in E as [-> E]; [|done..]. rewrite !(assoc_L (++)) in E.
  by apply (prefix_free_list _ _ prefix_free_entry) in E as [-> ->].
Qed.

(** The bytes behind a checkpoint hash determine the checkpoint: two
    checkpoints within the machine bounds that feed the same bytes to SHA-256
    have the same sequence id, the same pending hashes up to order and the
    same sender queues, so only a collision of SHA-256 itself can make
    different checkpoints agree. *)
Theorem checkpoint_bytes_injective c1 c2 (Hok1 : checkpoint_ok c1) (Hok2 : checkpoint_ok c2)
  (Heq : checkpoint_bytes c1 = checkpoint_bytes c2) :
  cp_seq_id c1 = cp_seq_id c2 /\ cp_pending_hashes c1 ≡ₚ cp_pending_hashes c2 /\
  cp_sender_queues c1 = cp_sender_queues c2.
Proof.
  destruct Hok1 as (Hs1 & Hn1 & Hp1 & Hm1 & Hq1), Hok2 as (Hs2 & Hn2 & Hp2 & Hm2 & Hq2).
  unfold checkpoint_bytes, sender_queues_bytes in Heq.
  apply prefix_free_le in Heq as [-> Heq]; [|done..]. rewrite !(assoc_L (++)) in Heq.
  rewrite <-!(assoc_L (++) (_ ++ _) (le_bytes _ _) _) in Heq.
  apply (prefix_free_list _ _ prefix_free_hash) in Heq as [Hpend Heq].
  - split; [done|]. split.
    + rewrite <-(sort_by_perm N.compare (cp_pending_hashes c1)),
        <-(sort_by_perm N.compare (cp_pending_hashes c2)).
      unfold sort_hashes in Hpend. by rewrite Hpend.
    + rewrite <-(app_nil_r (le_bytes 8 _ ++ _)) in Heq.
      rewrite <-(app_nil_r (le_bytes 8 (usize_of (length (cp_sender_queues c2))) ++ _)) in Heq.
      by apply (prefix_free_list _ _ prefix_free_queue) in Heq as [-> _].
  - unfold sort_hashes. rewrite length_sort_by, sort_by_perm. done.
  - unfold sort_hashes. rewrite length_sort_by, sort_by_perm. done.
Qed.

(** ** Concrete instances *)
Definition map_iter : HashIter :=
  {| hash_iter V := fun m : gmap TxHash V => map_to_list m; hash_iter_perm V m := reflexivity _ |}.
#[local] Existing Instance map_iter.

(** A blocked transaction, a checkpoint, and an event of another sender. *)
Definition blocked_log : list EventEnvelope :=
  [sample_event 1 (PTxDecoded (sample_decoded 9 9 9));
   sample_event 2 (PTxBlocked {| blocked_hash := 9; blocked_sender := 9; blocked_nonce := 9;
                                 blocked_expected_nonce := Some 8 |});
   sample_event 3 (PTxDecoded (sample_decoded 1 1 0))]%N.

(** Resuming from a checkpoint is not replaying.  On this log the
    checkpoint at event 2 records transaction 9 as blocked on nonce 8, yet the
    frame resumed from it shows the transaction ready, while the full replay
    still shows it blocked: [from_checkpoint] inserts the pending hashes first,
    so its [or_insert] never stores the sender, nonce and queue state. *)
Theorem resume_from_checkpoint_diverges :
  exists cp, lifecycle_snapshot blocked_log 2 = Some cp /\
    cp_sender_queues cp =
      [{| rq_sender := 9; rq_queued := [{| rqe_hash := 9; rqe_nonce := 9; rqe_state := RBlocked 8 |}] |}]%N /\
    (frame_sender_queues <$> replay_from_checkpoint blocked_log cp 1) =
      [[{| rq_sender := 1; rq_queued := [{| rqe_hash := 1; rqe_nonce := 0; rqe_state := RReady |}] |};
        {| rq_sender := 9; rq_queued := [{| rqe_hash := 9; rqe_nonce := 9; rqe_state := RReady |}] |}]]%N /\
    (frame_sender_queues <$> filter (fun f => (2 < frame_seq_hi f)%N)
       (replay_frames blocked_log DeterministicEventReplay 1)) =
      [[{| rq_sender := 1; rq_queued := [{| rqe_hash := 1; rqe_nonce := 0; rqe_state := RReady |}] |};
        {| rq_sender := 9; rq_queued := [{| rqe_hash := 9; rqe_nonce := 9; rqe_state := RBlocked 8 |}] |}]]%N.
Proof.
  destruct (lifecycle_snapshot blocked_log 2) as [cp|] eqn:E; [|vm_compute in E; discriminate].
  exists cp. vm_compute in E. injection E as <-.
  split; [done|]. split; [done|]. split; vm_compute; reflexivity.
Qed.

Lemma replay_deterministic_result_witness :
  replay_frames sample_log DeterministicEventReplay 2 =
    replay_frames (reverse sample_log) SnapshotReplay 2 /\
  frame_seq_hi <$> replay_frames sample_log DeterministicEventReplay 2 = [2; 4; 5]%N.
Proof.
  split; [|vm_compute; reflexivity].
  apply (replay_deterministic_result map_iter map_iter sample_log (reverse sample_log)).
  - symmetry. apply reverse_Permutation.
  - assert (Forall (fun a => Forall (fun b => order_key a = order_key b -> a = b) sample_log) sample_log)
      as Hall.
    { repeat (apply Forall_cons; split); try apply Forall_nil; try done;
        repeat (apply Forall_cons; split); try apply Forall_nil; try done; intros E; discriminate E. }
    intros a b Ha Hb. rewrite Forall_forall in Hall. specialize (Hall a Ha).
    rewrite Forall_forall in Hall. by apply Hall.
Defined.

Lemma replay_diff_exact_witness :
  exists d, replay_diff_summary id sample_log 4 2 = Some d /\ added_pending d = [] /\
    replay_diff_summary id sample_log 2 4 = Some d.
Proof.
  destruct (replay_diff_summary id sample_log 4 2) as [d|] eqn:E; [|vm_compute in E; discriminate].
  exists d. split; [done|]. split; [by vm_compute in E; injection E as <-|].
  exact (proj1 (replay_diff_exact id sample_log 4 2 d E)).
Defined.

Definition sample_checkpoint (pending : list N) : LifecycleCheckpoint :=
  {| cp_seq_id := 3; cp_pending_hashes := pending;
     cp_sender_queues := [{| rq_sender := 5; rq_queued :=
       [{| rqe_hash := 1; rqe_nonce := 7; rqe_state := RReady |};
        {| rqe_hash := 2; rqe_nonce := 9; rqe_state := RBlocked 8 |}] |}] |}%N.

Lemma checkpoint_bytes_injective_witness :
  checkpoint_bytes (sample_checkpoint [1; 2]%N) = checkpoint_bytes (sample_checkpoint [2; 1]%N) /\
  [1; 2]%N ≡ₚ [2; 1]%N.
Proof.
  assert (checkpoint_bytes (sample_checkpoint [1; 2]%N) = checkpoint_bytes (sample_checkpoint [2; 1]%N)) as E
    by (vm_compute; reflexivity).
  split; [done|].
  apply (checkpoint_bytes_injective (sample_checkpoint [1; 2]%N) (sample_checkpoint [2; 1]%N));
    [| |done]; repeat split; repeat constructor.
Defined.
