(* ===== verification/ReplayResume.v ===== *)
(** * ReplayResume: resuming replay from a checkpoint

    A checkpoint keeps the pending hashes and the queues but not the sender and
    nonce of a transaction nor any settled one.  What later frames show depends
    on less than the full state: on which hashes are pending and on which of
    them sits in each slot.  That much survives the checkpoint, and every event
    but a reorganisation acts on it alone. *)
From stdpp Require Import base gmap strings list numbers sorting.
From S2P Require Import Prelude Common EventLog Scheduler SchedulerQueue ReplayMempool ReplayLifecycle ReplayQueues Replay ReplayProps.

(** ** What a frame shows of a state *)

(** The pending transaction in a slot; a queue may also hold settled ones. *)
Definition live (s : MempoolState) (a : Address) (n : N) : option TxHash :=
  rslot s a n ≫= fun h => if pendb (ms_txs s) h then Some h else None.

Record same_view (s s' : MempoolState) : Prop := {
  sv_pending h : pendb (ms_txs s) h = pendb (ms_txs s') h;
  sv_live a n : live s a n = live s' a n;
}.

Lemma pendb_lifecycle s h :
  pendb (ms_txs s) h = match lifecycle s h with Some st => is_pending st | None => false end.
Proof. unfold pendb, lifecycle. by destruct (ms_txs s !! h). Qed.

Lemma live_Some s a n h : live s a n = Some h <-> rslot s a n = Some h /\ pendb (ms_txs s) h = true.
Proof.
  unfold live. destruct (rslot s a n) as [k|]; cbn; [|naive_solver]. destruct (pendb (ms_txs s) k) eqn:E; naive_solver congruence.
Qed.

(** The slots and the pending hashes determine the live slots. *)
Lemma live_ext s s' a n : rslot s a n = rslot s' a n ->
  (forall h, rslot s' a n = Some h -> pendb (ms_txs s) h = pendb (ms_txs s') h) -> live s a n = live s' a n.
Proof. unfold live. intros -> Hp. destruct (rslot s' a n) as [h|]; cbn; [|done]. by rewrite Hp. Qed.

Lemma pendb_recompute a s h : pendb (ms_txs (recompute_sender_queue_states a s)) h = pendb (ms_txs s) h.
Proof. apply pendb_ext, core_recompute. Qed.

Lemma live_recompute a s b n : live (recompute_sender_queue_states a s) b n = live s b n.
Proof.
  unfold live. rewrite rslot_recompute. case_decide; [|destruct (rslot s b n); cbn; by rewrite ?pendb_recompute].
  destruct (rslot s b n) as [h|]; cbn; [|done]. destruct (pendb (ms_txs s) h) eqn:E; cbn; [|done].
  by rewrite pendb_recompute, E.
Qed.

Lemma recompute_sub a s b n h : rslot (recompute_sender_queue_states a s) b n = Some h -> rslot s b n = Some h.
Proof. rewrite rslot_recompute. case_decide; [|done]. destruct (rslot s b n); cbn; [|done]. by case_match. Qed.

(** ** A transaction leaves its queue *)
Section leave.
Context (s : MempoolState) (txs1 : gmap TxHash TxEntry) (h : TxHash).
Context (Hgone : pendb txs1 h = false) (Hsame : forall k, k <> h -> pendb txs1 k = pendb (ms_txs s) k).
Let left_state slot : MempoolState := leave_queue h slot (set_txs txs1 s).

Lemma left_pendb slot k : pendb (ms_txs (left_state slot)) k = pendb txs1 k.
Proof using. apply pendb_ext, core_leave_queue. Qed.
Lemma left_live slot b m : live (left_state slot) b m = if decide (live s b m = Some h) then None else live s b m.
Proof using Hgone Hsame.
  transitivity (live (set_txs txs1 s) b m).
  - unfold left_state. destruct slot as [[a|] [n|]]; try done. cbn [leave_queue]. rewrite live_recompute.
    unfold live. rewrite rslot_remove, remove_txs. case_decide as E; [|done]. destruct E as [[= -> ->] Hs]. rewrite Hs. cbn.
    by rewrite Hgone.
  - change (live (set_txs txs1 s) b m) with (rslot s b m ≫= fun k => if pendb txs1 k then Some k else None).
    unfold live. destruct (rslot s b m) as [k|]; cbn; [|by case_decide].
    destruct (decide (k = h)) as [->|Hne].
    + rewrite Hgone. destruct (pendb (ms_txs s) h); by case_decide.
    + rewrite Hsame by done. destruct (pendb (ms_txs s) k); case_decide; naive_solver.
Qed.
Lemma left_sub slot b m k : rslot (left_state slot) b m = Some k -> rslot s b m = Some k.
Proof.
  unfold left_state. destruct slot as [[a|] [n|]]; try done. cbn [leave_queue]. intros Hk%recompute_sub.
  rewrite rslot_remove in Hk. by case_decide.
Qed.
End leave.

Section coherent.
Context (slot_of : TxHash -> Address * N).

(** A queue holds a hash in its own slot only. *)
Definition slots_ok (s : MempoolState) : Prop := forall a n h, rslot s a n = Some h -> slot_of h = (a, n).

Lemma slots_ok_sub s s' : (forall a n h, rslot s' a n = Some h -> rslot s a n = Some h) -> slots_ok s -> slots_ok s'.
Proof using. intros Hsub Hok a n h Hh. by apply Hok, Hsub. Qed.

(** *** A transaction enters its slot *)
Section enter.
Context (s : MempoolState) (txs1 : gmap TxHash TxEntry) (h : TxHash) (a : Address) (n : N).
Context (Hok : slots_ok s) (Hh : slot_of h = (a, n)).
Context (Hsame : forall k, slot_of k <> (a, n) -> pendb txs1 k = pendb (ms_txs s) k).
Let entered : MempoolState := recompute_sender_queue_states a (ensure_sender_queue_entry h a n (set_txs txs1 s)).

Lemma entered_pendb k : pendb (ms_txs entered) k = if decide (h = k) then true else pendb txs1 k.
Proof.
  unfold entered. rewrite pendb_recompute, pendb_core, core_ensure. case_decide; [done|]. by rewrite pendb_core.
Qed.
Lemma entered_live b m : live entered b m = if decide ((b, m) = (a, n)) then Some h else live s b m.
Proof using Hok Hh Hsame.
  unfold entered. rewrite live_recompute. unfold live at 1. rewrite rslot_ensure.
  assert (forall k, pendb (ms_txs (ensure_sender_queue_entry h a n (set_txs txs1 s))) k = if decide (h = k) then true else pendb txs1 k) as Hp
    by (intros k; rewrite <-entered_pendb; symmetry; apply pendb_recompute).
  case_decide as E; cbn.
  - by rewrite Hp, decide_True.
  - change (rslot (set_txs txs1 s) b m) with (rslot s b m). unfold live.
    destruct (rslot s b m) as [k|] eqn:Hk; cbn; [|done]. apply Hok in Hk.
    rewrite Hp, decide_False by congruence. by rewrite Hsame by congruence.
Qed.
Lemma entered_ok : slots_ok entered.
Proof using Hok Hh.
  intros b m k Hk%recompute_sub. rewrite rslot_ensure in Hk. case_decide as E; [|by apply (Hok b m)].
  injection Hk as <-. by rewrite E.
Qed.
End enter.


(** *** The effect of an event *)
Inductive pool_effect :=
  | Enters (h : TxHash) (a : Address) (n : N) (evicts : bool)
  | Leaves (h : TxHash)
  | Stays.
Definition effect_of (p : EventPayload) : pool_effect :=
  match p with
  | PTxDecoded d => Enters (dec_hash d) (dec_sender d) (dec_nonce d) true
  | PTxReady r => Enters (ready_hash r) (ready_sender r) (ready_nonce r) false
  | PTxBlocked b => Enters (blocked_hash b) (blocked_sender b) (blocked_nonce b) false
  | PTxDropped d => Leaves (dropped_hash d)
  | PTxReplaced r => Leaves (replaced_hash r)
  | PTxConfirmedProvisional c | PTxConfirmedFinal c => Leaves (confirmed_hash c)
  | _ => Stays
  end.
Definition reorgs (p : EventPayload) : bool := match p with PTxReorged _ => true | _ => false end.

Definition pending_after (s : MempoolState) (e : pool_effect) (k : TxHash) : bool :=
  match e with
  | Enters h a n evicts =>
      if decide (h = k) then true
      else if evicts && bool_decide (live s a n = Some k) then false else pendb (ms_txs s) k
  | Leaves h => if decide (h = k) then false else pendb (ms_txs s) k
  | Stays => pendb (ms_txs s) k
  end.
Definition live_after (s : MempoolState) (e : pool_effect) (b : Address) (m : N) : option TxHash :=
  match e with
  | Enters h a n _ => if decide ((b, m) = (a, n)) then Some h else live s b m
  | Leaves h => if decide (live s b m = Some h) then None else live s b m
  | Stays => live s b m
  end.

Lemma pending_step e s k : reorgs (payload e) = false ->
  pendb (ms_txs (apply_event e s).2) k = pending_after s (effect_of (payload e)) k.
Proof.
  intros Hno. rewrite pendb_lifecycle, lifecycle_step. unfold lifecycle_spec, pending_after.
  destruct (payload e) as [x|x|d|r|b|x|x|x|x|x|x|r|d|c|c|r]; try discriminate Hno; cbn [effect_of andb];
    rewrite ?(pendb_lifecycle s k); try done; try (case_decide; done).
  - case_decide; [done|]. case_decide as Hs.
    + case_bool_decide as Hl; [by destruct (lifecycle s k)|].
      destruct (lifecycle s k) as [st|] eqn:Hk; [|done]. cbn. destruct (is_pending st) eqn:Hp; [|done].
      destruct Hl. apply live_Some. by rewrite pendb_lifecycle, Hk.
    + rewrite bool_decide_false; [done|]. by intros [? _]%live_Some.
  - case_decide; [by destruct (lifecycle s k)|done].
Qed.

Lemma effect_step e s : slots_ok s -> coherent slot_of (payload e) -> reorgs (payload e) = false ->
  slots_ok (apply_event e s).2 /\
  forall b m, live (apply_event e s).2 b m = live_after s (effect_of (payload e)) b m.
Proof.
  intros Hok Hcoh Hno.
  assert (forall h slot txs1 confs, pendb txs1 h = false -> (forall k, k <> h -> pendb txs1 k = pendb (ms_txs s) k) ->
    slots_ok (set_confirmations confs (leave_queue h slot (set_txs txs1 s))) /\
    forall b m, live (set_confirmations confs (leave_queue h slot (set_txs txs1 s))) b m = live_after s (Leaves h) b m) as Hleave.
  { intros h slot txs1 confs H1 H2. split.
    - apply (slots_ok_sub s); [|done]. intros b m k Hk. by apply (left_sub s txs1 h slot).
    - intros b m. apply (left_live s txs1 h); [done|]. intros k Hk. by apply H2. }
  assert (forall h a n txs1 (f : gmap TxHash TxEntry -> gmap TxHash TxEntry) evicts,
    (forall txs k, core (f txs) k = core txs k) -> slot_of h = (a, n) ->
    (forall k, slot_of k <> (a, n) -> pendb txs1 k = pendb (ms_txs s) k) ->
    let s1 := recompute_sender_queue_states a (ensure_sender_queue_entry h a n (set_txs txs1 s)) in
    slots_ok (set_txs (f (ms_txs s1)) s1) /\
    forall b m, live (set_txs (f (ms_txs s1)) s1) b m = live_after s (Enters h a n evicts) b m) as Henter.
  { intros h a n txs1 f evicts Hf Hh Hsame. cbv zeta. split.
    - exact (entered_ok s txs1 h a n Hok Hh).
    - intros b m. cbn [live_after]. rewrite <-(entered_live s txs1 h a n Hok Hh Hsame b m). apply live_ext; [done|].
      intros k _. apply pendb_ext, Hf. }
  assert (forall h st old, is_pending st = false ->
    pendb (<[h := retire st old]> (ms_txs s)) h = false /\
    forall k, k <> h -> pendb (<[h := retire st old]> (ms_txs s)) k = pendb (ms_txs s) k) as Hretire.
  { intros h st old Hst. unfold pendb. split; [by rewrite lookup_insert_eq|]. intros k Hk. by rewrite lookup_insert_ne. }
  unfold apply_event. destruct (payload e) as [x|x|d|r|b|x|x|x|x|x|x|r|d|c|c|r]; try discriminate Hno; cbn [effect_of snd];
    try done.
  - (* decoded *)
    cbn in Hcoh. assert (forall txs1,
      (forall k, slot_of k <> (dec_sender d, dec_nonce d) -> pendb txs1 k = pendb (ms_txs s) k) ->
      let s' := recompute_sender_queue_states (dec_sender d)
                  (ensure_sender_queue_entry (dec_hash d) (dec_sender d) (dec_nonce d) (set_txs txs1 s)) in
      slots_ok s' /\ forall b m, live s' b m = live_after s (Enters (dec_hash d) (dec_sender d) (dec_nonce d) true) b m)
      as Hdec by (intros txs1 H1; split; [by apply entered_ok|intros b m; by apply entered_live]).
    unfold apply_decoded. fold (rslot s (dec_sender d) (dec_nonce d)).
    destruct (rslot s (dec_sender d) (dec_nonce d)) as [old|] eqn:Hs;
      [destruct (decide (old = dec_hash d)) as [->|Hne]|]; cbn [snd].
    + specialize (Hdec (ms_txs s)). rewrite set_txs_id in Hdec. by apply Hdec.
    + apply Hdec. intros k Hk. unfold pendb. rewrite lookup_alter_ne; [done|]. intros <-. apply Hk, (Hok _ _ _ Hs).
    + specialize (Hdec (ms_txs s)). rewrite set_txs_id in Hdec. by apply Hdec.
  - (* ready *)
    pose proof (Henter (ready_hash r) (ready_sender r) (ready_nonce r) (ms_txs s)
      (alter (set_queue_state (Some RReady)) (ready_hash r)) false) as Hr.
    rewrite set_txs_id in Hr. apply Hr; [intros; apply core_alter_queue_state|done|done].
  - (* blocked *)
    pose proof (fun f => Henter (blocked_hash b) (blocked_sender b) (blocked_nonce b) (ms_txs s) f false) as Hr.
    rewrite set_txs_id in Hr. unfold apply_blocked. cbn [snd]. destruct (blocked_expected_nonce b) as [n|].
    + apply (Hr (alter (set_queue_state (Some (RBlocked n))) (blocked_hash b))); [intros; apply core_alter_queue_state|done|done].
    + specialize (Hr id). cbv zeta in Hr. unfold id in Hr. rewrite set_txs_id in Hr. by apply Hr.
  - (* replaced *)
    unfold apply_replaced. cbn [snd]. rewrite <-(set_confirmations_id (leave_queue _ _ _)). apply Hleave.
    + unfold pendb. rewrite lookup_alter_eq. by destruct (ms_txs s !! replaced_hash r).
    + intros k Hk. unfold pendb. by rewrite lookup_alter_ne.
  - (* dropped *)
    unfold apply_dropped. cbn [snd]. rewrite <-(set_confirmations_id (leave_queue _ _ _)). apply Hleave; by apply Hretire.
  - unfold apply_confirmed. cbn [snd]. apply Hleave; by apply Hretire.
  - unfold apply_confirmed. cbn [snd]. apply Hleave; by apply Hretire.
Qed.

Lemma same_view_step e s s' : slots_ok s -> slots_ok s' -> same_view s s' ->
  coherent slot_of (payload e) -> reorgs (payload e) = false ->
  slots_ok (apply_event e s).2 /\ slots_ok (apply_event e s').2 /\ same_view (apply_event e s).2 (apply_event e s').2.
Proof.
  intros Hok Hok' [Hp Hl] Hcoh Hno.
  destruct (effect_step e s Hok Hcoh Hno) as [H1 L1], (effect_step e s' Hok' Hcoh Hno) as [H2 L2].
  split; [done|]. split; [done|]. split.
  - intros k. rewrite !pending_step by done. unfold pending_after. by destruct (effect_of (payload e)); rewrite ?Hl, ?Hp.
  - intros a n. rewrite L1, L2. unfold live_after. by destruct (effect_of (payload e)); rewrite ?Hl.
Qed.
End coherent.

(** ** The composition of the queues *)
Definition queued_slots (queues : list ReplaySenderQueue) : list (Address * N * TxHash) :=
  queues ≫= fun queue => (fun entry => (rq_sender queue, rqe_nonce entry, rqe_hash entry)) <$> rq_queued queue.

Lemma view_entries txs next gap l :
  (fun entry => (rqe_nonce entry, rqe_hash entry)) <$> queue_view_loop txs next gap l = live_part txs l.
Proof.
  revert next gap. induction l as [|[n h] l IH]; intros next gap; [done|]. cbn [queue_view_loop].
  unfold live_part, pendb. rewrite filter_cons. cbn [snd]. fold (pendb txs) (live_part txs l).
  destruct (txs !! h) as [e|]; [|rewrite decide_False by done; apply IH].
  destruct (is_pending (te_status e)); [|rewrite decide_False by done; apply IH].
  rewrite decide_True by done. destruct (replay_entry_state next gap n) as [[st next'] gap']. csimpl. by rewrite IH.
Qed.

(** The queues without their settled entries. *)
Definition live_queues (s : MempoolState) : gmap Address (gmap N TxHash) :=
  filter (fun aq => aq.2 <> ∅) (live_queue (ms_txs s) <$> ms_sender_queues s).

Lemma live_queues_lookup s a n : (live_queues s !! a ≫= fun q => q !! n) = live s a n.
Proof.
  unfold live_queues, live, rslot. rewrite map_lookup_filter, lookup_fmap.
  destruct (ms_sender_queues s !! a) as [q|]; cbn; [|done].
  assert (live_queue (ms_txs s) q !! n = q !! n ≫= fun h => if pendb (ms_txs s) h then Some h else None) as Hl.
  { unfold live_queue. rewrite map_lookup_filter. destruct (q !! n) as [h|]; cbn; [|done].
    unfold guard. destruct (pendb (ms_txs s) h); cbn; by case_decide. }
  unfold guard. case_decide as E; cbn; [done|]. rewrite <-Hl. destruct (decide (live_queue (ms_txs s) q = ∅)) as [->|Hne];
    [by rewrite lookup_empty|by destruct E].
Qed.

Lemma live_queues_ext s s' : same_view s s' -> live_queues s = live_queues s'.
Proof.
  intros [_ Hl]. assert (forall s a q, live_queues s !! a = Some q -> q <> ∅) as Hne
    by (by intros ? ? ? [_ ?]%map_lookup_filter_Some).
  assert (forall s s' a q, live_queues s !! a = Some q -> (forall a n, live s a n = live s' a n) -> live_queues s' !! a = Some q)
    as Hsub.
  { intros s1 s2 a q Hq Heq. destruct (map_choose q (Hne s1 a q Hq)) as (n & h & Hn).
    assert (live s1 a n = Some h) as Hh by (by rewrite <-live_queues_lookup, Hq).
    rewrite Heq, <-live_queues_lookup in Hh. destruct (live_queues s2 !! a) as [q'|] eqn:Hq'; [|done]. f_equal.
    apply map_eq. intros m. pose proof (Heq a m) as Hm. rewrite <-!live_queues_lookup, Hq, Hq' in Hm. by cbn in Hm. }
  apply map_eq. intros a. apply option_eq. intros q. split; intros Hq; eapply Hsub; eauto.
Qed.

Lemma bt_bind_filter {V B} (m : gmap Address V) (P : Address * V -> Prop) `{!forall x, Decision (P x)} (f : Address * V -> list B) :
  (forall x, ~ P x -> f x = []) -> bt_iter m ≫= f = bt_iter (filter P m) ≫= f.
Proof.
  intros Hf. assert (bt_iter (filter P m) = filter P (bt_iter m)) as ->.
  { apply bt_iter_unique.
    - pose proof (bt_iter_sorted m) as Hs. revert Hs. generalize (bt_iter m). intros l.
      induction 1 as [|x l Hs IH Hall]; [constructor|]. rewrite filter_cons. case_decide; [|done].
      constructor; [done|]. apply Forall_forall. intros y [_ Hy]%list_elem_of_filter. by eapply Forall_forall in Hall.
    - intros k v. rewrite list_elem_of_filter, elem_of_bt_iter, map_lookup_filter_Some. tauto. }
  induction (bt_iter m) as [|x l IH]; [done|]. rewrite filter_cons. csimpl.
  case_decide; csimpl; rewrite IH; [done|]. by rewrite Hf.
Qed.

Lemma queued_slots_view s :
  queued_slots (sender_queues_view s) =
    bt_iter (live_queues s) ≫= fun aq => (fun nh => (aq.1, nh.1, nh.2)) <$> bt_iter aq.2.
Proof.
  unfold live_queues. rewrite <-bt_bind_filter.
  - rewrite bt_iter_fmap. unfold sender_queues_view, queued_slots.
    induction (bt_iter (ms_sender_queues s)) as [|[a q] l IH]; [done|]. csimpl. rewrite <-IH. clear IH.
    unfold live_queue. rewrite bt_iter_live, <-(view_entries (ms_txs s) None false (bt_iter q)), <-list_fmap_compose.
    destruct (queue_view_loop _ _ _ _); done.
  - intros [a q] Hq. cbn in *. destruct (decide (q = ∅)) as [->|]; [by rewrite bt_iter_empty|by destruct Hq].
Qed.

Lemma elem_of_queued_slots s a n h : (a, n, h) ∈ queued_slots (sender_queues_view s) <-> live s a n = Some h.
Proof.
  rewrite queued_slots_view, <-live_queues_lookup, list_elem_of_bind. split.
  - intros ([a' q] & Hin & Hq). apply list_elem_of_fmap in Hin as ([n' h'] & [= -> -> ->] & Hin). cbn in *.
    apply elem_of_bt_iter in Hin, Hq. by rewrite Hq.
  - intros Hl. destruct (live_queues s !! a) as [q|] eqn:Hq; [|done]. exists (a, q). split.
    + apply list_elem_of_fmap. exists (n, h). split; [done|]. by apply elem_of_bt_iter.
    + by apply elem_of_bt_iter.
Qed.

(** ** The seeded state *)
Definition seed_slot (s : MempoolState) (x : Address * ReplaySenderQueueEntry) : MempoolState := seed_entry x.1 s x.2.
Definition queue_entries (queues : list ReplaySenderQueue) : list (Address * ReplaySenderQueueEntry) :=
  queues ≫= fun queue => (rq_sender queue,.) <$> rq_queued queue.

Lemma from_checkpoint_flat pending queues :
  from_checkpoint pending queues = foldl seed_slot (from_pending_hashes pending) (queue_entries queues).
Proof.
  unfold from_checkpoint. generalize (from_pending_hashes pending). induction queues as [|q queues IH]; intros s; [done|].
  cbn [foldl queue_entries mbind list_bind]. rewrite foldl_app, <-IH. f_equal. unfold seed_slot.
  generalize s. induction (rq_queued q) as [|e l IHl]; intros s'; [done|]. cbn. apply IHl.
Qed.

Lemma rslot_seed x s a n :
  rslot (seed_slot s x) a n = if decide ((a, n) = (x.1, rqe_nonce x.2)) then Some (rqe_hash x.2) else rslot s a n.
Proof.
  unfold rslot, seed_slot, seed_entry. cbn. destruct (decide (a = x.1)) as [->|Hne].
  - rewrite lookup_insert_eq. cbn. case_decide as E; simplify_eq.
    + by rewrite lookup_insert_eq.
    + rewrite lookup_insert_ne by congruence. by destruct (ms_sender_queues s !! x.1).
  - rewrite lookup_insert_ne by done. by rewrite decide_False by congruence.
Qed.

Lemma seeds_slots l s (f : Address -> N -> option TxHash) :
  (forall x, x ∈ l -> f x.1 (rqe_nonce x.2) = Some (rqe_hash x.2)) -> (forall a n h, rslot s a n = Some h -> f a n = Some h) ->
  forall a n h, rslot (foldl seed_slot s l) a n = Some h <->
    rslot s a n = Some h \/ exists e, (a, e) ∈ l /\ rqe_nonce e = n /\ rqe_hash e = h.
Proof.
  revert s. induction l as [|[b0 e0] l IH]; intros s Hl Hs a n h; cbn [foldl]; [set_solver|].
  pose proof (Hl (b0, e0) ltac:(by left)) as Hx. cbn in Hx. rewrite IH.
  - rewrite rslot_seed. cbn. case_decide as E.
    + injection E as -> ->. split.
      * intros [[= <-]|(e & He & <- & <-)]; right; [exists e0; by split_and!; [left|..]|exists e; by split_and!; [right|..]].
      * intros [Ha|(e & [[= ->]|He]%elem_of_cons & Hn & <-)]; [left; apply Hs in Ha; congruence|by left|right; by exists e].
    + split; [intros [?|(e & He & ?)]; [by left|right; exists e; split; [by right|done]]|].
      intros [?|(e & [[= -> ->]|He]%elem_of_cons & Hn & <-)]; [by left| |right; by exists e].
      destruct E. by rewrite Hn.
  - intros y Hy. apply Hl. by right.
  - intros b m k Hk. rewrite rslot_seed in Hk. cbn in Hk. case_decide as E; [|by apply Hs].
    injection Hk as <-. by injection E as -> ->.
Qed.

Lemma seeds_txs l s : (forall x, x ∈ l -> is_Some (ms_txs s !! rqe_hash x.2)) -> ms_txs (foldl seed_slot s l) = ms_txs s.
Proof.
  revert s. induction l as [|x l IH]; intros s Hl; [done|]. cbn [foldl].
  assert (ms_txs (seed_slot s x) = ms_txs s) as E.
  { unfold seed_slot, seed_entry. cbn. by destruct (Hl x ltac:(by left)) as [e ->]. }
  rewrite IH; [done|]. intros y Hy. rewrite E. apply Hl. by right.
Qed.

Lemma pendb_seed pending h : pendb (ms_txs (from_pending_hashes pending)) h = bool_decide (h ∈ pending).
Proof.
  unfold from_pending_hashes. cbn.
  assert (forall (m : gmap TxHash TxEntry), pendb (foldl (fun txs hash => <[hash := mkTxEntry None None StPending None]> txs) m pending) h
    = bool_decide (h ∈ pending) || pendb m h) as ->; [|by rewrite orb_false_r].
  induction pending as [|k l IH]; intros m; [done|]. cbn [foldl]. rewrite IH. unfold pendb at 1. destruct (decide (k = h)) as [->|Hne].
  - rewrite lookup_insert_eq, (bool_decide_true (h ∈ h :: l)) by (by left). by destruct (bool_decide _).
  - rewrite lookup_insert_ne by done. fold (pendb m h). f_equal. apply bool_decide_ext. set_solver.
Qed.

Section frames.
Context `{HashIter}.

(** ** Frames *)
Definition frame_view (f : ReplayFrame) : N * Z * list TxHash * list (Address * N * TxHash) :=
  (frame_seq_hi f, frame_timestamp_unix_ms f, frame_pending f, queued_slots (frame_sender_queues f)).

Lemma frame_view_same s s' e : same_view s s' -> frame_view (frame_at s e) = frame_view (frame_at s' e).
Proof.
  intros Hv. unfold frame_view, frame_at. cbn. f_equal; [f_equal|].
  - apply sort_hashes_perm, NoDup_Permutation; [apply pending_hashes_NoDup..|].
    intros h. rewrite !elem_of_pending_hashes.
    assert (forall s, lifecycle s h = Some StPending <-> pendb (ms_txs s) h = true) as Hp
      by (intros s0; rewrite pendb_lifecycle; destruct (lifecycle s0 h) as [[]|]; cbn; naive_solver).
    by rewrite !Hp, (sv_pending _ _ Hv).
  - rewrite !queued_slots_view. by rewrite (live_queues_ext s s').
Qed.

(** With stride 1 a loop emits every frame, whatever the index and length. *)
Lemma loop_stride_1 l len idx len' idx' s : deterministic_loop 1 len idx s l = deterministic_loop 1 len' idx' s l.
Proof.
  revert idx idx' s. induction l as [|e l IH]; intros idx idx' s; [done|]. cbn [deterministic_loop].
  rewrite !N.mod_1_r. cbn. by rewrite (IH (idx + 1)%N (idx' + 1)%N).
Qed.
Lemma loop_sublist l stride len idx s : deterministic_loop stride len idx s l `sublist_of` deterministic_loop 1 len idx s l.
Proof.
  revert idx s. induction l as [|e l IH]; intros idx s; [done|]. cbn [deterministic_loop]. rewrite N.mod_1_r. cbn [N.eqb orb app].
  case_match; cbn; by constructor.
Qed.

Lemma snapshot_split id s l cp : head (checkpoints_loop {[id]} s l) = Some cp ->
  exists l1 e l2, l = l1 ++ e :: l2 /\ seq_id e = id /\
    cp = {| cp_seq_id := id; cp_pending_hashes := sort_hashes (pending_hashes (apply_all (l1 ++ [e]) s));
            cp_sender_queues := sender_queues_view (apply_all (l1 ++ [e]) s) |}.
Proof.
  revert s. induction l as [|e l IH]; intros s; [done|]. cbn [checkpoints_loop]. case_decide as E; cbn [app].
  - intros [= <-]. apply elem_of_singleton in E. exists [], e, l. split_and!; [done|done|]. cbn. by rewrite E.
  - intros Hc. apply IH in Hc as (l1 & e' & l2 & -> & He & ->). exists (e :: l1), e', l2. done.
Qed.

Lemma loop_tail l1 l2 id len idx s : Forall (fun e => (seq_id e <= id)%N) l1 -> Forall (fun e => (id < seq_id e)%N) l2 ->
  filter (fun f => (id < frame_seq_hi f)%N) (deterministic_loop 1 len idx s (l1 ++ l2)) =
    deterministic_loop 1 len 0 (apply_all l1 s) l2.
Proof.
  intros H1 H2. revert idx s. induction H1 as [|e l1 He _ IH]; intros idx s; cbn [app].
  - rewrite (loop_stride_1 l2 len idx len 0 s). cbn. generalize 0%N. revert s.
    induction H2 as [|e l2 He _ IH]; intros s i; [done|]. cbn [deterministic_loop]. rewrite N.mod_1_r. cbn [N.eqb orb app].
    rewrite filter_cons, decide_True by done. by rewrite IH.
  - cbn [deterministic_loop]. rewrite N.mod_1_r. cbn [N.eqb orb app]. rewrite filter_cons, decide_False by (cbn; lia).
    by rewrite IH.
Qed.
End frames.

Lemma later_events id (l1 l2 : list EventEnvelope) : Forall (fun e => (seq_id e <= id)%N) l1 ->
  Forall (fun e => (id < seq_id e)%N) l2 -> filter (fun e => (id < seq_id e)%N) (l1 ++ l2) = l2.
Proof.
  intros H1 H2. rewrite filter_app. replace (filter _ l1) with (@nil EventEnvelope).
  - cbn. induction H2 as [|e l2 He _ IH]; [done|]. by rewrite filter_cons, decide_True, IH.
  - induction H1 as [|e l1 He _ IH]; [done|]. rewrite filter_cons, decide_False by lia. done.
Qed.

(** The canonical order split at a sequence id that occurs once. *)
Lemma sorted_split events l1 e l2 : NoDup (seq_id <$> events) -> sort_deterministic events = l1 ++ e :: l2 ->
  Forall (fun x => (seq_id x <= seq_id e)%N) (l1 ++ [e]) /\ Forall (fun x => (seq_id e < seq_id x)%N) l2.
Proof.
  intros Hnd E. pose proof (sort_by_sorted cmp_deterministic events) as Hs.
  assert (NoDup (seq_id <$> sort_deterministic events)) as Hnd'.
  { unfold sort_deterministic. by rewrite sort_by_perm. }
  fold (sort_deterministic events) in Hs. rewrite E in Hs, Hnd'.
  rewrite fmap_app, fmap_cons in Hnd'. apply NoDup_app in Hnd' as (_ & _ & [Hne _]%NoDup_cons).
  apply StronglySorted_app in Hs as (Hbefore & _ & [Hafter _]%StronglySorted_cons). split.
  - apply Forall_app. split; [|by constructor]. apply Forall_forall. intros x Hx.
    apply cmp_deterministic_seq, Hbefore; [done|by left].
  - apply Forall_forall. intros x Hx. rewrite Forall_forall in Hafter. pose proof (cmp_deterministic_seq _ _ (Hafter x Hx)).
    assert (seq_id x <> seq_id e); [|lia]. intros Ex. apply Hne. rewrite <-Ex. by apply list_elem_of_fmap_2.
Qed.

Section resume.
Context `{HashIter} (slot_of : TxHash -> Address * N).

Lemma seed_view s : mempool_wf slot_of s ->
  let s' := from_checkpoint (sort_hashes (pending_hashes s)) (sender_queues_view s) in
  slots_ok slot_of s' /\ same_view s s'.
Proof.
  intros Hwf. cbv zeta. rewrite from_checkpoint_flat. set (l := queue_entries (sender_queues_view s)).
  set (seed := from_pending_hashes (sort_hashes (pending_hashes s))).
  assert (forall a e, (a, e) ∈ l <-> live s a (rqe_nonce e) = Some (rqe_hash e) /\ (a, e) ∈ l) as Hl.
  { intros a e. split; [|tauto]. intros Hin. split; [|done]. apply elem_of_queued_slots. unfold queued_slots, l, queue_entries in *.
    apply list_elem_of_bind in Hin as (q & Hin & Hq). apply list_elem_of_fmap in Hin as (e' & [= -> ->] & He).
    apply list_elem_of_bind. exists q. split; [|done]. apply list_elem_of_fmap. by exists e'. }
  assert (forall a n h, live s a n = Some h -> exists e, (a, e) ∈ l /\ rqe_nonce e = n /\ rqe_hash e = h) as Hin.
  { intros a n h Hh. apply elem_of_queued_slots in Hh. unfold queued_slots, l, queue_entries in *.
    apply list_elem_of_bind in Hh as (q & Hh & Hq). apply list_elem_of_fmap in Hh as (e & [= -> -> ->] & He).
    exists e. split; [|done]. apply list_elem_of_bind. exists q. split; [|done]. apply list_elem_of_fmap. by exists e. }
  assert (forall h, pendb (ms_txs seed) h = pendb (ms_txs s) h) as Hp.
  { intros h. unfold seed. rewrite pendb_seed. apply eq_true_iff_eq. rewrite bool_decide_eq_true. unfold sort_hashes. rewrite elem_of_sort_by, elem_of_pending_hashes, pendb_lifecycle.
    destruct (lifecycle s h) as [[]|]; cbn; naive_solver. }
  assert (ms_txs (foldl seed_slot seed l) = ms_txs seed) as Htxs.
  { apply seeds_txs. intros [a e] He. apply Hl in He as [He _]. apply live_Some in He as [_ He]. cbn.
    rewrite <-Hp in He. unfold pendb in He. destruct (ms_txs seed !! rqe_hash e) as [t|] eqn:Et; [|done]. by exists t. }
  assert (forall a n h, rslot (foldl seed_slot seed l) a n = Some h <-> live s a n = Some h) as Hslots.
  { intros a n h. rewrite (seeds_slots l seed (live s)).
    - split.
      + intros [Hs|(e & He & <- & <-)]; [|by apply Hl in He as [? _]]. unfold rslot in Hs. cbn in Hs. by rewrite lookup_empty in Hs.
      + intros Hh. right. by apply Hin.
    - intros [a' e] He. by apply Hl in He as [? _].
    - intros a' n' h' Hs. unfold rslot in Hs. cbn in Hs. by rewrite lookup_empty in Hs. }
  split.
  - intros a n h Hh%Hslots. apply live_Some in Hh as [Hh _]. by apply (mw_slot _ _ Hwf).
  - split; [intros h; by rewrite Htxs, Hp|]. intros a n. apply option_eq. intros h.
    rewrite (live_Some (foldl seed_slot seed l)), Hslots, Htxs, Hp, live_Some. tauto.
Qed.

Lemma loop_same_view l stride len idx s s' : slots_ok slot_of s -> slots_ok slot_of s' -> same_view s s' ->
  Forall (fun e => coherent slot_of (payload e) /\ reorgs (payload e) = false) l ->
  frame_view <$> deterministic_loop stride len idx s l = frame_view <$> deterministic_loop stride len idx s' l.
Proof.
  intros Hok Hok' Hv Hl. revert idx s s' Hok Hok' Hv. induction Hl as [|e l [Hc Hn] _ IH]; intros idx s s' Hok Hok' Hv; [done|].
  destruct (same_view_step slot_of e s s' Hok Hok' Hv Hc Hn) as (H1 & H2 & H3).
  cbn [deterministic_loop]. rewrite !fmap_app, (IH _ _ _ H1 H2 H3). f_equal. case_match; [|done]. cbn. by rewrite (frame_view_same _ _ e H3).
Qed.
End resume.

(** C18: resuming replay is replaying.  Take a checkpoint of a log whose sequence
    ids differ and whose hashes keep their sender and nonce, and let no event
    after it reorganise the chain.  Then the frames replayed from the checkpoint
    with stride 1 are those of the full replay after the checkpoint: same
    sequence ids, times, pending hashes, and the same transactions at the same
    nonces in every sender's queue, although the checkpoint keeps neither the
    settled transactions nor the sender and nonce of the pending ones; a larger
    stride selects among them.  (The queue states may differ:
    [resume_from_checkpoint_diverges].) *)
Theorem resume_agrees `{HashIter} slot_of events id checkpoint stride
    (Hids : NoDup (seq_id <$> events)) (Hcoh : Forall (fun e => coherent slot_of (payload e)) events)
    (Hno : Forall (fun e => (id < seq_id e)%N -> reorgs (payload e) = false) events)
    (Hcp : lifecycle_snapshot events id = Some checkpoint) :
  let full := filter (fun f => (id < frame_seq_hi f)%N) (replay_frames events DeterministicEventReplay 1) in
  frame_view <$> replay_from_checkpoint events checkpoint 1 = frame_view <$> full /\
  frame_view <$> replay_from_checkpoint events checkpoint stride `sublist_of` frame_view <$> full.
Proof.
  cbv zeta. unfold lifecycle_snapshot, lifecycle_checkpoints in Hcp.
  replace (list_to_set [id] : gset N) with ({[id]} : gset N) in Hcp by set_solver.
  apply snapshot_split in Hcp as (l1 & e & l2 & E & <- & ->).
  destruct (sorted_split events l1 e l2 Hids E) as [Hle Hlt].
  assert (forall P : EventEnvelope -> Prop, Forall P events -> Forall P ((l1 ++ [e]) ++ l2)) as Hsorted.
  { intros P HP. rewrite <-app_assoc. cbn. rewrite <-E. unfold sort_deterministic. by rewrite sort_by_perm. }
  destruct (proj1 (Forall_app _ _ _) (Hsorted _ Hcoh)) as [Hcoh1 Hcoh2].
  destruct (proj1 (Forall_app _ _ _) (Hsorted _ Hno)) as [_ Hno2].
  set (s := apply_all (l1 ++ [e]) mempool_default).
  destruct (seed_view slot_of s) as [Hok Hview].
  { apply apply_all_wf; [apply mempool_wf_default|done]. }
  assert (slots_ok slot_of s) as Hok0.
  { intros a n h Hh. by apply (mw_slot _ _ (apply_all_wf slot_of _ _ (mempool_wf_default slot_of) Hcoh1)). }
  assert (Forall (fun e => coherent slot_of (payload e) /\ reorgs (payload e) = false) l2) as Htail.
  { rewrite Forall_forall in *. intros x Hx. split; [by apply Hcoh2|]. by apply Hno2, Hlt. }
  assert (forall k, replay_from_checkpoint events {| cp_seq_id := seq_id e; cp_pending_hashes := sort_hashes (pending_hashes s);
              cp_sender_queues := sender_queues_view s |} k =
            deterministic_loop (N.max k 1) (usize_of (length l2)) 0
              (from_checkpoint (sort_hashes (pending_hashes s)) (sender_queues_view s)) l2) as Hresume.
  { intros k. unfold replay_from_checkpoint. cbn [cp_seq_id cp_pending_hashes cp_sender_queues]. rewrite E.
    change (e :: l2) with ([e] ++ l2). rewrite app_assoc, later_events by done. by destruct (sender_queues_view s). }
  rewrite !Hresume. cbn [replay_frames]. unfold replay_deterministic. rewrite E.
  change (e :: l2) with ([e] ++ l2). rewrite app_assoc. change (N.max 1 1) with 1%N.
  rewrite (loop_tail (l1 ++ [e]) l2 (seq_id e)) by done. fold s.
  assert (forall k i, frame_view <$> deterministic_loop k (usize_of (length l2)) i
      (from_checkpoint (sort_hashes (pending_hashes s)) (sender_queues_view s)) l2 =
    frame_view <$> deterministic_loop k (usize_of (length l2)) i s l2) as Hsame.
  { intros k i. symmetry. by apply (loop_same_view slot_of). }
  rewrite !Hsame. split; [f_equal; apply loop_stride_1|]. rewrite (loop_stride_1 l2 _ 0 (usize_of (length l2)) 0 s).
  apply fmap_sublist, loop_sublist.
Qed.

(** ** A concrete log *)
#[local] Existing Instance map_iter.

(** Nonces 7 and 9 of one sender, a replacement and a drop after the
    checkpoint, and another sender's transaction. *)
Definition resume_slot (h : TxHash) : Address * N := if (h =? 2)%N then (5, 9)%N else if (h =? 4)%N then (6, 0)%N else (5, 7)%N.
Definition resume_log : list EventEnvelope :=
  [sample_event 1 (PTxDecoded (sample_decoded 1 5 7));
   sample_event 2 (PTxDecoded (sample_decoded 2 5 9));
   sample_event 3 (PTxConfirmedFinal
     {| confirmed_hash := 2; confirmed_block_number := 10; confirmed_block_hash := 77 |});
   sample_event 4 (PTxReplaced {| replaced_hash := 1; replaced_by := 3 |});
   sample_event 5 (PTxDecoded (sample_decoded 3 5 7));
   sample_event 6 (PTxDecoded (sample_decoded 4 6 0));
   sample_event 7 (PTxDropped {| dropped_hash := 3; dropped_reason := "expired" |})]%N.
Definition resume_checkpoint : LifecycleCheckpoint :=
  {| cp_seq_id := 3; cp_pending_hashes := [1]; cp_sender_queues :=
       [{| rq_sender := 5; rq_queued := [{| rqe_hash := 1; rqe_nonce := 7; rqe_state := RReady |}] |}] |}%N.

Lemma resume_agrees_witness :
  frame_view <$> replay_from_checkpoint resume_log resume_checkpoint 1 =
    frame_view <$> filter (fun f => (3 < frame_seq_hi f)%N) (replay_frames resume_log DeterministicEventReplay 1) /\
  frame_pending <$> replay_from_checkpoint resume_log resume_checkpoint 1 = [[]; [3]; [3; 4]; [4]]%N.
Proof.
  split; [|vm_compute; reflexivity].
  apply (resume_agrees resume_slot resume_log 3 resume_checkpoint 1).
  - apply (bool_decide_unpack _). vm_compute. exact I.
  - repeat constructor.
  - repeat constructor.
  - vm_compute. reflexivity.
Defined.

(** A transaction confirmed before the checkpoint and reopened after it is
    pending in the full replay and unknown to the resumed one. *)
Example resumed_reorg_lost :
  exists checkpoint, lifecycle_snapshot sample_log 4 = Some checkpoint /\
    frame_pending <$> replay_from_checkpoint sample_log checkpoint 1 = [[1; 2]]%N /\
    frame_pending <$> filter (fun f => (4 < frame_seq_hi f)%N) (replay_frames sample_log DeterministicEventReplay 1) = [[1; 2; 3]]%N.
Proof.
  destruct (lifecycle_snapshot sample_log 4) as [cp|] eqn:E; [|vm_compute in E; discriminate].
  exists cp. vm_compute in E. injection E as <-. split; [done|]. split; vm_compute; reflexivity.
Qed.
