(* ===== verification/Features.v ===== *)
(** * Features: transaction classification and scores
    (crates/feature-engine/src/lib.rs, registry.rs)

    Protocol, category, MEV score and urgency score of a decoded transaction.
    The registry of known contracts is the JSON file the crate embeds; its
    parser (serde_json) is not modelled, its contents are. *)
From stdpp Require Import base gmap strings list numbers.
From S2P Require Import Prelude Common EventLog.

Definition feature_engine_version : string := "feature-engine.v1".

Record FeatureInput := mkFeatureInput {
  fi_to : option Address;
  fi_calldata : list N;
  fi_tx_type : N;
  fi_chain_id : option N;
  fi_gas_limit : option N;
  fi_value_wei : option N;
  fi_gas_price_wei : option N;
  fi_max_fee_per_gas_wei : option N;
  fi_max_priority_fee_per_gas_wei : option N;
  fi_max_fee_per_blob_gas_wei : option N;
}.

(** A selector is kept as the number its four big-endian bytes spell. *)
Record FeatureAnalysis := mkAnalysis {
  an_protocol : string;
  an_category : string;
  an_mev_score : N;
  an_urgency_score : N;
  an_method_selector : option N;
}.

Record FeaturedTransaction := mkFeatured {
  ft_hash : TxHash;
  ft_analysis : FeatureAnalysis;
  ft_tx_type : N;
  ft_to : option Address;
  ft_gas_limit : option N;
  ft_calldata_len : N;
}.

Definition wei_per_gwei : N := 1000000000.

(** ** The registry *)
Record ProtocolRegistry := mkRegistry {
  by_address : gmap Address string;
  by_selector : gmap N string;
}.

(** The parsed registry: protocols insert their addresses in order, later
    entries win; [from_json] after parsing. *)
Definition registry_of (protocols : list (string * list Address))
    (selectors : list (N * string)) : ProtocolRegistry :=
  {| by_address :=
       foldl (fun m '(name, addresses) => foldl (fun m a => <[a := name]> m) m addresses) ∅ protocols;
     by_selector := foldl (fun m '(selector, protocol) => <[selector := protocol]> m) ∅ selectors |}.

(** configs/protocol_registry.mainnet.json *)
Definition default_mainnet : ProtocolRegistry :=
  registry_of
    [("uniswap-v2", [0x7a250d5630b4cf539739df2c5dacb4c659f2488d]);
     ("uniswap-v3", [0x68b3465833fb72a70ecdf485e0e4c7bd8665fc45]);
     ("uniswap-universal", [0xef1c6e67703c7bd7107eed8303fbe6ec2554bf6b]);
     ("1inch", [0x1111111254eeb25477b68fb85ed929f73a960582])]%N
    [(0xa9059cbb, "erc20"); (0x23b872dd, "erc20"); (0x095ea7b3, "erc20")]%N.

Definition registry_classify (r : ProtocolRegistry) (to selector : option N) : string :=
  match to ≫= fun a => by_address r !! a with
  | Some protocol => protocol
  | None =>
      match selector ≫= fun s => by_selector r !! s with
      | Some protocol => protocol
      | None => "unknown"
      end
  end.

(** ** Classification *)
Definition method_selector (calldata : list N) : option N :=
  if (usize_of (length calldata) <? 4)%N then None else Some (of_be_bytes (take 4 calldata)).

Definition classify_protocol (to selector : option N) : string :=
  registry_classify default_mainnet to selector.

Definition swap_selectors : list N :=
  [0x38ed1739; 0x8803dbee; 0x7ff36ab5; 0x18cbafe5; 0x4a25d94a; 0xfb3bdb41;
   0x04e45aaf; 0xb858183f; 0x5023b4df; 0x09b81346]%N.
Definition classify_category (selector : option N) : string :=
  match selector with
  | Some s =>
      if decide (s ∈ swap_selectors) then "swap"
      else if decide (s ∈ [0xa9059cbb; 0x23b872dd]%N) then "transfer"
      else if (s =? 0x095ea7b3)%N then "approval"
      else "pending"
  | None => "pending"
  end.

Definition compute_urgency_score (input : FeatureInput) : N :=
  let urgency :=
    match fi_max_priority_fee_per_gas_wei input with
    | Some priority =>
        let gwei := cast 16 (priority / wei_per_gwei) in
        sat_add u16_max 0 (N.min gwei 60)
    | None =>
        match fi_gas_price_wei input with
        | Some gas_price =>
            let gwei := cast 16 (gas_price / wei_per_gwei) in
            sat_add u16_max 0 (N.min (gwei / 2) 40)
        | None => 0%N
        end
    end in
  let urgency := if (fi_tx_type input =? 2)%N then sat_add u16_max urgency 6 else urgency in
  let urgency :=
    if (0 <? default 0 (fi_max_fee_per_gas_wei input))%N
    then sat_add u16_max urgency 4 else urgency in
  N.min urgency 100.

Definition base_mev_score (protocol category : string) : N :=
  let score :=
    if decide (category = "swap") then 55%N
    else if decide (category = "approval") then 16%N
    else if decide (category = "transfer") then 10%N
    else 8%N in
  if decide (protocol ∈ ["uniswap-v2"; "uniswap-v3"; "uniswap-universal"; "1inch"])
  then sat_add u16_max score 12 else score.

Definition analyze_transaction (input : FeatureInput) : FeatureAnalysis :=
  let selector := method_selector (fi_calldata input) in
  let protocol := classify_protocol (fi_to input) selector in
  let category := classify_category selector in
  let urgency_score := compute_urgency_score input in
  let mev := base_mev_score protocol category in
  let mev := if (132 <? usize_of (length (fi_calldata input)))%N then sat_add u16_max mev 5 else mev in
  let mev := if (0 <? default 0 (fi_value_wei input))%N then sat_add u16_max mev 3 else mev in
  let mev := if (200000 <=? default 0 (fi_gas_limit input))%N then sat_add u16_max mev 4 else mev in
  let mev :=
    match fi_max_fee_per_blob_gas_wei input with Some _ => sat_add u16_max mev 2 | None => mev end in
  let mev := sat_add u16_max mev (urgency_score / 2) in
  let mev := if decide (fi_chain_id input = Some 1%N) then mev else sat_sub mev 15 in
  {| an_protocol := protocol; an_category := category; an_mev_score := N.min mev 100;
     an_urgency_score := urgency_score; an_method_selector := selector |}.

Definition analyze_decoded_transaction (tx : TxDecoded) (calldata : list N) : FeaturedTransaction :=
  {| ft_hash := dec_hash tx;
     ft_analysis :=
       analyze_transaction
         {| fi_to := dec_to tx; fi_calldata := calldata; fi_tx_type := dec_tx_type tx;
            fi_chain_id := dec_chain_id tx; fi_gas_limit := dec_gas_limit tx;
            fi_value_wei := dec_value_wei tx; fi_gas_price_wei := dec_gas_price_wei tx;
            fi_max_fee_per_gas_wei := dec_max_fee_per_gas_wei tx;
            fi_max_priority_fee_per_gas_wei := dec_max_priority_fee_per_gas_wei tx;
            fi_max_fee_per_blob_gas_wei := dec_max_fee_per_blob_gas_wei tx |};
     ft_tx_type := dec_tx_type tx;
     ft_to := dec_to tx;
     ft_gas_limit := dec_gas_limit tx;
     ft_calldata_len := usize_of (length calldata) |}.

(** ** Bounds *)
Lemma urgency_bound input : (compute_urgency_score input <= 70)%N.
Proof.
  unfold compute_urgency_score, sat_add, u16_max.
  destruct (fi_max_priority_fee_per_gas_wei input) as [p|];
    [|destruct (fi_gas_price_wei input) as [g|]];
    destruct (_ =? 2)%N, (0 <? _)%N; lia.
Qed.

Lemma mev_bound input : (an_mev_score (analyze_transaction input) <= 100)%N.
Proof. simpl. lia. Qed.

(** The urgency score wraps.  The fee in gwei is truncated to 16 bits
    before it is clamped, so the score is not monotone in the priority fee: a
    fee of 65536 gwei scores as much as no fee at all, less than 1 gwei. *)
Theorem urgency_wraps :
  let input fee :=
    {| fi_to := None; fi_calldata := []; fi_tx_type := 2; fi_chain_id := Some 1;
       fi_gas_limit := None; fi_value_wei := None; fi_gas_price_wei := None;
       fi_max_fee_per_gas_wei := Some 1; fi_max_priority_fee_per_gas_wei := Some fee;
       fi_max_fee_per_blob_gas_wei := None |}%N in
  compute_urgency_score (input (65535 * wei_per_gwei)%N) = 70%N /\
  compute_urgency_score (input wei_per_gwei) = 11%N /\
  compute_urgency_score (input (65536 * wei_per_gwei)%N) = 10%N.
Proof. vm_compute. repeat split; reflexivity. Qed.
