(* ===== verification/Searcher.v ===== *)
(** * Searcher: strategies and batch ranking
    (crates/searcher/src/lib.rs, scoring.rs, strategies.rs) *)
From stdpp Require Import base gmap strings list numbers sorting pretty.
From S2P Require Import Prelude Common EventLog Features.

Definition scorer_version : string := "scorer.v1".

Inductive StrategyKind := SandwichCandidate | BackrunCandidate | ArbCandidate | BundleCandidate.
#[export] Instance StrategyKind_eq_dec : EqDecision StrategyKind.
Proof. solve_decision. Defined.

(** The derived order is that of the declaration. *)
Definition strategy_rank (k : StrategyKind) : N :=
  match k with
  | SandwichCandidate => 0 | BackrunCandidate => 1 | ArbCandidate => 2 | BundleCandidate => 3
  end.
Definition strategy_version (k : StrategyKind) : string :=
  match k with
  | SandwichCandidate => "strategy.sandwich.v1"
  | BackrunCandidate => "strategy.backrun.v1"
  | ArbCandidate => "strategy.arb.v1"
  | BundleCandidate => "strategy.bundle.v1"
  end.

Record ScoreBreakdown := mkBreakdown {
  mev_component : N;
  urgency_component : N;
  structural_component : N;
  strategy_bonus : N;
}.
Definition breakdown_total (b : ScoreBreakdown) : N :=
  sat_add u32_max
    (sat_add u32_max (sat_add u32_max (mev_component b) (urgency_component b))
       (structural_component b))
    (strategy_bonus b).

Record OpportunityCandidate := mkOpportunity {
  oc_tx_hash : TxHash;
  oc_member_tx_hashes : list TxHash;
  oc_strategy : StrategyKind;
  oc_feature_engine_version : string;
  oc_scorer_version : string;
  oc_strategy_version : string;
  oc_score : N;
  oc_protocol : string;
  oc_category : string;
  oc_breakdown : ScoreBreakdown;
  oc_reasons : list string;
}.

Record SearcherInputTx := mkSearcherInput {
  si_decoded : TxDecoded;
  si_calldata : list N;
}.

Record SearcherConfig := mkSearcherConfig { min_score : N; max_candidates : N }.
Definition searcher_config_default : SearcherConfig := {| min_score := 0; max_candidates := 64 |}.

Record SearcherBatchMetrics := mkBatchMetrics {
  input_transactions : N;
  generated_candidates : N;
  returned_candidates : N;
  truncated_candidates : N;
  bundle_candidates_generated : N;
}.
Record SearcherBatchResult := mkBatchResult {
  sb_candidates : list OpportunityCandidate;
  sb_metrics : SearcherBatchMetrics;
}.

(** ** Strategies *)
(** A plain [u32] operation: [release] builds wrap. *)
Definition mul32 (a b : N) : N := cast 32 (a * b).
Definition add32 (a b : N) : N := cast 32 (a + b).

Definition structural_bonus (featured : FeaturedTransaction) : N :=
  let calldata_bonus := cast 32 (N.min (ft_calldata_len featured) 512) in
  let gas_bonus := (cast 32 (N.min (default 0 (ft_gas_limit featured)) 500000) / 1000)%N in
  add32 calldata_bonus gas_bonus.

Definition mk_candidate (strategy : StrategyKind) (featured : FeaturedTransaction)
    (breakdown : ScoreBreakdown) (reasons : list string) : OpportunityCandidate :=
  {| oc_tx_hash := ft_hash featured;
     oc_member_tx_hashes := [ft_hash featured];
     oc_strategy := strategy;
     oc_feature_engine_version := feature_engine_version;
     oc_scorer_version := scorer_version;
     oc_strategy_version := strategy_version strategy;
     oc_score := breakdown_total breakdown;
     oc_protocol := an_protocol (ft_analysis featured);
     oc_category := an_category (ft_analysis featured);
     oc_breakdown := breakdown;
     oc_reasons := reasons |}.

(** The shared shape of the three evaluators: weights, bonus and reasons. *)
Definition scored (strategy : StrategyKind) (mev_weight urgency_weight bonus : N)
    (featured : FeaturedTransaction) : OpportunityCandidate :=
  let analysis := ft_analysis featured in
  let breakdown :=
    {| mev_component := mul32 (an_mev_score analysis) mev_weight;
       urgency_component := mul32 (an_urgency_score analysis) urgency_weight;
       structural_component := structural_bonus featured;
       strategy_bonus := bonus |} in
  mk_candidate strategy featured breakdown
    ["mev_score=" +:+ pretty (an_mev_score analysis) +:+ "*" +:+ pretty mev_weight;
     "urgency_score=" +:+ pretty (an_urgency_score analysis) +:+ "*" +:+ pretty urgency_weight;
     "calldata/gas structural bonus=" +:+ pretty (structural_component breakdown);
     "strategy bonus=" +:+ pretty bonus].

Definition evaluate_sandwich_candidate (featured : FeaturedTransaction) :
    option OpportunityCandidate :=
  let analysis := ft_analysis featured in
  if negb (bool_decide (an_category analysis = "swap")) || (an_mev_score analysis <? 70)%N then None
  else if negb (String.prefix "uniswap" (an_protocol analysis))
          && negb (bool_decide (an_protocol analysis = "1inch")) then None
  else Some (scored SandwichCandidate 120 25 500 featured).

Definition evaluate_backrun_candidate (featured : FeaturedTransaction) :
    option OpportunityCandidate :=
  let analysis := ft_analysis featured in
  if negb (bool_decide (an_category analysis = "swap")) || (an_mev_score analysis <? 55)%N
     || (an_urgency_score analysis <? 12)%N then None
  else Some (scored BackrunCandidate 100 20 300 featured).

Definition evaluate_arb_candidate (featured : FeaturedTransaction) :
    option OpportunityCandidate :=
  let analysis := ft_analysis featured in
  if negb (bool_decide (an_category analysis = "swap")) || (an_mev_score analysis <? 50)%N then None
  else Some (scored ArbCandidate 90 15 200 featured).

Definition rank_transaction (featured : FeaturedTransaction) (min_score : N) :
    list OpportunityCandidate :=
  filter (fun c => (min_score <= oc_score c)%N)
    (omap id [evaluate_sandwich_candidate featured; evaluate_backrun_candidate featured;
              evaluate_arb_candidate featured]).

(** ** Ranking *)
Definition candidate_sort_key (left right : OpportunityCandidate) : comparison :=
  then_with (N.compare (oc_score right) (oc_score left))
    (then_with (N.compare (strategy_rank (oc_strategy left)) (strategy_rank (oc_strategy right)))
       (N.compare (oc_tx_hash left) (oc_tx_hash right))).

Record BundleInput := mkBundleInput {
  bi_sender : Address;
  bi_nonce : N;
  bi_candidate : OpportunityCandidate;
}.

Definition bundle_input_cmp (left right : BundleInput) : comparison :=
  then_with (N.compare (bi_sender left) (bi_sender right))
    (then_with (N.compare (bi_nonce left) (bi_nonce right))
       (candidate_sort_key (bi_candidate left) (bi_candidate right))).

(** [{:?}] of a byte array. *)
Definition debug_bytes (l : list N) : string := "[" +:+ join ", " (pretty <$> l) +:+ "]".

Definition bundle_breakdown (left right : ScoreBreakdown) : ScoreBreakdown :=
  {| mev_component := sat_add u32_max (mev_component left) (mev_component right);
     urgency_component := sat_add u32_max (urgency_component left) (urgency_component right);
     structural_component := sat_add u32_max (structural_component left) (structural_component right);
     strategy_bonus :=
       sat_add u32_max (sat_add u32_max (strategy_bonus left) (strategy_bonus right)) 400 |}.

(** The [continue] conditions of the pair loop. *)
Definition bundle_pair_ok (left right : BundleInput) : bool :=
  bool_decide (bi_sender left = bi_sender right)
  && (bi_nonce right =? sat_add u64_max (bi_nonce left) 1)%N
  && bool_decide (oc_protocol (bi_candidate left) = oc_protocol (bi_candidate right))
  && bool_decide (oc_category (bi_candidate left) = oc_category (bi_candidate right)).

Definition bundle_of (left right : BundleInput) : OpportunityCandidate :=
  let lc := bi_candidate left in
  let rc := bi_candidate right in
  let breakdown := bundle_breakdown (oc_breakdown lc) (oc_breakdown rc) in
  {| oc_tx_hash := oc_tx_hash lc;
     oc_member_tx_hashes := [oc_tx_hash lc; oc_tx_hash rc];
     oc_strategy := BundleCandidate;
     oc_feature_engine_version := feature_engine_version;
     oc_scorer_version := scorer_version;
     oc_strategy_version := strategy_version BundleCandidate;
     oc_score := breakdown_total breakdown;
     oc_protocol := oc_protocol lc;
     oc_category := oc_category lc;
     oc_breakdown := breakdown;
     oc_reasons :=
       ["bundle_size=2";
        "contiguous_nonces=" +:+ pretty (bi_nonce left) +:+ ".." +:+ pretty (bi_nonce right);
        "member_hashes=" +:+ debug_bytes (hash_bytes (oc_tx_hash lc)) +:+ "+" +:+
          debug_bytes (hash_bytes (oc_tx_hash rc));
        "member_scores=" +:+ pretty (oc_score lc) +:+ "+" +:+ pretty (oc_score rc);
        "bundle bonus=400"] |}.

(** [sorted.windows(2)] *)
Fixpoint bundle_pairs (sorted : list BundleInput) : list OpportunityCandidate :=
  match sorted with
  | l :: ((r :: _) as rest) =>
      (if bundle_pair_ok l r then [bundle_of l r] else []) ++ bundle_pairs rest
  | _ => []
  end.

Definition build_bundle_candidates (inputs : list BundleInput) : list OpportunityCandidate :=
  bundle_pairs (sort_by bundle_input_cmp inputs).

Definition ranked_input (config : SearcherConfig) (input : SearcherInputTx) :
    list OpportunityCandidate :=
  sort_by candidate_sort_key
    (rank_transaction (analyze_decoded_transaction (si_decoded input) (si_calldata input))
       (min_score config)).

(** The loop over the batch: the standalone candidates and the bundle inputs. *)
Definition batch_candidates (batch : list SearcherInputTx) (config : SearcherConfig) :
    list OpportunityCandidate :=
  batch ≫= ranked_input config.
Definition batch_bundle_inputs (batch : list SearcherInputTx) (config : SearcherConfig) :
    list BundleInput :=
  omap (fun input =>
      (fun top =>
         {| bi_sender := dec_sender (si_decoded input); bi_nonce := dec_nonce (si_decoded input);
            bi_candidate := top |}) <$> head (ranked_input config input)) batch.

Definition rank_opportunity_batch (batch : list SearcherInputTx) (config : SearcherConfig) :
    SearcherBatchResult :=
  let bundles := build_bundle_candidates (batch_bundle_inputs batch config) in
  let sorted := sort_by candidate_sort_key (batch_candidates batch config ++ bundles) in
  let generated := usize_of (length sorted) in
  let candidates := take (N.to_nat (max_candidates config)) sorted in
  {| sb_candidates := candidates;
     sb_metrics :=
       {| input_transactions := usize_of (length batch);
          generated_candidates := generated;
          returned_candidates := usize_of (length candidates);
          truncated_candidates := sat_sub generated (usize_of (length candidates));
          bundle_candidates_generated := usize_of (length bundles) |} |}.

(** ** Scores are exact *)
Definition components (b : ScoreBreakdown) : N :=
  (mev_component b + urgency_component b + structural_component b + strategy_bonus b)%N.

(** A candidate whose score is the plain sum of its components. *)
Definition standalone_ok (c : OpportunityCandidate) : Prop :=
  oc_score c = components (oc_breakdown c) /\ (components (oc_breakdown c) <= 15262)%N /\
  oc_strategy c <> BundleCandidate /\ oc_member_tx_hashes c = [oc_tx_hash c].

Lemma structural_bonus_bound featured : (structural_bonus featured <= 1012)%N.
Proof.
  unfold structural_bonus, add32, cast.
  set (a := N.min (ft_calldata_len featured) 512).
  set (g := N.min (default 0%N (ft_gas_limit featured)) 500000).
  rewrite (N.mod_small a), (N.mod_small g) by (unfold a, g; simpl; lia).
  assert (g / 1000 <= 500)%N by (apply N.Div0.div_le_upper_bound; unfold g; lia).
  rewrite N.mod_small; unfold a in *; simpl; lia.
Qed.

Lemma scored_ok k w u b tx calldata :
  (w <= 120)%N -> (u <= 25)%N -> (b <= 500)%N -> k <> BundleCandidate ->
  standalone_ok (scored k w u b (analyze_decoded_transaction tx calldata)).
Proof.
  intros Hw Hu Hb Hk. unfold scored, mk_candidate, analyze_decoded_transaction.
  set (input := mkFeatureInput _ _ _ _ _ _ _ _ _ _).
  set (ft := mkFeatured _ _ _ _ _ _).
  pose proof (mev_bound input) as Hm. pose proof (urgency_bound input) as Hur.
  pose proof (structural_bonus_bound ft) as Hs.
  unfold standalone_ok, components, breakdown_total, mul32, cast, sat_add, u32_max.
  cbn [oc_score oc_breakdown mev_component urgency_component structural_component strategy_bonus
       ft_analysis oc_strategy oc_member_tx_hashes oc_tx_hash ft].
  change (an_urgency_score (analyze_transaction input)) with (compute_urgency_score input).
  revert Hm Hur Hs. generalize (an_mev_score (analyze_transaction input)), (compute_urgency_score input).
  intros m ur Hm Hur Hs.
  assert (m * w <= 12000)%N by nia. assert (ur * u <= 1750)%N by nia.
  rewrite !N.mod_small by (simpl; lia). split; [lia|]. split; [lia|]. done.
Qed.

Lemma rank_transaction_ok tx calldata ms c :
  c ∈ rank_transaction (analyze_decoded_transaction tx calldata) ms ->
  standalone_ok c /\ (ms <= oc_score c)%N /\ oc_tx_hash c = dec_hash tx.
Proof.
  unfold rank_transaction. intros [Hms Hc]%list_elem_of_filter.
  assert (standalone_ok c /\ oc_tx_hash c = dec_hash tx) as [? ?]; [|done].
  apply list_elem_of_omap in Hc as (o & Ho & Hoc). unfold id in Hoc; subst o.
  assert (forall k w u b, (w <= 120)%N -> (u <= 25)%N -> (b <= 500)%N -> k <> BundleCandidate ->
            standalone_ok (scored k w u b (analyze_decoded_transaction tx calldata)) /\
            oc_tx_hash (scored k w u b (analyze_decoded_transaction tx calldata)) = dec_hash tx) as Hok.
  { intros. split; [by apply scored_ok|done]. }
  rewrite !elem_of_cons in Ho. destruct Ho as [Ho|[Ho|[Ho|Ho%not_elem_of_nil]]]; [| | |done].
  - unfold evaluate_sandwich_candidate in Ho. destruct (_ || _); [done|].
    destruct (_ && _); [done|]. injection Ho as ->. by apply Hok.
  - unfold evaluate_backrun_candidate in Ho. destruct (_ || _); [done|].
    injection Ho as ->. by apply Hok.
  - unfold evaluate_arb_candidate in Ho. destruct (_ || _); [done|].
    injection Ho as ->. by apply Hok.
Qed.

#[export] Instance candidate_sort_key_pre : CmpPre candidate_sort_key.
Proof.
  set (f c := (oc_score c, (strategy_rank (oc_strategy c), oc_tx_hash c))).
  change candidate_sort_key with
    (cmp_on f (cmp_pair (cmp_rev N.compare) (cmp_pair N.compare N.compare))). apply _.
Qed.

(** ** Bundles *)
Lemma elem_of_bundle_pairs l c :
  c ∈ bundle_pairs l ->
  exists a b, a ∈ l /\ b ∈ l /\ bundle_pair_ok a b = true /\ c = bundle_of a b.
Proof.
  induction l as [|a [|b l] IH]; [by intros ?%not_elem_of_nil..|].
  change (bundle_pairs (a :: b :: l)) with
    ((if bundle_pair_ok a b then [bundle_of a b] else []) ++ bundle_pairs (b :: l)).
  intros [Hc|Hc]%elem_of_app.
  - destruct (bundle_pair_ok a b) eqn:E; [|by apply not_elem_of_nil in Hc].
    apply list_elem_of_singleton in Hc as ->. exists a, b. repeat split; auto; repeat constructor.
  - destruct (IH Hc) as (x & y & Hx & Hy & ? & ?). exists x, y. split; [by right|]. split; [by right|done].
Qed.

(** The best standalone candidate of one input of the batch. *)
Definition top_of (config : SearcherConfig) (input : SearcherInputTx) (c : OpportunityCandidate) :=
  head (ranked_input config input) = Some c.

Lemma ranked_input_ok config input c :
  c ∈ ranked_input config input ->
  standalone_ok c /\ (min_score config <= oc_score c)%N /\ oc_tx_hash c = dec_hash (si_decoded input).
Proof. unfold ranked_input. rewrite elem_of_sort_by. apply rank_transaction_ok. Qed.

Lemma bundle_inputs_ok batch config b :
  b ∈ batch_bundle_inputs batch config ->
  exists input, input ∈ batch /\ top_of config input (bi_candidate b) /\
    bi_sender b = dec_sender (si_decoded input) /\ bi_nonce b = dec_nonce (si_decoded input).
Proof.
  unfold batch_bundle_inputs. rewrite list_elem_of_omap. intros (input & Hin & Hb).
  apply fmap_Some in Hb as (top & Htop & ->). exists input. done.
Qed.

Lemma bundles_ok batch config c :
  c ∈ build_bundle_candidates (batch_bundle_inputs batch config) ->
  exists i1 i2 c1 c2, i1 ∈ batch /\ i2 ∈ batch /\ top_of config i1 c1 /\ top_of config i2 c2 /\
    dec_sender (si_decoded i1) = dec_sender (si_decoded i2) /\
    dec_nonce (si_decoded i2) = sat_add u64_max (dec_nonce (si_decoded i1)) 1 /\
    oc_protocol c1 = oc_protocol c2 /\ oc_category c1 = oc_category c2 /\
    oc_member_tx_hashes c = [dec_hash (si_decoded i1); dec_hash (si_decoded i2)] /\
    oc_strategy c = BundleCandidate /\
    oc_score c = (oc_score c1 + oc_score c2 + 400)%N.
Proof.
  unfold build_bundle_candidates. intros (a & b & Ha & Hb & Hok & ->)%elem_of_bundle_pairs.
  rewrite elem_of_sort_by in Ha, Hb.
  apply bundle_inputs_ok in Ha as (i1 & Hi1 & Ht1 & Hs1 & Hn1).
  apply bundle_inputs_ok in Hb as (i2 & Hi2 & Ht2 & Hs2 & Hn2).
  unfold bundle_pair_ok in Hok. rewrite !andb_true_iff, !bool_decide_eq_true, N.eqb_eq in Hok.
  destruct Hok as [[[Hs Hn] Hp] Hc].
  destruct (ranked_input_ok config i1 (bi_candidate a)) as ((E1 & B1 & _) & _ & H1);
    [by apply head_Some_elem_of|].
  destruct (ranked_input_ok config i2 (bi_candidate b)) as ((E2 & B2 & _) & _ & H2);
    [by apply head_Some_elem_of|].
  exists i1, i2, (bi_candidate a), (bi_candidate b).
  rewrite <-Hs1, <-Hs2, <-Hn1, <-Hn2. do 8 (split; [done|]).
  unfold bundle_of; cbn [oc_member_tx_hashes oc_strategy oc_score]. rewrite H1, H2.
  split; [done|]. split; [done|]. rewrite E1, E2. unfold components in *.
  unfold breakdown_total, bundle_breakdown, sat_add, u32_max;
    cbn [mev_component urgency_component structural_component strategy_bonus]. lia.
Qed.

Lemma generated_min_score batch config c :
  c ∈ batch_candidates batch config ++ build_bundle_candidates (batch_bundle_inputs batch config) ->
  (min_score config <= oc_score c)%N.
Proof.
  intros [Hc|Hc]%elem_of_app.
  - apply list_elem_of_bind in Hc as (input & Hc & _). by apply ranked_input_ok in Hc as (_ & ? & _).
  - apply bundles_ok in Hc as (i1 & i2 & c1 & c2 & _ & _ & Ht & _ & _ & _ & _ & _ & _ & _ & ->).
    destruct (ranked_input_ok config i1 c1) as (_ & ? & _); [by apply head_Some_elem_of|lia].
Qed.

(** The ranking of a batch.  The returned candidates and the truncated
    ones together are exactly the generated ones, sorted by score (descending),
    strategy and hash, so nothing dropped outranks anything returned; at most
    [max_candidates] are returned, the metrics count each group exactly, and
    every candidate, bundles included, reaches the configured minimum score. *)
Theorem ranking_exact batch config :
  let r := rank_opportunity_batch batch config in
  exists dropped,
    sb_candidates r ++ dropped ≡ₚ
      batch_candidates batch config ++ build_bundle_candidates (batch_bundle_inputs batch config) /\
    StronglySorted (cmp_le candidate_sort_key) (sb_candidates r ++ dropped) /\
    (usize_of (length (sb_candidates r)) =
       N.min (max_candidates config) (generated_candidates (sb_metrics r)))%N /\
    generated_candidates (sb_metrics r) = usize_of (length (sb_candidates r ++ dropped)) /\
    truncated_candidates (sb_metrics r) = usize_of (length dropped) /\
    returned_candidates (sb_metrics r) = usize_of (length (sb_candidates r)) /\
    Forall (fun c => min_score config <= oc_score c)%N (sb_candidates r ++ dropped).
Proof.
  cbn zeta. unfold rank_opportunity_batch; cbn [sb_candidates sb_metrics generated_candidates
    truncated_candidates returned_candidates].
  set (all := batch_candidates batch config ++ _).
  set (sorted := sort_by candidate_sort_key all).
  exists (drop (N.to_nat (max_candidates config)) sorted). rewrite take_drop.
  split; [apply sort_by_perm|]. split; [apply (sort_by_sorted candidate_sort_key)|].
  unfold usize_of, sat_sub. rewrite length_take, length_drop.
  split; [lia|]. split; [done|]. split; [lia|]. split; [done|].
  apply Forall_forall. intros c Hc. unfold sorted in Hc. rewrite elem_of_sort_by in Hc.
  by apply (generated_min_score batch).
Qed.

(** C26: bundles are sound.  A bundle candidate joins the best standalone
    candidates of two transactions of the batch with the same sender, the
    second nonce following the first (saturating), the same protocol and the
    same category; its members are their two hashes in nonce order, and its
    score is the sum of their scores plus the bonus of 400, without
    saturation. *)
Theorem bundle_sound batch config c
  (Hc : c ∈ sb_candidates (rank_opportunity_batch batch config))
  (Hb : oc_strategy c = BundleCandidate) :
  exists i1 i2 c1 c2, i1 ∈ batch /\ i2 ∈ batch /\ top_of config i1 c1 /\ top_of config i2 c2 /\
    dec_sender (si_decoded i1) = dec_sender (si_decoded i2) /\
    dec_nonce (si_decoded i2) = sat_add u64_max (dec_nonce (si_decoded i1)) 1 /\
    oc_protocol c1 = oc_protocol c2 /\ oc_category c1 = oc_category c2 /\
    oc_member_tx_hashes c = [dec_hash (si_decoded i1); dec_hash (si_decoded i2)] /\
    oc_score c = (oc_score c1 + oc_score c2 + 400)%N.
Proof.
  apply elem_of_take in Hc as (i & Hc & _). apply list_elem_of_lookup_2 in Hc.
  rewrite elem_of_sort_by, elem_of_app in Hc. destruct Hc as [Hc|Hc].
  - apply list_elem_of_bind in Hc as (input & Hc & _).
    by apply ranked_input_ok in Hc as ((_ & _ & ? & _) & _).
  - apply bundles_ok in Hc as (i1 & i2 & c1 & c2 & ? & ? & ? & ? & ? & ? & ? & ? & ? & _ & ?).
    exists i1, i2, c1, c2. done.
Qed.

(** Two consecutive swaps of one sender on the Uniswap v2 router. *)
Definition sample_swap (hash nonce : N) : SearcherInputTx :=
  {| si_decoded :=
       {| dec_hash := hash; dec_tx_type := 2; dec_sender := 5; dec_nonce := nonce;
          dec_chain_id := Some 1; dec_to := Some 0x7a250d5630b4cf539739df2c5dacb4c659f2488d;
          dec_value_wei := None; dec_gas_limit := Some 250000; dec_gas_price_wei := None;
          dec_max_fee_per_gas_wei := Some 65000000000;
          dec_max_priority_fee_per_gas_wei := Some 4000000000;
          dec_max_fee_per_blob_gas_wei := None; dec_calldata_len := None |};
     si_calldata := [0x38; 0xed; 0x17; 0x39; 0; 0; 0; 0] |}%N.

Definition sample_bundle : option OpportunityCandidate :=
  head (filter (fun c => oc_strategy c = BundleCandidate)
          (sb_candidates (rank_opportunity_batch [sample_swap 2 8; sample_swap 1 7]
                            searcher_config_default))).

Lemma bundle_sound_witness :
  exists c, sample_bundle = Some c /\ oc_member_tx_hashes c = [1; 2]%N /\
    exists i1 i2 c1 c2, i1 ∈ [sample_swap 2 8; sample_swap 1 7] /\
      i2 ∈ [sample_swap 2 8; sample_swap 1 7] /\ top_of searcher_config_default i1 c1 /\
      top_of searcher_config_default i2 c2 /\
      dec_sender (si_decoded i1) = dec_sender (si_decoded i2) /\
      dec_nonce (si_decoded i2) = sat_add u64_max (dec_nonce (si_decoded i1)) 1 /\
      oc_protocol c1 = oc_protocol c2 /\ oc_category c1 = oc_category c2 /\
      oc_member_tx_hashes c = [dec_hash (si_decoded i1); dec_hash (si_decoded i2)] /\
      oc_score c = (oc_score c1 + oc_score c2 + 400)%N.
Proof.
  destruct sample_bundle as [c|] eqn:E; [|vm_compute in E; discriminate].
  exists c. split; [done|]. split.
  - assert (oc_member_tx_hashes <$> sample_bundle = Some [1; 2]%N) as Hm by (vm_compute; reflexivity).
    rewrite E in Hm. by injection Hm.
  - apply (bundle_sound [sample_swap 2 8; sample_swap 1 7] searcher_config_default c).
    + unfold sample_bundle in E. apply head_Some_elem_of in E.
      by apply list_elem_of_filter in E as [_ E].
    + unfold sample_bundle in E. apply head_Some_elem_of in E.
      by apply list_elem_of_filter in E as [E _].
Defined.
