(* ===== verification/Assembly.v ===== *)
(** * Assembly: the candidate set of the block under construction
    (crates/builder/src/assembly.rs)

    [AssemblyEngine] with its metrics, the construction of candidates from
    simulation results, and the relay template.  The clock that times a
    decision and SHA-256 are parameters. *)
From stdpp Require Import base gmap strings list numbers sorting.
From S2P Require Import Prelude Common EventLog Simulation Features Searcher.

Inductive AssemblyCandidateKind := KindTransaction | KindBundle.

Record SimulationApproval := mkApproval {
  sim_id : string;
  sim_block_number : N;
  sim_approved : bool;
}.

Record AssemblyCandidate := mkAssemblyCandidate {
  ac_candidate_id : string;
  ac_tx_hashes : list TxHash;
  ac_priority_score : N;
  ac_gas_used : N;
  ac_kind : AssemblyCandidateKind;
  ac_simulation : SimulationApproval;
}.

Inductive AssemblyCandidateBuildError := MissingSimulationResult (tx_hash : TxHash).

(** [{:?}] of a [StrategyKind]. *)
Definition strategy_debug (k : StrategyKind) : string :=
  match k with
  | SandwichCandidate => "SandwichCandidate"
  | BackrunCandidate => "BackrunCandidate"
  | ArbCandidate => "ArbCandidate"
  | BundleCandidate => "BundleCandidate"
  end.

Definition assembly_kind (strategy : StrategyKind) (member_count : N) : AssemblyCandidateKind :=
  if bool_decide (strategy = BundleCandidate) || (1 <? member_count)%N then KindBundle
  else KindTransaction.

(** The loop over the member hashes, from [approved] and [gas_used]. *)
Fixpoint join_results (results : list TxSimulationResult) (tx_hashes : list TxHash)
    (approved : bool) (gas_used : N) : (bool * N) + AssemblyCandidateBuildError :=
  match tx_hashes with
  | [] => inl (approved, gas_used)
  | tx_hash :: tx_hashes' =>
      match head (filter (fun r => sr_hash r = tx_hash) results) with
      | None => inr (MissingSimulationResult tx_hash)
      | Some result =>
          join_results results tx_hashes' (approved && sr_success result)
            (sat_add u64_max gas_used (sr_gas_used result))
      end
  end.

Definition from_simulated_opportunity (opportunity : OpportunityCandidate)
    (simulation : SimulationBatchResult) : AssemblyCandidate + AssemblyCandidateBuildError :=
  let tx_hashes :=
    match oc_member_tx_hashes opportunity with
    | [] => [oc_tx_hash opportunity]
    | members => members
    end in
  match join_results (sbr_tx_results simulation) tx_hashes true 0 with
  | inr e => inr e
  | inl (approved, gas_used) =>
      inl {| ac_candidate_id := strategy_debug (oc_strategy opportunity) +:+ ":0x" +:+
               hex_encode (hash_bytes (oc_tx_hash opportunity));
             ac_tx_hashes := tx_hashes;
             ac_priority_score := oc_score opportunity;
             ac_gas_used := gas_used;
             ac_kind := assembly_kind (oc_strategy opportunity)
                          (usize_of (length (oc_member_tx_hashes opportunity)));
             ac_simulation :=
               {| sim_id := "0x" +:+ hex_encode (hash_bytes (sbr_final_state_diff_hash simulation));
                  sim_block_number := cc_block_number (sbr_chain_context simulation);
                  sim_approved := approved |} |}
  end.

Record AssemblyConfig := mkAssemblyConfig { block_gas_limit : N }.
Definition assembly_config_default : AssemblyConfig := {| block_gas_limit := 30000000 |}.

Record AssemblyObjective := mkObjective {
  obj_total_priority_score : N;
  obj_total_gas_used : N;
  obj_total_candidates : N;
}.
Definition objective_default : AssemblyObjective := mkObjective 0 0 0.

Record AssemblySnapshot := mkAssemblySnapshot {
  as_candidates : list AssemblyCandidate;
  as_objective : AssemblyObjective;
}.

Record AssemblyMetrics := mkAssemblyMetrics {
  inserted_total : N;
  replaced_total : N;
  rejected_total : N;
  rejected_simulation_not_approved_total : N;
  rejected_objective_not_improved_total : N;
  rejected_gas_limit_total : N;
  rollback_total : N;
  active_candidate_total : N;
  total_priority_score : N;
  total_gas_used : N;
  last_decision_latency_ns : N;
  max_decision_latency_ns : N;
  total_decision_latency_ns : N;
}.
Definition assembly_metrics_default : AssemblyMetrics :=
  mkAssemblyMetrics 0 0 0 0 0 0 0 0 0 0 0 0 0.

Record RelayBuildContext := mkRelayContext {
  rc_slot : N;
  rc_parent_hash : string;
  rc_builder_pubkey : string;
}.

Record BlockTemplate := mkTemplate {
  bt_slot : N;
  bt_parent_hash : string;
  bt_block_hash : string;
  bt_builder_pubkey : string;
  bt_tx_count : N;
  bt_gas_used : N;
}.

Inductive AssemblyDecision :=
  | Inserted (candidate_id : string) (replaced_candidate_ids : list string)
  | Rejected (candidate_id : string) (reason : string).
Inductive AssemblyRollbackDecision :=
  | RolledBack (candidate_id : string)
  | NotFound (candidate_id : string).
Inductive RejectionReason :=
  | SimulationNotApproved | ObjectiveNotImproved | BlockGasLimitExceeded.
Definition rejection_as_str (r : RejectionReason) : string :=
  match r with
  | SimulationNotApproved => "simulation_not_approved"
  | ObjectiveNotImproved => "objective_not_improved"
  | BlockGasLimitExceeded => "block_gas_limit_exceeded"
  end.

Record AssemblyEngine := mkEngine {
  en_config : AssemblyConfig;
  en_candidates : list AssemblyCandidate;
  en_metrics : AssemblyMetrics;
}.
Definition engine_new (config : AssemblyConfig) : AssemblyEngine :=
  mkEngine config [] assembly_metrics_default.

Definition set_engine_candidates l (e : AssemblyEngine) : AssemblyEngine :=
  mkEngine (en_config e) l (en_metrics e).
Definition set_engine_metrics m (e : AssemblyEngine) : AssemblyEngine :=
  mkEngine (en_config e) (en_candidates e) m.

(** ** Objective *)
Definition objective_step (objective : AssemblyObjective) (c : AssemblyCandidate) :
    AssemblyObjective :=
  {| obj_total_priority_score := sat_add u64_max (obj_total_priority_score objective) (ac_priority_score c);
     obj_total_gas_used := sat_add u64_max (obj_total_gas_used objective) (ac_gas_used c);
     obj_total_candidates := sat_add u64_max (obj_total_candidates objective) 1 |}.
Definition compute_objective (candidates : list AssemblyCandidate) : AssemblyObjective :=
  foldl objective_step objective_default candidates.

Definition refresh_live_metrics (e : AssemblyEngine) : AssemblyEngine :=
  let objective := compute_objective (en_candidates e) in
  let m := en_metrics e in
  set_engine_metrics
    (mkAssemblyMetrics (inserted_total m) (replaced_total m) (rejected_total m)
       (rejected_simulation_not_approved_total m) (rejected_objective_not_improved_total m)
       (rejected_gas_limit_total m) (rollback_total m) (usize_of (length (en_candidates e)))
       (obj_total_priority_score objective) (obj_total_gas_used objective)
       (last_decision_latency_ns m) (max_decision_latency_ns m) (total_decision_latency_ns m)) e.

Definition live_objective (e : AssemblyEngine) : AssemblyObjective :=
  {| obj_total_priority_score := total_priority_score (en_metrics e);
     obj_total_gas_used := total_gas_used (en_metrics e);
     obj_total_candidates := active_candidate_total (en_metrics e) |}.

(** ** Decisions *)
Definition reject (candidate_id : string) (reason : RejectionReason) (e : AssemblyEngine) :
    AssemblyDecision * AssemblyEngine :=
  let m := en_metrics e in
  let up (r : RejectionReason) (n : N) :=
    match reason, r with
    | SimulationNotApproved, SimulationNotApproved
    | ObjectiveNotImproved, ObjectiveNotImproved
    | BlockGasLimitExceeded, BlockGasLimitExceeded => sat_add u64_max n 1
    | _, _ => n
    end in
  (Rejected candidate_id (rejection_as_str reason),
   set_engine_metrics
     (mkAssemblyMetrics (inserted_total m) (replaced_total m) (sat_add u64_max (rejected_total m) 1)
        (up SimulationNotApproved (rejected_simulation_not_approved_total m))
        (up ObjectiveNotImproved (rejected_objective_not_improved_total m))
        (up BlockGasLimitExceeded (rejected_gas_limit_total m)) (rollback_total m)
        (active_candidate_total m) (total_priority_score m) (total_gas_used m)
        (last_decision_latency_ns m) (max_decision_latency_ns m) (total_decision_latency_ns m)) e).

Definition candidates_conflict (left right : AssemblyCandidate) : bool :=
  existsb (fun h => bool_decide (h ∈ ac_tx_hashes right)) (ac_tx_hashes left).

(** The conflicting entries with their indices, in order. *)
Definition conflicts_of (candidates : list AssemblyCandidate) (candidate : AssemblyCandidate) :
    list (nat * AssemblyCandidate) :=
  filter (fun ic => candidates_conflict ic.2 candidate = true) (imap pair candidates).

Definition insert_inner (candidate : AssemblyCandidate) (e : AssemblyEngine) :
    AssemblyDecision * AssemblyEngine :=
  if negb (sim_approved (ac_simulation candidate))
  then reject (ac_candidate_id candidate) SimulationNotApproved e
  else
    let conflicts := conflicts_of (en_candidates e) candidate in
    let replaced_candidate_ids := (fun ic => ac_candidate_id ic.2) <$> conflicts in
    let conflicted_priority_score :=
      foldl (fun acc ic => sat_add u64_max acc (ac_priority_score ic.2)) 0%N conflicts in
    let conflicted_gas_used :=
      foldl (fun acc ic => sat_add u64_max acc (ac_gas_used ic.2)) 0%N conflicts in
    if negb (bool_decide (replaced_candidate_ids = []))
       && (ac_priority_score candidate <=? conflicted_priority_score)%N
    then reject (ac_candidate_id candidate) ObjectiveNotImproved e
    else
      let next_gas_used :=
        sat_add u64_max (sat_sub (obj_total_gas_used (live_objective e)) conflicted_gas_used)
          (ac_gas_used candidate) in
      if (block_gas_limit (en_config e) <? next_gas_used)%N
      then reject (ac_candidate_id candidate) BlockGasLimitExceeded e
      else
        (* [for (index, ..) in conflicts.into_iter().rev() { remove(index) }] *)
        let kept := foldr (fun ic l => delete ic.1 l) (en_candidates e) conflicts in
        let m := en_metrics e in
        let m' :=
          mkAssemblyMetrics (sat_add u64_max (inserted_total m) 1)
            (sat_add u64_max (replaced_total m) (usize_of (length replaced_candidate_ids)))
            (rejected_total m) (rejected_simulation_not_approved_total m)
            (rejected_objective_not_improved_total m) (rejected_gas_limit_total m)
            (rollback_total m) (active_candidate_total m) (total_priority_score m)
            (total_gas_used m) (last_decision_latency_ns m) (max_decision_latency_ns m)
            (total_decision_latency_ns m) in
        (Inserted (ac_candidate_id candidate) replaced_candidate_ids,
         refresh_live_metrics (mkEngine (en_config e) (kept ++ [candidate]) m')).

Definition remove_candidate_inner (candidate_id : string) (e : AssemblyEngine) :
    AssemblyRollbackDecision * AssemblyEngine :=
  match list_find (fun c => ac_candidate_id c = candidate_id) (en_candidates e) with
  | None => (NotFound candidate_id, e)
  | Some (index, _) =>
      let m := en_metrics e in
      let m' :=
        mkAssemblyMetrics (inserted_total m) (replaced_total m) (rejected_total m)
          (rejected_simulation_not_approved_total m) (rejected_objective_not_improved_total m)
          (rejected_gas_limit_total m) (sat_add u64_max (rollback_total m) 1)
          (active_candidate_total m) (total_priority_score m) (total_gas_used m)
          (last_decision_latency_ns m) (max_decision_latency_ns m) (total_decision_latency_ns m) in
      (RolledBack candidate_id,
       refresh_live_metrics (mkEngine (en_config e) (delete index (en_candidates e)) m'))
  end.

Definition record_decision_latency (elapsed_ns : N) (e : AssemblyEngine) : AssemblyEngine :=
  let latency_ns := N.min (N.max elapsed_ns 1) u64_max in
  let m := en_metrics e in
  set_engine_metrics
    (mkAssemblyMetrics (inserted_total m) (replaced_total m) (rejected_total m)
       (rejected_simulation_not_approved_total m) (rejected_objective_not_improved_total m)
       (rejected_gas_limit_total m) (rollback_total m) (active_candidate_total m)
       (total_priority_score m) (total_gas_used m) latency_ns
       (N.max (max_decision_latency_ns m) latency_ns)
       (sat_add u64_max (total_decision_latency_ns m) latency_ns)) e.

(** [insert] and [remove_candidate]; [elapsed_ns] is what the clock measured. *)
Definition assembly_insert (candidate : AssemblyCandidate) (elapsed_ns : N) (e : AssemblyEngine) :
    AssemblyDecision * AssemblyEngine :=
  let '(decision, e') := insert_inner candidate e in
  (decision, record_decision_latency elapsed_ns e').
Definition remove_candidate (candidate_id : string) (elapsed_ns : N) (e : AssemblyEngine) :
    AssemblyRollbackDecision * AssemblyEngine :=
  let '(decision, e') := remove_candidate_inner candidate_id e in
  (decision, record_decision_latency elapsed_ns e').

Definition assembly_snapshot (e : AssemblyEngine) : AssemblySnapshot :=
  {| as_candidates := en_candidates e; as_objective := live_objective e |}.

(** ** Relay template *)
Definition block_hash_bytes (context : RelayBuildContext) (candidates : list AssemblyCandidate) :
    list N :=
  le_bytes 8 (rc_slot context) ++ str_bytes (rc_parent_hash context) ++
    str_bytes (rc_builder_pubkey context) ++
    (candidates ≫= fun c =>
       str_bytes (ac_candidate_id c) ++ le_bytes 4 (ac_priority_score c) ++
         le_bytes 8 (ac_gas_used c) ++ (ac_tx_hashes c ≫= hash_bytes)).

Section template.
Context (sha256 : list N -> list N).

Definition compute_block_hash (context : RelayBuildContext) (candidates : list AssemblyCandidate) :
    string :=
  "0x" +:+ hex_encode (sha256 (block_hash_bytes context candidates)).

Definition build_relay_template (context : RelayBuildContext) (e : AssemblyEngine) :
    option BlockTemplate :=
  match en_candidates e with
  | [] => None
  | candidates =>
      let objective := live_objective e in
      let tx_count :=
        foldl (fun acc c => sat_add u32_max acc (cast 32 (usize_of (length (ac_tx_hashes c)))))
          0%N candidates in
      Some {| bt_slot := rc_slot context; bt_parent_hash := rc_parent_hash context;
              bt_block_hash := compute_block_hash context candidates;
              bt_builder_pubkey := rc_builder_pubkey context; bt_tx_count := tx_count;
              bt_gas_used := obj_total_gas_used objective |}
  end.
End template.
