(* ===== verification/AssemblyProps.v ===== *)
(** * Assembly: what the engine promises

    The abstract specification of the candidate set ([set_insert],
    [set_remove]: unbounded sums and a filter, no indices and no counters),
    the refinement of [insert] and [remove_candidate] to it, and the
    invariants of every reachable engine. *)
From stdpp Require Import base gmap strings list numbers sorting.
From S2P Require Import Prelude Common EventLog Features Searcher Assembly.

Fixpoint sum_of {A} (f : A -> N) (l : list A) : N :=
  match l with [] => 0%N | x :: l' => (f x + sum_of f l')%N end.

Lemma sum_of_app {A} (f : A -> N) l1 l2 : sum_of f (l1 ++ l2) = (sum_of f l1 + sum_of f l2)%N.
Proof. induction l1; cbn; [done|]. rewrite IHl1. lia. Qed.

Lemma sum_of_Permutation {A} (f : A -> N) l1 l2 : l1 ≡ₚ l2 -> sum_of f l1 = sum_of f l2.
Proof. induction 1; cbn; lia. Qed.

Lemma sum_of_fmap {A B} (f : B -> N) (g : A -> B) l : sum_of f (g <$> l) = sum_of (f ∘ g) l.
Proof. induction l; cbn; [done|]. by rewrite IHl. Qed.

(** A saturating fold is the exact sum, capped. *)
Lemma foldl_sat_sum {A} (f : A -> N) max l acc :
  (acc <= max)%N ->
  foldl (fun a x => sat_add max a (f x)) acc l = N.min (acc + sum_of f l) max.
Proof.
  revert acc. induction l as [|x l IH]; intros acc Hacc; cbn; [lia|].
  rewrite IH by apply sat_add_le. int_lia.
Qed.

(** Deleting the positions that satisfy a predicate, last first, filters. *)
Lemma delete_indices_filter {A} (P : A -> Prop) `{!forall x, Decision (P x)} (l : list A) :
  foldr (fun ic l => delete ic.1 l) l (filter (fun ic => P ic.2) (imap pair l)) =
  filter (fun x => ~ P x) l.
Proof.
  set (rm := fun (ic : nat * A) (l : list A) => delete ic.1 l).
  assert (forall (l' : list (nat * A)) (x : A) (m : list A),
    foldr rm (x :: m) ((fun ic => (S ic.1, ic.2)) <$> l') = x :: foldr rm m l') as Hshift.
  { intros l' x m. induction l' as [|ic l' IH]; [done|]. cbn. by rewrite IH. }
  induction l as [|x l IH]; [done|]. rewrite imap_cons.
  assert (filter (fun ic => P ic.2) (imap (pair ∘ S) l) =
    (fun ic => (S ic.1, ic.2)) <$> filter (fun ic => P ic.2) (imap pair l)) as Hf.
  { assert (imap (pair ∘ S) l = (fun ic => (S ic.1, ic.2)) <$> imap pair l) as ->
      by (rewrite fmap_imap; by apply imap_ext).
    exact (filter_fmap (fun ic => P ic.2) (fun ic => (S ic.1, ic.2)) (imap pair l)). }
  rewrite !filter_cons. cbn [snd]. rewrite Hf.
  destruct (decide (P x)); [rewrite decide_False by tauto|rewrite decide_True by done].
  - cbn. rewrite Hshift. cbn. apply IH.
  - rewrite Hshift. by rewrite IH.
Qed.

Lemma leb_min a b max : (a <= max)%N -> (a <=? N.min b max)%N = (a <=? b)%N.
Proof. intros. apply eq_bool_prop_intro. rewrite !Is_true_true, !N.leb_le. lia. Qed.

Lemma ltb_sat_add max limit a b :
  (limit < max)%N -> (limit <? sat_add max a b)%N = (limit <? a + b)%N.
Proof.
  intros. unfold sat_add. apply eq_bool_prop_intro. rewrite !Is_true_true, !N.ltb_lt. lia.
Qed.

(** ** The specification *)
Definition clashes (candidate : AssemblyCandidate) (l : list AssemblyCandidate) :=
  filter (fun c => candidates_conflict c candidate = true) l.
Definition survivors (candidate : AssemblyCandidate) (l : list AssemblyCandidate) :=
  filter (fun c => ~ candidates_conflict c candidate = true) l.

Definition set_insert (limit : N) (candidate : AssemblyCandidate) (l : list AssemblyCandidate) :
    AssemblyDecision * list AssemblyCandidate :=
  let id := ac_candidate_id candidate in
  if negb (sim_approved (ac_simulation candidate))
  then (Rejected id "simulation_not_approved", l)
  else if negb (bool_decide (clashes candidate l = []))
          && (ac_priority_score candidate <=? sum_of ac_priority_score (clashes candidate l))%N
  then (Rejected id "objective_not_improved", l)
  else if (limit <? sum_of ac_gas_used (survivors candidate l) + ac_gas_used candidate)%N
  then (Rejected id "block_gas_limit_exceeded", l)
  else (Inserted id (ac_candidate_id <$> clashes candidate l), survivors candidate l ++ [candidate]).

Definition set_remove (candidate_id : string) (l : list AssemblyCandidate) :
    AssemblyRollbackDecision * list AssemblyCandidate :=
  match list_find (fun c => ac_candidate_id c = candidate_id) l with
  | None => (NotFound candidate_id, l)
  | Some (index, _) => (RolledBack candidate_id, delete index l)
  end.

(** ** The engine's own consistency *)
Record engine_ok (e : AssemblyEngine) : Prop := {
  eo_limit : (block_gas_limit (en_config e) < u64_max)%N;
  eo_gas : (sum_of ac_gas_used (en_candidates e) <= block_gas_limit (en_config e))%N;
  eo_live_gas : total_gas_used (en_metrics e) = sum_of ac_gas_used (en_candidates e);
  eo_live_score : total_priority_score (en_metrics e) =
    N.min (sum_of ac_priority_score (en_candidates e)) u64_max;
  eo_live_count : active_candidate_total (en_metrics e) = usize_of (length (en_candidates e));
}.

Lemma compute_objective_exact l :
  compute_objective l =
  {| obj_total_priority_score := N.min (sum_of ac_priority_score l) u64_max;
     obj_total_gas_used := N.min (sum_of ac_gas_used l) u64_max;
     obj_total_candidates := N.min (usize_of (length l)) u64_max |}.
Proof.
  unfold compute_objective.
  assert (forall o, (obj_total_priority_score o <= u64_max)%N -> (obj_total_gas_used o <= u64_max)%N ->
    (obj_total_candidates o <= u64_max)%N ->
    foldl objective_step o l =
    {| obj_total_priority_score := N.min (obj_total_priority_score o + sum_of ac_priority_score l) u64_max;
       obj_total_gas_used := N.min (obj_total_gas_used o + sum_of ac_gas_used l) u64_max;
       obj_total_candidates := N.min (obj_total_candidates o + usize_of (length l)) u64_max |}) as H.
  { induction l as [|c l IH]; intros o H1 H2 H3; cbn.
    - destruct o; cbn in *. f_equal; int_lia.
    - rewrite IH by apply sat_add_le. cbn. unfold sat_add, usize_of. f_equal; lia. }
  rewrite H by (cbn; int_lia). cbn. f_equal; lia.
Qed.

Lemma refresh_ok cfg l m :
  (block_gas_limit cfg < u64_max)%N -> (sum_of ac_gas_used l <= block_gas_limit cfg)%N ->
  engine_ok (refresh_live_metrics (mkEngine cfg l m)).
Proof.
  intros Hl Hg. unfold refresh_live_metrics. cbn [en_candidates].
  rewrite compute_objective_exact. constructor; cbn; [done|done|lia|done..].
Qed.

Lemma record_decision_latency_ok ns e : engine_ok e -> engine_ok (record_decision_latency ns e).
Proof. intros []. by constructor. Qed.

Lemma reject_ok id r e : engine_ok e -> engine_ok (reject id r e).2.
Proof. intros []. by constructor. Qed.

Lemma survivors_clashes candidate l : clashes candidate l ++ survivors candidate l ≡ₚ l.
Proof.
  unfold clashes, survivors. induction l as [|c l IH]; [done|]. rewrite !filter_cons.
  destruct (decide (candidates_conflict c candidate = true)).
  - rewrite decide_False by tauto. cbn. by rewrite IH.
  - rewrite decide_True by done. by rewrite <-Permutation_middle, IH.
Qed.

Lemma split_sum f candidate l : (sum_of f (clashes candidate l) + sum_of f (survivors candidate l))%N = sum_of f l.
Proof. by rewrite <-sum_of_app, (sum_of_Permutation f _ _ (survivors_clashes candidate l)). Qed.

Lemma conflicts_of_snd l candidate : (snd <$> conflicts_of l candidate) = clashes candidate l.
Proof.
  unfold conflicts_of, clashes.
  etrans; [symmetry; exact (filter_fmap (fun c => candidates_conflict c candidate = true) snd
    (imap pair l))|].
  f_equal. rewrite fmap_imap. rewrite <-(list_fmap_id l) at 2. apply (imap_const id).
Qed.

(** ** Runs of the engine *)
Inductive AssemblyOp :=
  | OpInsert (candidate : AssemblyCandidate) (elapsed_ns : N)
  | OpRemove (candidate_id : string) (elapsed_ns : N).
Inductive AssemblyOutcome :=
  | OutDecision (d : AssemblyDecision)
  | OutRollback (d : AssemblyRollbackDecision).

Definition assembly_op (op : AssemblyOp) (e : AssemblyEngine) : AssemblyOutcome * AssemblyEngine :=
  match op with
  | OpInsert c ns => let '(d, e') := assembly_insert c ns e in (OutDecision d, e')
  | OpRemove id ns => let '(d, e') := remove_candidate id ns e in (OutRollback d, e')
  end.
Fixpoint run_assembly (ops : list AssemblyOp) (e : AssemblyEngine) :
    list AssemblyOutcome * AssemblyEngine :=
  match ops with
  | [] => ([], e)
  | op :: ops' =>
      let '(o, e') := assembly_op op e in
      let '(os, e'') := run_assembly ops' e' in (o :: os, e'')
  end.

(** The priority score is a [u32]. *)
Definition op_ok (op : AssemblyOp) : Prop :=
  match op with OpInsert c _ => (ac_priority_score c <= u32_max)%N | OpRemove _ _ => True end.

Definition set_op (limit : N) (op : AssemblyOp) (l : list AssemblyCandidate) :
    AssemblyOutcome * list AssemblyCandidate :=
  match op with
  | OpInsert c _ => let '(d, l') := set_insert limit c l in (OutDecision d, l')
  | OpRemove id _ => let '(d, l') := set_remove id l in (OutRollback d, l')
  end.
Fixpoint set_run (limit : N) (ops : list AssemblyOp) (l : list AssemblyCandidate) :
    list AssemblyOutcome * list AssemblyCandidate :=
  match ops with
  | [] => ([], l)
  | op :: ops' =>
      let '(o, l') := set_op limit op l in
      let '(os, l'') := set_run limit ops' l' in (o :: os, l'')
  end.

Lemma record_decision_latency_candidates ns e :
  en_candidates (record_decision_latency ns e) = en_candidates e /\
  en_config (record_decision_latency ns e) = en_config e.
Proof. done. Qed.

Lemma foldl_conflicts (f : AssemblyCandidate -> N) l candidate :
  foldl (fun acc (ic : nat * AssemblyCandidate) => sat_add u64_max acc (f ic.2)) 0%N
    (conflicts_of l candidate) = N.min (sum_of f (clashes candidate l)) u64_max.
Proof.
  rewrite (foldl_sat_sum (fun ic : nat * AssemblyCandidate => f ic.2)) by (int_lia).
  rewrite <-conflicts_of_snd, sum_of_fmap. done.
Qed.

Lemma insert_inner_spec candidate e :
  engine_ok e -> (ac_priority_score candidate <= u32_max)%N ->
  let r := insert_inner candidate e in
  set_insert (block_gas_limit (en_config e)) candidate (en_candidates e) = (r.1, en_candidates r.2) /\
  engine_ok r.2 /\ en_config r.2 = en_config e.
Proof.
  intros He Hu. pose proof He as []. unfold insert_inner, set_insert.
  destruct (sim_approved (ac_simulation candidate)); cbn [negb].
  2:{ split; [done|]. split; [by apply reject_ok|done]. }
  rewrite !foldl_conflicts.
  assert ((fun ic : nat * AssemblyCandidate => ac_candidate_id ic.2) <$> conflicts_of (en_candidates e) candidate
    = ac_candidate_id <$> clashes candidate (en_candidates e)) as ->.
  { rewrite <-conflicts_of_snd, <-list_fmap_compose. done. }
  pose proof (split_sum ac_gas_used candidate (en_candidates e)) as Hg.
  rewrite (bool_decide_ext (ac_candidate_id <$> clashes candidate (en_candidates e) = [])
    (clashes candidate (en_candidates e) = [])) by (split; [apply fmap_nil_inv|by intros ->]).
  assert ((ac_priority_score candidate <=?
      N.min (sum_of ac_priority_score (clashes candidate (en_candidates e))) u64_max)%N =
    (ac_priority_score candidate <=? sum_of ac_priority_score (clashes candidate (en_candidates e)))%N) as ->.
  { apply leb_min. int_lia. }
  destruct (negb _ && _) eqn:Eb.
  { split; [done|]. split; [by apply reject_ok|done]. }
  cbn [live_objective obj_total_gas_used]. rewrite eo_live_gas0.
  set (S := sum_of ac_gas_used (survivors candidate (en_candidates e))) in *.
  set (C := sum_of ac_gas_used (clashes candidate (en_candidates e))) in *.
  assert ((block_gas_limit (en_config e) <?
      sat_add u64_max (sat_sub (sum_of ac_gas_used (en_candidates e)) (N.min C u64_max))
        (ac_gas_used candidate))%N =
    (block_gas_limit (en_config e) <? S + ac_gas_used candidate)%N) as ->.
  { assert (sum_of ac_gas_used (en_candidates e) - N.min C u64_max = S)%N as <- by lia.
    apply ltb_sat_add. done. }
  destruct (N.ltb_spec (block_gas_limit (en_config e)) (S + ac_gas_used candidate)).
  { split; [done|]. split; [by apply reject_ok|done]. }
  assert (foldr (fun ic l => delete ic.1 l) (en_candidates e) (conflicts_of (en_candidates e) candidate)
    = survivors candidate (en_candidates e)) as ->.
  { exact (delete_indices_filter (fun c => candidates_conflict c candidate = true)
      (en_candidates e)). }
  split; [done|]. split; [|done]. apply refresh_ok; [done|]. rewrite sum_of_app. cbn. lia.
Qed.

Lemma sum_of_delete {A} (f : A -> N) l i x :
  l !! i = Some x -> sum_of f l = (f x + sum_of f (delete i l))%N.
Proof.
  intros Hi. by rewrite (sum_of_Permutation f l (x :: delete i l)) by (by apply delete_Permutation).
Qed.

Lemma remove_inner_spec candidate_id e :
  engine_ok e ->
  let r := remove_candidate_inner candidate_id e in
  set_remove candidate_id (en_candidates e) = (r.1, en_candidates r.2) /\
  engine_ok r.2 /\ en_config r.2 = en_config e.
Proof.
  intros He. pose proof He as []. unfold remove_candidate_inner, set_remove.
  destruct (list_find _ _) as [[i c]|] eqn:Ef; [|done].
  apply list_find_Some in Ef as (Hi & _).
  split; [done|]. split; [|done]. apply refresh_ok; [done|].
  rewrite (sum_of_delete _ _ _ _ Hi) in eo_gas0. lia.
Qed.

Lemma assembly_op_spec op e :
  engine_ok e -> op_ok op ->
  let r := assembly_op op e in
  set_op (block_gas_limit (en_config e)) op (en_candidates e) = (r.1, en_candidates r.2) /\
  engine_ok r.2 /\ en_config r.2 = en_config e.
Proof.
  intros He Hop. destruct op as [c ns|id ns]; cbn.
  - pose proof (insert_inner_spec c e He Hop) as (Hs & Hok & Hcfg). unfold assembly_insert.
    rewrite Hs. destruct (insert_inner c e) as [d e']. split; [done|].
    split; [by apply record_decision_latency_ok|done].
  - pose proof (remove_inner_spec id e He) as (Hs & Hok & Hcfg). unfold remove_candidate.
    rewrite Hs. destruct (remove_candidate_inner id e) as [d e']. split; [done|].
    split; [by apply record_decision_latency_ok|done].
Qed.

Lemma run_assembly_spec ops e :
  engine_ok e -> Forall op_ok ops ->
  let r := run_assembly ops e in
  set_run (block_gas_limit (en_config e)) ops (en_candidates e) = (r.1, en_candidates r.2) /\
  engine_ok r.2 /\ en_config r.2 = en_config e.
Proof.
  intros He Hops. revert e He. induction Hops as [|op ops Hop _ IH]; intros e He; [done|]. cbn.
  pose proof (assembly_op_spec op e He Hop) as (Hs & Hok & Hcfg). rewrite Hs.
  destruct (assembly_op op e) as [o e']. cbn in *.
  specialize (IH e' Hok). rewrite Hcfg in IH. destruct IH as (Hs' & Hok' & Hcfg'). rewrite Hs'.
  destruct (run_assembly ops e') as [os e'']. done.
Qed.

Lemma engine_new_ok config : (block_gas_limit config < u64_max)%N -> engine_ok (engine_new config).
Proof. intros. constructor; cbn; try done; lia. Qed.

(** ** The candidate set *)
Abbreviation compatible := (fun a b : AssemblyCandidate => candidates_conflict a b = false).

Record set_ok (limit : N) (l : list AssemblyCandidate) : Prop := {
  so_approved : Forall (fun c => sim_approved (ac_simulation c) = true) l;
  so_disjoint : StronglySorted compatible l;
  so_gas : (sum_of ac_gas_used l <= limit)%N;
}.

Lemma candidates_conflict_false a b :
  candidates_conflict a b = false <-> (forall h, h ∈ ac_tx_hashes a -> h ∉ ac_tx_hashes b).
Proof.
  unfold candidates_conflict. rewrite <-not_true_iff_false, existsb_exists. split.
  - intros Hn h Ha Hb. apply Hn. exists h. rewrite <-list_elem_of_In, bool_decide_eq_true. done.
  - intros Hd (h & Ha & Hb). apply list_elem_of_In in Ha. apply bool_decide_eq_true in Hb.
    by apply (Hd h).
Qed.

Lemma survivors_sublist candidate l : sublist (survivors candidate l) l.
Proof.
  unfold survivors. induction l as [|c l IH]; [done|]. rewrite filter_cons.
  case_decide; by constructor.
Qed.

Lemma set_ok_sublist limit l1 l2 : sublist l1 l2 -> set_ok limit l2 -> set_ok limit l1.
Proof.
  intros Hs []. constructor; [by eapply Forall_sublist|by eapply StronglySorted_sublist|].
  etrans; [|done]. clear -Hs. induction Hs; cbn; lia.
Qed.

Lemma set_insert_ok limit candidate l :
  set_ok limit l -> set_ok limit (set_insert limit candidate l).2.
Proof.
  intros Hl. unfold set_insert.
  destruct (sim_approved (ac_simulation candidate)) eqn:Ha; cbn [negb]; [|done].
  destruct (negb _ && _); [done|].
  destruct (N.ltb_spec limit (sum_of ac_gas_used (survivors candidate l) + ac_gas_used candidate));
    [done|].
  destruct (set_ok_sublist limit _ l (survivors_sublist candidate l) Hl) as [H1 H2 _].
  constructor; cbn [snd].
  - apply Forall_app. by repeat constructor.
  - apply StronglySorted_app. split_and!; [|done|by repeat constructor].
    intros x1 x2 H1' ->%list_elem_of_singleton.
    apply list_elem_of_filter in H1' as [Hc _]. by apply not_true_is_false.
  - rewrite sum_of_app. cbn. lia.
Qed.

Lemma set_remove_ok limit id l : set_ok limit l -> set_ok limit (set_remove id l).2.
Proof.
  intros Hl. unfold set_remove. destruct (list_find _ _) as [[i c]|]; [|done].
  eapply set_ok_sublist; [|done]. apply sublist_delete.
Qed.

Lemma set_run_ok limit ops l : set_ok limit l -> set_ok limit (set_run limit ops l).2.
Proof.
  revert l. induction ops as [|op ops IH]; intros l Hl; [done|]. cbn.
  assert (set_ok limit (set_op limit op l).2) as Ho.
  { destruct op as [c ns|id ns]; cbn.
    - pose proof (set_insert_ok limit c l Hl). by destruct (set_insert limit c l).
    - pose proof (set_remove_ok limit id l Hl). by destruct (set_remove id l). }
  destruct (set_op limit op l) as [o l']. specialize (IH l' Ho).
  by destruct (set_run limit ops l').
Qed.

Lemma set_ok_nil limit : set_ok limit [].
Proof. constructor; cbn; [done|constructor|lia]. Qed.

(** The engine after the operations [ops]. *)
Definition engine_after (config : AssemblyConfig) (ops : list AssemblyOp) : AssemblyEngine :=
  (run_assembly ops (engine_new config)).2.

Lemma engine_after_ok config ops :
  (block_gas_limit config < u64_max)%N -> Forall op_ok ops ->
  engine_ok (engine_after config ops) /\ en_config (engine_after config ops) = config /\
  set_ok (block_gas_limit config) (en_candidates (engine_after config ops)).
Proof.
  intros Hl Hops.
  destruct (run_assembly_spec ops (engine_new config) (engine_new_ok config Hl) Hops) as (Hs & Hok & Hc).
  split; [done|]. split; [done|].
  pose proof (set_run_ok (block_gas_limit config) ops [] (set_ok_nil _)) as H.
  cbn [engine_new en_candidates en_config] in Hs. rewrite Hs in H. exact H.
Qed.

(** ** Counters *)
Definition inserted_of (o : AssemblyOutcome) : N :=
  match o with OutDecision (Inserted _ _) => 1 | _ => 0 end.
Definition replaced_of (o : AssemblyOutcome) : N :=
  match o with OutDecision (Inserted _ ids) => usize_of (length ids) | _ => 0 end.
Definition rejected_of (o : AssemblyOutcome) : N :=
  match o with OutDecision (Rejected _ _) => 1 | _ => 0 end.
Definition rejected_for (reason : RejectionReason) (o : AssemblyOutcome) : N :=
  match o with
  | OutDecision (Rejected _ r) => if bool_decide (r = rejection_as_str reason) then 1 else 0
  | _ => 0
  end.
Definition rolled_back_of (o : AssemblyOutcome) : N :=
  match o with OutRollback (RolledBack _) => 1 | _ => 0 end.

(** The counters of the metrics, and what each of them counts. *)
Definition counters (e : AssemblyEngine) : list N :=
  let m := en_metrics e in
  [inserted_total m; replaced_total m; rejected_total m; rejected_simulation_not_approved_total m;
   rejected_objective_not_improved_total m; rejected_gas_limit_total m; rollback_total m].
Definition counted : list (AssemblyOutcome -> N) :=
  [inserted_of; replaced_of; rejected_of; rejected_for SimulationNotApproved;
   rejected_for ObjectiveNotImproved; rejected_for BlockGasLimitExceeded; rolled_back_of].

Lemma min_sat_add max a b s :
  N.min (sat_add max a b + s) max = N.min (a + (b + s)) max.
Proof. int_lia. Qed.

Lemma reject_counters id r e :
  Forall (fun n => n <= u64_max)%N (counters e) ->
  counters (reject id r e).2 =
    zip_with (fun n f => sat_add u64_max n (f (OutDecision (reject id r e).1))) (counters e) counted.
Proof.
  unfold counters. rewrite !Forall_cons. intros (? & ? & ? & ? & ? & ? & ? & _).
  destruct r; cbn; by rewrite !sat_add_0_r.
Qed.

Lemma assembly_op_counters op e :
  Forall (fun n => n <= u64_max)%N (counters e) ->
  counters (assembly_op op e).2 =
    zip_with (fun n f => sat_add u64_max n (f (assembly_op op e).1)) (counters e) counted.
Proof.
  intros Hc. destruct op as [c ns|id ns]; cbn [assembly_op].
  - unfold assembly_insert.
    assert (counters (insert_inner c e).2 = zip_with
      (fun n f => sat_add u64_max n (f (OutDecision (insert_inner c e).1))) (counters e) counted) as H.
    { unfold insert_inner. cbv zeta.
      destruct (negb (sim_approved (ac_simulation c))); [by apply reject_counters|].
      destruct (negb _ && _); [by apply reject_counters|].
      destruct (_ <? _)%N; [by apply reject_counters|].
      unfold counters in *. rewrite !Forall_cons in Hc. destruct Hc as (? & ? & ? & ? & ? & ? & ? & _).
      cbn. by rewrite !sat_add_0_r. }
    destruct (insert_inner c e) as [d e']. exact H.
  - unfold remove_candidate, remove_candidate_inner.
    unfold counters in *. rewrite !Forall_cons in Hc. destruct Hc as (? & ? & ? & ? & ? & ? & ? & _).
    destruct (list_find _ _) as [[i c]|]; cbn; by rewrite !sat_add_0_r.
Qed.

Lemma counters_bounded ns (fs : list (AssemblyOutcome -> N)) o :
  Forall (fun n => n <= u64_max)%N (zip_with (fun n f => sat_add u64_max n (f o)) ns fs).
Proof.
  revert fs. induction ns as [|n ns IH]; intros [|f fs]; cbn; constructor; [apply sat_add_le|apply IH].
Qed.

Lemma run_assembly_counters ops e :
  Forall (fun n => n <= u64_max)%N (counters e) ->
  counters (run_assembly ops e).2 =
    zip_with (fun n f => N.min (n + sum_of f (run_assembly ops e).1) u64_max) (counters e) counted.
Proof.
  revert e. induction ops as [|op ops IH]; intros e Hc; cbn.
  - unfold counters in *. rewrite !Forall_cons in Hc. destruct Hc as (? & ? & ? & ? & ? & ? & ? & _).
    cbn. by rewrite !N.add_0_r, !N.min_l by done.
  - pose proof (assembly_op_counters op e Hc) as Ho.
    destruct (assembly_op op e) as [o e']. cbn [fst snd] in Ho.
    specialize (IH e'). rewrite Ho in IH. specialize (IH (counters_bounded _ _ _)).
    destruct (run_assembly ops e') as [os e'']. cbn [fst snd] in *. rewrite IH.
    unfold counters, counted. cbn [zip_with sum_of].
    by rewrite !min_sat_add.
Qed.

Lemma list_sum_length {A B} (f : A -> B) l : usize_of (length (f <$> l)) = usize_of (length l).
Proof. by rewrite length_fmap. Qed.

Lemma set_op_conserves limit op l :
  (usize_of (length l) + inserted_of (set_op limit op l).1)%N =
  (usize_of (length (set_op limit op l).2) + replaced_of (set_op limit op l).1 +
   rolled_back_of (set_op limit op l).1)%N.
Proof.
  destruct op as [c ns|id ns]; cbn.
  - unfold set_insert. destruct (negb _); cbn; [lia|]. destruct (negb _ && _); cbn; [lia|].
    destruct (_ <? _)%N; cbn; [lia|].
    rewrite list_sum_length, length_app. cbn. unfold usize_of.
    pose proof (Permutation_length (survivors_clashes c l)) as H. rewrite length_app in H. lia.
  - unfold set_remove. destruct (list_find _ _) as [[i c]|] eqn:E; cbn; [|lia].
    apply list_find_Some in E as (Hi & _). apply lookup_lt_Some in Hi as Hlt.
    pose proof (length_delete l i (mk_is_Some _ _ Hi)). int_lia.
Qed.

Lemma set_run_conserves limit ops l :
  let r := set_run limit ops l in
  (usize_of (length l) + sum_of inserted_of r.1)%N =
  (usize_of (length r.2) + sum_of replaced_of r.1 + sum_of rolled_back_of r.1)%N.
Proof.
  revert l. induction ops as [|op ops IH]; intros l; cbn; [lia|].
  pose proof (set_op_conserves limit op l) as H. destruct (set_op limit op l) as [o l'].
  specialize (IH l'). cbv zeta in IH. destruct (set_run limit ops l') as [os l'']. cbn in *. lia.
Qed.

Lemma set_op_reasons limit op l :
  let o := (set_op limit op l).1 in
  rejected_of o = (rejected_for SimulationNotApproved o + rejected_for ObjectiveNotImproved o +
    rejected_for BlockGasLimitExceeded o)%N.
Proof.
  destruct op as [c ns|id ns]; cbn.
  - unfold set_insert. destruct (negb _); [done|]. destruct (negb _ && _); [done|].
    by destruct (_ <? _)%N.
  - unfold set_remove. by destruct (list_find _ _) as [[]|].
Qed.

Lemma set_run_reasons limit ops l :
  let os := (set_run limit ops l).1 in
  sum_of rejected_of os =
    (sum_of (rejected_for SimulationNotApproved) os + sum_of (rejected_for ObjectiveNotImproved) os +
     sum_of (rejected_for BlockGasLimitExceeded) os)%N.
Proof.
  revert l. induction ops as [|op ops IH]; intros l; cbn; [done|].
  pose proof (set_op_reasons limit op l) as Ho. cbv zeta in Ho.
  destruct (set_op limit op l) as [o l']. specialize (IH l'). cbv zeta in IH.
  destruct (set_run limit ops l') as [os l'']. cbn [fst snd sum_of] in *. lia.
Qed.

Lemma counters_new config : Forall (fun n => n <= u64_max)%N (counters (engine_new config)).
Proof. repeat (constructor; [cbn; int_lia|]). constructor. Qed.

(** ** Theorems *)

(** C10: the assembly engine refines the abstract candidate set: for every
    sequence of inserts and removals from an empty engine, the decisions it
    returns (with the ids it replaced) and the candidates it keeps are those
    of [set_run], which filters the conflicting entries and compares exact
    sums, although the engine removes entries by index, works with saturating
    arithmetic and reads the gas total from its metrics; and the snapshot's
    objective is the exact gas total, the score total capped at [u64::MAX]
    and the number of candidates. *)
Theorem engine_refines_set config ops
    (Hlimit : (block_gas_limit config < u64_max)%N) (Hops : Forall op_ok ops) :
  let r := run_assembly ops (engine_new config) in
  set_run (block_gas_limit config) ops [] = (r.1, en_candidates r.2) /\
  assembly_snapshot r.2 =
    {| as_candidates := en_candidates r.2;
       as_objective :=
         {| obj_total_priority_score := N.min (sum_of ac_priority_score (en_candidates r.2)) u64_max;
            obj_total_gas_used := sum_of ac_gas_used (en_candidates r.2);
            obj_total_candidates := usize_of (length (en_candidates r.2)) |} |}.
Proof.
  destruct (run_assembly_spec ops (engine_new config) (engine_new_ok config Hlimit) Hops)
    as (Hs & [_ _ Hg Hp Hn] & _).
  split; [exact Hs|]. unfold assembly_snapshot, live_objective. by rewrite Hg, Hp, Hn.
Qed.

(** C11: every block the engine can hold is valid: all candidates were
    approved by simulation, no transaction occurs in two of them, and their
    gas fits the block; the relay template exists exactly when there is a
    candidate, carries the context's slot, parent and key unchanged and the
    exact gas total, which is within the block's gas limit. *)
Theorem assembled_block_valid config ops sha256 context
    (Hlimit : (block_gas_limit config < u64_max)%N) (Hops : Forall op_ok ops) :
  let e := engine_after config ops in
  (forall c, c ∈ en_candidates e -> sim_approved (ac_simulation c) = true) /\
  (forall i j a b h, en_candidates e !! i = Some a -> en_candidates e !! j = Some b -> i <> j ->
     h ∈ ac_tx_hashes a -> h ∉ ac_tx_hashes b) /\
  match build_relay_template sha256 context e with
  | None => en_candidates e = []
  | Some t =>
      en_candidates e <> [] /\
      bt_slot t = rc_slot context /\ bt_parent_hash t = rc_parent_hash context /\
      bt_builder_pubkey t = rc_builder_pubkey context /\
      bt_block_hash t = compute_block_hash sha256 context (en_candidates e) /\
      bt_gas_used t = sum_of ac_gas_used (en_candidates e) /\
      (bt_gas_used t <= block_gas_limit config)%N
  end.
Proof.
  destruct (engine_after_ok config ops Hlimit Hops) as ([] & Hcfg & [Ha Hd Hg]).
  cbv zeta. split; [|split].
  - by apply Forall_forall.
  - intros i j a b h Hi Hj Hij H1 H2.
    destruct (decide (i < j)%nat).
    + pose proof (StronglySorted_lookup _ _ _ _ _ _ Hd l Hi Hj) as Hc. cbv beta in Hc.
      rewrite candidates_conflict_false in Hc. by apply (Hc h).
    + assert (j < i)%nat as Hlt by lia.
      pose proof (StronglySorted_lookup _ _ _ _ _ _ Hd Hlt Hj Hi) as Hc. cbv beta in Hc.
      rewrite candidates_conflict_false in Hc. by apply (Hc h).
  - unfold build_relay_template.
    destruct (en_candidates (engine_after config ops)) as [|c l]; [done|]. cbn -[sum_of].
    rewrite eo_live_gas0. done.
Qed.

(** An insertion never makes the block worse: a rejected candidate leaves
    the candidates and the objective as they were, an inserted one becomes the
    last candidate, the candidates that share no transaction with it stay in
    order, exactly the others are reported as replaced, and the total score
    does not decrease; it strictly increases when anything was replaced. *)
Theorem insert_never_worse config ops candidate ns
    (Hlimit : (block_gas_limit config < u64_max)%N) (Hops : Forall op_ok ops)
    (Hscore : (ac_priority_score candidate <= u32_max)%N) :
  let e := engine_after config ops in
  let '(decision, e') := assembly_insert candidate ns e in
  match decision with
  | Rejected id _ => id = ac_candidate_id candidate /\ assembly_snapshot e' = assembly_snapshot e
  | Inserted id replaced =>
      id = ac_candidate_id candidate /\
      (exists kept, en_candidates e' = kept ++ [candidate] /\
         kept = filter (fun c => candidates_conflict c candidate = false) (en_candidates e) /\
         replaced = ac_candidate_id <$>
           filter (fun c => candidates_conflict c candidate = true) (en_candidates e)) /\
      (sum_of ac_priority_score (en_candidates e) <=
         sum_of ac_priority_score (en_candidates e'))%N /\
      (replaced <> [] ->
         sum_of ac_priority_score (en_candidates e) < sum_of ac_priority_score (en_candidates e'))%N
  end.
Proof.
  destruct (engine_after_ok config ops Hlimit Hops) as (He & Hcfg & _). cbv zeta.
  set (e := engine_after config ops) in *.
  pose proof (insert_inner_spec candidate e He Hscore) as (Hs & Hok & _). cbv zeta in Hs.
  pose proof (eo_limit e He) as _. unfold assembly_insert.
  assert (forall id r, (insert_inner candidate e).1 = Rejected id r ->
    assembly_snapshot (insert_inner candidate e).2 = assembly_snapshot e) as Hrej.
  { intros id r. unfold insert_inner. cbv zeta.
    destruct (negb (sim_approved _)); [done|]. destruct (negb _ && _); [done|].
    by destruct (_ <? _)%N. }
  destruct (insert_inner candidate e) as [d e'] eqn:Ei. cbn [fst snd] in *.
  unfold set_insert in Hs. pose proof (split_sum ac_priority_score candidate (en_candidates e)) as Hsum.
  destruct (negb (sim_approved _)); [|destruct (negb _ && _) eqn:Eb; [|destruct (_ <? _)%N]];
    injection Hs as <- Hl; [split; [done|by eapply Hrej]..|].
  split; [done|]. cbn [record_decision_latency set_engine_metrics en_candidates].
  rewrite <-Hl, sum_of_app. cbn [sum_of]. split; [|split].
  - exists (survivors candidate (en_candidates e)). split; [done|]. split; [|done].
    unfold survivors. apply list_filter_iff. intros c. by rewrite not_true_iff_false.
  - destruct (clashes candidate (en_candidates e)) as [|c l] eqn:Ec; cbn -[sum_of] in *; [cbn in *; lia|].
    apply N.leb_gt in Eb. lia.
  - destruct (clashes candidate (en_candidates e)) as [|c l] eqn:Ec; cbn -[sum_of] in *; [done|].
    apply N.leb_gt in Eb. lia.
Qed.

(** The engine's counters are exact (capped at [u64::MAX]): they count the
    decisions of the run by outcome and reason, and every inserted candidate
    is active, was replaced, or was rolled back. *)
Theorem assembly_metrics_exact config ops
    (Hlimit : (block_gas_limit config < u64_max)%N) (Hops : Forall op_ok ops) :
  let r := run_assembly ops (engine_new config) in
  counters r.2 = (fun f => N.min (sum_of f r.1) u64_max) <$> counted /\
  sum_of rejected_of r.1 =
    (sum_of (rejected_for SimulationNotApproved) r.1 +
     sum_of (rejected_for ObjectiveNotImproved) r.1 +
     sum_of (rejected_for BlockGasLimitExceeded) r.1)%N /\
  sum_of inserted_of r.1 =
    (usize_of (length (en_candidates r.2)) + sum_of replaced_of r.1 + sum_of rolled_back_of r.1)%N.
Proof.
  destruct (run_assembly_spec ops (engine_new config) (engine_new_ok config Hlimit) Hops)
    as (Hs & _ & _). cbv zeta in *. cbn [engine_new en_candidates en_config] in Hs.
  split; [|split].
  - by rewrite (run_assembly_counters _ _ (counters_new config)).
  - pose proof (set_run_reasons (block_gas_limit config) ops []) as H. cbv zeta in H.
    rewrite Hs in H. exact H.
  - pose proof (set_run_conserves (block_gas_limit config) ops []) as H. cbv zeta in H.
    rewrite Hs in H. cbn [fst snd length usize_of] in H. int_lia.
Qed.

(** Concrete runs: a bundle of two swaps displaces the weaker one, an
    equal-score rival and an oversized candidate are refused. *)
Definition sample_candidate (id : string) (hashes : list TxHash) (score gas : N) (ok : bool) :
    AssemblyCandidate :=
  mkAssemblyCandidate id hashes score gas KindTransaction (mkApproval "sim" 10 ok).
Definition sample_ops : list AssemblyOp :=
  [OpInsert (sample_candidate "a" [1%N] 10 21000 true) 5;
   OpInsert (sample_candidate "b" [2%N] 20 30000 true) 0;
   OpInsert (sample_candidate "c" [1%N; 3%N] 10 40000 true) 7;
   OpInsert (sample_candidate "d" [1%N; 3%N] 12 40000 true) 7;
   OpInsert (sample_candidate "e" [9%N] 99 30000000 true) 7;
   OpInsert (sample_candidate "f" [8%N] 99 1 false) 7;
   OpRemove "b" 3; OpRemove "zz" 3].

Lemma sample_ops_ok : Forall op_ok sample_ops.
Proof. repeat (constructor; [try exact I; cbn; int_lia|]). constructor. Qed.

Lemma engine_refines_set_witness :
  (run_assembly sample_ops (engine_new assembly_config_default)).1 =
    [OutDecision (Inserted "a" []); OutDecision (Inserted "b" []);
     OutDecision (Rejected "c" "objective_not_improved"); OutDecision (Inserted "d" ["a"]);
     OutDecision (Rejected "e" "block_gas_limit_exceeded");
     OutDecision (Rejected "f" "simulation_not_approved");
     OutRollback (RolledBack "b"); OutRollback (NotFound "zz")] /\
  (set_run 30000000 sample_ops []).1 = (run_assembly sample_ops (engine_new assembly_config_default)).1.
Proof.
  split; [vm_compute; reflexivity|].
  pose proof (engine_refines_set assembly_config_default sample_ops ltac:(reflexivity) sample_ops_ok)
    as [H _].
  exact (f_equal fst H).
Defined.

Lemma assembled_block_valid_witness :
  let e := engine_after assembly_config_default sample_ops in
  en_candidates e = [sample_candidate "d" [1%N; 3%N] 12 40000 true] /\
  (forall c, c ∈ en_candidates e -> sim_approved (ac_simulation c) = true).
Proof.
  split; [vm_compute; reflexivity|].
  pose proof (assembled_block_valid assembly_config_default sample_ops (fun _ => [])
    (mkRelayContext 1 "p" "k") ltac:(reflexivity) sample_ops_ok) as [H _].
  exact H.
Defined.

Lemma insert_never_worse_witness :
  exists e', assembly_insert (sample_candidate "d" [1%N; 3%N] 12 40000 true) 7
    (engine_after assembly_config_default (take 2 sample_ops)) = (Inserted "d" ["a"], e') /\
  (30 < sum_of ac_priority_score (en_candidates e'))%N.
Proof.
  pose proof (insert_never_worse assembly_config_default (take 2 sample_ops)
    (sample_candidate "d" [1%N; 3%N] 12 40000 true) 7 ltac:(reflexivity)
    (Forall_take _ _ _ sample_ops_ok) ltac:(vm_compute; discriminate)) as H.
  cbv zeta in H.
  destruct (assembly_insert _ 7 (engine_after _ _)) as [d e'] eqn:E.
  assert (d = Inserted "d" ["a"]) as -> by (vm_compute in E; congruence).
  exists e'. split; [done|]. destruct H as (_ & _ & _ & H). apply H. done.
Defined.

Lemma assembly_metrics_exact_witness :
  counters (engine_after assembly_config_default sample_ops) = [3; 1; 3; 1; 1; 1; 1]%N /\
  sum_of inserted_of (run_assembly sample_ops (engine_new assembly_config_default)).1 = 3%N.
Proof.
  pose proof (assembly_metrics_exact assembly_config_default sample_ops ltac:(reflexivity)
    sample_ops_ok) as (H & _ & Hi).
  unfold engine_after. rewrite H. split; [vm_compute; reflexivity|]. rewrite Hi. vm_compute. reflexivity.
Defined.
