(* ===== verification/SimulatedAssembly.v ===== *)
(** * SimulatedAssembly: from a simulated batch to a candidate of the block

    The composition of crates/sim-engine and crates/builder: what a candidate
    built from a simulation result promises about the transactions of its
    batch. *)
From stdpp Require Import base gmap strings list numbers sorting.
From S2P Require Import Prelude Common EventLog Simulation Features Searcher Assembly AssemblyProps.

(** The transactions a candidate stands for, and the result found for one. *)
Definition members_of (o : OpportunityCandidate) : list TxHash :=
  match oc_member_tx_hashes o with [] => [oc_tx_hash o] | ms => ms end.
Definition result_for (results : list TxSimulationResult) (h : TxHash) : option TxSimulationResult :=
  head (filter (fun r => sr_hash r = h) results).

Lemma result_for_Some results h r :
  result_for results h = Some r -> r ∈ results /\ sr_hash r = h.
Proof.
  unfold result_for. destruct (filter _ results) as [|r' l] eqn:E; [done|]. intros [= ->].
  assert (r ∈ filter (fun r => sr_hash r = h) results) as Hr by (rewrite E; by left).
  by apply list_elem_of_filter in Hr as [? ?].
Qed.

Lemma result_for_None results h : result_for results h = None <-> h ∉ sr_hash <$> results.
Proof.
  unfold result_for. rewrite list_elem_of_fmap. destruct (filter _ results) as [|r l] eqn:E.
  - split; [|done]. intros _ (r & -> & Hr).
    assert (r ∈ filter (fun r' => sr_hash r' = sr_hash r) results) as Hin
      by by apply list_elem_of_filter.
    rewrite E in Hin. by apply elem_of_nil in Hin.
  - split; [done|]. intros H. exfalso. apply H. exists r.
    assert (r ∈ filter (fun r' => sr_hash r' = h) results) as Hin by (rewrite E; by left).
    by apply list_elem_of_filter in Hin as [-> ?].
Qed.

(** The loop stops at the first hash without a result; otherwise it folds the
    results found. *)
Lemma join_results_spec results hashes approved gas :
  (gas <= u64_max)%N ->
  match mapM (result_for results) hashes with
  | Some rs => join_results results hashes approved gas =
      inl (approved && forallb sr_success rs, N.min (gas + sum_of sr_gas_used rs) u64_max)
  | None => exists h, head (filter (fun h => h ∉ sr_hash <$> results) hashes) = Some h /\
      join_results results hashes approved gas = inr (MissingSimulationResult h)
  end.
Proof.
  revert approved gas. induction hashes as [|h hashes IH]; intros approved gas Hgas.
  - cbn. rewrite andb_true_r, N.add_0_r. by rewrite N.min_l.
  - cbn [mapM join_results]. fold (result_for results h).
    destruct (result_for results h) as [r|] eqn:Hr; cbn [mbind option_bind].
    + specialize (IH (approved && sr_success r) (sat_add u64_max gas (sr_gas_used r)) (sat_add_le _ _ _)).
      destruct (mapM (result_for results) hashes) as [rs|]; cbn [mret option_ret mbind option_bind].
      * rewrite IH. cbn [forallb sum_of]. rewrite andb_assoc. do 2 f_equal. int_lia.
      * destruct IH as (h' & Hh & ->). exists h'. split; [|done].
        rewrite filter_cons_False; [done|].
        intros Hn. apply result_for_None in Hn. congruence.
    + exists h. split; [|done]. apply result_for_None in Hr. by rewrite filter_cons_True.
Qed.

(** Simulation and assembly agree on a candidate.  When a batch has been
    simulated, a candidate is built from it exactly when every transaction it
    stands for was in the batch, and otherwise the first missing one is
    reported; the candidate carries its transactions in order, is approved
    exactly when each of them succeeded in the simulation, is charged the
    capped sum of their gas, and names the block that was simulated. *)
Theorem simulated_candidate_exact {E} `{Revm, !RevmLaws} sha256 (Hsha : digest_ok sha256)
  opp c txs (mode : SimulationMode E) batch
  (Hsim : simulate_with_mode sha256 c txs mode = inl batch) :
  let simulated := (fun tx => dec_hash (ti_decoded tx)) <$> txs in
  match from_simulated_opportunity opp batch with
  | inr (MissingSimulationResult h) =>
      head (filter (fun h => h ∉ simulated) (members_of opp)) = Some h
  | inl cand =>
      ac_tx_hashes cand = members_of opp /\
      (forall h, h ∈ members_of opp -> h ∈ simulated) /\
      sim_block_number (ac_simulation cand) = cc_block_number c /\
      exists rs, Forall2 (fun h r => r ∈ sbr_tx_results batch /\ sr_hash r = h) (members_of opp) rs /\
        (sim_approved (ac_simulation cand) = true <-> Forall (fun r => sr_success r = true) rs) /\
        ac_gas_used cand = N.min (sum_of sr_gas_used rs) u64_max
  end.
Proof.
  intros simulated. pose proof (simulate_batch sha256 Hsha c txs mode batch Hsim) as (Hc & Hh & _).
  unfold from_simulated_opportunity. fold (members_of opp).
  pose proof (join_results_spec (sbr_tx_results batch) (members_of opp) true 0 ltac:(done)) as Hj.
  destruct (mapM _ _) as [rs|] eqn:Hm.
  - rewrite Hj. cbn [ac_tx_hashes ac_simulation sim_block_number sim_approved ac_gas_used].
    apply mapM_Some in Hm. rewrite Hc.
    assert (Forall2 (fun h r => r ∈ sbr_tx_results batch /\ sr_hash r = h) (members_of opp) rs) as Hrs.
    { eapply Forall2_impl; [exact Hm|]. intros h r. apply result_for_Some. }
    split_and!; [done| |done|].
    + intros h Hin. subst simulated. rewrite <-Hh. apply list_elem_of_lookup_1 in Hin as [i Hi].
      destruct (Forall2_lookup_l _ _ _ _ _ Hrs Hi) as (r & _ & Hr & <-).
      by apply list_elem_of_fmap_2.
    + exists rs. split_and!; [done| |by rewrite N.add_0_l].
      rewrite andb_true_l, <-Is_true_true, forallb_True.
      apply Forall_iff. intros r. apply Is_true_true.
  - destruct Hj as (h & Hhd & ->). by rewrite Hh in Hhd.
Qed.

(** ** A concrete batch *)
#[local] Existing Instance ledger_revm.
#[local] Existing Instance ledger_revm_laws.

Definition ledger_opportunity (members : list TxHash) : OpportunityCandidate :=
  mkOpportunity 11 members BundleCandidate "f" "s" "t" 90 "uniswap" "swap"
    (mkBreakdown 1 2 3 4) [].

Definition ledger_candidate : AssemblyCandidate :=
  match from_simulated_opportunity (ledger_opportunity [11; 12]%N) ledger_batch with
  | inl c => c
  | inr _ => mkAssemblyCandidate "" [] 0 0 KindBundle (mkApproval "" 0 false)
  end.

Lemma ledger_candidate_ok :
  from_simulated_opportunity (ledger_opportunity [11; 12]%N) ledger_batch = inl ledger_candidate.
Proof. vm_compute. reflexivity. Qed.

Lemma ledger_candidate_approved : sim_approved (ac_simulation ledger_candidate) = true.
Proof. vm_compute. reflexivity. Qed.

Lemma simulated_candidate_exact_witness :
  exists rs, Forall2 (fun h r => r ∈ sbr_tx_results ledger_batch /\ sr_hash r = h) [11; 12]%N rs /\
    Forall (fun r => sr_success r = true) rs.
Proof.
  pose proof (simulated_candidate_exact toy_digest toy_digest_ok (ledger_opportunity [11; 12]%N)
    ledger_context ledger_txs ledger_mode ledger_batch ledger_batch_ok) as H.
  rewrite ledger_candidate_ok in H. destruct H as (_ & _ & _ & rs & H2 & Happ & _).
  exists rs. split; [exact H2|]. exact (proj1 Happ ledger_candidate_approved).
Defined.
