(* ===== verification/RelayClient.v ===== *)
(** * RelayClient: dry-run submission with retries and a circuit breaker
    (crates/builder/src/relay_client.rs, and [submit_relay_dry_run] of
    assembly.rs)

    The HTTP client is a parameter; what it answers to the n-th request of a
    submission and how long that took, and the three readings of the wall
    clock, are arguments of the submission.  The mutex around the
    health state makes each reading and update atomic; it is explicit state. *)
From stdpp Require Import base gmap strings list numbers.
From S2P Require Import Prelude Common EventLog Features Searcher Assembly.

Definition downweight_failure_threshold : N := 1.
Definition downweight_window_ms : Z := 2000.
Definition circuit_breaker_failure_threshold : N := 2.
Definition circuit_breaker_window_ms : Z := 5000.

Record RelayAttemptTrace := mkAttempt {
  at_attempt : N;
  at_endpoint : string;
  at_http_status : option N;
  at_error : option string;
  at_latency_ms : N;
  at_backoff_ms : N;
}.

Record RelayDryRunResult := mkDryRun {
  dr_relay_url : string;
  dr_accepted : bool;
  dr_final_state : string;
  dr_attempts : list RelayAttemptTrace;
  dr_started_unix_ms : Z;
  dr_finished_unix_ms : Z;
}.

Record RelayClientConfig := mkRelayConfig {
  relay_url : string;
  max_retries : N;
  initial_backoff_ms : N;
  request_timeout_ms : N;
}.

Record RelayDryRunStatus := mkRelayStatus {
  rs_latest : option RelayDryRunResult;
  rs_total_submissions : N;
  rs_total_accepted : N;
  rs_total_failed : N;
}.
Definition relay_status_default : RelayDryRunStatus := mkRelayStatus None 0 0 0.

(** [RelayDryRunStatus::record]. *)
Definition record_status (result : RelayDryRunResult) (s : RelayDryRunStatus) : RelayDryRunStatus :=
  {| rs_latest := Some result;
     rs_total_submissions := sat_add u64_max (rs_total_submissions s) 1;
     rs_total_accepted :=
       if dr_accepted result then sat_add u64_max (rs_total_accepted s) 1 else rs_total_accepted s;
     rs_total_failed :=
       if dr_accepted result then rs_total_failed s else sat_add u64_max (rs_total_failed s) 1 |}.

Record RelayHealthState := mkHealth {
  consecutive_failures : N;
  downweighted_until_unix_ms : Z;
  circuit_open_until_unix_ms : Z;
}.
Definition health_default : RelayHealthState := mkHealth 0 0 0.

(** [str::trim().is_empty()]. *)
Definition is_blank (s : string) : bool := blank_bytes (str_bytes s).

(** What [send().await] returned, and the milliseconds it took. *)
Inductive Reply := Response (status : N) | TransportError (error : string).

Definition backoff_delay_ms (initial_backoff_ms retry_index : N) : N :=
  let retry_shift := N.min retry_index 16 in
  sat_mul u64_max (N.max initial_backoff_ms 1) (N.shiftl 1 retry_shift).

Definition is_circuit_open (now_unix_ms : Z) (state : RelayHealthState) : bool :=
  (now_unix_ms <? circuit_open_until_unix_ms state)%Z.

Definition record_submission_result (accepted : bool) (now_unix_ms : Z)
    (state : RelayHealthState) : RelayHealthState :=
  if accepted then mkHealth 0 0 0
  else
    let failures := sat_add u32_max (consecutive_failures state) 1 in
    {| consecutive_failures := failures;
       downweighted_until_unix_ms :=
         if (downweight_failure_threshold <=? failures)%N
         then i64_sat_add now_unix_ms downweight_window_ms
         else downweighted_until_unix_ms state;
       circuit_open_until_unix_ms :=
         if (circuit_breaker_failure_threshold <=? failures)%N
         then i64_sat_add now_unix_ms circuit_breaker_window_ms
         else circuit_open_until_unix_ms state |}.

Section client.
(** reqwest and http: building the client and [StatusCode::is_success]. *)
Context {HttpClient : Type}.
Context (build_http : N -> HttpClient + string).
Context (is_success : N -> bool).

(** One submission's requests: the answer to its n-th post of a template to an
    URL, and how many milliseconds it took. *)
Definition Poster : Type := HttpClient -> string -> BlockTemplate -> N -> Reply * N.

Record RelayClient := mkRelayClient {
  http : HttpClient;
  relay_config : RelayClientConfig;
  health : RelayHealthState;
}.

Definition relay_client_new (config : RelayClientConfig) : RelayClient + string :=
  if is_blank (relay_url config) then inr "relay_url must not be empty"
  else match build_http (N.max (request_timeout_ms config) 1) with
       | inr error => inr error
       | inl http => inl (mkRelayClient http config health_default)
       end.

(** One turn of the loop: the trace it pushes and whether it was accepted. *)
Definition relay_attempt (post : Poster) (client : RelayClient) (template : BlockTemplate)
    (attempt : N) :
    RelayAttemptTrace * bool :=
  let config := relay_config client in
  let attempt_idx := sat_add u32_max attempt 1 in
  let '(response, elapsed) := post (http client) (relay_url config) template attempt in
  let retry_backoff := backoff_delay_ms (initial_backoff_ms config) attempt in
  match response with
  | Response status =>
      let ok := is_success status in
      let backoff_ms := if ok || (attempt =? max_retries config)%N then 0%N else retry_backoff in
      (mkAttempt attempt_idx (relay_url config) (Some status) None (cast 64 elapsed) backoff_ms, ok)
  | TransportError error =>
      let backoff_ms := if (attempt =? max_retries config)%N then 0%N else retry_backoff in
      (mkAttempt attempt_idx (relay_url config) None (Some error) (cast 64 elapsed) backoff_ms, false)
  end.

(** [for attempt in 0..=max_retries]: [left] turns from [attempt]. *)
Fixpoint relay_attempts (post : Poster) (client : RelayClient) (template : BlockTemplate)
    (left : nat) (attempt : N) : list RelayAttemptTrace * bool :=
  match left with
  | O => ([], false)
  | S left' =>
      let '(trace, ok) := relay_attempt post client template attempt in
      if ok then ([trace], true)
      else let '(traces, accepted) := relay_attempts post client template left' (attempt + 1) in
           (trace :: traces, accepted)
  end.

(** [submit_dry_run]; the clock reads [started] at the beginning, [recorded]
    when the result is recorded and [finished] at the end. *)
Definition submit_dry_run (post : Poster) (template : BlockTemplate) (started recorded finished : Z)
    (client : RelayClient) : RelayDryRunResult * RelayClient :=
  let config := relay_config client in
  if is_circuit_open started (health client)
  then ({| dr_relay_url := relay_url config; dr_accepted := false;
           dr_final_state := "circuit_open";
           dr_attempts := [mkAttempt 1 (relay_url config) None (Some "circuit_open") 0 0];
           dr_started_unix_ms := started; dr_finished_unix_ms := started |}, client)
  else
    let '(attempts, accepted) :=
      relay_attempts post client template (N.to_nat (max_retries config) + 1) 0 in
    ({| dr_relay_url := relay_url config; dr_accepted := accepted;
        dr_final_state := if accepted then "accepted" else "exhausted";
        dr_attempts := attempts;
        dr_started_unix_ms := started; dr_finished_unix_ms := finished |},
     mkRelayClient (http client) config
       (record_submission_result accepted recorded (health client))).

(** [AssemblyEngine::submit_relay_dry_run]. *)
Definition submit_relay_dry_run (post : Poster) (sha256 : list N -> list N) (context : RelayBuildContext)
    (started recorded finished : Z) (e : AssemblyEngine) (client : RelayClient) :
    option RelayDryRunResult * RelayClient :=
  match build_relay_template sha256 context e with
  | None => (None, client)
  | Some template =>
      let '(result, client') := submit_dry_run post template started recorded finished client in
      (Some result, client')
  end.

(** ** Retries *)
Definition relay_ok (post : Poster) (client : RelayClient) (template : BlockTemplate) (n : N) : bool :=
  match (post (http client) (relay_url (relay_config client)) template n).1 with
  | Response status => is_success status
  | TransportError _ => false
  end.

Lemma relay_attempt_ok post client template n :
  (relay_attempt post client template n).2 = relay_ok post client template n.
Proof. unfold relay_attempt, relay_ok. by destruct (post _ _ _ n) as [[] ?]. Qed.

Lemma relay_attempts_spec post client template left n :
  let r := relay_attempts post client template left n in
  (forall i t, r.1 !! i = Some t -> t = (relay_attempt post client template (n + N.of_nat i)).1) /\
  (if r.2
   then exists k, (k < left)%nat /\ relay_ok post client template (n + N.of_nat k) = true /\
     (forall j, (j < k)%nat -> relay_ok post client template (n + N.of_nat j) = false) /\
     length r.1 = S k
   else (forall j, (j < left)%nat -> relay_ok post client template (n + N.of_nat j) = false) /\
     length r.1 = left).
Proof.
  revert n. induction left as [|left IH]; intros n; cbn; [split; [done|]; split; [lia|done]|].
  pose proof (relay_attempt_ok post client template n) as Hok.
  destruct (relay_attempt post client template n) as [t ok] eqn:Et. cbn in Hok. subst ok.
  specialize (IH (n + 1)%N). cbv zeta in IH.
  assert (forall j, n + 1 + N.of_nat j = n + N.of_nat (S j))%N as Hj by lia.
  destruct (relay_ok post client template n) eqn:Eok; cbn.
  - split.
    + intros [|i] t' [= <-]. by rewrite N.add_0_r, Et.
    + exists 0%nat. rewrite N.add_0_r. split; [lia|]. split; [done|]. split; [lia|done].
  - destruct (relay_attempts post client template left (n + 1)) as [ts acc]. cbn in *.
    destruct IH as [IH1 IH2]. split.
    + intros [|i] t' Hi; [injection Hi as <-; by rewrite N.add_0_r, Et|].
      rewrite <-Hj. by apply IH1.
    + destruct acc.
      * destruct IH2 as (k & Hk & Hk1 & Hk2 & Hlen). exists (S k). rewrite Hj in Hk1.
        split; [lia|]. split; [done|]. split; [|by rewrite Hlen].
        intros [|j] Hlt; [by rewrite N.add_0_r|]. rewrite <-Hj. apply Hk2. lia.
      * destruct IH2 as [IH2 Hlen]. split; [|by rewrite Hlen].
        intros [|j] Hlt; [by rewrite N.add_0_r|]. rewrite <-Hj. apply IH2. lia.
Qed.

Lemma backoff_delay_ms_exact initial n :
  backoff_delay_ms initial n = N.min (N.max initial 1 * 2 ^ N.min n 16) u64_max.
Proof. unfold backoff_delay_ms, sat_mul. by rewrite N.shiftl_1_l. Qed.

(** The trace an attempt leaves: its 1-based number, the URL, and a back-off
    exactly when it failed and was not the last one allowed. *)
Lemma relay_attempt_trace post client template n :
  let t := (relay_attempt post client template n).1 in
  at_attempt t = N.min (n + 1) u32_max /\
  at_endpoint t = relay_url (relay_config client) /\
  at_backoff_ms t =
    (if relay_ok post client template n || (n =? max_retries (relay_config client))%N then 0%N
     else N.min (N.max (initial_backoff_ms (relay_config client)) 1 * 2 ^ N.min n 16) u64_max).
Proof.
  unfold relay_attempt, relay_ok. rewrite <-backoff_delay_ms_exact.
  by destruct (post _ _ _ n) as [[] ?].
Qed.

(** ** Submissions in sequence *)
Record Submission := mkSubmission {
  sb_post : Poster;
  sb_template : BlockTemplate;
  sb_started : Z;
  sb_recorded : Z;
  sb_finished : Z;
}.
Definition submit (s : Submission) (client : RelayClient) : RelayDryRunResult * RelayClient :=
  submit_dry_run (sb_post s) (sb_template s) (sb_started s) (sb_recorded s) (sb_finished s) client.

(** The results with the time each was recorded, latest first; a submission
    refused by the breaker records nothing. *)
Fixpoint run_submissions (subs : list Submission) (client : RelayClient) (log : list (bool * Z)) :
    list (bool * Z) * RelayClient :=
  match subs with
  | [] => (log, client)
  | s :: subs' =>
      let '(result, client') := submit s client in
      run_submissions subs' client'
        (if String.eqb (dr_final_state result) "circuit_open" then log
         else (dr_accepted result, sb_recorded s) :: log)
  end.

Fixpoint leading_failures (log : list (bool * Z)) : N :=
  match log with
  | (false, _) :: log' => leading_failures log' + 1
  | _ => 0
  end.
(** The health a log stands for. *)
Definition health_of (log : list (bool * Z)) : RelayHealthState :=
  match log with
  | (false, t) :: _ =>
      {| consecutive_failures := N.min (leading_failures log) u32_max;
         downweighted_until_unix_ms := i64_sat_add t 2000;
         circuit_open_until_unix_ms :=
           if (2 <=? leading_failures log)%N then i64_sat_add t 5000 else 0 |}
  | _ => health_default
  end.

Lemma record_submission_health accepted t log :
  record_submission_result accepted t (health_of log) = health_of ((accepted, t) :: log).
Proof.
  destruct accepted; [done|]. unfold record_submission_result.
  assert (consecutive_failures (health_of log) = N.min (leading_failures log) u32_max) as ->
    by (by destruct log as [|[[] ?] ?]).
  assert (sat_add u32_max (N.min (leading_failures log) u32_max) 1 =
    N.min (leading_failures log + 1) u32_max) as -> by (int_lia).
  cbn [health_of leading_failures]. unfold downweight_failure_threshold, circuit_breaker_failure_threshold.
  assert ((1 <=? N.min (leading_failures log + 1) u32_max)%N = true) as ->
    by (apply N.leb_le; int_lia).
  f_equal.
  destruct log as [|[[] t'] log]; cbn [health_of leading_failures circuit_open_until_unix_ms];
    [done|done|].
  assert ((2 <=? N.min (leading_failures log + 1 + 1) u32_max)%N = true) as ->
    by (apply N.leb_le; int_lia).
  assert ((2 <=? leading_failures log + 1 + 1)%N = true) as -> by (apply N.leb_le; lia).
  done.
Qed.

Lemma submit_cases s client :
  (is_circuit_open (sb_started s) (health client) = true /\
   submit s client =
     ({| dr_relay_url := relay_url (relay_config client); dr_accepted := false;
         dr_final_state := "circuit_open";
         dr_attempts :=
           [mkAttempt 1 (relay_url (relay_config client)) None (Some "circuit_open") 0 0];
         dr_started_unix_ms := sb_started s; dr_finished_unix_ms := sb_started s |}, client)) \/
  (is_circuit_open (sb_started s) (health client) = false /\
   exists accepted,
     dr_accepted (submit s client).1 = accepted /\
     dr_final_state (submit s client).1 = (if accepted then "accepted" else "exhausted") /\
     health (submit s client).2 = record_submission_result accepted (sb_recorded s) (health client)).
Proof.
  unfold submit, submit_dry_run. destruct (is_circuit_open _ _); [by left|]. right. split; [done|].
  destruct (relay_attempts _ _ _ _ _) as [ts accepted]. by exists accepted.
Qed.

Lemma run_submissions_health subs client log :
  health client = health_of log ->
  let r := run_submissions subs client log in health r.2 = health_of r.1.
Proof.
  revert client log. induction subs as [|s subs IH]; intros client log Hh; [done|]. cbn.
  destruct (submit_cases s client) as [[_ E]|(_ & acc & Ha & Hf & Hh')].
  - rewrite E. cbn. by apply IH.
  - destruct (submit s client) as [result client']. cbn in Ha, Hf, Hh'.
    rewrite Hf, Ha. assert (String.eqb (if acc then "accepted" else "exhausted") "circuit_open" = false)
      as -> by (by destruct acc).
    apply IH. by rewrite Hh', Hh, record_submission_health.
Qed.

Lemma health_open log t :
  (0 <= t)%Z ->
  is_circuit_open t (health_of log) = true <->
  (2 <= leading_failures log)%N /\
  exists last log', log = (false, last) :: log' /\ (t < i64_sat_add last 5000)%Z.
Proof.
  intros Ht. unfold is_circuit_open. rewrite Z.ltb_lt.
  destruct log as [|[[] last] log]; cbn -[leading_failures].
  - split; [lia|]. intros [_ (? & ? & [=] & _)].
  - split; [lia|]. intros [_ (? & ? & [=] & _)].
  - destruct (N.leb_spec 2 (leading_failures ((false, last) :: log))); split.
    + intros. split; [done|]. by exists last, log.
    + by intros [_ (? & ? & [= <- <-] & ?)].
    + lia.
    + lia.
Qed.

(** C25: with the circuit closed, a dry run sends at most [max_retries + 1]
    requests and at least one: it stops at the first success and reports
    "accepted", or tries them all and reports "exhausted"; the i-th trace is
    numbered i + 1, and each failed attempt but the last allowed one backs off
    [max(initial, 1) * 2^min(i, 16)] milliseconds, capped at [u64::MAX]. *)
Theorem relay_retry_exact post template started recorded finished client
    (Hclosed : is_circuit_open started (health client) = false) :
  let config := relay_config client in
  let max := max_retries config in
  let '(r, client') := submit_dry_run post template started recorded finished client in
  (if dr_accepted r
   then exists k, (k <= max)%N /\ relay_ok post client template k = true /\
     (forall j, (j < k)%N -> relay_ok post client template j = false) /\
     length (dr_attempts r) = S (N.to_nat k)
   else (forall j, (j <= max)%N -> relay_ok post client template j = false) /\
     length (dr_attempts r) = S (N.to_nat max)) /\
  dr_final_state r = (if dr_accepted r then "accepted" else "exhausted") /\
  (forall i t, dr_attempts r !! i = Some t ->
     at_attempt t = N.min (N.of_nat i + 1) u32_max /\ at_endpoint t = relay_url config /\
     at_backoff_ms t =
       (if relay_ok post client template (N.of_nat i) || (N.of_nat i =? max)%N then 0%N
        else N.min (N.max (initial_backoff_ms config) 1 * 2 ^ N.min (N.of_nat i) 16) u64_max)) /\
  health client' = record_submission_result (dr_accepted r) recorded (health client).
Proof.
  unfold submit_dry_run. rewrite Hclosed.
  pose proof (relay_attempts_spec post client template
    (N.to_nat (max_retries (relay_config client)) + 1) 0) as H. cbv zeta in H |- *.
  destruct (relay_attempts _ _ _ _ _) as [ts acc]. cbn [fst snd] in H. destruct H as [Ht Ha].
  cbn [dr_accepted dr_attempts dr_final_state health]. split; [|split; [done|split; [|done]]].
  - destruct acc.
    + destruct Ha as (k & Hk & Hk1 & Hk2 & Hlen). exists (N.of_nat k).
      split; [lia|]. split; [done|]. split; [|lia].
      intros j Hj. rewrite <-(N2Nat.id j). apply (Hk2 (N.to_nat j)). lia.
    + destruct Ha as [Ha Hlen]. split; [|lia].
      intros j Hj. rewrite <-(N2Nat.id j). apply (Ha (N.to_nat j)). lia.
  - intros i t Hi. rewrite (Ht i t Hi). apply relay_attempt_trace.
Qed.

(** C24: the circuit breaker, over any history of submissions of a fresh
    client: a submission is refused as "circuit_open" exactly when at least
    two submissions in a row have failed and the last failure was recorded
    less than five seconds before; a refused submission makes no request
    (whatever the relay would answer, the result is the same) and leaves the
    client untouched, so it does not extend the window. *)
Theorem circuit_breaker_exact (client : RelayClient) subs s
    (Hfresh : health client = health_default) (Htime : (0 <= sb_started s)%Z) :
  let '(log, client') := run_submissions subs client [] in
  let '(result, client'') := submit s client' in
  (dr_final_state result = "circuit_open" <->
     (2 <= leading_failures log)%N /\
     exists last log', log = (false, last) :: log' /\ (sb_started s < i64_sat_add last 5000)%Z) /\
  (dr_final_state result = "circuit_open" ->
     client'' = client' /\ dr_accepted result = false /\
     forall post template recorded finished,
       submit_dry_run post template (sb_started s) recorded finished client' = (result, client')).
Proof.
  pose proof (run_submissions_health subs client [] Hfresh) as Hh. cbv zeta in Hh.
  destruct (run_submissions subs client []) as [log client']. cbn in Hh.
  pose proof (health_open log _ Htime) as Hopen. rewrite <-Hh in Hopen.
  destruct (submit_cases s client') as [[Ho E]|(Ho & acc & _ & Hf & _)].
  - rewrite E, <-Hopen, Ho. split; [done|]. intros _. split; [done|]. split; [done|].
    intros. unfold submit_dry_run. by rewrite Ho.
  - destruct (submit s client') as [result client'']. cbn in Hf. rewrite <-Hopen, Ho, Hf.
    split; by destruct acc.
Qed.

End client.

Arguments mkRelayClient {HttpClient} _ _ _.
Arguments mkSubmission {HttpClient} _ _ _ _ _.

(** ** The aggregate status *)
Lemma record_status_fold results s :
  (rs_total_submissions s <= u64_max)%N -> (rs_total_accepted s <= u64_max)%N ->
  (rs_total_failed s <= u64_max)%N ->
  let accepted := length (filter (fun r => dr_accepted r = true) results) in
  let s' := foldl (fun s r => record_status r s) s results in
  rs_total_submissions s' = N.min (rs_total_submissions s + usize_of (length results)) u64_max /\
  rs_total_accepted s' = N.min (rs_total_accepted s + usize_of accepted) u64_max /\
  rs_total_failed s' =
    N.min (rs_total_failed s + usize_of (length results - accepted)) u64_max /\
  rs_latest s' = match list.last results with Some r => Some r | None => rs_latest s end /\
  (accepted <= length results)%nat.
Proof.
  revert s. induction results as [|r results IH]; intros s H1 H2 H3; cbv zeta.
  - cbn. unfold usize_of. cbn. repeat split; lia.
  - cbn [foldl]. specialize (IH (record_status r s)). cbv zeta in IH.
    rewrite filter_cons.
    destruct IH as (I1 & I2 & I3 & I4 & I5); [cbn; try destruct (dr_accepted r);
      first [apply sat_add_le|done]..|].
    rewrite I1, I2, I3, I4. unfold record_status, sat_add, usize_of in *.
    cbn [rs_total_submissions rs_total_accepted rs_total_failed rs_latest].
    assert (list.last (r :: results) = match list.last results with Some x => Some x | None => Some r end) as ->
      by (rewrite last_cons; by destruct (list.last results)).
    destruct (dr_accepted r); [rewrite decide_True by done|rewrite decide_False by done];
      cbn [length] in *; (split; [lia|]); (split; [lia|]); (split; [lia|]);
      (split; [by destruct (list.last results)|lia]).
Qed.

(** The status a client's results are recorded in is exact: the totals
    count all, the accepted and the other results (capped at [u64::MAX]) and
    the latest result is the last one recorded. *)
Theorem relay_status_exact results :
  let accepted := length (filter (fun r => dr_accepted r = true) results) in
  foldl (fun s r => record_status r s) relay_status_default results =
    {| rs_latest := list.last results;
       rs_total_submissions := N.min (usize_of (length results)) u64_max;
       rs_total_accepted := N.min (usize_of accepted) u64_max;
       rs_total_failed := N.min (usize_of (length results - accepted)) u64_max |}.
Proof.
  cbv zeta. destruct (record_status_fold results relay_status_default) as (H1 & H2 & H3 & H4 & _);
    [cbn; int_lia..|].
  destruct (foldl _ _ _). cbn in *. subst. f_equal. by destruct (list.last results).
Qed.

(** A relay that fails, fails, then is refused. *)
Definition sample_poster (status : N) : Poster (HttpClient := unit) :=
  fun _ _ _ n => (if (n =? status)%N then Response 202 else Response 503, 4%N).
Definition sample_success (status : N) : bool := (200 <=? status)%N && (status <? 300)%N.
Definition sample_relay : RelayClient (HttpClient := unit) :=
  mkRelayClient tt (mkRelayConfig "http://r" 2 10 100) health_default.
Definition sample_template : BlockTemplate := mkTemplate 1 "p" "b" "k" 1 21000.
Definition sample_submission (ok : N) (t : Z) : Submission (HttpClient := unit) :=
  mkSubmission (sample_poster ok) sample_template t (t + 50) (t + 51).

Lemma relay_retry_exact_witness :
  exists r c, submit_dry_run sample_success (sample_poster 1) sample_template 0 5 6 sample_relay = (r, c) /\
    at_backoff_ms <$> dr_attempts r = [10; 0]%N /\
    dr_final_state r = (if dr_accepted r then "accepted" else "exhausted").
Proof.
  pose proof (relay_retry_exact sample_success (sample_poster 1) sample_template 0 5 6 sample_relay
    eq_refl) as H. cbv zeta in H.
  destruct (submit_dry_run _ _ _ 0 5 6 sample_relay) as [r c] eqn:E. exists r, c.
  split; [done|]. destruct H as (_ & Hs & _). split; [|done].
  vm_compute in E. injection E as <- _. reflexivity.
Defined.

Lemma circuit_breaker_exact_witness :
  let subs := [sample_submission 9 100; sample_submission 9 1000] in
  (submit sample_success (sample_submission 1 2000)
     (run_submissions sample_success subs sample_relay []).2).2 =
    (run_submissions sample_success subs sample_relay []).2 /\
  dr_accepted (submit sample_success (sample_submission 1 6050)
    (run_submissions sample_success subs sample_relay []).2).1 = true.
Proof.
  cbv zeta. split; [|vm_compute; reflexivity].
  pose proof (circuit_breaker_exact sample_success sample_relay
    [sample_submission 9 100; sample_submission 9 1000] (sample_submission 1 2000)
    eq_refl ltac:(cbn; lia)) as H.
  destruct (run_submissions _ _ sample_relay []) as [log c] eqn:E. cbn [snd].
  destruct (submit _ (sample_submission 1 2000) c) as [r c'] eqn:Es.
  destruct H as [Hiff Hc]. apply Hc. apply Hiff. vm_compute in E. injection E as <- <-.
  split; [vm_compute; discriminate|]. eexists _, _. split; [reflexivity|]. vm_compute. reflexivity.
Defined.
