(* ===== verification/Storage.v ===== *)
(** * Storage: the in-memory read model (crates/storage/src/lib.rs)

    The bounded event log with its sorted index, the hash-indexed tables, the
    projections derived from appended events and the counters.  How long an
    operation took (the clock) is an argument of it. *)
From stdpp Require Import base gmap strings list numbers sorting pretty.
From S2P Require Import Prelude Common EventLog Scheduler.

(** ** Standard-library searches

    [slice::binary_search_by] (the loop of the standard library) and
    [slice::partition_point] over it. *)
Fixpoint bsearch_loop {A} (fuel : nat) (f : A -> comparison) (l : list A) (base size : nat) : nat :=
  match fuel with
  | O => base
  | S fuel' =>
      if decide (size <= 1)%nat then base
      else
        let half := (size / 2)%nat in
        let mid := (base + half)%nat in
        let base' := match f <$> l !! mid with Some Gt => base | _ => mid end in
        bsearch_loop fuel' f l base' (size - half)
  end.
Definition binary_search_by {A} (f : A -> comparison) (l : list A) : nat + nat :=
  match l with
  | [] => inr 0%nat
  | _ =>
      let base := bsearch_loop (length l) f l 0 (length l) in
      match f <$> l !! base with
      | Some Eq => inl base
      | Some Lt => inr (base + 1)%nat
      | _ => inr base
      end
  end.
Definition partition_point {A} (p : A -> bool) (l : list A) : nat :=
  match binary_search_by (fun x => if p x then Lt else Gt) l with
  | inl i => i
  | inr i => i
  end.

(** ** Records *)
Record StorageConfig := mkStorageConfig {
  event_capacity : N;
  recent_tx_capacity : N;
  table_capacity : N;
  write_latency_capacity : N;
}.
Definition storage_config_default : StorageConfig := mkStorageConfig 250000 25000 250000 16384.

Record TxSeenRecord := mkTxSeenRecord {
  ts_hash : TxHash;
  ts_peer : PeerId;
  ts_first_seen_unix_ms : Z;
  ts_first_seen_mono_ns : N;
  ts_seen_count : N;
}.
Record TxFullRecord := mkTxFullRecord {
  tf_hash : TxHash;
  tf_tx_type : N;
  tf_sender : Address;
  tf_nonce : N;
  tf_to : option Address;
  tf_chain_id : option N;
  tf_value_wei : option N;
  tf_gas_limit : option N;
  tf_gas_price_wei : option N;
  tf_max_fee_per_gas_wei : option N;
  tf_max_priority_fee_per_gas_wei : option N;
  tf_max_fee_per_blob_gas_wei : option N;
  tf_calldata_len : option N;
  tf_raw_tx : list N;
}.
Record TxFeaturesRecord := mkTxFeaturesRecord {
  fr_hash : TxHash;
  fr_chain_id : option N;
  fr_protocol : string;
  fr_category : string;
  fr_mev_score : N;
  fr_urgency_score : N;
  fr_method_selector : option (list N);
  fr_feature_engine_version : string;
}.
Record OpportunityRecord := mkOpportunityRecord {
  or_tx_hash : TxHash;
  or_chain_id : option N;
  or_strategy : string;
  or_score : N;
  or_protocol : string;
  or_category : string;
  or_feature_engine_version : string;
  or_scorer_version : string;
  or_strategy_version : string;
  or_reasons : list string;
  or_detected_unix_ms : Z;
}.
Record BuilderLifecycleRecord := mkBuilderRecord {
  br_candidate_id : string;
  br_tx_hash : TxHash;
  br_decision : string;
  br_replaced_candidate_ids : list string;
  br_reason : option string;
  br_block_number : N;
  br_updated_unix_ms : Z;
}.
Record TxLifecycleRecord := mkLifecycleRecord {
  lr_hash : TxHash;
  lr_status : string;
  lr_reason : option string;
  lr_updated_unix_ms : Z;
}.
Record PeerStatsRecord := mkPeerStats {
  pr_peer : PeerId;
  pr_throughput_tps : N;
  pr_drop_rate_bps : N;
  pr_rtt_ms : N;
}.
Record RecentTransactionRecord := mkRecentTx {
  rt_hash : TxHash;
  rt_sender : Address;
  rt_nonce : N;
  rt_tx_type : N;
  rt_seen_unix_ms : Z;
  rt_source_id : string;
}.
Record FeatureSummaryBucket := mkBucket {
  fb_protocol : string;
  fb_category : string;
  fb_count : N;
}.
Record MarketStatsSnapshot := mkMarketStats {
  total_signal_volume : N;
  total_tx_count : N;
  low_risk_count : N;
  medium_risk_count : N;
  high_risk_count : N;
}.
Record SchedulerRehydrationPlan := mkPlan {
  plan_snapshot : option PersistedSchedulerSnapshot;
  plan_replay_events : list EventEnvelope;
  plan_requires_rpc_rebuild : bool;
}.

(** ** Bounded and hash-indexed tables *)

(** [while deque.len() > capacity { pop_front }]. *)
Definition drop_front {A} (capacity : N) (l : list A) : list A :=
  drop (length l - N.to_nat capacity) l.
Definition push_bounded {A} (l : list A) (value : A) (capacity : N) : list A :=
  drop_front capacity (l ++ [value]).

(** The fields [x], [x_counts] and [x_lookup] of one table; the rows are the
    deque, front first. *)
Record HashTable (R V : Type) := mkTable {
  t_rows : list R;
  t_counts : gmap TxHash N;
  t_lookup : gmap TxHash V;
}.
Arguments mkTable {R V} _ _ _.
Arguments t_rows {R V} _.
Arguments t_counts {R V} _.
Arguments t_lookup {R V} _.
Definition table_empty {R V} : HashTable R V := mkTable [] ∅ ∅.

(** The eviction loop, over the rows; [counts] and [lookup] lose a hash with
    its last row. *)
Fixpoint evict_indexed {R V} (key : R -> TxHash) (capacity : N) (rows : list R)
    (counts : gmap TxHash N) (lookup : gmap TxHash V) : HashTable R V :=
  match rows with
  | [] => mkTable [] counts lookup
  | evicted :: rows' =>
      if (capacity <? usize_of (length rows))%N
      then
        match counts !! key evicted with
        | Some count =>
            let count := sat_sub count 1 in
            if (count =? 0)%N
            then evict_indexed key capacity rows' (delete (key evicted) counts)
                   (delete (key evicted) lookup)
            else evict_indexed key capacity rows' (<[key evicted := count]> counts) lookup
        | None => evict_indexed key capacity rows' counts lookup
        end
      else mkTable rows counts lookup
  end.

(** [push_back], [*counts.entry(hash).or_insert(0) += 1] and [lookup.insert]. *)
Definition table_push {R V} (hash : TxHash) (row : R) (value : V) (t : HashTable R V) : HashTable R V :=
  mkTable (t_rows t ++ [row]) (<[hash := default 0 (t_counts t !! hash) + 1]> (t_counts t))%N
    (<[hash := value]> (t_lookup t)).

Definition push_bounded_hash_indexed {T} (hash_of : T -> TxHash) (capacity : N) (value : T)
    (t : HashTable T T) : HashTable T T :=
  let t := table_push (hash_of value) value value t in
  evict_indexed hash_of capacity (t_rows t) (t_counts t) (t_lookup t).

(** ** State *)
Record InMemoryStorage := mkStorage {
  st_config : StorageConfig;
  st_events : list EventEnvelope;
  st_event_index : list EventEnvelope;
  st_tx_seen : HashTable TxSeenRecord TxSeenRecord;
  st_tx_full : HashTable TxFullRecord TxFullRecord;
  st_tx_features : HashTable TxFeaturesRecord TxFeaturesRecord;
  st_feature_summary_counts : gmap (string * string) N;
  st_opportunities : list OpportunityRecord;
  st_builder_lifecycle : list BuilderLifecycleRecord;
  st_tx_lifecycle : HashTable TxLifecycleRecord TxLifecycleRecord;
  st_peer_stats : list PeerStatsRecord;
  st_scheduler_snapshot : option PersistedSchedulerSnapshot;
  st_latest_finalized_block_unix_ms : option Z;
  st_write_latency_ns : list N;
  st_recent_tx : HashTable TxHash RecentTransactionRecord;
  st_market_stats : MarketStatsSnapshot;
  st_read_model_revision : N;
}.

Definition with_config (config : StorageConfig) : InMemoryStorage :=
  {| st_config :=
       {| event_capacity := N.max (event_capacity config) 1;
          recent_tx_capacity := N.max (recent_tx_capacity config) 1;
          table_capacity := N.max (table_capacity config) 1;
          write_latency_capacity := N.max (write_latency_capacity config) 1 |};
     st_events := []; st_event_index := []; st_tx_seen := table_empty; st_tx_full := table_empty;
     st_tx_features := table_empty; st_feature_summary_counts := ∅; st_opportunities := [];
     st_builder_lifecycle := []; st_tx_lifecycle := table_empty; st_peer_stats := [];
     st_scheduler_snapshot := None; st_latest_finalized_block_unix_ms := None;
     st_write_latency_ns := []; st_recent_tx := table_empty;
     st_market_stats := mkMarketStats 0 0 0 0 0; st_read_model_revision := 0 |}.
Definition storage_new : InMemoryStorage := with_config storage_config_default.
Definition storage_len (s : InMemoryStorage) : N := usize_of (length (st_events s)).
Definition storage_is_empty (s : InMemoryStorage) : bool := bool_decide (st_events s = []).

(** Field updates. *)
Definition set_events v (s : InMemoryStorage) : InMemoryStorage :=
  mkStorage (st_config s) v (st_event_index s) (st_tx_seen s) (st_tx_full s) (st_tx_features s)
    (st_feature_summary_counts s) (st_opportunities s) (st_builder_lifecycle s) (st_tx_lifecycle
    s) (st_peer_stats s) (st_scheduler_snapshot s) (st_latest_finalized_block_unix_ms s)
    (st_write_latency_ns s) (st_recent_tx s) (st_market_stats s) (st_read_model_revision s).
Definition set_event_index v (s : InMemoryStorage) : InMemoryStorage :=
  mkStorage (st_config s) (st_events s) v (st_tx_seen s) (st_tx_full s) (st_tx_features s)
    (st_feature_summary_counts s) (st_opportunities s) (st_builder_lifecycle s) (st_tx_lifecycle
    s) (st_peer_stats s) (st_scheduler_snapshot s) (st_latest_finalized_block_unix_ms s)
    (st_write_latency_ns s) (st_recent_tx s) (st_market_stats s) (st_read_model_revision s).
Definition set_tx_seen v (s : InMemoryStorage) : InMemoryStorage :=
  mkStorage (st_config s) (st_events s) (st_event_index s) v (st_tx_full s) (st_tx_features s)
    (st_feature_summary_counts s) (st_opportunities s) (st_builder_lifecycle s) (st_tx_lifecycle
    s) (st_peer_stats s) (st_scheduler_snapshot s) (st_latest_finalized_block_unix_ms s)
    (st_write_latency_ns s) (st_recent_tx s) (st_market_stats s) (st_read_model_revision s).
Definition set_tx_full v (s : InMemoryStorage) : InMemoryStorage :=
  mkStorage (st_config s) (st_events s) (st_event_index s) (st_tx_seen s) v (st_tx_features s)
    (st_feature_summary_counts s) (st_opportunities s) (st_builder_lifecycle s) (st_tx_lifecycle
    s) (st_peer_stats s) (st_scheduler_snapshot s) (st_latest_finalized_block_unix_ms s)
    (st_write_latency_ns s) (st_recent_tx s) (st_market_stats s) (st_read_model_revision s).
Definition set_tx_features v (s : InMemoryStorage) : InMemoryStorage :=
  mkStorage (st_config s) (st_events s) (st_event_index s) (st_tx_seen s) (st_tx_full s) v
    (st_feature_summary_counts s) (st_opportunities s) (st_builder_lifecycle s) (st_tx_lifecycle
    s) (st_peer_stats s) (st_scheduler_snapshot s) (st_latest_finalized_block_unix_ms s)
    (st_write_latency_ns s) (st_recent_tx s) (st_market_stats s) (st_read_model_revision s).
Definition set_feature_summary_counts v (s : InMemoryStorage) : InMemoryStorage :=
  mkStorage (st_config s) (st_events s) (st_event_index s) (st_tx_seen s) (st_tx_full s)
    (st_tx_features s) v (st_opportunities s) (st_builder_lifecycle s) (st_tx_lifecycle s)
    (st_peer_stats s) (st_scheduler_snapshot s) (st_latest_finalized_block_unix_ms s)
    (st_write_latency_ns s) (st_recent_tx s) (st_market_stats s) (st_read_model_revision s).
Definition set_opportunities v (s : InMemoryStorage) : InMemoryStorage :=
  mkStorage (st_config s) (st_events s) (st_event_index s) (st_tx_seen s) (st_tx_full s)
    (st_tx_features s) (st_feature_summary_counts s) v (st_builder_lifecycle s) (st_tx_lifecycle
    s) (st_peer_stats s) (st_scheduler_snapshot s) (st_latest_finalized_block_unix_ms s)
    (st_write_latency_ns s) (st_recent_tx s) (st_market_stats s) (st_read_model_revision s).
Definition set_builder_lifecycle v (s : InMemoryStorage) : InMemoryStorage :=
  mkStorage (st_config s) (st_events s) (st_event_index s) (st_tx_seen s) (st_tx_full s)
    (st_tx_features s) (st_feature_summary_counts s) (st_opportunities s) v (st_tx_lifecycle s)
    (st_peer_stats s) (st_scheduler_snapshot s) (st_latest_finalized_block_unix_ms s)
    (st_write_latency_ns s) (st_recent_tx s) (st_market_stats s) (st_read_model_revision s).
Definition set_tx_lifecycle v (s : InMemoryStorage) : InMemoryStorage :=
  mkStorage (st_config s) (st_events s) (st_event_index s) (st_tx_seen s) (st_tx_full s)
    (st_tx_features s) (st_feature_summary_counts s) (st_opportunities s) (st_builder_lifecycle
    s) v (st_peer_stats s) (st_scheduler_snapshot s) (st_latest_finalized_block_unix_ms s)
    (st_write_latency_ns s) (st_recent_tx s) (st_market_stats s) (st_read_model_revision s).
Definition set_peer_stats v (s : InMemoryStorage) : InMemoryStorage :=
  mkStorage (st_config s) (st_events s) (st_event_index s) (st_tx_seen s) (st_tx_full s)
    (st_tx_features s) (st_feature_summary_counts s) (st_opportunities s) (st_builder_lifecycle
    s) (st_tx_lifecycle s) v (st_scheduler_snapshot s) (st_latest_finalized_block_unix_ms s)
    (st_write_latency_ns s) (st_recent_tx s) (st_market_stats s) (st_read_model_revision s).
Definition set_scheduler_snapshot v (s : InMemoryStorage) : InMemoryStorage :=
  mkStorage (st_config s) (st_events s) (st_event_index s) (st_tx_seen s) (st_tx_full s)
    (st_tx_features s) (st_feature_summary_counts s) (st_opportunities s) (st_builder_lifecycle
    s) (st_tx_lifecycle s) (st_peer_stats s) v (st_latest_finalized_block_unix_ms s)
    (st_write_latency_ns s) (st_recent_tx s) (st_market_stats s) (st_read_model_revision s).
Definition set_latest_finalized_block_unix_ms v (s : InMemoryStorage) : InMemoryStorage :=
  mkStorage (st_config s) (st_events s) (st_event_index s) (st_tx_seen s) (st_tx_full s)
    (st_tx_features s) (st_feature_summary_counts s) (st_opportunities s) (st_builder_lifecycle
    s) (st_tx_lifecycle s) (st_peer_stats s) (st_scheduler_snapshot s) v (st_write_latency_ns s)
    (st_recent_tx s) (st_market_stats s) (st_read_model_revision s).
Definition set_write_latency_ns v (s : InMemoryStorage) : InMemoryStorage :=
  mkStorage (st_config s) (st_events s) (st_event_index s) (st_tx_seen s) (st_tx_full s)
    (st_tx_features s) (st_feature_summary_counts s) (st_opportunities s) (st_builder_lifecycle
    s) (st_tx_lifecycle s) (st_peer_stats s) (st_scheduler_snapshot s)
    (st_latest_finalized_block_unix_ms s) v (st_recent_tx s) (st_market_stats s)
    (st_read_model_revision s).
Definition set_recent_tx v (s : InMemoryStorage) : InMemoryStorage :=
  mkStorage (st_config s) (st_events s) (st_event_index s) (st_tx_seen s) (st_tx_full s)
    (st_tx_features s) (st_feature_summary_counts s) (st_opportunities s) (st_builder_lifecycle
    s) (st_tx_lifecycle s) (st_peer_stats s) (st_scheduler_snapshot s)
    (st_latest_finalized_block_unix_ms s) (st_write_latency_ns s) v (st_market_stats s)
    (st_read_model_revision s).
Definition set_market_stats v (s : InMemoryStorage) : InMemoryStorage :=
  mkStorage (st_config s) (st_events s) (st_event_index s) (st_tx_seen s) (st_tx_full s)
    (st_tx_features s) (st_feature_summary_counts s) (st_opportunities s) (st_builder_lifecycle
    s) (st_tx_lifecycle s) (st_peer_stats s) (st_scheduler_snapshot s)
    (st_latest_finalized_block_unix_ms s) (st_write_latency_ns s) (st_recent_tx s) v
    (st_read_model_revision s).
Definition set_read_model_revision v (s : InMemoryStorage) : InMemoryStorage :=
  mkStorage (st_config s) (st_events s) (st_event_index s) (st_tx_seen s) (st_tx_full s)
    (st_tx_features s) (st_feature_summary_counts s) (st_opportunities s) (st_builder_lifecycle
    s) (st_tx_lifecycle s) (st_peer_stats s) (st_scheduler_snapshot s)
    (st_latest_finalized_block_unix_ms s) (st_write_latency_ns s) (st_recent_tx s)
    (st_market_stats s) v.

(** ** Bookkeeping *)
Definition record_write_latency (latency_ns : N) (s : InMemoryStorage) : InMemoryStorage :=
  set_write_latency_ns
    (push_bounded (st_write_latency_ns s) latency_ns (write_latency_capacity (st_config s))) s.
Definition bump_read_model_revision (s : InMemoryStorage) : InMemoryStorage :=
  set_read_model_revision (sat_add u64_max (st_read_model_revision s) 1) s.
(** The end of every write: [elapsed] nanoseconds, as a [u64]. *)
Definition finish_write (elapsed : N) (s : InMemoryStorage) : InMemoryStorage :=
  bump_read_model_revision (record_write_latency (cast 64 elapsed) s).

Definition increment_feature_summary_count (protocol category : string) (m : gmap (string * string) N) :
    gmap (string * string) N :=
  <[(protocol, category) := (default 0 (m !! (protocol, category)) + 1)%N]> m.
Definition decrement_feature_summary_count (protocol category : string) (m : gmap (string * string) N) :
    gmap (string * string) N :=
  match m !! (protocol, category) with
  | Some count =>
      let count := sat_sub count 1 in
      if (count =? 0)%N then delete (protocol, category) m else <[(protocol, category) := count]> m
  | None => m
  end.

(** ** Table writes *)
Definition upsert_tx_seen (record : TxSeenRecord) (elapsed : N) (s : InMemoryStorage) : InMemoryStorage :=
  let m := st_market_stats s in
  finish_write elapsed
    (set_market_stats
       (mkMarketStats (total_signal_volume m) (sat_add u64_max (total_tx_count m) 1)
          (low_risk_count m) (medium_risk_count m) (high_risk_count m))
       (set_tx_seen (push_bounded_hash_indexed ts_hash (table_capacity (st_config s)) record
          (st_tx_seen s)) s)).

Definition upsert_tx_full (record : TxFullRecord) (elapsed : N) (s : InMemoryStorage) : InMemoryStorage :=
  finish_write elapsed
    (set_tx_full (push_bounded_hash_indexed tf_hash (table_capacity (st_config s)) record
       (st_tx_full s)) s).

(** The eviction loop of the features table, which also uncounts the removed
    latest record. *)
Fixpoint evict_features (capacity : N) (rows : list TxFeaturesRecord) (counts : gmap TxHash N)
    (lookup : gmap TxHash TxFeaturesRecord) (summary : gmap (string * string) N) :
    HashTable TxFeaturesRecord TxFeaturesRecord * gmap (string * string) N :=
  match rows with
  | [] => (mkTable [] counts lookup, summary)
  | evicted :: rows' =>
      if (capacity <? usize_of (length rows))%N
      then
        let h := fr_hash evicted in
        match counts !! h with
        | Some count =>
            let count := sat_sub count 1 in
            if (count =? 0)%N
            then evict_features capacity rows' (delete h counts) (delete h lookup)
                   (match lookup !! h with
                    | Some removed =>
                        decrement_feature_summary_count (fr_protocol removed) (fr_category removed) summary
                    | None => summary
                    end)
            else evict_features capacity rows' (<[h := count]> counts) lookup summary
        | None => evict_features capacity rows' counts lookup summary
        end
      else (mkTable rows counts lookup, summary)
  end.

Definition upsert_tx_features (record : TxFeaturesRecord) (elapsed : N) (s : InMemoryStorage) :
    InMemoryStorage :=
  let hash := fr_hash record in
  let summary :=
    match t_lookup (st_tx_features s) !! hash with
    | Some previous =>
        decrement_feature_summary_count (fr_protocol previous) (fr_category previous)
          (st_feature_summary_counts s)
    | None => st_feature_summary_counts s
    end in
  let summary := increment_feature_summary_count (fr_protocol record) (fr_category record) summary in
  let t := table_push hash record record (st_tx_features s) in
  let '(t, summary) :=
    evict_features (table_capacity (st_config s)) (t_rows t) (t_counts t) (t_lookup t) summary in
  let m := st_market_stats s in
  let signal := sat_add u64_max (total_signal_volume m) 1 in
  let m' :=
    if (80 <=? fr_mev_score record)%N
    then mkMarketStats signal (total_tx_count m) (low_risk_count m) (medium_risk_count m)
           (sat_add u64_max (high_risk_count m) 1)
    else if (45 <=? fr_mev_score record)%N
    then mkMarketStats signal (total_tx_count m) (low_risk_count m)
           (sat_add u64_max (medium_risk_count m) 1) (high_risk_count m)
    else mkMarketStats signal (total_tx_count m) (sat_add u64_max (low_risk_count m) 1)
           (medium_risk_count m) (high_risk_count m) in
  finish_write elapsed (set_market_stats m' (set_feature_summary_counts summary (set_tx_features t s))).

Definition upsert_opportunity (record : OpportunityRecord) (elapsed : N) (s : InMemoryStorage) :
    InMemoryStorage :=
  finish_write elapsed
    (set_opportunities (push_bounded (st_opportunities s) record (table_capacity (st_config s))) s).
Definition upsert_builder_lifecycle (record : BuilderLifecycleRecord) (elapsed : N)
    (s : InMemoryStorage) : InMemoryStorage :=
  finish_write elapsed
    (set_builder_lifecycle
       (push_bounded (st_builder_lifecycle s) record (table_capacity (st_config s))) s).
Definition upsert_tx_lifecycle (record : TxLifecycleRecord) (elapsed : N) (s : InMemoryStorage) :
    InMemoryStorage :=
  finish_write elapsed
    (set_tx_lifecycle (push_bounded_hash_indexed lr_hash (table_capacity (st_config s)) record
       (st_tx_lifecycle s)) s).
Definition upsert_peer_stats (record : PeerStatsRecord) (elapsed : N) (s : InMemoryStorage) :
    InMemoryStorage :=
  finish_write elapsed
    (set_peer_stats (push_bounded (st_peer_stats s) record (table_capacity (st_config s))) s).
Definition write_scheduler_snapshot (snapshot : PersistedSchedulerSnapshot) (elapsed : N)
    (s : InMemoryStorage) : InMemoryStorage :=
  finish_write elapsed (set_scheduler_snapshot (Some snapshot) s).

Definition track_recent_transaction (record : RecentTransactionRecord) (s : InMemoryStorage) :
    InMemoryStorage :=
  let t := table_push (rt_hash record) (rt_hash record) record (st_recent_tx s) in
  set_recent_tx
    (evict_indexed (fun h => h) (recent_tx_capacity (st_config s)) (t_rows t) (t_counts t) (t_lookup t)) s.

(** ** Projections of an event *)
Definition project_opportunity_from_candidate (q : CandidateQueued) : OpportunityRecord :=
  {| or_tx_hash := cq_tx_hash q; or_chain_id := cq_chain_id q; or_strategy := cq_strategy q;
     or_score := cq_score q; or_protocol := cq_protocol q; or_category := cq_category q;
     or_feature_engine_version := cq_feature_engine_version q;
     or_scorer_version := cq_scorer_version q; or_strategy_version := cq_strategy_version q;
     or_reasons := cq_reasons q; or_detected_unix_ms := cq_detected_unix_ms q |}.
Definition project_builder_lifecycle (p : AssemblyDecisionApplied) (updated_unix_ms : Z) :
    BuilderLifecycleRecord :=
  {| br_candidate_id := ada_candidate_id p; br_tx_hash := ada_tx_hash p;
     br_decision := ada_decision p; br_replaced_candidate_ids := ada_replaced_candidate_ids p;
     br_reason := ada_reason p; br_block_number := ada_block_number p;
     br_updated_unix_ms := updated_unix_ms |}.

Definition block_reason (c : TxConfirmed) : string :=
  "block=" +:+ pretty (confirmed_block_number c) +:+ ":" +:+ format_hash (confirmed_block_hash c).

Definition lifecycle_update (event : EventEnvelope) : option TxLifecycleRecord :=
  let at_ts hash status reason :=
    Some (mkLifecycleRecord hash status reason (ingest_ts_unix_ms event)) in
  match payload event with
  | PTxDecoded d => at_ts (dec_hash d) "pending" None
  | PTxDropped d => at_ts (dropped_hash d) "dropped" (Some (dropped_reason d))
  | PTxConfirmedProvisional c =>
      at_ts (confirmed_hash c) "confirmed_provisional" (Some (block_reason c))
  | PTxConfirmedFinal c => at_ts (confirmed_hash c) "confirmed_final" (Some (block_reason c))
  | PTxReplaced r => at_ts (replaced_hash r) "replaced" (Some (format_hash (replaced_by r)))
  | PTxReorged r => at_ts (reorged_hash r) "pending" (Some "reorg_reopened")
  | _ => None
  end.

Definition recent_of (event : EventEnvelope) (d : TxDecoded) : RecentTransactionRecord :=
  {| rt_hash := dec_hash d; rt_sender := dec_sender d; rt_nonce := dec_nonce d;
     rt_tx_type := dec_tx_type d; rt_seen_unix_ms := ingest_ts_unix_ms event;
     rt_source_id := source_id event |}.

(** The derived tables, in the order of [append_event]; the two inner upserts
    time themselves. *)
Definition derive_tables (event : EventEnvelope) (projection_ns lifecycle_ns : N)
    (s : InMemoryStorage) : InMemoryStorage :=
  let s :=
    match payload event with
    | PTxDecoded d => track_recent_transaction (recent_of event d) s
    | _ => s
    end in
  let s :=
    match payload event with
    | PTxConfirmedFinal _ =>
        set_latest_finalized_block_unix_ms
          (Some (Z.max (default 0%Z (st_latest_finalized_block_unix_ms s)) (ingest_ts_unix_ms event))) s
    | _ => s
    end in
  let s :=
    match payload event with
    | PCandidateQueued q => upsert_opportunity (project_opportunity_from_candidate q) projection_ns s
    | _ => s
    end in
  let s :=
    match payload event with
    | PAssemblyDecisionApplied a =>
        upsert_builder_lifecycle (project_builder_lifecycle a (ingest_ts_unix_ms event)) projection_ns s
    | _ => s
    end in
  match lifecycle_update event with
  | Some record => upsert_tx_lifecycle record lifecycle_ns s
  | None => s
  end.

(** ** The ordered event index *)
Definition index_insert (event : EventEnvelope) (index : list EventEnvelope) : list EventEnvelope :=
  let append_to_tail :=
    match list.last index with
    | None => true
    | Some last => match cmp_deterministic last event with Gt => false | _ => true end
    end in
  if append_to_tail then index ++ [event]
  else
    let insert_at :=
      partition_point
        (fun existing => match cmp_deterministic existing event with Lt => true | _ => false end)
        index in
    take insert_at index ++ event :: drop insert_at index.

Definition is_eq (c : comparison) : bool := match c with Eq => true | _ => false end.

(** Back to the first entry with the target's key. *)
Fixpoint walk_back (events : list EventEnvelope) (target : EventEnvelope) (index : nat) : nat :=
  match index with
  | O => O
  | S i =>
      match events !! i with
      | Some e => if is_eq (cmp_deterministic e target) then walk_back events target i else S i
      | None => S i
      end
  end.
(** Forward over that key's entries to the target itself; [rest] is
    [events[index..]]. *)
Fixpoint find_equal (rest : list EventEnvelope) (target : EventEnvelope) (index : nat) : option nat :=
  match rest with
  | [] => None
  | e :: rest' =>
      if is_eq (cmp_deterministic e target)
      then if decide (e = target) then Some index else find_equal rest' target (S index)
      else None
  end.

Definition remove_event_from_sorted_index (events : list EventEnvelope) (target : EventEnvelope) :
    list EventEnvelope :=
  match binary_search_by (fun existing => cmp_deterministic existing target) events with
  | inr _ => events
  | inl index =>
      let index := walk_back events target index in
      match find_equal (drop index events) target index with
      | Some i => delete i events
      | None => events
      end
  end.

(** [while self.events.len() > capacity]. *)
Fixpoint evict_events (capacity : N) (events index : list EventEnvelope) :
    list EventEnvelope * list EventEnvelope :=
  match events with
  | [] => ([], index)
  | old :: events' =>
      if (capacity <? usize_of (length events))%N
      then evict_events capacity events' (remove_event_from_sorted_index index old)
      else (events, index)
  end.

Definition append_event (event : EventEnvelope) (projection_ns lifecycle_ns elapsed : N)
    (s : InMemoryStorage) : InMemoryStorage :=
  let s := derive_tables event projection_ns lifecycle_ns s in
  let index := index_insert event (st_event_index s) in
  let '(events, index) :=
    evict_events (event_capacity (st_config s)) (st_events s ++ [event]) index in
  finish_write elapsed (set_event_index index (set_events events s)).

Definition list_events (s : InMemoryStorage) : list EventEnvelope := st_event_index s.
Definition scan_events_cursor_start (events : list EventEnvelope) (from_seq_id : N) : nat :=
  partition_point (fun event => (seq_id event <=? from_seq_id)%N) events.
Definition scan_events (from_seq_id limit : N) (s : InMemoryStorage) : list EventEnvelope :=
  let limit := N.max limit 1 in
  take (N.to_nat limit)
    (drop (scan_events_cursor_start (st_event_index s) from_seq_id) (st_event_index s)).
Definition latest_seq_id (s : InMemoryStorage) : option N := seq_id <$> list.last (st_event_index s).

(** ** Queries *)
Definition tx_seen_by_hash (hash : TxHash) (s : InMemoryStorage) := t_lookup (st_tx_seen s) !! hash.
Definition tx_full_by_hash (hash : TxHash) (s : InMemoryStorage) := t_lookup (st_tx_full s) !! hash.
Definition tx_features_by_hash (hash : TxHash) (s : InMemoryStorage) :=
  t_lookup (st_tx_features s) !! hash.
Definition tx_lifecycle_by_hash (hash : TxHash) (s : InMemoryStorage) :=
  t_lookup (st_tx_lifecycle s) !! hash.

Definition scheduler_rehydration_plan (max_finality_gap_ms : N) (s : InMemoryStorage) :
    SchedulerRehydrationPlan :=
  match st_scheduler_snapshot s with
  | None => mkPlan None [] false
  | Some snapshot =>
      let stale :=
        match st_latest_finalized_block_unix_ms s with
        | Some finalized_unix_ms =>
            (Z.of_N (N.min max_finality_gap_ms (Z.to_N i64_max)) <?
               i64_sat_sub finalized_unix_ms (ps_captured_at_unix_ms snapshot))%Z
        | None => false
        end in
      if stale then mkPlan None [] true
      else
        mkPlan (Some snapshot)
          (scan_events (ps_event_seq_hi snapshot)
             (N.max (usize_of (length (st_event_index s))) 1) s) false
  end.

(** [sort_unstable_by]: some permutation that the comparator orders; the order
    of a map's iterator is left open as well. *)
Class UnstableSort := {
  sort_unstable_by {A} : (A -> A -> comparison) -> list A -> list A;
  sort_unstable_perm {A} (c : A -> A -> comparison) l : sort_unstable_by c l ≡ₚ l;
  sort_unstable_sorted {A} (c : A -> A -> comparison) l :
    CmpPre c -> StronglySorted (cmp_le c) (sort_unstable_by c l);
}.
Class MapIter (K : Type) `{Countable K} := {
  map_iter {V} : gmap K V -> list (K * V);
  map_iter_perm {V} (m : gmap K V) : map_iter m ≡ₚ map_to_list m;
}.

Definition opportunity_cmp (a b : OpportunityRecord) : comparison :=
  then_with (Z.compare (or_detected_unix_ms b) (or_detected_unix_ms a))
    (then_with (N.compare (or_tx_hash a) (or_tx_hash b))
      (String.compare (or_strategy a) (or_strategy b))).
Definition bucket_cmp (left right : FeatureSummaryBucket) : comparison :=
  then_with (N.compare (fb_count right) (fb_count left))
    (then_with (String.compare (fb_protocol left) (fb_protocol right))
      (String.compare (fb_category left) (fb_category right))).
Definition recent_cmp (a b : RecentTransactionRecord) : comparison :=
  then_with (Z.compare (rt_seen_unix_ms b) (rt_seen_unix_ms a))
    (N.compare (rt_hash a) (rt_hash b)).

(** The loop of [recent_transactions], over the hashes newest first. *)
Fixpoint recent_loop (target : N) (lookup : gmap TxHash RecentTransactionRecord)
    (hashes : list TxHash) (emitted : gset TxHash) (out : list RecentTransactionRecord) :
    list RecentTransactionRecord :=
  match hashes with
  | [] => out
  | hash :: hashes' =>
      if bool_decide (hash ∈ emitted) then recent_loop target lookup hashes' emitted out
      else
        let emitted := {[hash]} ∪ emitted in
        match lookup !! hash with
        | Some record =>
            let out := out ++ [record] in
            if (target <=? usize_of (length out))%N then out
            else recent_loop target lookup hashes' emitted out
        | None => recent_loop target lookup hashes' emitted out
        end
  end.

Section queries.
Context `{UnstableSort, !MapIter (string * string)}.

Definition opportunities (s : InMemoryStorage) : list OpportunityRecord :=
  sort_unstable_by opportunity_cmp (st_opportunities s).

Definition dashboard_feature_summary (limit : N) (s : InMemoryStorage) : list FeatureSummaryBucket :=
  let target := N.max limit 1 in
  take (N.to_nat target)
    (sort_unstable_by bucket_cmp
       ((fun '((protocol, category), count) => mkBucket protocol category count) <$>
          map_iter (st_feature_summary_counts s))).

Definition recent_transactions (limit : N) (s : InMemoryStorage) : list RecentTransactionRecord :=
  let target := N.max limit 1 in
  sort_unstable_by recent_cmp
    (recent_loop target (t_lookup (st_recent_tx s)) (reverse (t_rows (st_recent_tx s))) ∅ []).
End queries.

(** [sum::<u64>()] of a release build, which wraps. *)
Definition avg_write_latency_ns (s : InMemoryStorage) : option N :=
  match st_write_latency_ns s with
  | [] => None
  | l => Some (foldl (fun acc x => cast 64 (acc + x)) 0 l / usize_of (length l))%N
  end.
