(* ===== verification/StorageIndex.v ===== *)
(** * StorageIndex: the sorted event index

    The searches find what a linear scan finds, insertion and removal keep the
    index a sorted permutation of the retained events, and the cursor of
    [scan_events] is exact. *)
From stdpp Require Import base gmap strings list numbers sorting.
From S2P Require Import Prelude Common EventLog Scheduler Storage.

(** ** Binary search *)
Section bsearch.
Context {A : Type} (f : A -> comparison) (l : list A).

(** [f] is ordered along the list: [Lt]s, then [Eq]s, then [Gt]s. *)
Definition searchable : Prop :=
  forall i j x y, (i < j)%nat -> l !! i = Some x -> l !! j = Some y ->
    (f x = Gt -> f y = Gt) /\ (f y = Lt -> f x = Lt).

Hypothesis Hmono : searchable.

Definition gt_from (n : nat) : Prop := forall j y, (n <= j)%nat -> l !! j = Some y -> f y = Gt.

Lemma gt_from_mono i n x : l !! i = Some x -> f x = Gt -> (i <= n)%nat -> gt_from n.
Proof.
  intros Hi Hx Hin j y Hj Hy. destruct (decide (i = j)) as [->|]; [congruence|].
  refine (proj1 (Hmono i j x y _ Hi Hy) Hx). lia.
Qed.

Lemma bsearch_loop_S fuel base size :
  bsearch_loop (S fuel) f l base size =
    if decide (size <= 1)%nat then base
    else bsearch_loop fuel f l
      (match f <$> l !! (base + size / 2)%nat with Some Gt => base | _ => (base + size / 2)%nat end)
      (size - size / 2).
Proof. reflexivity. Qed.

Lemma bsearch_loop_spec fuel base size :
  (1 <= size <= fuel)%nat -> (base + size <= length l)%nat ->
  (base = 0%nat \/ exists x, l !! base = Some x /\ f x <> Gt) -> gt_from (base + size) ->
  let b := bsearch_loop fuel f l base size in
  (b < length l)%nat /\ (b = 0%nat \/ exists x, l !! b = Some x /\ f x <> Gt) /\ gt_from (b + 1).
Proof.
  revert base size. induction fuel as [|fuel IH]; intros base size Hs Hlen Hb Hg; [lia|].
  cbv zeta. rewrite bsearch_loop_S.
  destruct (decide (size <= 1)%nat); [assert (size = 1%nat) as -> by lia; split; [lia|done]|].
  pose proof (Nat.div_mod_eq size 2) as Hdiv. pose proof (Nat.mod_upper_bound size 2 ltac:(lia)).
  assert (exists half, half = (size / 2)%nat /\ (1 <= half)%nat /\ (2 * half <= size)%nat) as (half & <- & ? & ?)
    by (eexists; split; [done|lia]).
  clear Hdiv.
  destruct (lookup_lt_is_Some_2 l (base + half)) as [x Hx]; [lia|]. rewrite Hx. cbn.
  destruct (f x) eqn:E.
  - apply IH; [lia|lia|right; exists x; split; [done|congruence]|].
    intros j y Hj. apply Hg. lia.
  - apply IH; [lia|lia|right; exists x; split; [done|congruence]|].
    intros j y Hj. apply Hg. lia.
  - apply IH; [lia|lia|done|]. apply (gt_from_mono (base + half) _ x); [done..|lia].
Qed.

(** Found: an entry comparing equal; not found: the position that separates
    the smaller entries from the greater ones. *)
Lemma binary_search_by_spec :
  match binary_search_by f l with
  | inl i => exists x, l !! i = Some x /\ f x = Eq
  | inr i => (i <= length l)%nat /\ gt_from i /\
      (forall j y, (j < i)%nat -> l !! j = Some y -> f y = Lt)
  end.
Proof.
  unfold binary_search_by.
  assert (l = [] \/ (1 <= length l)%nat) as [El|Hlen] by (destruct l; [by left|right; cbn; lia]).
  { rewrite El. split; [done|]. split; [|lia]. intros j y _ Hy. rewrite El in Hy. by destruct j. }
  destruct l as [|x0 l0] eqn:El; [cbn in Hlen; lia|]. rewrite <-El in *.
  destruct (bsearch_loop_spec (length l) 0 (length l)) as (Hb & Hle & Hgt).
  { lia. } { lia. } { by left. }
  { intros j y Hj Hy. apply lookup_lt_Some in Hy. lia. }
  set (b := bsearch_loop (length l) f l 0 (length l)) in *.
  destruct (lookup_lt_is_Some_2 l b Hb) as [x Hx]. rewrite Hx. cbn.
  destruct (f x) eqn:E.
  - by exists x.
  - split; [lia|]. split; [done|]. intros j y Hj Hy.
    destruct (decide (j = b)) as [->|]; [congruence|].
    refine (proj2 (Hmono j b y x _ Hy Hx) E). lia.
  - destruct Hle as [->|(x' & Hx' & ?)]; [|congruence].
    split; [lia|]. split; [|lia]. by apply (gt_from_mono 0 0 x).
Qed.
End bsearch.

Lemma partition_point_spec {A} (p : A -> bool) (l : list A) :
  (forall i j x y, (i < j)%nat -> l !! i = Some x -> l !! j = Some y -> p y = true -> p x = true) ->
  let k := partition_point p l in
  (k <= length l)%nat /\ Forall (fun x => p x = true) (take k l) /\
  Forall (fun x => p x = false) (drop k l).
Proof.
  intros Hp. unfold partition_point.
  assert (searchable (fun x => if p x then Lt else Gt) l) as Hs.
  { intros j k y z Hjk Hy Hz. specialize (Hp j k y z Hjk Hy Hz).
    destruct (p y), (p z); naive_solver. }
  pose proof (binary_search_by_spec (fun x => if p x then Lt else Gt) l Hs) as H.
  cbv zeta in *. destruct (binary_search_by _ l) as [i|i].
  - destruct H as (x & _ & E). by destruct (p x).
  - destruct H as (Hi & Hg & Hl).
    split; [done|]. split; apply Forall_lookup; intros j y Hy.
    + apply lookup_take_Some in Hy as [Hy Hj]. specialize (Hl j y Hj Hy). cbn in Hl. by destruct (p y).
    + rewrite lookup_drop in Hy. specialize (Hg (i + j)%nat y ltac:(lia) Hy). cbn in Hg. by destruct (p y).
Qed.

Lemma partition_point_filter {A} (p : A -> bool) (l : list A) :
  (forall i j x y, (i < j)%nat -> l !! i = Some x -> l !! j = Some y -> p y = true -> p x = true) ->
  drop (partition_point p l) l = filter (fun x => p x = false) l.
Proof.
  intros Hp. destruct (partition_point_spec p l Hp) as (_ & Ht & Hd).
  rewrite <-(take_drop (partition_point p l) l) at 3. rewrite filter_app.
  assert (filter (fun x => p x = false) (take (partition_point p l) l) = []) as ->.
  { rewrite Forall_forall in Ht.
    destruct (filter _ _) as [|x t] eqn:E; [done|].
    assert (x ∈ filter (fun x => p x = false) (take (partition_point p l) l)) as Hx
      by (rewrite E; set_solver).
    apply list_elem_of_filter in Hx as [? Hx]. specialize (Ht x Hx). congruence. }
  cbn. clear -Hd. induction Hd as [|x l' Hx _ IH]; [done|].
  by rewrite filter_cons_True, <-IH.
Qed.

(** ** Insertion and removal *)
Abbreviation index_sorted := (StronglySorted (cmp_le cmp_deterministic)).

Lemma sorted_searchable l target :
  index_sorted l -> searchable (fun e => cmp_deterministic e target) l.
Proof.
  intros Hl i j x y Hij Hx Hy.
  pose proof (StronglySorted_lookup _ _ _ _ _ _ Hl Hij Hx Hy) as Hxy. cbv beta in Hxy. split.
  - intros Hg. rewrite (cmp_gt_lt cmp_deterministic) in Hg |- *.
    by apply (cmp_lt_le_trans cmp_deterministic _ x).
  - intros Hlt. by apply (cmp_le_lt_trans cmp_deterministic _ y).
Qed.

Lemma index_insert_perm event l : index_insert event l ≡ₚ event :: l.
Proof.
  unfold index_insert. cbv zeta.
  assert (forall n, take n l ++ event :: drop n l ≡ₚ event :: l) as H.
  { intros n. by rewrite <-Permutation_middle, take_drop. }
  destruct (list.last l) as [x|]; [destruct (cmp_deterministic x event)|];
    rewrite ?H; try done; by rewrite Permutation_app_comm.
Qed.

Lemma last_le l x event :
  index_sorted l -> list.last l = Some x -> cmp_deterministic x event <> Gt ->
  Forall (fun y => cmp_deterministic y event <> Gt) l.
Proof.
  intros Hl Hx Hle. apply Forall_forall. intros y Hy.
  rewrite last_lookup in Hx. apply list_elem_of_lookup_1 in Hy as [i Hi].
  pose proof (lookup_lt_Some _ _ _ Hi).
  destruct (decide (i = pred (length l))) as [->|]; [congruence|].
  apply (cmp_le_trans cmp_deterministic _ x); [|done].
  refine (StronglySorted_lookup _ _ _ _ _ _ Hl _ Hi Hx). lia.
Qed.

Lemma index_insert_sorted event l : index_sorted l -> index_sorted (index_insert event l).
Proof.
  intros Hl. unfold index_insert. cbv zeta.
  assert (forall x, list.last l = Some x -> cmp_deterministic x event <> Gt ->
    index_sorted (l ++ [event])) as Htail.
  { intros x Hx Hle. apply StronglySorted_app. split_and!; [|done|by repeat constructor].
    intros x1 x2 H1 ->%list_elem_of_singleton.
    pose proof (last_le l x event Hl Hx Hle) as Hall. rewrite Forall_forall in Hall. by apply Hall. }
  destruct (list.last l) as [x|] eqn:Ex.
  2:{ apply last_None in Ex as ->. by repeat constructor. }
  destruct (cmp_deterministic x event) eqn:E; [by apply (Htail x); rewrite ?E..|].
  set (p := fun existing => match cmp_deterministic existing event with Lt => true | _ => false end).
  destruct (partition_point_spec p l) as (_ & Ht & Hd).
  { intros i j y z Hij Hy Hz Hp. destruct (sorted_searchable l event Hl i j y z Hij Hy Hz) as [_ H].
    unfold p in *. destruct (cmp_deterministic z event); try done. by rewrite H. }
  set (k := partition_point p l) in *. rewrite Forall_forall in Ht, Hd.
  rewrite <-(take_drop k l) in Hl. apply StronglySorted_app in Hl as (H1 & H2 & H3).
  assert (forall y, y ∈ take k l -> cmp_deterministic y event = Lt) as Hlt.
  { intros y Hy. specialize (Ht y Hy). unfold p in Ht. by destruct (cmp_deterministic y event). }
  assert (forall y, y ∈ drop k l -> cmp_deterministic event y <> Gt) as Hge.
  { intros y Hy Hg. specialize (Hd y Hy). unfold p in Hd.
    apply (cmp_gt_lt cmp_deterministic) in Hg. by rewrite Hg in Hd. }
  apply StronglySorted_app. split_and!; [|done|].
  - intros y z Hy Hz. apply elem_of_cons in Hz as [->|Hz]; [by rewrite Hlt|by apply H1].
  - apply StronglySorted_cons. split; [by apply Forall_forall|done].
Qed.

Lemma walk_back_spec events target index :
  let i := walk_back events target index in
  (i <= index)%nat /\
  (forall j, (i <= j < index)%nat -> exists e, events !! j = Some e /\ cmp_deterministic e target = Eq) /\
  (i = 0%nat \/ forall e, events !! pred i = Some e -> cmp_deterministic e target <> Eq).
Proof.
  induction index as [|index IH]; cbn.
  - split; [lia|]. split; [lia|by left].
  - destruct (events !! index) as [e|] eqn:Ee.
    + destruct (cmp_deterministic e target) eqn:E; cbn.
      * destruct IH as (H1 & H2 & H3). split; [lia|]. split; [|done].
        intros j Hj. destruct (decide (j = index)) as [->|]; [by exists e|]. apply H2. lia.
      * split; [lia|]. split; [lia|]. right. intros ? Hx. cbn in Hx. congruence.
      * split; [lia|]. split; [lia|]. right. intros ? Hx. cbn in Hx. congruence.
    + split; [lia|]. split; [lia|]. right. intros ? Hx. cbn in Hx. congruence.
Qed.

Lemma find_equal_Some rest target index i :
  find_equal rest target index = Some i -> (index <= i)%nat /\ rest !! (i - index)%nat = Some target.
Proof.
  revert index. induction rest as [|e rest IH]; intros index; cbn; [done|].
  destruct (is_eq _); [|done]. destruct (decide (e = target)) as [->|].
  - intros [= ->]. by rewrite Nat.sub_diag.
  - intros Hf%IH. destruct Hf as [Hle Hf]. split; [lia|].
    replace (i - index)%nat with (S (i - S index)) by lia. done.
Qed.

Lemma find_equal_exists rest target index d :
  rest !! d = Some target ->
  (forall j e, (j < d)%nat -> rest !! j = Some e -> cmp_deterministic e target = Eq) ->
  is_Some (find_equal rest target index).
Proof.
  revert index d. induction rest as [|e rest IH]; intros index d Hd Hj; [done|]. cbn.
  destruct d as [|d]; cbn in Hd.
  - injection Hd as ->. rewrite (cmp_refl cmp_deterministic). cbn. by rewrite decide_True.
  - rewrite (Hj 0%nat e ltac:(lia) eq_refl). cbn.
    destruct (decide (e = target)); [done|]. apply (IH _ d Hd).
    intros j e' Hlt He'. apply (Hj (S j)); [lia|done].
Qed.

(** Between two entries with the target's key there are only such entries. *)
Lemma sorted_between l target i j k x y z :
  index_sorted l -> (i <= j <= k)%nat -> l !! i = Some x -> l !! j = Some y -> l !! k = Some z ->
  cmp_deterministic x target = Eq -> cmp_deterministic z target = Eq ->
  cmp_deterministic y target = Eq.
Proof.
  intros Hl Hijk Hx Hy Hz Ex Ez.
  destruct (decide (i = j)) as [->|]; [congruence|]. destruct (decide (j = k)) as [->|]; [congruence|].
  destruct (sorted_searchable l target Hl i j x y ltac:(lia) Hx Hy) as [_ H1].
  destruct (sorted_searchable l target Hl j k y z ltac:(lia) Hy Hz) as [H2 _].
  destruct (cmp_deterministic y target); [done|by rewrite H1 in Ex|by rewrite H2 in Ez].
Qed.

Lemma remove_event_spec l target :
  index_sorted l -> target ∈ l ->
  l ≡ₚ target :: remove_event_from_sorted_index l target /\
  index_sorted (remove_event_from_sorted_index l target).
Proof.
  intros Hl Hin. unfold remove_event_from_sorted_index.
  pose proof (binary_search_by_spec _ l (sorted_searchable l target Hl)) as Hb. cbv beta in Hb.
  apply list_elem_of_lookup_1 in Hin as [t Ht].
  assert (cmp_deterministic target target = Eq) as Hrefl by apply (cmp_refl cmp_deterministic).
  destruct (binary_search_by _ l) as [b|b].
  2:{ exfalso. destruct Hb as (_ & Hg & Hlt). destruct (decide (t < b)%nat).
      - rewrite (Hlt t target) in Hrefl; done.
      - rewrite (Hg t target) in Hrefl; [done|lia|done]. }
  destruct Hb as (x & Hx & Ex). destruct (walk_back_spec l target b) as (Hi & Heq & Hfirst).
  set (i := walk_back l target b) in *.
  assert (i <= t)%nat as Hit.
  { destruct (decide (i <= t)%nat) as [|Hgt]; [done|]. destruct Hfirst as [->|Hfirst]; [lia|].
    destruct (lookup_lt_is_Some_2 l (pred i)) as [e He]; [apply lookup_lt_Some in Hx; lia|].
    exfalso. apply (Hfirst e He). refine (sorted_between l target t (pred i) b _ _ _ Hl _ Ht He Hx Hrefl Ex).
    lia. }
  destruct (find_equal_exists (drop i l) target i (t - i)) as [k Hk].
  { rewrite lookup_drop. by replace (i + (t - i))%nat with t by lia. }
  { intros j e Hj He. rewrite lookup_drop in He. destruct (decide (i + j < b)%nat).
    - destruct (Heq (i + j)%nat ltac:(lia)) as (e' & He' & ?). congruence.
    - refine (sorted_between l target b (i + j) t _ _ _ Hl _ Hx He Ht Ex Hrefl). lia. }
  rewrite Hk. apply find_equal_Some in Hk as [Hle Hk]. rewrite lookup_drop in Hk.
  replace (i + (k - i))%nat with k in Hk by lia. split.
  - by apply delete_Permutation.
  - eapply StronglySorted_sublist; [apply sublist_delete|done].
Qed.

Lemma drop_front_cons {A} capacity (x : A) l :
  drop_front capacity (x :: l) =
    if (capacity <? usize_of (length (x :: l)))%N then drop_front capacity l else x :: l.
Proof.
  unfold drop_front, usize_of.
  destruct (N.ltb_spec capacity (N.of_nat (length (x :: l)))) as [H|H]; cbn [length] in *.
  - replace (S (length l) - N.to_nat capacity)%nat with (S (length l - N.to_nat capacity)) by lia. done.
  - by replace (S (length l) - N.to_nat capacity)%nat with 0%nat by lia.
Qed.

Lemma evict_events_spec capacity events index :
  index_sorted index -> index ≡ₚ events ->
  let r := evict_events capacity events index in
  r.1 = drop_front capacity events /\ index_sorted r.2 /\ r.2 ≡ₚ r.1.
Proof.
  revert index. induction events as [|old events IH]; intros index Hs Hp; [done|].
  rewrite drop_front_cons. cbn. destruct (_ <? _)%N; [|done].
  destruct (remove_event_spec index old Hs) as [Hrem Hsort]; [rewrite Hp; set_solver|].
  apply IH; [done|]. apply (Permutation_cons_inv (a := old)). by rewrite <-Hrem.
Qed.

Lemma drop_front_idemp_app {A} capacity (l : list A) x :
  drop_front capacity (drop_front capacity l ++ [x]) = drop_front capacity (l ++ [x]).
Proof.
  unfold drop_front. rewrite !length_app, length_drop. cbn.
  destruct (decide (length l <= N.to_nat capacity)%nat).
  - replace (length l - N.to_nat capacity)%nat with 0%nat by lia. by rewrite drop_0, Nat.sub_0_r.
  - rewrite <-(drop_app_le l [x]) by lia. rewrite drop_drop. f_equal. lia.
Qed.
