(* ===== verification/StorageTables.v ===== *)
(** * StorageTables: the hash-indexed tables

    A table represents the list of values pushed and still retained: the rows
    are their hashes in order, the counts are the multiplicities, and the
    lookup answers with the latest retained value of a hash. *)
From stdpp Require Import base gmap strings list numbers sorting.
From S2P Require Import Prelude Common EventLog Scheduler Storage StorageIndex.

(** A counter map that holds no zero entry. *)
Definition counted_as (n : N) : option N := if (n =? 0)%N then None else Some n.

Lemma counted_as_default n : default 0%N (counted_as n) = n.
Proof. unfold counted_as. destruct (N.eqb_spec n 0); cbn; congruence. Qed.

Lemma counted_as_pos n : (0 < n)%N -> counted_as n = Some n.
Proof. unfold counted_as. destruct (N.eqb_spec n 0); [lia|done]. Qed.

Section table.
Context {R V : Type} (key : R -> TxHash) (keyV : V -> TxHash).

Definition rows_of (h : TxHash) (vals : list V) : list V := filter (fun v => keyV v = h) vals.

Record table_rep (t : HashTable R V) (vals : list V) : Prop := {
  tr_rows : key <$> t_rows t = keyV <$> vals;
  tr_counts h : t_counts t !! h = counted_as (usize_of (length (rows_of h vals)));
  tr_lookup h : t_lookup t !! h = list.last (rows_of h vals);
}.

Lemma table_rep_empty : table_rep table_empty [].
Proof. constructor; intros; done. Qed.

Lemma rows_of_app h l1 l2 : rows_of h (l1 ++ l2) = rows_of h l1 ++ rows_of h l2.
Proof. apply filter_app. Qed.

Lemma rows_of_cons h v l :
  rows_of h (v :: l) = if decide (keyV v = h) then v :: rows_of h l else rows_of h l.
Proof. unfold rows_of. by rewrite filter_cons. Qed.

Lemma table_rep_push t vals row v :
  key row = keyV v -> table_rep t vals ->
  table_rep (table_push (keyV v) row v t) (vals ++ [v]).
Proof.
  intros Hk [Hr Hc Hl]. constructor; cbn.
  - by rewrite !fmap_app, Hr; cbn; rewrite Hk.
  - intros h. rewrite rows_of_app, length_app, rows_of_cons. cbn.
    destruct (decide (keyV v = h)) as [<-|Hne].
    + rewrite lookup_insert_eq, Hc, counted_as_default. cbn.
      rewrite counted_as_pos by (int_lia). f_equal. int_lia.
    + rewrite lookup_insert_ne by done. cbn. by rewrite Nat.add_0_r.
  - intros h. rewrite rows_of_app, rows_of_cons. cbn. destruct (decide (keyV v = h)) as [<-|Hne].
    + by rewrite lookup_insert_eq, last_snoc.
    + by rewrite lookup_insert_ne, app_nil_r by done.
Qed.

(** One eviction. *)
Lemma table_rep_pop_last counts lookup row rows v vals :
  table_rep (mkTable (row :: rows) counts lookup) (v :: vals) ->
  rows_of (keyV v) vals = [] ->
  table_rep (mkTable rows (delete (key row) counts) (delete (key row) lookup)) vals.
Proof.
  intros [Hr Hc Hl] Hnil. cbn [t_rows t_counts t_lookup fmap list_fmap] in Hr, Hc, Hl. injection Hr as Hk Hr. rewrite Hk.
  constructor; cbn [t_rows t_counts t_lookup]; [done|..]; intros h; destruct (decide (keyV v = h)) as [<-|Hne].
  - by rewrite lookup_delete_eq, Hnil.
  - rewrite lookup_delete_ne by done. by rewrite Hc, rows_of_cons, decide_False.
  - by rewrite lookup_delete_eq, Hnil.
  - rewrite lookup_delete_ne by done. by rewrite Hl, rows_of_cons, decide_False.
Qed.

Lemma table_rep_pop_more counts lookup row rows v vals :
  table_rep (mkTable (row :: rows) counts lookup) (v :: vals) ->
  rows_of (keyV v) vals <> [] ->
  table_rep (mkTable rows (<[key row := usize_of (length (rows_of (keyV v) vals))]> counts) lookup) vals.
Proof.
  intros [Hr Hc Hl] Hne. cbn [t_rows t_counts t_lookup fmap list_fmap] in Hr, Hc, Hl. injection Hr as Hk Hr. rewrite Hk.
  constructor; cbn [t_rows t_counts t_lookup]; [done|..]; intros h; destruct (decide (keyV v = h)) as [<-|Hd].
  - rewrite lookup_insert_eq. rewrite counted_as_pos; [done|].
    unfold usize_of. destruct (rows_of (keyV v) vals); cbn in *; [done|lia].
  - rewrite lookup_insert_ne by done. by rewrite Hc, rows_of_cons, decide_False.
  - rewrite Hl, rows_of_cons, decide_True by done. rewrite last_cons.
    destruct (rows_of (keyV v) vals) as [|x l] eqn:E; [done|]. rewrite last_cons.
    by destruct (list.last l).
  - by rewrite Hl, rows_of_cons, decide_False.
Qed.

Lemma evict_indexed_spec capacity rows counts lookup vals :
  table_rep (mkTable rows counts lookup) vals ->
  t_rows (evict_indexed key capacity rows counts lookup) = drop_front capacity rows /\
  table_rep (evict_indexed key capacity rows counts lookup) (drop_front capacity vals).
Proof.
  revert counts lookup vals. induction rows as [|row rows IH]; intros counts lookup vals Hrep.
  - pose proof (tr_rows _ _ Hrep) as Hr. cbn in Hr. destruct vals; [|done].
    split; [|done]. unfold drop_front. cbn. by rewrite drop_nil.
  - pose proof (tr_rows _ _ Hrep) as Hr. destruct vals as [|v vals]; [done|].
    cbn in Hr. injection Hr as Hk Hr.
    assert (length rows = length vals) as Hlen
      by (rewrite <-(length_fmap key rows), Hr; apply length_fmap).
    rewrite !drop_front_cons. cbn [evict_indexed length]. rewrite Hlen.
    destruct (_ <? _)%N; [|done].
    pose proof (tr_counts _ _ Hrep (key row)) as Hc. cbn [t_counts] in Hc. rewrite Hc.
    rewrite Hk, rows_of_cons, decide_True by done. cbn [length].
    rewrite counted_as_pos by (int_lia).
    replace (sat_sub (usize_of (S (length (rows_of (keyV v) vals)))) 1)
      with (usize_of (length (rows_of (keyV v) vals))) by (int_lia).
    destruct (N.eqb_spec (usize_of (length (rows_of (keyV v) vals))) 0) as [E|E]; apply IH.
    + rewrite <-Hk. apply (table_rep_pop_last _ _ _ _ _ _ Hrep).
      apply nil_length_inv. unfold usize_of in E. lia.
    + pose proof (table_rep_pop_more _ _ _ _ _ _ Hrep) as Hp. rewrite Hk in Hp. apply Hp.
      intros E'. by rewrite E' in E.
Qed.
End table.

(** Tables of whole records: the rows are the retained values. *)
Lemma push_bounded_hash_indexed_rep {T} (hash_of : T -> TxHash) capacity value t vals :
  t_rows t = vals -> table_rep hash_of hash_of t vals ->
  let t' := push_bounded_hash_indexed hash_of capacity value t in
  t_rows t' = drop_front capacity (vals ++ [value]) /\
  table_rep hash_of hash_of t' (drop_front capacity (vals ++ [value])).
Proof.
  intros <- Hrep. cbv zeta. unfold push_bounded_hash_indexed.
  pose proof (table_rep_push hash_of hash_of t (t_rows t) value value eq_refl Hrep) as Hp.
  unfold table_push in *. cbn [t_rows t_counts t_lookup] in *.
  by apply evict_indexed_spec.
Qed.

(** ** Feature summary *)
Definition bucket_of (r : TxFeaturesRecord) : string * string := (fr_protocol r, fr_category r).
Definition bucket_count (b : string * string) (lookup : gmap TxHash TxFeaturesRecord) : N :=
  map_sum (fun r => if decide (bucket_of r = b) then 1%N else 0%N) lookup.
(** The summary counts the latest record of every hash, by bucket. *)
Definition summary_ok (summary : gmap (string * string) N) (lookup : gmap TxHash TxFeaturesRecord) : Prop :=
  forall b, summary !! b = counted_as (bucket_count b lookup).

Lemma bucket_count_size b lookup :
  bucket_count b lookup = usize_of (size (filter (fun hr => bucket_of hr.2 = b) lookup)).
Proof.
  unfold bucket_count. induction lookup as [|h r m Hh IH] using map_ind.
  - rewrite map_filter_empty, map_size_empty. apply map_sum_empty.
  - rewrite map_sum_insert, IH by done. destruct (decide (bucket_of r = b)).
    + rewrite map_filter_insert_True by done. unfold usize_of. rewrite map_size_insert_None; [lia|].
      apply map_lookup_filter_None. by left.
    + by rewrite map_filter_insert_not' by naive_solver.
Qed.

Lemma summary_ok_delete summary lookup h r :
  summary_ok summary lookup -> lookup !! h = Some r ->
  summary_ok (decrement_feature_summary_count (fr_protocol r) (fr_category r) summary) (delete h lookup).
Proof.
  intros Hs Hh b. unfold decrement_feature_summary_count. fold (bucket_of r).
  pose proof (map_sum_delete (fun r => if decide (bucket_of r = b) then 1%N else 0%N) lookup h r Hh) as Hd.
  fold (bucket_count b lookup) in Hd. fold (bucket_count b (delete h lookup)) in Hd.
  cbv beta in Hd. destruct (decide (bucket_of r = b)) as [E|E].
  - rewrite E, Hs, counted_as_pos by lia.
    replace (sat_sub (bucket_count b lookup) 1) with (bucket_count b (delete h lookup))
      by (int_lia).
    unfold counted_as. destruct (N.eqb_spec (bucket_count b (delete h lookup)) 0).
    + by rewrite lookup_delete_eq.
    + by rewrite lookup_insert_eq.
  - assert (bucket_count b (delete h lookup) = bucket_count b lookup) as -> by lia.
    rewrite <-Hs. destruct (summary !! bucket_of r); [|done].
    destruct (_ =? _)%N; [by rewrite lookup_delete_ne|by rewrite lookup_insert_ne].
Qed.

Lemma summary_ok_insert summary lookup h r :
  summary_ok summary lookup -> lookup !! h = None ->
  summary_ok (increment_feature_summary_count (fr_protocol r) (fr_category r) summary)
    (<[h := r]> lookup).
Proof.
  intros Hs Hh b. unfold increment_feature_summary_count. fold (bucket_of r).
  unfold bucket_count. rewrite map_sum_insert by done. fold (bucket_count b lookup).
  destruct (decide (bucket_of r = b)) as [E|E].
  - rewrite E, lookup_insert_eq, Hs, counted_as_default, counted_as_pos by lia. f_equal. lia.
  - rewrite lookup_insert_ne by done. by rewrite Hs, N.add_0_l.
Qed.

Lemma evict_features_spec capacity rows counts lookup summary :
  summary_ok summary lookup ->
  let r := evict_features capacity rows counts lookup summary in
  r.1 = evict_indexed fr_hash capacity rows counts lookup /\ summary_ok r.2 (t_lookup r.1).
Proof.
  revert counts lookup summary. induction rows as [|row rows IH]; intros counts lookup summary Hs; [done|].
  cbn. destruct (_ <? _)%N; [|done].
  destruct (counts !! fr_hash row) as [n|]; [|by apply IH].
  destruct (_ =? _)%N; [|by apply IH]. apply IH.
  destruct (lookup !! fr_hash row) as [removed|] eqn:E.
  - by apply summary_ok_delete.
  - intros b. by rewrite delete_id.
Qed.

Lemma upsert_tx_features_spec record elapsed s :
  summary_ok (st_feature_summary_counts s) (t_lookup (st_tx_features s)) ->
  exists summary market,
    let t := push_bounded_hash_indexed fr_hash (table_capacity (st_config s)) record (st_tx_features s) in
    upsert_tx_features record elapsed s =
      finish_write elapsed (set_market_stats market
        (set_feature_summary_counts summary (set_tx_features t s))) /\
    summary_ok summary (t_lookup t).
Proof.
  intros Hs. unfold upsert_tx_features.
  set (summary := increment_feature_summary_count _ _ _).
  assert (summary_ok summary (<[fr_hash record := record]> (t_lookup (st_tx_features s)))) as Hsum.
  { unfold summary. rewrite <-insert_delete_eq.
    destruct (t_lookup (st_tx_features s) !! fr_hash record) as [prev|] eqn:E.
    - apply summary_ok_insert; [by apply summary_ok_delete|by rewrite lookup_delete_eq].
    - apply summary_ok_insert; [by rewrite delete_id|by rewrite lookup_delete_eq]. }
  unfold table_push. cbn [t_rows t_counts t_lookup].
  match goal with |- context [evict_features ?c ?r ?cs ?l ?su] =>
    pose proof (evict_features_spec c r cs l su Hsum) as [H1 H2];
    destruct (evict_features c r cs l su) as [t su'] end.
  cbn [fst snd] in *. subst t. eexists su', _. split; [reflexivity|exact H2].
Qed.
