(* ===== verification/StorageProps.v ===== *)
(** * StorageProps: what the read model promises

    Every sequence of writes from an empty store: the event index, the tables,
    the feature summary and the rehydration plan are exact. *)
From stdpp Require Import base gmap strings list numbers sorting.
From S2P Require Import Prelude Common EventLog Scheduler Storage StorageIndex StorageTables.

(** ** Runs *)
Inductive StorageOp :=
  | OpAppend (event : EventEnvelope) (projection_ns lifecycle_ns elapsed : N)
  | OpTxSeen (record : TxSeenRecord) (elapsed : N)
  | OpTxFull (record : TxFullRecord) (elapsed : N)
  | OpTxFeatures (record : TxFeaturesRecord) (elapsed : N)
  | OpOpportunity (record : OpportunityRecord) (elapsed : N)
  | OpBuilder (record : BuilderLifecycleRecord) (elapsed : N)
  | OpTxLifecycle (record : TxLifecycleRecord) (elapsed : N)
  | OpPeerStats (record : PeerStatsRecord) (elapsed : N)
  | OpSnapshot (snapshot : PersistedSchedulerSnapshot) (elapsed : N).

Definition storage_op (s : InMemoryStorage) (op : StorageOp) : InMemoryStorage :=
  match op with
  | OpAppend e a b c => append_event e a b c s
  | OpTxSeen r n => upsert_tx_seen r n s
  | OpTxFull r n => upsert_tx_full r n s
  | OpTxFeatures r n => upsert_tx_features r n s
  | OpOpportunity r n => upsert_opportunity r n s
  | OpBuilder r n => upsert_builder_lifecycle r n s
  | OpTxLifecycle r n => upsert_tx_lifecycle r n s
  | OpPeerStats r n => upsert_peer_stats r n s
  | OpSnapshot r n => write_scheduler_snapshot r n s
  end.
Definition storage_after (config : StorageConfig) (ops : list StorageOp) : InMemoryStorage :=
  foldl storage_op (with_config config) ops.

(** What each part of the store was told, in order. *)
Definition appended (op : StorageOp) : option EventEnvelope :=
  match op with OpAppend e _ _ _ => Some e | _ => None end.
Definition told_seen (op : StorageOp) : option TxSeenRecord :=
  match op with OpTxSeen r _ => Some r | _ => None end.
Definition told_full (op : StorageOp) : option TxFullRecord :=
  match op with OpTxFull r _ => Some r | _ => None end.
Definition told_features (op : StorageOp) : option TxFeaturesRecord :=
  match op with OpTxFeatures r _ => Some r | _ => None end.
Definition told_lifecycle (op : StorageOp) : option TxLifecycleRecord :=
  match op with OpTxLifecycle r _ => Some r | OpAppend e _ _ _ => lifecycle_update e | _ => None end.
Definition told_opportunity (op : StorageOp) : option OpportunityRecord :=
  match op with
  | OpOpportunity r _ => Some r
  | OpAppend e _ _ _ =>
      match payload e with
      | PCandidateQueued q => Some (project_opportunity_from_candidate q)
      | _ => None
      end
  | _ => None
  end.
Definition told_builder (op : StorageOp) : option BuilderLifecycleRecord :=
  match op with
  | OpBuilder r _ => Some r
  | OpAppend e _ _ _ =>
      match payload e with
      | PAssemblyDecisionApplied a => Some (project_builder_lifecycle a (ingest_ts_unix_ms e))
      | _ => None
      end
  | _ => None
  end.
Definition told_recent (op : StorageOp) : option RecentTransactionRecord :=
  match op with
  | OpAppend e _ _ _ =>
      match payload e with PTxDecoded d => Some (recent_of e d) | _ => None end
  | _ => None
  end.
Definition told_peer (op : StorageOp) : option PeerStatsRecord :=
  match op with OpPeerStats r _ => Some r | _ => None end.
Definition told_snapshot (op : StorageOp) : option PersistedSchedulerSnapshot :=
  match op with OpSnapshot r _ => Some r | _ => None end.
Definition told_final (op : StorageOp) : option Z :=
  match op with
  | OpAppend e _ _ _ =>
      match payload e with PTxConfirmedFinal _ => Some (ingest_ts_unix_ms e) | _ => None end
  | _ => None
  end.

(** The last values a bounded part retains. *)
Definition retained {A} (capacity : N) (told : StorageOp -> option A) (ops : list StorageOp) : list A :=
  drop_front (N.max capacity 1) (omap told ops).

Lemma retained_snoc {A} capacity (told : StorageOp -> option A) ops op :
  retained capacity told (ops ++ [op]) =
    match told op with
    | Some x => drop_front (N.max capacity 1) (retained capacity told ops ++ [x])
    | None => retained capacity told ops
    end.
Proof.
  unfold retained. rewrite omap_app. cbn. destruct (told op) as [x|]; cbn.
  - by rewrite drop_front_idemp_app.
  - by rewrite app_nil_r.
Qed.

(** A table of whole records holding [vals]. *)
Definition table_is {T} (hash_of : T -> TxHash) (t : HashTable T T) (vals : list T) : Prop :=
  t_rows t = vals /\ table_rep hash_of hash_of t vals.

Record storage_ok (config : StorageConfig) (ops : list StorageOp) (s : InMemoryStorage) : Prop := {
  so_config : st_config s = st_config (with_config config);
  so_events : st_events s = retained (event_capacity config) appended ops;
  so_index : index_sorted (st_event_index s) /\ st_event_index s ≡ₚ st_events s;
  so_seen : table_is ts_hash (st_tx_seen s) (retained (table_capacity config) told_seen ops);
  so_full : table_is tf_hash (st_tx_full s) (retained (table_capacity config) told_full ops);
  so_features : table_is fr_hash (st_tx_features s) (retained (table_capacity config) told_features ops);
  so_summary : summary_ok (st_feature_summary_counts s) (t_lookup (st_tx_features s));
  so_opportunities : st_opportunities s = retained (table_capacity config) told_opportunity ops;
  so_builder : st_builder_lifecycle s = retained (table_capacity config) told_builder ops;
  so_lifecycle : table_is lr_hash (st_tx_lifecycle s) (retained (table_capacity config) told_lifecycle ops);
  so_peers : st_peer_stats s = retained (table_capacity config) told_peer ops;
  so_snapshot : st_scheduler_snapshot s = list.last (omap told_snapshot ops);
  so_final : st_latest_finalized_block_unix_ms s =
    match omap told_final ops with [] => None | l => Some (foldl Z.max 0 l)%Z end;
  so_recent : table_rep (fun h => h) rt_hash (st_recent_tx s)
    (retained (recent_tx_capacity config) told_recent ops);
}.

Lemma storage_ok_new config : storage_ok config [] (with_config config).
Proof.
  assert (forall A n, drop_front (A := A) n [] = []) as Hd by (intros; apply drop_nil).
  assert (forall T (h : T -> TxHash), table_is h table_empty []) as Ht
    by (intros; split; [done|apply table_rep_empty]).
  constructor; unfold retained; cbn [omap list_omap]; rewrite ?Hd; try done.
  split; [constructor|done].
Qed.

Lemma table_is_push {T} (hash_of : T -> TxHash) capacity t value vals :
  table_is hash_of t vals ->
  table_is hash_of (push_bounded_hash_indexed hash_of capacity value t) (drop_front capacity (vals ++ [value])).
Proof. intros [Hr Hrep]. by apply push_bounded_hash_indexed_rep. Qed.

(** Reads of a written field. *)
Ltac cbn_storage :=
  cbn [finish_write bump_read_model_revision record_write_latency upsert_tx_seen upsert_tx_full
    upsert_opportunity upsert_builder_lifecycle upsert_tx_lifecycle upsert_peer_stats
    write_scheduler_snapshot set_events set_event_index set_tx_seen set_tx_full set_tx_features
    set_feature_summary_counts set_opportunities set_builder_lifecycle set_tx_lifecycle set_peer_stats
    set_scheduler_snapshot set_latest_finalized_block_unix_ms set_write_latency_ns set_recent_tx
    set_market_stats set_read_model_revision track_recent_transaction
    st_config st_events st_event_index st_tx_seen st_tx_full st_tx_features
    st_feature_summary_counts st_opportunities st_builder_lifecycle st_tx_lifecycle st_peer_stats
    st_scheduler_snapshot st_latest_finalized_block_unix_ms st_write_latency_ns st_recent_tx
    st_market_stats st_read_model_revision].

(** The derived tables, field by field. *)
Lemma derive_tables_fields e a b c s :
  let s' := derive_tables e a b s in
  let op := OpAppend e a b c in
  st_config s' = st_config s /\ st_events s' = st_events s /\ st_event_index s' = st_event_index s /\
  st_tx_seen s' = st_tx_seen s /\ st_tx_full s' = st_tx_full s /\
  st_tx_features s' = st_tx_features s /\
  st_feature_summary_counts s' = st_feature_summary_counts s /\
  st_opportunities s' =
    match told_opportunity op with
    | Some r => push_bounded (st_opportunities s) r (table_capacity (st_config s))
    | None => st_opportunities s
    end /\
  st_builder_lifecycle s' =
    match told_builder op with
    | Some r => push_bounded (st_builder_lifecycle s) r (table_capacity (st_config s))
    | None => st_builder_lifecycle s
    end /\
  st_tx_lifecycle s' =
    match told_lifecycle op with
    | Some r => push_bounded_hash_indexed lr_hash (table_capacity (st_config s)) r (st_tx_lifecycle s)
    | None => st_tx_lifecycle s
    end /\
  st_peer_stats s' = st_peer_stats s /\ st_scheduler_snapshot s' = st_scheduler_snapshot s /\
  st_latest_finalized_block_unix_ms s' =
    match told_final op with
    | Some t => Some (Z.max (default 0%Z (st_latest_finalized_block_unix_ms s)) t)
    | None => st_latest_finalized_block_unix_ms s
    end /\
  st_recent_tx s' =
    match told_recent op with
    | Some r => st_recent_tx (track_recent_transaction r s)
    | None => st_recent_tx s
    end.
Proof.
  cbv zeta. remember (derive_tables e a b s) as d eqn:Hd. revert Hd.
  unfold derive_tables, told_opportunity, told_builder, told_lifecycle, told_final, told_recent,
    lifecycle_update.
  destruct (payload e); cbv beta iota zeta; intros ->; cbn_storage; repeat split.
Qed.

Lemma append_event_fields e a b c s :
  let d := derive_tables e a b s in
  let r := evict_events (event_capacity (st_config d)) (st_events d ++ [e])
    (index_insert e (st_event_index d)) in
  let s' := append_event e a b c s in
  st_config s' = st_config d /\ st_events s' = r.1 /\ st_event_index s' = r.2 /\
  st_tx_seen s' = st_tx_seen d /\ st_tx_full s' = st_tx_full d /\
  st_tx_features s' = st_tx_features d /\
  st_feature_summary_counts s' = st_feature_summary_counts d /\
  st_opportunities s' = st_opportunities d /\ st_builder_lifecycle s' = st_builder_lifecycle d /\
  st_tx_lifecycle s' = st_tx_lifecycle d /\ st_peer_stats s' = st_peer_stats d /\
  st_scheduler_snapshot s' = st_scheduler_snapshot d /\
  st_latest_finalized_block_unix_ms s' = st_latest_finalized_block_unix_ms d /\
  st_recent_tx s' = st_recent_tx d.
Proof.
  cbv zeta. unfold append_event. cbv zeta. by destruct (evict_events _ _ _) as [events index].
Qed.

Lemma final_snoc ops op :
  match omap told_final (ops ++ [op]) with [] => None | l => Some (foldl Z.max 0 l)%Z end =
  match told_final op with
  | Some t =>
      Some (Z.max (default 0%Z
        (match omap told_final ops with [] => None | l => Some (foldl Z.max 0 l)%Z end)) t)
  | None => match omap told_final ops with [] => None | l => Some (foldl Z.max 0 l)%Z end
  end.
Proof.
  rewrite omap_app. cbn. destruct (told_final op) as [t|]; [|by rewrite app_nil_r].
  destruct (omap told_final ops) as [|x l]; [done|].
  change ((x :: l) ++ [t]) with (x :: (l ++ [t])). cbn [foldl]. by rewrite foldl_snoc.
Qed.

Lemma snapshot_snoc ops op :
  list.last (omap told_snapshot (ops ++ [op])) =
    match told_snapshot op with Some r => Some r | None => list.last (omap told_snapshot ops) end.
Proof.
  rewrite omap_app. cbn. destruct (told_snapshot op); [by rewrite last_snoc|by rewrite app_nil_r].
Qed.

(** The fields a write does not touch. *)
Ltac storage_fields :=
  constructor; rewrite ?retained_snoc, ?snapshot_snoc, ?final_snoc; cbn_storage; try assumption;
  cbn [told_seen told_full told_features told_lifecycle told_opportunity told_builder told_peer
    told_snapshot].

Lemma storage_ok_step config ops s op :
  storage_ok config ops s -> storage_ok config (ops ++ [op]) (storage_op s op).
Proof.
  intros []. destruct op as [e a b c|r n|r n|r n|r n|r n|r n|r n|r n]; cbn [storage_op].
  - destruct (append_event_fields e a b c s) as (A1&A2&A3&A4&A5&A6&A7&A8&A9&A10&A11&A12&A13&A14).
    destruct (derive_tables_fields e a b c s) as (D1&D2&D3&D4&D5&D6&D7&D8&D9&D10&D11&D12&D13&D14).
    cbv zeta in *. rewrite D1, D2, D3 in A2, A3.
    destruct (evict_events_spec (event_capacity (st_config s)) (st_events s ++ [e])
      (index_insert e (st_event_index s))) as (E1 & E2 & E3).
    { by apply index_insert_sorted, so_index0. }
    { rewrite index_insert_perm, (proj2 so_index0). by rewrite <-Permutation_cons_append. }
    constructor.
    + by rewrite A1, D1.
    + rewrite A2, E1, retained_snoc. cbn. by rewrite so_events0, so_config0.
    + rewrite A3, A2. by split.
    + rewrite A4, D4, retained_snoc. assumption.
    + rewrite A5, D5, retained_snoc. assumption.
    + rewrite A6, D6, retained_snoc. assumption.
    + by rewrite A7, D7, A6, D6.
    + rewrite A8, D8, retained_snoc, so_opportunities0, so_config0.
      by destruct (told_opportunity _).
    + rewrite A9, D9, retained_snoc, so_builder0, so_config0. by destruct (told_builder _).
    + rewrite A10, D10, retained_snoc, so_config0.
      destruct (told_lifecycle _); [by apply table_is_push|done].
    + rewrite A11, D11, retained_snoc. assumption.
    + rewrite A12, D12, snapshot_snoc. assumption.
    + rewrite A13, D13, final_snoc, so_final0. reflexivity.
    + rewrite A14, D14, retained_snoc. destruct (told_recent _) as [r|]; [|done].
      unfold track_recent_transaction. cbn [st_recent_tx set_recent_tx].
      pose proof (table_rep_push (fun h => h) rt_hash _ _ (rt_hash r) r eq_refl so_recent0) as Hp.
      unfold table_push in *. cbn [t_rows t_counts t_lookup] in *. rewrite so_config0.
      by apply evict_indexed_spec.
  - storage_fields.
    rewrite so_config0. by apply table_is_push.
  - storage_fields.
    rewrite so_config0. by apply table_is_push.
  - destruct (upsert_tx_features_spec r n s so_summary0) as (su & m & E & Hsum).
    cbv zeta in E, Hsum. rewrite E. storage_fields. rewrite so_config0. by apply table_is_push.
  - storage_fields.
    by rewrite so_opportunities0, so_config0.
  - storage_fields.
    by rewrite so_builder0, so_config0.
  - storage_fields.
    rewrite so_config0. by apply table_is_push.
  - storage_fields.
    by rewrite so_peers0, so_config0.
  - storage_fields. reflexivity.
Qed.

Lemma storage_after_ok config ops : storage_ok config ops (storage_after config ops).
Proof.
  unfold storage_after. induction ops as [|op ops IH] using rev_ind; [apply storage_ok_new|].
  rewrite foldl_snoc. by apply storage_ok_step.
Qed.

(** ** Scans *)
Lemma index_seq_mono l :
  index_sorted l ->
  forall i j x y, (i < j)%nat -> l !! i = Some x -> l !! j = Some y -> (seq_id x <= seq_id y)%N.
Proof.
  intros Hl i j x y Hij Hx Hy.
  pose proof (StronglySorted_lookup _ _ _ _ _ _ Hl Hij Hx Hy) as H. cbv beta in H.
  unfold cmp_deterministic, cmp_order_key, order_key, then_with in H. cbn in H.
  destruct (N.compare_spec (seq_id x) (seq_id y)); [lia|lia|done].
Qed.

Lemma scan_events_exact s from limit :
  index_sorted (st_event_index s) ->
  scan_events from limit s =
    take (N.to_nat (N.max limit 1)) (filter (fun e => (from < seq_id e)%N) (list_events s)).
Proof.
  intros Hl. unfold scan_events, scan_events_cursor_start, list_events.
  rewrite partition_point_filter.
  - f_equal. apply list_filter_iff. intros e. by rewrite N.leb_gt.
  - intros i j x y Hij Hx Hy Hp. apply N.leb_le in Hp. apply N.leb_le.
    etrans; [by apply (index_seq_mono _ Hl i j)|done].
Qed.

Lemma latest_seq_max s :
  index_sorted (st_event_index s) ->
  match latest_seq_id s with
  | None => st_event_index s = []
  | Some n => (exists e, e ∈ st_event_index s /\ seq_id e = n) /\
      forall e, e ∈ st_event_index s -> (seq_id e <= n)%N
  end.
Proof.
  intros Hl. unfold latest_seq_id. destruct (list.last (st_event_index s)) as [x|] eqn:Ex; cbn.
  2:{ by apply last_None in Ex. }
  rewrite last_lookup in Ex. split.
  - exists x. split; [by apply (list_elem_of_lookup_2 _ _ _ Ex)|done].
  - intros e He. apply list_elem_of_lookup_1 in He as [i Hi]. pose proof (lookup_lt_Some _ _ _ Hi).
    destruct (decide (i = pred (length (st_event_index s)))) as [->|]; [by simplify_eq|].
    refine (index_seq_mono _ Hl _ _ _ _ _ Hi Ex). lia.
Qed.

(** ** Recent transactions *)
Fixpoint first_occurrences (seen : gset TxHash) (l : list TxHash) : list TxHash :=
  match l with
  | [] => []
  | h :: l' =>
      if bool_decide (h ∈ seen) then first_occurrences seen l'
      else h :: first_occurrences ({[h]} ∪ seen) l'
  end.

Lemma elem_of_first_occurrences seen l h : h ∈ first_occurrences seen l <-> h ∈ l /\ h ∉ seen.
Proof.
  revert seen. induction l as [|x l IH]; intros seen; cbn; [set_solver|].
  case_bool_decide; [set_solver|]. rewrite elem_of_cons, IH.
  destruct (decide (h = x)) as [->|]; set_solver.
Qed.

Lemma first_occurrences_NoDup seen l : NoDup (first_occurrences seen l).
Proof.
  revert seen. induction l as [|x l IH]; intros seen; cbn; [constructor|].
  case_bool_decide; [done|]. constructor; [|done]. rewrite elem_of_first_occurrences. set_solver.
Qed.

Lemma recent_loop_spec target lookup hashes emitted out :
  (usize_of (length out) < target)%N ->
  recent_loop target lookup hashes emitted out =
    out ++ take (N.to_nat target - length out)
      (omap (fun h => lookup !! h) (first_occurrences emitted hashes)).
Proof.
  revert emitted out. induction hashes as [|h hashes IH]; intros emitted out Hlt; cbn.
  { by rewrite take_nil, app_nil_r. }
  case_bool_decide; [by apply IH|]. cbn. destruct (lookup !! h) as [r|]; [|by apply IH].
  unfold usize_of in *. rewrite length_app. cbn.
  destruct (N.leb_spec target (N.of_nat (length out + 1))).
  - assert (N.to_nat target - length out = 1)%nat as -> by lia. cbn. by rewrite take_0.
  - rewrite IH by (rewrite length_app; cbn; lia). rewrite length_app. cbn.
    replace (N.to_nat target - length out)%nat with (S (N.to_nat target - (length out + 1))) by lia.
    cbn. by rewrite <-app_assoc.
Qed.

#[export] Instance recent_cmp_pre : CmpPre recent_cmp.
Proof.
  set (f (r : RecentTransactionRecord) := (Z.opp (rt_seen_unix_ms r), rt_hash r)).
  assert (forall a b, recent_cmp a b = cmp_on f (cmp_pair Z.compare N.compare) a b) as E.
  { intros a b. unfold recent_cmp, cmp_on, cmp_pair, f. cbn [fst snd].
    by rewrite Z.compare_opp. }
  pose proof (cmp_on_pre (cmp_pair Z.compare N.compare) f) as [H1 H2].
  split; intros *; rewrite !E; [apply H1|apply H2].
Qed.
#[export] Instance bucket_cmp_pre : CmpPre bucket_cmp.
Proof.
  set (f (r : FeatureSummaryBucket) := (Z.opp (Z.of_N (fb_count r)), (fb_protocol r, fb_category r))).
  set (c := cmp_pair Z.compare (cmp_pair String.compare String.compare)).
  assert (forall a b, bucket_cmp a b = cmp_on f c a b) as E.
  { intros a b. unfold bucket_cmp, cmp_on, c, cmp_pair, f. cbn [fst snd].
    by rewrite Z.compare_opp, N2Z.inj_compare. }
  pose proof (cmp_on_pre c f) as [H1 H2]. split; intros *; rewrite !E; [apply H1|apply H2].
Qed.

(** Rows of the recent-transactions table. *)
Lemma recent_rows t vals :
  table_rep (fun h => h) rt_hash t vals -> t_rows t = rt_hash <$> vals.
Proof. intros [Hr _ _]. by rewrite <-Hr, list_fmap_id. Qed.

Lemma omap_lookup_hash (t : HashTable TxHash RecentTransactionRecord) vals h r :
  table_rep (fun h => h) rt_hash t vals -> t_lookup t !! h = Some r -> rt_hash r = h.
Proof.
  intros Hrep. rewrite (tr_lookup _ _ _ _ Hrep). intros Hl%last_Some_elem_of.
  unfold rows_of in Hl. by apply list_elem_of_filter in Hl as [? _].
Qed.

Lemma omap_lookup_fmap (t : HashTable TxHash RecentTransactionRecord) vals (l : list TxHash) :
  table_rep (fun h => h) rt_hash t vals -> (forall h, h ∈ l -> h ∈ rt_hash <$> vals) ->
  rt_hash <$> omap (fun h => t_lookup t !! h) l = l.
Proof.
  intros Hrep. induction l as [|h l IH]; intros Hin; [done|]. cbn.
  assert (is_Some (t_lookup t !! h)) as [r Hr].
  { rewrite (tr_lookup _ _ _ _ Hrep), last_is_Some.
    specialize (Hin h ltac:(set_solver)). apply list_elem_of_fmap in Hin as (v & -> & Hv).
    intros Hnil. assert (v ∈ rows_of rt_hash (rt_hash v) vals) as Hx
      by (unfold rows_of; by apply list_elem_of_filter). rewrite Hnil in Hx. set_solver. }
  rewrite Hr. cbn. rewrite (omap_lookup_hash t vals h r Hrep Hr), IH; [done|]. set_solver.
Qed.

(** ** Theorems *)

(** C12: the event log of the store is exact after any sequence of writes: the
    retained events are the last [event_capacity] appended ones; [list_events]
    is a permutation of them in deterministic order, however late events were
    inserted and old ones evicted (by binary search); [scan_events] returns
    the first [limit] of those strictly after the cursor; and [latest_seq_id]
    is their greatest sequence id. *)
Theorem event_log_exact config ops from limit :
  let s := storage_after config ops in
  let events := retained (event_capacity config) appended ops in
  (usize_of (length events) <= N.max (event_capacity config) 1)%N /\
  list_events s ≡ₚ events /\
  StronglySorted (cmp_le cmp_deterministic) (list_events s) /\
  scan_events from limit s =
    take (N.to_nat (N.max limit 1)) (filter (fun e => (from < seq_id e)%N) (list_events s)) /\
  match latest_seq_id s with
  | None => events = []
  | Some n => (exists e, e ∈ events /\ seq_id e = n) /\ forall e, e ∈ events -> (seq_id e <= n)%N
  end.
Proof.
  destruct (storage_after_ok config ops). destruct so_index0 as [Hs Hp]. cbv zeta.
  unfold list_events. rewrite <-so_events0. split; [|split; [done|split; [done|split]]].
  - rewrite so_events0. unfold retained, drop_front, usize_of. rewrite length_drop. lia.
  - by apply scan_events_exact.
  - pose proof (latest_seq_max _ Hs) as H.
    destruct (latest_seq_id (storage_after config ops)) as [n|].
    + destruct H as [(e & He & ?) Hall]. setoid_rewrite <-Hp. split; [by exists e|done].
    + apply Permutation_nil_r. by rewrite <-Hp, H.
Qed.

(** Every hash-indexed table answers a lookup with the latest retained
    record of that hash, and retains exactly the last [table_capacity] records
    written; the lifecycle table is fed by the direct writes and by the
    appended events alike, in their order. *)
Theorem tables_exact config ops h :
  let s := storage_after config ops in
  let latest {T} (hash_of : T -> TxHash) (told : StorageOp -> option T) :=
    list.last (filter (fun r => hash_of r = h) (retained (table_capacity config) told ops)) in
  tx_seen_by_hash h s = latest ts_hash told_seen /\
  tx_full_by_hash h s = latest tf_hash told_full /\
  tx_features_by_hash h s = latest fr_hash told_features /\
  tx_lifecycle_by_hash h s = latest lr_hash told_lifecycle /\
  t_rows (st_tx_seen s) = retained (table_capacity config) told_seen ops /\
  t_rows (st_tx_full s) = retained (table_capacity config) told_full ops /\
  t_rows (st_tx_features s) = retained (table_capacity config) told_features ops /\
  t_rows (st_tx_lifecycle s) = retained (table_capacity config) told_lifecycle ops.
Proof.
  destruct (storage_after_ok config ops). cbv zeta.
  split; [exact (tr_lookup _ _ _ _ (proj2 so_seen0) h)|].
  split; [exact (tr_lookup _ _ _ _ (proj2 so_full0) h)|].
  split; [exact (tr_lookup _ _ _ _ (proj2 so_features0) h)|].
  split; [exact (tr_lookup _ _ _ _ (proj2 so_lifecycle0) h)|].
  repeat split; [apply so_seen0|apply so_full0|apply so_features0|apply so_lifecycle0].
Qed.

(** The dashboard's feature summary is exact, with any hash-map iteration
    order and unstable sort: it lists, each once and in decreasing order of
    count, the (protocol, category) buckets with the number of hashes whose
    latest retained features are in the bucket, cut at the limit; the
    incremental counts kept through replacement and eviction never drift. *)
Theorem feature_summary_exact `{UnstableSort, !MapIter (string * string)} config ops limit :
  let s := storage_after config ops in
  exists buckets,
    dashboard_feature_summary limit s = take (N.to_nat (N.max limit 1)) buckets /\
    StronglySorted (cmp_le bucket_cmp) buckets /\
    NoDup ((fun b => (fb_protocol b, fb_category b)) <$> buckets) /\
    forall p c n, mkBucket p c n ∈ buckets <->
      (0 < n)%N /\
      n = usize_of (size (filter (fun hr => bucket_of hr.2 = (p, c)) (t_lookup (st_tx_features s)))).
Proof.
  destruct (storage_after_ok config ops). cbv zeta.
  set (s := storage_after config ops) in *.
  set (l := (fun '((protocol, category), count) => mkBucket protocol category count) <$>
    map_iter (st_feature_summary_counts s)).
  exists (sort_unstable_by bucket_cmp l). split; [done|].
  split; [apply sort_unstable_sorted, _|]. split.
  - rewrite (sort_unstable_perm bucket_cmp l). unfold l. rewrite <-list_fmap_compose.
    assert ((fun b => (fb_protocol b, fb_category b)) ∘
      (fun '((protocol, category), count) => mkBucket protocol category count) <$>
        map_iter (st_feature_summary_counts s) = (map_iter (st_feature_summary_counts s)).*1) as ->
      by (apply list_fmap_ext; by intros ? [[p c] n] _).
    rewrite (map_iter_perm (st_feature_summary_counts s)). apply NoDup_fst_map_to_list.
  - intros p c n. rewrite (sort_unstable_perm bucket_cmp l). unfold l.
    rewrite (map_iter_perm (st_feature_summary_counts s)).
    assert (mkBucket p c n ∈ (fun '((protocol, category), count) => mkBucket protocol category count) <$>
      map_to_list (st_feature_summary_counts s) <-> st_feature_summary_counts s !! (p, c) = Some n) as ->.
    { rewrite list_elem_of_fmap. split.
      - intros ([[p' c'] n'] & [= -> -> ->] & Hin). by apply elem_of_map_to_list in Hin.
      - intros Hl. exists ((p, c), n). split; [done|]. by apply elem_of_map_to_list. }
    rewrite (so_summary0 (p, c)), bucket_count_size. unfold counted_as.
    destruct (N.eqb_spec (usize_of (size (filter (fun hr : TxHash * TxFeaturesRecord =>
      bucket_of hr.2 = (p, c)) (t_lookup (st_tx_features s))))) 0); split; try done.
    + lia.
    + intros [= <-]. split; [lia|done].
    + by intros [_ ->].
Qed.

(** The restart plan is sound: it offers the last snapshot written, with
    exactly the retained events after the snapshot's sequence id to replay, in
    order; it asks for a rebuild from RPC, with nothing to replay, exactly
    when finality (the newest final confirmation appended) is ahead of the
    snapshot's capture by more than the allowed gap; and with no snapshot it is
    empty. *)
Theorem rehydration_plan_exact config ops gap :
  let s := storage_after config ops in
  let plan := scheduler_rehydration_plan gap s in
  match list.last (omap told_snapshot ops) with
  | None => plan = mkPlan None [] false
  | Some snapshot =>
      let finalized := omap told_final ops in
      if bool_decide (finalized <> [] /\
           (Z.of_N (N.min gap (Z.to_N i64_max)) <
             i64_sat_sub (foldl Z.max 0 finalized) (ps_captured_at_unix_ms snapshot))%Z)
      then plan = mkPlan None [] true
      else
        plan_snapshot plan = Some snapshot /\ plan_requires_rpc_rebuild plan = false /\
        plan_replay_events plan =
          filter (fun e => (ps_event_seq_hi snapshot < seq_id e)%N) (list_events s)
  end.
Proof.
  destruct (storage_after_ok config ops). destruct so_index0 as [Hs _]. cbv zeta.
  unfold scheduler_rehydration_plan. rewrite so_snapshot0, so_final0.
  destruct (list.last (omap told_snapshot ops)) as [snapshot|]; [|done].
  rewrite (scan_events_exact _ _ _ Hs), take_ge.
  2:{ etrans; [apply length_filter|]. unfold list_events, usize_of. lia. }
  destruct (omap told_final ops) as [|t l].
  - rewrite bool_decide_eq_false_2; [done|]. naive_solver.
  - case_bool_decide as Hd.
    + destruct Hd as [_ Hd%Z.ltb_lt]. cbn [foldl] in *. by rewrite Hd.
    + rewrite (proj2 (Z.ltb_ge _ _)); [done|]. apply Z.nlt_ge. intros ?. by apply Hd.
Qed.

(** The recent-transactions view, with any unstable sort: it lists, newest
    observation first and no hash twice, the latest retained record of each of
    the [limit] hashes observed most recently. *)
Theorem recent_transactions_exact `{UnstableSort} config ops limit :
  let s := storage_after config ops in
  let observed := retained (recent_tx_capacity config) told_recent ops in
  let newest := take (N.to_nat (N.max limit 1)) (first_occurrences ∅ (reverse (rt_hash <$> observed))) in
  rt_hash <$> recent_transactions limit s ≡ₚ newest /\
  NoDup (rt_hash <$> recent_transactions limit s) /\
  StronglySorted (cmp_le recent_cmp) (recent_transactions limit s) /\
  (forall r, r ∈ recent_transactions limit s ->
     list.last (filter (fun x => rt_hash x = rt_hash r) observed) = Some r).
Proof.
  destruct (storage_after_ok config ops). cbv zeta.
  set (s := storage_after config ops) in *.
  set (observed := retained (recent_tx_capacity config) told_recent ops) in *.
  set (hs := first_occurrences ∅ (reverse (rt_hash <$> observed))).
  set (n := N.to_nat (N.max limit 1)).
  assert (recent_transactions limit s ≡ₚ
    take n (omap (fun h => t_lookup (st_recent_tx s) !! h) hs)) as Hperm.
  { unfold recent_transactions. cbv zeta. rewrite sort_unstable_perm, recent_loop_spec.
    2:{ unfold usize_of. cbn. lia. }
    rewrite (recent_rows _ _ so_recent0). cbn. by rewrite Nat.sub_0_r. }
  assert (forall h, h ∈ hs -> h ∈ rt_hash <$> observed) as Hin.
  { intros h Hh. apply elem_of_first_occurrences in Hh as [Hh _]. by rewrite elem_of_reverse in Hh. }
  assert (rt_hash <$> recent_transactions limit s ≡ₚ take n hs) as Hh.
  { rewrite Hperm, fmap_take. by rewrite (omap_lookup_fmap _ _ _ so_recent0 Hin). }
  split; [done|]. split; [|split].
  - rewrite Hh. apply (sublist_NoDup _ hs); [apply first_occurrences_NoDup|apply sublist_take].
  - apply sort_unstable_sorted, _.
  - intros r Hr. rewrite Hperm in Hr. apply elem_of_take in Hr as (i & Hr & _).
    apply list_elem_of_lookup_2, list_elem_of_omap in Hr as (h & _ & Hl).
    rewrite (omap_lookup_hash _ _ _ _ so_recent0 Hl). by rewrite <-Hl, (tr_lookup _ _ _ _ so_recent0).
Qed.

(** The parameters can be met: a stable sort and the map's own listing. *)
Definition stable_sort : UnstableSort :=
  {| sort_unstable_by A c l := sort_by c l;
     sort_unstable_perm A c l := sort_by_perm c l;
     sort_unstable_sorted A c l Hc := sort_by_sorted c l |}.
Definition listing_iter : MapIter (string * string) :=
  {| map_iter V m := map_to_list m; map_iter_perm V m := Permutation_refl _ |}.

(** A small store: three swaps of two hashes, the oldest row evicted. *)
Definition sample_feature (h mev : N) (category : string) : TxFeaturesRecord :=
  mkTxFeaturesRecord h (Some 1%N) "uniswap-v2" category mev 10 None "feature-engine.v1".
Definition sample_writes : list StorageOp :=
  [OpTxFeatures (sample_feature 1 90 "swap") 5;
   OpTxFeatures (sample_feature 2 50 "swap") 5;
   OpTxFeatures (sample_feature 2 10 "transfer") 5;
   OpAppend (sample_event 3 (PTxDecoded (sample_decoded 7 5 1))) 1 1 1;
   OpAppend (sample_event 1 (PTxDecoded (sample_decoded 8 5 2))) 1 1 1;
   OpAppend (sample_event 2 (PTxDecoded (sample_decoded 7 5 1))) 1 1 1].
Definition sample_config : StorageConfig := mkStorageConfig 2 8 2 4.

Lemma feature_summary_exact_witness :
  let s := storage_after sample_config sample_writes in
  dashboard_feature_summary (H := stable_sort) (MapIter0 := listing_iter) 5 s
    = [mkBucket "uniswap-v2" "transfer" 1] /\
  exists buckets, 
    dashboard_feature_summary (H := stable_sort) (MapIter0 := listing_iter) 5 s
      = take 5 buckets.
Proof.
  split; [vm_compute; reflexivity|].
  pose proof (feature_summary_exact (H := stable_sort) (MapIter0 := listing_iter)
    sample_config sample_writes 5) as (buckets & H & _).
  exists buckets. exact H.
Defined.

Lemma recent_transactions_exact_witness :
  let s := storage_after sample_config sample_writes in
  rt_hash <$> recent_transactions (H := stable_sort) 5 s = [7; 8]%N /\
  NoDup (rt_hash <$> recent_transactions (H := stable_sort) 5 s).
Proof.
  split; [vm_compute; reflexivity|].
  pose proof (recent_transactions_exact (H := stable_sort) sample_config sample_writes 5)
    as (_ & H & _).
  exact H.
Defined.

(** The index is re-ordered and bounded. *)
Example sample_index :
  seq_id <$> list_events (storage_after sample_config sample_writes) = [1; 2]%N /\
  latest_seq_id (storage_after sample_config sample_writes) = Some 2%N.
Proof. by vm_compute. Qed.
