(* ===== verification/Backfill.v ===== *)
(** * Backfill: historical events into the store (crates/storage/src/backfill.rs)

    [BackfillWriter] sorts a batch, prunes by retention, skips sequence ids it
    has written before and appends the rest.  The store behind the lock is
    explicit state; the nanoseconds each append took are an argument. *)
From stdpp Require Import base gmap strings list numbers sorting.
From S2P Require Import Prelude Common EventLog Scheduler Storage StorageIndex StorageTables.

Record BackfillConfig := mkBackfillConfig { retention_window_ms : Z }.
Definition backfill_config_default : BackfillConfig :=
  {| retention_window_ms := 7 * 24 * 60 * 60 * 1000 |}.

Record BackfillSummary := mkBackfillSummary {
  bf_inserted : N;
  bf_skipped_duplicates : N;
  bf_pruned_by_retention : N;
}.
Definition backfill_summary_default : BackfillSummary := mkBackfillSummary 0 0 0.

Record BackfillWriter := mkBackfillWriter {
  bw_storage : InMemoryStorage;
  bw_config : BackfillConfig;
  bw_seen_seq_ids : gset N;
}.

Definition backfill_writer_new (storage : InMemoryStorage) (config : BackfillConfig) : BackfillWriter :=
  mkBackfillWriter storage {| retention_window_ms := Z.max (retention_window_ms config) 1 |} ∅.

Section apply.
(** The clock around the appends of one event. *)
Context (timing : EventEnvelope -> N * N * N).

Definition timed_append (s : InMemoryStorage) (event : EventEnvelope) : InMemoryStorage :=
  let '(projection_ns, lifecycle_ns, elapsed) := timing event in
  append_event event projection_ns lifecycle_ns elapsed s.

Definition backfill_step (retention_cutoff : Z) (w : BackfillWriter * BackfillSummary)
    (event : EventEnvelope) : BackfillWriter * BackfillSummary :=
  let '(writer, summary) := w in
  if (ingest_ts_unix_ms event <? retention_cutoff)%Z
  then (writer, mkBackfillSummary (bf_inserted summary) (bf_skipped_duplicates summary)
                  (sat_add u64_max (bf_pruned_by_retention summary) 1))
  else if bool_decide (seq_id event ∈ bw_seen_seq_ids writer)
  then (writer, mkBackfillSummary (bf_inserted summary)
                  (sat_add u64_max (bf_skipped_duplicates summary) 1)
                  (bf_pruned_by_retention summary))
  else
    (mkBackfillWriter (timed_append (bw_storage writer) event) (bw_config writer)
       ({[seq_id event]} ∪ bw_seen_seq_ids writer),
     mkBackfillSummary (sat_add u64_max (bf_inserted summary) 1) (bf_skipped_duplicates summary)
       (bf_pruned_by_retention summary)).

Definition apply_events (events : list EventEnvelope) (now_unix_ms : Z) (writer : BackfillWriter) :
    BackfillWriter * BackfillSummary :=
  let retention_cutoff := i64_sat_sub now_unix_ms (retention_window_ms (bw_config writer)) in
  let sorted := sort_deterministic events in
  foldl (backfill_step retention_cutoff) (writer, backfill_summary_default) sorted.

(** ** The events a batch writes *)
Fixpoint accepted (cutoff : Z) (seen : gset N) (l : list EventEnvelope) : list EventEnvelope :=
  match l with
  | [] => []
  | e :: l' =>
      if ((ingest_ts_unix_ms e <? cutoff)%Z || bool_decide (seq_id e ∈ seen))
      then accepted cutoff seen l'
      else e :: accepted cutoff ({[seq_id e]} ∪ seen) l'
  end.
Definition in_window (cutoff : Z) (e : EventEnvelope) : Prop := (cutoff <= ingest_ts_unix_ms e)%Z.
#[local] Instance in_window_dec cutoff e : Decision (in_window cutoff e).
Proof. unfold in_window. apply _. Defined.

Lemma accepted_sublist cutoff seen l : sublist (accepted cutoff seen l) l.
Proof.
  revert seen. induction l as [|e l IH]; intros seen; cbn; [done|].
  destruct (_ || _); by constructor.
Qed.

Lemma elem_of_accepted cutoff seen l e :
  e ∈ accepted cutoff seen l <->
    exists l1 l2, l = l1 ++ e :: l2 /\ in_window cutoff e /\ seq_id e ∉ seen /\
      forall e', e' ∈ l1 -> in_window cutoff e' -> seq_id e' <> seq_id e.
Proof.
  revert seen. induction l as [|x l IH]; intros seen; cbn.
  { split; [by intros ?%not_elem_of_nil|]. by intros ([|] & ? & ? & _). }
  unfold in_window in *. destruct (Z.ltb_spec (ingest_ts_unix_ms x) cutoff) as [Hx|Hx]; cbn.
  - rewrite IH. split.
    + intros (l1 & l2 & -> & ? & ? & Hf). exists (x :: l1), l2. split_and!; [done..|].
      intros e' [->|?]%elem_of_cons Hw; [lia|by apply Hf].
    + intros ([|y l1] & l2 & [= <- ->] & ? & ? & Hf); [lia|].
      exists l1, l2. split_and!; [done..|]. intros e' ?. apply Hf. by right.
  - case_bool_decide as Hs.
    + rewrite IH. split.
      * intros (l1 & l2 & -> & ? & ? & Hf). exists (x :: l1), l2. split_and!; [done..|].
        intros e' [->|?]%elem_of_cons Hw; [congruence|by apply Hf].
      * intros ([|y l1] & l2 & [= <- ->] & ? & ? & Hf); [done|].
        exists l1, l2. split_and!; [done..|]. intros e' ?. apply Hf. by right.
    + rewrite elem_of_cons, IH. split.
      * intros [->|(l1 & l2 & -> & ? & Hn & Hf)].
        { exists [], l. split_and!; [done..|]. by intros e' ?%not_elem_of_nil. }
        exists (x :: l1), l2. split_and!; [done|done|set_solver|].
        intros e' [->|?]%elem_of_cons Hw; [set_solver|by apply Hf].
      * intros ([|y l1] & l2 & [= <- ->] & ? & Hn & Hf); [by left|]. right.
        exists l1, l2. split_and!; [done|done| |intros e' ?; apply Hf; by right].
        apply not_elem_of_union. split; [|done]. apply not_elem_of_singleton. intros E.
        apply (Hf x); [by left|lia|congruence].
Qed.

Lemma accepted_seq_fresh cutoff seen l :
  NoDup (seq_id <$> accepted cutoff seen l) /\
  forall e, e ∈ accepted cutoff seen l -> seq_id e ∉ seen.
Proof.
  split; [|intros e (? & ? & _ & _ & ? & _)%elem_of_accepted; done].
  revert seen. induction l as [|e l IH]; intros seen; cbn; [constructor|].
  destruct (_ || _); [done|]. cbn. constructor; [|done].
  intros (e' & E & He')%list_elem_of_fmap.
  apply elem_of_accepted in He' as (? & ? & _ & _ & ? & _). set_solver.
Qed.

Lemma backfill_fold cutoff l w m :
  (bf_inserted m <= u64_max)%N -> (bf_skipped_duplicates m <= u64_max)%N ->
  (bf_pruned_by_retention m <= u64_max)%N ->
  let ins := accepted cutoff (bw_seen_seq_ids w) l in
  let kept := filter (in_window cutoff) l in
  foldl (backfill_step cutoff) (w, m) l =
    (mkBackfillWriter (foldl timed_append (bw_storage w) ins) (bw_config w)
       (list_to_set (seq_id <$> ins) ∪ bw_seen_seq_ids w),
     mkBackfillSummary (N.min (bf_inserted m + usize_of (length ins)) u64_max)
       (N.min (bf_skipped_duplicates m + usize_of (length kept - length ins)) u64_max)
       (N.min (bf_pruned_by_retention m + usize_of (length l - length kept)) u64_max)) /\
  (length ins <= length kept <= length l)%nat.
Proof.
  revert w m. induction l as [|e l IH]; intros w m H1 H2 H3; cbv zeta.
  - cbn. destruct w, m; cbn in *. unfold usize_of; cbn. split; [|lia].
    rewrite (left_id_L ∅ (∪)). do 2 f_equal; lia.
  - cbn [foldl accepted]. unfold backfill_step at 2. rewrite filter_cons. unfold in_window in *.
    destruct (Z.ltb_spec (ingest_ts_unix_ms e) cutoff) as [Hw|Hw]; cbn [orb].
    + rewrite decide_False by lia. edestruct IH as [E Hl]; [..|rewrite E]; cbn; [done|done|apply sat_add_le|].
      unfold sat_add, usize_of in *. split; [f_equal; f_equal; lia|lia].
    + rewrite decide_True by done. case_bool_decide as Hs.
      * edestruct IH as [E Hl]; [..|rewrite E]; cbn; [done|apply sat_add_le|done|].
        unfold sat_add, usize_of in *. split; [f_equal; f_equal; lia|lia].
      * edestruct IH as [E Hl]; [..|rewrite E]; cbn; [apply sat_add_le|done|done|].
        cbn in Hl. unfold sat_add, usize_of in *. split; [|lia].
        f_equal; [f_equal; set_solver|f_equal; lia].
Qed.

(** Once a batch is written, all its sequence ids are seen or out of date. *)
Lemma accepted_again cutoff seen l seen' :
  seen ⊆ seen' -> (forall e, e ∈ accepted cutoff seen l -> seq_id e ∈ seen') ->
  accepted cutoff seen' l = [].
Proof.
  revert seen. induction l as [|e l IH]; intros seen Hsub Hacc; [done|]. cbn in *.
  destruct (ingest_ts_unix_ms e <? cutoff)%Z; cbn in *; [by apply (IH seen)|].
  case_bool_decide as Hs; cbn in *.
  - rewrite bool_decide_eq_true_2 by set_solver. by apply (IH seen).
  - assert (seq_id e ∈ seen') as He by (apply Hacc; by left).
    rewrite bool_decide_eq_true_2 by done. apply (IH ({[seq_id e]} ∪ seen)); [set_solver|].
    intros e' ?. apply Hacc. by right.
Qed.

(** A backfill run is exact: it appends, in deterministic order, exactly
    the events inside the retention window whose sequence id was not written
    before, one per sequence id (the first in deterministic order); the
    summary counts the appended, the repeated and the pruned events; and
    running the same batch again appends nothing and leaves the store alone. *)
Theorem backfill_exact events now writer :
  let cutoff := i64_sat_sub now (retention_window_ms (bw_config writer)) in
  let '(writer', summary) := apply_events events now writer in
  exists ins,
    bw_storage writer' = foldl timed_append (bw_storage writer) ins /\
    sublist ins (sort_deterministic events) /\ NoDup (seq_id <$> ins) /\
    (forall e, e ∈ ins <-> exists l1 l2, sort_deterministic events = l1 ++ e :: l2 /\
       in_window cutoff e /\ seq_id e ∉ bw_seen_seq_ids writer /\
       forall e', e' ∈ l1 -> in_window cutoff e' -> seq_id e' <> seq_id e) /\
    summary =
      mkBackfillSummary (N.min (usize_of (length ins)) u64_max)
        (N.min (usize_of (length (filter (in_window cutoff) events) - length ins)) u64_max)
        (N.min (usize_of (length events - length (filter (in_window cutoff) events))) u64_max) /\
    bw_storage (apply_events events now writer').1 = bw_storage writer' /\
    bf_inserted (apply_events events now writer').2 = 0%N.
Proof.
  cbv zeta. unfold apply_events. set (cutoff := i64_sat_sub _ _).
  set (sorted := sort_deterministic events).
  assert (sorted ≡ₚ events) as Hp by apply sort_by_perm.
  assert (forall w, foldl (backfill_step cutoff) (w, backfill_summary_default) sorted = _) as Hfold
    by (intros w; apply (backfill_fold cutoff sorted w backfill_summary_default); cbn; int_lia).
  rewrite Hfold. set (ins := accepted cutoff (bw_seen_seq_ids writer) sorted) in *.
  exists ins. split; [done|]. split; [apply accepted_sublist|].
  split; [apply accepted_seq_fresh|]. split; [intros e; apply elem_of_accepted|].
  split; [by rewrite Hp|].
  cbn [bw_config]. fold cutoff. rewrite Hfold. cbn [bw_storage bw_seen_seq_ids fst snd bf_inserted].
  rewrite (accepted_again cutoff (bw_seen_seq_ids writer)); [done|set_solver|].
  intros e He. apply elem_of_union_l, elem_of_list_to_set. by apply list_elem_of_fmap_2.
Qed.
End apply.
