(* ===== verification/Wal.v ===== *)
(** * Wal: the segmented write-ahead log (crates/storage/src/wal.rs)

    The directory that holds the log is a map from file names to contents, as
    bytes; serde_json's encoding of an event as one line is a parameter, and so
    is the order in which a directory is listed.  Input/output errors other
    than undecodable lines are not modelled here; the writer (file
    StorageWriter) models an append or a clear that fails. *)
From stdpp Require Import base gmap strings list numbers sorting.
From S2P Require Import Prelude Common EventLog Scheduler Storage.

Abbreviation bytes := (list N) (only parsing).
Abbreviation newline := 10%N (only parsing).

Definition default_segment_max_bytes : N := 64 * 1024 * 1024.

Record StorageWal := mkWal {
  wal_base_name : bytes;
  wal_segment_max_bytes : N;
}.
Definition with_segment_size (base : bytes) (segment_max_bytes : N) : StorageWal :=
  mkWal base (N.max segment_max_bytes 1).
Definition wal_new (base : bytes) : StorageWal := with_segment_size base default_segment_max_bytes.

(** ** File names *)
Definition seg_infix : bytes := [46; 115; 101; 103; 46]%N. (* ".seg." *)

(** [{id:020}] of a [u64]: twenty digits. *)
Fixpoint dec_pad (width : nat) (n : N) : bytes :=
  match width with
  | O => []
  | S w => dec_pad w (n / 10) ++ [48 + n mod 10]%N
  end.
Definition segment_path (wal : StorageWal) (id : N) : bytes :=
  wal_base_name wal ++ seg_infix ++ dec_pad 20 id.

Fixpoint strip_prefix (prefix l : bytes) : option bytes :=
  match prefix, l with
  | [], _ => Some l
  | p :: prefix', x :: l' => if (p =? x)%N then strip_prefix prefix' l' else None
  | _ :: _, [] => None
  end.

(** [str::parse::<u64>]: an optional plus sign, then at least one digit, with
    overflow checks. *)
Fixpoint parse_digits (acc : N) (l : bytes) : option N :=
  match l with
  | [] => Some acc
  | c :: l' =>
      if ((48 <=? c) && (c <=? 57))%N
      then
        let acc' := (acc * 10 + (c - 48))%N in
        if (acc' <=? u64_max)%N then parse_digits acc' l' else None
      else None
  end.
Definition parse_u64 (l : bytes) : option N :=
  match l with
  | [] => None
  | c :: l' =>
      if (c =? 43)%N then match l' with [] => None | _ => parse_digits 0 l' end
      else parse_digits 0 l
  end.

(** ** Lines *)

(** [BufRead::lines]: cut at newlines, each dropped with a carriage return
    before it; the unterminated rest is a line when it is not empty. *)
Fixpoint lines_loop (line l : bytes) : list bytes :=
  match l with
  | [] => match line with [] => [] | _ => [line] end
  | c :: l' =>
      if (c =? newline)%N
      then
        (match list.last line with
         | Some 13%N => take (length line - 1) line
         | _ => line
         end) :: lines_loop [] l'
      else lines_loop (line ++ [c]) l'
  end.
Definition lines (content : bytes) : list bytes := lines_loop [] content.

Lemma last_or_nil {A} (l : list A) : l = [] \/ exists l' x, l = l' ++ [x].
Proof. induction l using rev_ind; [by left|right]. eauto. Qed.

Lemma NoDup_omap_snd {A B C} (f : A * B -> option (C * A)) (l : list (A * B)) :
  (forall x r, f x = Some r -> r.2 = x.1) -> NoDup l.*1 -> NoDup (omap f l).*2.
Proof.
  intros Hf. induction l as [|x l IH]; [constructor|]. cbn. intros [Hx Hl]%NoDup_cons.
  destruct (f x) as [r|] eqn:E; [|by apply IH]. cbn. apply NoDup_cons. split; [|by apply IH].
  rewrite (Hf x r E). intros (r' & Er & Hr')%list_elem_of_fmap.
  apply list_elem_of_omap in Hr' as (y & Hy & Ey). apply Hx. rewrite Er, (Hf y r' Ey).
  by apply list_elem_of_fmap_2.
Qed.

Section wal.
(** serde_json, one event as one line of bytes. *)
Context (encode : EventEnvelope -> bytes) (decode : bytes -> option EventEnvelope).
(** The listing order of a directory. *)
Context `{!MapIter (list N)}.

Abbreviation WalDir := (gmap (list N) (list N)) (only parsing).

Fixpoint read_lines (ls : list bytes) : option (list EventEnvelope) :=
  match ls with
  | [] => Some []
  | line :: ls' =>
      if blank_bytes line then read_lines ls'
      else
        match decode line with
        | None => None
        | Some event => (cons event) <$> read_lines ls'
        end
  end.
Definition read_events_from_path (content : bytes) : option (list EventEnvelope) :=
  read_lines (lines content).

Definition segment_paths (wal : StorageWal) (dir : WalDir) : list (N * bytes) :=
  let prefix := wal_base_name wal ++ seg_infix in
  sort_by (cmp_on fst N.compare)
    (omap (fun '(name, _) =>
             match strip_prefix prefix name with
             | None => None
             | Some id_raw => (fun id => (id, name)) <$> parse_u64 id_raw
             end)
       (map_iter dir)).

Definition active_segment_path_for_append (wal : StorageWal) (dir : WalDir) : bytes :=
  match list.last (segment_paths wal dir) with
  | Some (id, path) =>
      if (usize_of (length (default [] (dir !! path))) <? wal_segment_max_bytes wal)%N
      then path
      else segment_path wal (sat_add u64_max id 1)
  | None => segment_path wal 0
  end.

Definition wal_append_event (wal : StorageWal) (event : EventEnvelope) (dir : WalDir) : WalDir :=
  let path := active_segment_path_for_append wal dir in
  <[path := default [] (dir !! path) ++ encode event ++ [newline]]> dir.

(** The files read in turn, [events.extend(..)?]. *)
Fixpoint read_all (contents : list bytes) : option (list EventEnvelope) :=
  match contents with
  | [] => Some []
  | c :: contents' =>
      match read_events_from_path c with
      | None => None
      | Some events => (app events) <$> read_all contents'
      end
  end.

Definition recover_events (wal : StorageWal) (dir : WalDir) : option (list EventEnvelope) :=
  let segments := (fun '(_, path) => default [] (dir !! path)) <$> segment_paths wal dir in
  let base := match dir !! wal_base_name wal with Some c => [c] | None => [] end in
  sort_by (cmp_on seq_id N.compare) <$> read_all (segments ++ base).

Definition wal_scan (wal : StorageWal) (from_seq_id limit : N) (dir : WalDir) :
    option (list EventEnvelope) :=
  (fun events => take (N.to_nat (N.max limit 1)) (filter (fun e => (from_seq_id < seq_id e)%N) events))
    <$> recover_events wal dir.

Definition wal_clear (wal : StorageWal) (dir : WalDir) : WalDir :=
  let dir := foldl (fun d '(_, path) => delete path d) dir (segment_paths wal dir) in
  match dir !! wal_base_name wal with
  | Some _ => <[wal_base_name wal := []]> dir
  | None => dir
  end.

(** ** Names and lines *)
Lemma strip_prefix_app p l : strip_prefix p (p ++ l) = Some l.
Proof. induction p as [|x p IH]; [done|]. cbn. by rewrite N.eqb_refl. Qed.

Lemma parse_digits_snoc acc l c :
  parse_digits acc (l ++ [c]) = parse_digits acc l ≫= fun a => parse_digits a [c].
Proof.
  revert acc. induction l as [|x l IH]; intros acc; [done|]. cbn [app parse_digits].
  destruct ((48 <=? x) && (x <=? 57))%N; [|done].
  destruct (acc * 10 + (x - 48) <=? u64_max)%N; [|done]. apply IH.
Qed.

Lemma parse_dec_pad w n :
  (n < 10 ^ N.of_nat w)%N -> (n <= u64_max)%N -> parse_digits 0 (dec_pad w n) = Some n.
Proof.
  revert n. induction w as [|w IH]; intros n Hn Hmax.
  { cbn in Hn. assert (n = 0)%N as -> by lia. done. }
  pose proof (N.div_mod n 10 ltac:(lia)) as Hdm. pose proof (N.mod_lt n 10 ltac:(lia)) as Hlt.
  rewrite Nat2N.inj_succ, N.pow_succ_r' in Hn.
  assert (n / 10 < 10 ^ N.of_nat w)%N as Hq by (by apply N.Div0.div_lt_upper_bound).
  cbn [dec_pad]. revert Hdm Hlt Hq. generalize (n / 10)%N (n mod 10)%N. intros q r Hdm Hr Hq.
  rewrite parse_digits_snoc, IH by (done || lia).
  cbn [mbind option_bind parse_digits].
  assert ((48 <=? 48 + r) && (48 + r <=? 57) = true)%N as ->
    by (apply andb_true_intro; rewrite !N.leb_le; lia).
  replace (q * 10 + (48 + r - 48))%N with n by lia.
  by rewrite (proj2 (N.leb_le n u64_max)).
Qed.

Lemma dec_pad_digits w n : Forall (fun c => 48 <= c <= 57)%N (dec_pad w n).
Proof.
  revert n. induction w as [|w IH]; intros n; cbn [dec_pad]; [constructor|].
  apply Forall_app. split; [apply IH|]. pose proof (N.mod_lt n 10 ltac:(lia)) as Hr.
  revert Hr. generalize (n mod 10)%N. intros r Hr. repeat constructor; lia.
Qed.

Lemma dec_pad_length w n : length (dec_pad w n) = w.
Proof. revert n. induction w; intros n; cbn [dec_pad]; [done|]. rewrite length_app, IHw. cbn. lia. Qed.

Lemma parse_segment_id id : (id <= u64_max)%N -> parse_u64 (dec_pad 20 id) = Some id.
Proof.
  intros Hid. unfold parse_u64. pose proof (dec_pad_digits 20 id) as Hd.
  pose proof (dec_pad_length 20 id) as Hl. pose proof (parse_dec_pad 20 id) as Hp.
  destruct (dec_pad 20 id) as [|c l]; [done|]. apply Forall_cons in Hd as [Hc _].
  rewrite (proj2 (N.eqb_neq c 43)) by lia. apply Hp; [|done]. unfold u64_max in Hid. cbn. lia.
Qed.

Lemma strip_segment_path wal id :
  strip_prefix (wal_base_name wal ++ seg_infix) (segment_path wal id) = Some (dec_pad 20 id).
Proof. unfold segment_path. rewrite app_assoc. apply strip_prefix_app. Qed.

Lemma segment_path_inj wal a b :
  (a <= u64_max)%N -> (b <= u64_max)%N -> segment_path wal a = segment_path wal b -> a = b.
Proof.
  intros Ha Hb E. unfold segment_path in E. apply app_inv_head, app_inv_head in E.
  pose proof (parse_segment_id a Ha) as Pa. rewrite E, parse_segment_id in Pa by done. congruence.
Qed.

Lemma segment_path_not_base wal id : segment_path wal id <> wal_base_name wal.
Proof.
  intros E. apply (f_equal length) in E. unfold segment_path in E.
  rewrite !length_app, dec_pad_length in E. cbn in E. lia.
Qed.

(** What the encoding must guarantee for an event to survive the round trip. *)
Record line_ok (e : EventEnvelope) : Prop := {
  lo_decode : decode (encode e) = Some e;
  lo_newline : newline ∉ encode e;
  lo_return : list.last (encode e) <> Some 13%N;
  lo_blank : blank_bytes (encode e) = false;
}.

Definition encode_all (events : list EventEnvelope) : bytes :=
  events ≫= fun e => encode e ++ [newline].

Lemma encode_all_app l1 l2 : encode_all (l1 ++ l2) = encode_all l1 ++ encode_all l2.
Proof. apply bind_app. Qed.

Lemma not_return {A} (x : option N) (a b : A) :
  x <> Some 13%N -> match x with Some 13%N => a | _ => b end = b.
Proof.
  intros Hx. destruct x as [[|p]|]; [done| |done].
  do 4 (destruct p as [p|p|]; try done); congruence.
Qed.

Lemma lines_loop_line line l rest :
  newline ∉ l ->
  lines_loop line (l ++ newline :: rest) =
    (match list.last (line ++ l) with
     | Some 13%N => take (length (line ++ l) - 1) (line ++ l)
     | _ => line ++ l
     end) :: lines_loop [] rest.
Proof.
  revert line. induction l as [|c l IH]; intros line Hl.
  - cbn. by rewrite app_nil_r.
  - cbn [app lines_loop]. destruct (N.eqb_spec c newline) as [->|_]; [set_solver|].
    rewrite IH by set_solver. by rewrite <-app_assoc.
Qed.

Lemma lines_loop_rest line l :
  newline ∉ l -> lines_loop line l = match line ++ l with [] => [] | x => [x] end.
Proof.
  revert line. induction l as [|c l IH]; intros line Hl; cbn.
  - rewrite app_nil_r. by destruct line.
  - destruct (N.eqb_spec c newline) as [->|_]; [set_solver|]. rewrite IH by set_solver.
    by rewrite <-app_assoc.
Qed.

Lemma lines_encode_all events torn :
  Forall line_ok events -> newline ∉ torn ->
  lines (encode_all events ++ torn) = (encode <$> events) ++ match torn with [] => [] | _ => [torn] end.
Proof.
  intros Hok Ht. unfold lines. induction Hok as [|e events [Hd Hn Hr Hb] _ IH].
  - cbn. rewrite lines_loop_rest by done. by destruct torn.
  - unfold encode_all in *. cbn [mbind list_bind fmap list_fmap app].
    rewrite <-!app_assoc. cbn [app]. rewrite lines_loop_line by done. rewrite IH. cbn [app].
    f_equal. by apply not_return.
Qed.

Lemma read_lines_ok events rest :
  Forall line_ok events ->
  read_lines ((encode <$> events) ++ rest) = app events <$> read_lines rest.
Proof.
  induction 1 as [|e events [Hd _ _ Hb] _ IH]; cbn; [by destruct (read_lines rest)|].
  rewrite Hb, Hd, IH. by destruct (read_lines rest).
Qed.

Lemma read_encode_all events :
  Forall line_ok events -> read_events_from_path (encode_all events) = Some events.
Proof.
  intros Hok. unfold read_events_from_path. rewrite <-(app_nil_r (encode_all events)).
  rewrite lines_encode_all by (done || set_solver). rewrite read_lines_ok by done. cbn.
  by rewrite app_nil_r.
Qed.

(** ** The directory

    The segments in id order, each with its events; nothing else in the
    directory belongs to the log. *)
Definition Segments : Type := list (N * list EventEnvelope).

Record wal_rep (wal : StorageWal) (dir : WalDir) (segs : Segments) : Prop := {
  wr_sorted : StronglySorted N.lt segs.*1;
  wr_ids : Forall (fun id => id <= u64_max)%N segs.*1;
  wr_file id events : (id, events) ∈ segs -> dir !! segment_path wal id = Some (encode_all events);
  wr_only name content id : dir !! name = Some content ->
    strip_prefix (wal_base_name wal ++ seg_infix) name ≫= parse_u64 = Some id ->
    id ∈ segs.*1 /\ name = segment_path wal id;
  wr_base : dir !! wal_base_name wal = None;
  wr_ok : Forall (fun s => Forall line_ok s.2) segs;
}.

Definition path_of (wal : StorageWal) (s : N * list EventEnvelope) : N * bytes :=
  (s.1, segment_path wal s.1).

(** Which files are segments determines the paths. *)
Lemma segment_paths_names (wal : StorageWal) (dir : WalDir) (segs : Segments)
    (wr_sorted0 : StronglySorted N.lt segs.*1)
    (wr_ids0 : Forall (fun id => id <= u64_max)%N segs.*1)
    (wr_file0 : forall id events, (id, events) ∈ segs -> is_Some (dir !! segment_path wal id))
    (wr_only0 : forall name content id, dir !! name = Some content ->
      strip_prefix (wal_base_name wal ++ seg_infix) name ≫= parse_u64 = Some id ->
      id ∈ segs.*1 /\ name = segment_path wal id) :
  segment_paths wal dir = path_of wal <$> segs.
Proof.
  unfold segment_paths.
  set (f := fun '(name, _) => match strip_prefix (wal_base_name wal ++ seg_infix) name with
    | None => None | Some id_raw => (fun id => (id, name)) <$> parse_u64 id_raw end).
  assert (forall name (c : bytes) r, f (name, c) = Some r <->
    r.2 = name /\ strip_prefix (wal_base_name wal ++ seg_infix) name ≫= parse_u64 = Some r.1) as Hf.
  { intros name c [id nm]. unfold f. cbn.
    destruct (strip_prefix _ name) as [raw|]; cbn; [|naive_solver].
    destruct (parse_u64 raw); cbn; naive_solver. }
  assert (NoDup segs.*1) as Hnd.
  { clear -wr_sorted0. induction wr_sorted0 as [|id l _ IH Hid]; constructor; [|done].
    intros Hin. rewrite Forall_forall in Hid. specialize (Hid id Hin). lia. }
  assert (omap f (map_iter dir) ≡ₚ path_of wal <$> segs) as Hp.
  { apply NoDup_Permutation.
    - apply (NoDup_fmap_1 snd). apply (NoDup_omap_snd f); [|rewrite map_iter_perm; apply NoDup_fst_map_to_list].
      intros [name c] r Hr. by apply Hf in Hr as [? _].
    - apply (NoDup_fmap_1 fst). by rewrite <-list_fmap_compose.
    - intros [id name]. rewrite list_elem_of_omap. setoid_rewrite map_iter_perm. split.
      + intros ([nm c] & Hin & [<- Hid]%Hf). apply elem_of_map_to_list in Hin.
        destruct (wr_only0 _ c id Hin Hid) as [Hs Hnm]. cbn in Hnm. subst name.
        apply list_elem_of_fmap in Hs as ([id' evs] & -> & Hs).
        apply list_elem_of_fmap. by exists (id', evs).
      + intros ([id' evs] & [= -> ->] & Hs)%list_elem_of_fmap. cbn.
        destruct (wr_file0 id' evs Hs) as [c Hc].
        exists (segment_path wal id', c). split.
        * by apply elem_of_map_to_list.
        * apply Hf. cbn. split; [done|]. rewrite strip_segment_path. cbn [mbind option_bind].
          apply parse_segment_id. rewrite Forall_forall in wr_ids0. apply wr_ids0.
          apply list_elem_of_fmap. by exists (id', evs). }
  assert (StronglySorted (cmp_le (cmp_on fst N.compare)) (path_of wal <$> segs)) as Hs.
  { clear -wr_sorted0. induction segs as [|s segs IH]; [constructor|].
    apply StronglySorted_cons in wr_sorted0 as [Hall Hs]. apply StronglySorted_cons.
    split; [|by apply IH]. apply Forall_forall. intros x (s' & -> & Hs')%list_elem_of_fmap.
    rewrite Forall_forall in Hall. specialize (Hall s'.1 (list_elem_of_fmap_2 fst _ _ Hs')).
    unfold cmp_on, path_of. cbn in *. by rewrite (proj2 (N.compare_lt_iff _ _) Hall). }
  rewrite (sort_by_Permutation (cmp_on fst N.compare) _ (path_of wal <$> segs)); [| |done].
  - by apply sort_by_id.
  - intros x y Hx Hy E. unfold cmp_on in E. apply N.compare_eq in E.
    rewrite Hp in Hx, Hy.
    apply list_elem_of_fmap in Hx as (sx & -> & _), Hy as (sy & -> & _). unfold path_of in *. cbn in *.
    congruence.
Qed.

Lemma segment_paths_rep wal dir segs :
  wal_rep wal dir segs -> segment_paths wal dir = path_of wal <$> segs.
Proof.
  intros [H1 H2 H3 H4 _ _]. apply segment_paths_names; [done|done| |done].
  intros id events Hin. eexists. by apply H3.
Qed.

Lemma encode_all_snoc events e : encode_all (events ++ [e]) = encode_all events ++ encode e ++ [newline].
Proof. rewrite encode_all_app. unfold encode_all at 2. cbn. by rewrite app_nil_r. Qed.

(** Writing to the file of the last segment, or of a new one. *)
Definition write_line (e : EventEnvelope) (path : bytes) (dir : WalDir) : WalDir :=
  <[path := default [] (dir !! path) ++ encode e ++ [newline]]> dir.

Lemma rep_id_bound wal dir segs s : wal_rep wal dir segs -> s ∈ segs -> (s.1 <= u64_max)%N.
Proof.
  intros [_ Hids _ _ _ _] Hs. rewrite Forall_forall in Hids. apply Hids. by apply list_elem_of_fmap_2.
Qed.

Lemma wal_rep_extend_last wal dir segs id events e :
  wal_rep wal dir (segs ++ [(id, events)]) -> line_ok e ->
  wal_rep wal (write_line e (segment_path wal id) dir) (segs ++ [(id, events ++ [e])]).
Proof.
  intros Hrep He.
  assert (forall s, s ∈ segs ++ [(id, events)] -> (s.1 <= u64_max)%N) as Hb
    by (intros; by eapply rep_id_bound).
  destruct Hrep as [H1 H2 H3 H4 H5 H6].
  assert ((segs ++ [(id, events)]).*1 = (segs ++ [(id, events ++ [e])]).*1) as Hids
    by (by rewrite !fmap_app).
  rewrite Hids in H1, H2. unfold write_line. constructor; [done|done|..].
  - intros id' evs Hin. apply elem_of_app in Hin as [Hin| [= -> ->]%list_elem_of_singleton].
    + assert ((id', evs) ∈ segs ++ [(id, events)]) as Hin' by set_solver.
      rewrite lookup_insert_ne; [by apply H3|]. intros E.
      apply segment_path_inj in E as <-; [| |by apply (Hb (id', evs))].
      2:{ apply (Hb (id, events)). set_solver. }
      rewrite fmap_app in H1. apply StronglySorted_app in H1 as (H1 & _).
      assert (id < id)%N by (apply H1; [by apply (list_elem_of_fmap_2 fst _ (id, evs))|set_solver]). lia.
    + rewrite lookup_insert_eq, (H3 id events) by set_solver. cbn. by rewrite encode_all_snoc.
  - intros name content id' Hn Hp. rewrite <-Hids.
    destruct (decide (name = segment_path wal id)) as [->|Hne].
    + apply (H4 (segment_path wal id) (encode_all events) id'); [|done].
      apply H3. set_solver.
    + rewrite lookup_insert_ne in Hn by done. by apply (H4 name content).
  - rewrite lookup_insert_ne; [done|]. apply segment_path_not_base.
  - apply Forall_app in H6 as [H6 Hl]. apply Forall_app. split; [done|].
    rewrite Forall_singleton in Hl |- *. cbn in *.
    apply Forall_app_2; [done|by apply Forall_singleton].
Qed.

Lemma wal_rep_fresh wal dir segs id :
  wal_rep wal dir segs -> (id <= u64_max)%N -> id ∉ segs.*1 -> dir !! segment_path wal id = None.
Proof.
  intros [_ _ _ H4 _ _] Hid Hn. destruct (dir !! segment_path wal id) as [c|] eqn:E; [|done].
  destruct (H4 _ _ id E) as [? _]; [|done]. rewrite strip_segment_path. cbn [mbind option_bind]. by apply parse_segment_id.
Qed.

Lemma wal_rep_new_segment wal dir segs id e :
  wal_rep wal dir segs -> line_ok e -> (id <= u64_max)%N -> Forall (fun i => i < id)%N segs.*1 ->
  wal_rep wal (write_line e (segment_path wal id) dir) (segs ++ [(id, [e])]).
Proof.
  intros Hrep He Hid Hlt.
  assert (id ∉ segs.*1) as Hfresh by (intros Hin; rewrite Forall_forall in Hlt; specialize (Hlt id Hin); lia).
  pose proof (wal_rep_fresh wal dir segs id Hrep Hid Hfresh) as Hnone.
  assert (forall s, s ∈ segs -> (s.1 <= u64_max)%N) as Hb by (intros; by eapply rep_id_bound).
  destruct Hrep as [H1 H2 H3 H4 H5 H6]. unfold write_line. rewrite Hnone. cbn [from_option app].
  constructor.
  - rewrite fmap_app. apply StronglySorted_app. split_and!; [|done|by repeat constructor].
    intros x y Hx ->%list_elem_of_singleton. rewrite Forall_forall in Hlt. by apply Hlt.
  - rewrite fmap_app. apply Forall_app. split; [done|]. by repeat constructor.
  - intros id' evs Hin. apply elem_of_app in Hin as [Hin| [= -> ->]%list_elem_of_singleton].
    + rewrite lookup_insert_ne; [by apply H3|]. intros E.
      apply segment_path_inj in E as <-; [|done|by apply (Hb (id', evs))].
      apply Hfresh. by apply (list_elem_of_fmap_2 fst _ (id, evs)).
    + rewrite lookup_insert_eq. unfold encode_all. cbn. by rewrite app_nil_r.
  - intros name content id' Hn Hp. rewrite fmap_app, elem_of_app.
    destruct (decide (name = segment_path wal id)) as [->|Hne].
    + rewrite strip_segment_path in Hp. cbn [mbind option_bind] in Hp. rewrite parse_segment_id in Hp by done.
      injection Hp as <-. split; [right; cbn; set_solver|done].
    + rewrite lookup_insert_ne in Hn by done. destruct (H4 name content id' Hn Hp). by split; [left|].
  - rewrite lookup_insert_ne; [done|]. apply segment_path_not_base.
  - apply Forall_app. split; [done|]. rewrite Forall_singleton. cbn. by rewrite Forall_singleton.
Qed.

(** Appending adds the event at the end. *)
Lemma wal_append_rep wal dir segs e :
  wal_rep wal dir segs -> line_ok e ->
  exists segs', wal_rep wal (wal_append_event wal e dir) segs' /\
    concat segs'.*2 = concat segs.*2 ++ [e].
Proof.
  intros Hrep He. unfold wal_append_event. fold (write_line e).
  change (let path := active_segment_path_for_append wal dir in
    <[path:=default [] (dir !! path) ++ encode e ++ [newline]]> dir)
    with (write_line e (active_segment_path_for_append wal dir) dir).
  unfold active_segment_path_for_append. rewrite (segment_paths_rep _ _ _ Hrep), fmap_last.
  destruct (last_or_nil segs) as [->|(segs0 & [id evs] & ->)]; cbn [list.last fmap option_fmap option_map].
  - exists ([] ++ [(0%N, [e])]). split; [|done]. by apply wal_rep_new_segment.
  - rewrite last_snoc. cbn [fmap option_fmap option_map path_of fst].
    assert (exists segs', wal_rep wal (write_line e (segment_path wal id) dir) segs' /\
      concat segs'.*2 = concat (segs0 ++ [(id, evs)]).*2 ++ [e]) as Hlast.
    { exists (segs0 ++ [(id, evs ++ [e])]). split; [by apply wal_rep_extend_last|].
      rewrite !fmap_app, !concat_app. cbn. by rewrite !app_nil_r, app_assoc. }
    destruct (_ <? _)%N; [done|].
    pose proof (rep_id_bound _ _ _ (id, evs) Hrep ltac:(set_solver)) as Hid. cbn in Hid.
    destruct (decide (id = u64_max)) as [->|Hne]; [exact Hlast|].
    rewrite sat_add_exact by (int_lia).
    exists ((segs0 ++ [(id, evs)]) ++ [((id + 1)%N, [e])]). split.
    + apply wal_rep_new_segment; [done|done|int_lia|].
      destruct Hrep as [H1 _ _ _ _ _]. rewrite fmap_app in H1 |- *.
      apply StronglySorted_app in H1 as (H1 & _). apply Forall_app. split; [|repeat constructor; cbn; lia].
      apply Forall_forall. intros i Hi. specialize (H1 i id Hi ltac:(cbn; set_solver)). lia.
    + rewrite (fmap_app snd _ [_]), concat_app. done.
Qed.

Lemma foldl_delete_paths (l : list (N * bytes)) (dir : WalDir) name :
  foldl (fun d '(_, path) => delete path d) dir l !! name =
    if bool_decide (name ∈ l.*2) then None else dir !! name.
Proof.
  revert dir. induction l as [|[id path] l IH]; intros dir; [done|]. cbn [foldl]. rewrite IH.
  destruct (decide (name ∈ l.*2)) as [Hin|Hn].
  - by rewrite !bool_decide_eq_true_2 by (cbn; set_solver).
  - rewrite (bool_decide_eq_false_2 _ Hn). destruct (decide (name = path)) as [->|Hne].
    + rewrite lookup_delete_eq, bool_decide_eq_true_2 by (cbn; set_solver). done.
    + rewrite lookup_delete_ne by done. rewrite bool_decide_eq_false_2 by (cbn; set_solver). done.
Qed.

(** Clearing empties the log. *)
Lemma wal_clear_rep wal dir segs : wal_rep wal dir segs -> wal_rep wal (wal_clear wal dir) [].
Proof.
  intros Hrep. unfold wal_clear. rewrite (segment_paths_rep _ _ _ Hrep).
  pose proof (wr_base _ _ _ Hrep) as Hbase.
  set (dir' := foldl _ dir _).
  assert (forall name c, dir' !! name = Some c -> dir !! name = Some c /\
    strip_prefix (wal_base_name wal ++ seg_infix) name ≫= parse_u64 = None) as Hd.
  { intros name c Hn. unfold dir' in Hn. rewrite foldl_delete_paths in Hn.
    case_bool_decide as Hin; [done|]. split; [done|].
    destruct (strip_prefix _ name ≫= parse_u64) as [id|] eqn:E; [|done]. exfalso.
    destruct (wr_only _ _ _ Hrep name c id Hn E) as [Hid ->]. apply Hin.
    apply list_elem_of_fmap in Hid as (s & -> & Hs).
    apply list_elem_of_fmap. exists (path_of wal s). split; [done|]. by apply list_elem_of_fmap_2. }
  assert (dir' !! wal_base_name wal = None) as Hb.
  { destruct (dir' !! wal_base_name wal) eqn:E; [|done]. apply Hd in E as [? _]. congruence. }
  rewrite Hb. constructor; cbn; [constructor|constructor|..|done|constructor].
  - intros id evs Hin. by apply not_elem_of_nil in Hin.
  - intros name c id Hn E. apply Hd in Hn as [_ ?]. congruence.
Qed.

Lemma read_all_rep segs :
  Forall (fun s : N * list EventEnvelope => Forall line_ok s.2) segs ->
  read_all ((fun s => encode_all s.2) <$> segs) = Some (concat segs.*2).
Proof.
  induction 1 as [|s segs Hs _ IH]; [done|]. cbn [fmap list_fmap read_all].
  by rewrite read_encode_all, IH.
Qed.

(** Recovery reads everything back. *)
Lemma recover_events_rep wal dir segs :
  wal_rep wal dir segs ->
  recover_events wal dir = Some (sort_by (cmp_on seq_id N.compare) (concat segs.*2)).
Proof.
  intros Hrep. unfold recover_events. rewrite (segment_paths_rep _ _ _ Hrep), (wr_base _ _ _ Hrep), app_nil_r.
  assert ((fun '(_, path) => default [] (dir !! path)) <$> (path_of wal <$> segs) =
    (fun s => encode_all s.2) <$> segs) as ->.
  { rewrite <-list_fmap_compose. apply list_fmap_ext. intros i [id evs] Hi. cbn.
    apply list_elem_of_lookup_2 in Hi. by rewrite (wr_file _ _ _ Hrep id evs Hi). }
  rewrite read_all_rep by apply (wr_ok _ _ _ Hrep). done.
Qed.

(** A directory where nothing belongs to the log. *)
Definition no_log (wal : StorageWal) (dir : WalDir) : Prop :=
  dir !! wal_base_name wal = None /\
  forall name, is_Some (dir !! name) ->
    strip_prefix (wal_base_name wal ++ seg_infix) name ≫= parse_u64 = None.

Lemma no_log_rep wal dir : no_log wal dir -> wal_rep wal dir [].
Proof.
  intros [Hb Hn]. constructor; cbn; [constructor|constructor|..|done|constructor].
  - intros id evs Hin. by apply not_elem_of_nil in Hin.
  - intros name c id Hname E. rewrite Hn in E; [done|by eexists].
Qed.

(** ** Runs of the log *)
Inductive WalOp := WalAppend (event : EventEnvelope) | WalClear.
Definition wal_op (wal : StorageWal) (dir : WalDir) (op : WalOp) : WalDir :=
  match op with
  | WalAppend e => wal_append_event wal e dir
  | WalClear => wal_clear wal dir
  end.
Definition wal_contents (l : list EventEnvelope) (op : WalOp) : list EventEnvelope :=
  match op with WalAppend e => l ++ [e] | WalClear => [] end.
Definition op_storable (op : WalOp) : Prop :=
  match op with WalAppend e => line_ok e | WalClear => True end.

Lemma wal_run_rep wal ops dir segs :
  wal_rep wal dir segs -> Forall op_storable ops ->
  exists segs', wal_rep wal (foldl (wal_op wal) dir ops) segs' /\
    concat segs'.*2 = foldl wal_contents (concat segs.*2) ops.
Proof.
  intros Hrep Hops. revert dir segs Hrep. induction Hops as [|op ops Hop _ IH]; intros dir segs Hrep.
  { by exists segs. }
  cbn [foldl]. destruct op as [e|]; cbn [wal_op wal_contents].
  - destruct (wal_append_rep wal dir segs e Hrep Hop) as (segs1 & H1 & <-). by apply IH.
  - by apply (IH _ []), wal_clear_rep with segs.
Qed.

(** C15: the write-ahead log loses nothing: after any sequence of appends and
    clears, starting in a directory that holds no log files of its own (other
    files may be there), recovery returns exactly the events appended since
    the last clear, ordered by sequence id (stably), whatever the segment size
    and however the appends were spread over rotated segment files; [scan]
    returns the first [limit] of them after the cursor.  The only demand on
    the encoding is that each event is one non-blank line that decodes back. *)
Theorem wal_recovery_exact wal dir ops from limit
    (Hdir : no_log wal dir) (Hops : Forall op_storable ops) :
  let dir' := foldl (wal_op wal) dir ops in
  let expected := sort_by (cmp_on seq_id N.compare) (foldl wal_contents [] ops) in
  recover_events wal dir' = Some expected /\
  wal_scan wal from limit dir' =
    Some (take (N.to_nat (N.max limit 1)) (filter (fun e => (from < seq_id e)%N) expected)).
Proof.
  destruct (wal_run_rep wal ops dir [] (no_log_rep _ _ Hdir) Hops) as (segs & Hrep & Hc).
  cbn [concat fmap list_fmap] in Hc. cbv zeta. unfold wal_scan.
  by rewrite (recover_events_rep _ _ _ Hrep), Hc.
Qed.

(** ** A torn last line *)
Lemma read_lines_bad ls bad rest :
  blank_bytes bad = false -> decode bad = None -> read_lines (ls ++ bad :: rest) = None.
Proof.
  intros Hb Hd. induction ls as [|l ls IH]; cbn; [by rewrite Hb, Hd|].
  destruct (blank_bytes l); [done|]. destruct (decode l); [|done]. by rewrite IH.
Qed.

Lemma read_all_bad cs bad rest :
  read_events_from_path bad = None -> read_all (cs ++ bad :: rest) = None.
Proof.
  intros Hb. induction cs as [|c cs IH]; cbn [app read_all]; [by rewrite Hb|].
  destruct (read_events_from_path c); [|done]. by rewrite IH.
Qed.

(** A crash in the middle of an append leaves an undecodable last line; from
    then on recovery fails as a whole, and every event of the log, however
    many complete lines there are, is unavailable. *)
Theorem torn_tail_loses_log wal dir segs id events torn
    (Hrep : wal_rep wal dir (segs ++ [(id, events)])) (Hnl : newline ∉ torn)
    (Hbad : decode torn = None) (Hblank : blank_bytes torn = false) :
  recover_events wal (<[segment_path wal id := encode_all events ++ torn]> dir) = None.
Proof.
  set (dir' := <[_ := _]> dir).
  pose proof Hrep as [H1 H2 H3 H4 H5 H6].
  assert (segment_paths wal dir' = path_of wal <$> (segs ++ [(id, events)])) as Hp.
  { apply segment_paths_names; [done|done|..].
    - intros id' evs Hin. unfold dir'. apply lookup_insert_is_Some'. right. eexists. by apply H3.
    - intros name content id' Hn E. unfold dir' in Hn.
      destruct (decide (segment_path wal id = name)) as [<-|Hne].
      + apply (H4 (segment_path wal id) (encode_all events)); [|done]. apply H3. set_solver.
      + rewrite lookup_insert_ne in Hn by done. by apply (H4 name content). }
  unfold recover_events. rewrite Hp, fmap_app, fmap_app, <-app_assoc.
  cbn [fmap list_fmap path_of fst app].
  unfold dir' at 2. rewrite lookup_insert_eq. cbn [from_option Datatypes.id].
  rewrite read_all_bad; [done|].
  unfold read_events_from_path. rewrite lines_encode_all; [|rewrite Forall_app, Forall_singleton in H6; apply H6|done].
  destruct torn as [|c torn]; [done|]. by apply (read_lines_bad _ _ []).
Qed.
End wal.

(** What a client may rely on: a log that holds the storable events appended
    since the last clear and recovers them in the order of their ids. *)
Class DurableLog (W : Type) := {
  dl_append : EventEnvelope -> W -> W;
  dl_clear : W -> W;
  dl_recover : W -> option (list EventEnvelope);
  dl_storable : EventEnvelope -> Prop;
  dl_holds : W -> list EventEnvelope -> Prop;
  dl_append_holds w l e : dl_holds w l -> dl_storable e -> dl_holds (dl_append e w) (l ++ [e]);
  dl_clear_holds w l : dl_holds w l -> dl_holds (dl_clear w) [];
  dl_recover_holds w l :
    dl_holds w l -> dl_recover w = Some (sort_by (cmp_on seq_id N.compare) l);
}.

(** The segmented log is one. *)
Program Definition segmented_log (encode : EventEnvelope -> list N)
    (decode : list N -> option EventEnvelope) `{!MapIter (list N)} (wal : StorageWal) :
    DurableLog (gmap (list N) (list N)) :=
  {| dl_append := wal_append_event encode wal;
     dl_clear := wal_clear wal;
     dl_recover := recover_events decode wal;
     dl_storable := line_ok encode decode;
     dl_holds dir l := exists segs, wal_rep encode decode wal dir segs /\ concat segs.*2 = l |}.
Next Obligation.
  intros encode decode ? wal w l e (segs & Hrep & <-) He.
  by apply wal_append_rep.
Qed.
Next Obligation.
  intros encode decode ? wal w l (segs & Hrep & _). exists []. split; [|done].
  by apply (wal_clear_rep _ _ _ _ segs).
Qed.
Next Obligation.
  intros encode decode ? wal w l (segs & Hrep & <-). by apply (recover_events_rep encode decode).
Qed.

(** A concrete encoding of two sample events, and a log with segments of one
    event each. *)
Definition sample_logged (n : N) : EventEnvelope := sample_event n (PTxDecoded (sample_decoded n 5 n)).
Definition sample_encode (e : EventEnvelope) : list N := dec_pad 20 (seq_id e).
Definition sample_decode (l : list N) : option EventEnvelope := sample_logged <$> parse_u64 l.
Definition bytes_iter : MapIter (list N) :=
  {| map_iter V m := map_to_list m; map_iter_perm V m := Permutation_refl _ |}.
Definition sample_wal : StorageWal := with_segment_size [101%N] 8.
Definition sample_dir : gmap (list N) (list N) := {[ [111%N] := [1%N] ]}.

Lemma sample_line_ok n : (n < 3)%N -> line_ok sample_encode sample_decode (sample_logged n).
Proof.
  intros Hn. assert (n = 0 \/ n = 1 \/ n = 2)%N as [->|[->| ->]] by lia;
    (constructor; [reflexivity|refine (bool_decide_eq_true_1 _ _); by vm_compute|vm_compute; discriminate|reflexivity]).
Qed.

Lemma wal_recovery_exact_witness :
  let ops := [WalAppend (sample_logged 0); WalClear; WalAppend (sample_logged 2);
              WalAppend (sample_logged 1)] in
  option_map (map seq_id) (recover_events sample_decode (MapIter0 := bytes_iter) sample_wal
     (foldl (wal_op sample_encode (MapIter0 := bytes_iter) sample_wal) sample_dir ops))
  = Some [1; 2]%N.
Proof.
  cbv zeta.
  destruct (wal_recovery_exact sample_encode sample_decode (MapIter0 := bytes_iter) sample_wal sample_dir
    [WalAppend (sample_logged 0); WalClear; WalAppend (sample_logged 2); WalAppend (sample_logged 1)]
    0 5) as [H _].
  - split; [reflexivity|]. intros name [c Hc]. unfold sample_dir in Hc.
    apply lookup_singleton_Some in Hc as [<- _]. reflexivity.
  - repeat constructor; apply sample_line_ok; lia.
  - rewrite H. vm_compute. reflexivity.
Defined.

Lemma torn_tail_loses_log_witness :
  let dir := write_line sample_encode (sample_logged 1) (segment_path sample_wal 0) sample_dir in
  option_map (map seq_id) (recover_events sample_decode (MapIter0 := bytes_iter) sample_wal dir)
    = Some [1%N] /\
  recover_events sample_decode (MapIter0 := bytes_iter) sample_wal
    (<[segment_path sample_wal 0 := encode_all sample_encode [sample_logged 1] ++ [123%N]]> dir) = None.
Proof.
  split; [vm_compute; reflexivity|].
  apply (torn_tail_loses_log sample_encode sample_decode (MapIter0 := bytes_iter) sample_wal
    (write_line sample_encode (sample_logged 1) (segment_path sample_wal 0) sample_dir) [] 0
    [sample_logged 1] [123%N]).
  - apply (wal_rep_new_segment sample_encode sample_decode sample_wal sample_dir [] 0).
    + apply no_log_rep. split; [reflexivity|]. intros name [c Hc]. unfold sample_dir in Hc.
      apply lookup_singleton_Some in Hc as [<- _]. reflexivity.
    + by apply sample_line_ok.
    + int_lia.
    + constructor.
  - refine (bool_decide_eq_true_1 _ _). by vm_compute.
  - reflexivity.
  - reflexivity.
Defined.
