(* ===== verification/StorageWriter.v ===== *)
(** * StorageWriter: the single writer task (crates/storage/src/lib.rs,
    [spawn_single_writer], [apply_write_op], [flush_batch])

    The task that numbers events, writes them to the log, applies them to the
    read model and flushes them in batches to an analytical sink.  It is a step
    function over what reaches the task: an operation from its queue, a tick,
    the closing of the queue.  The log is any [DurableLog]; whether a log write,
    a flush or a clear succeeds, and what the clock measures, comes with the
    step. *)
From stdpp Require Import base gmap strings list numbers sorting.
From S2P Require Import Prelude Common EventLog Scheduler Storage StorageIndex StorageTables StorageProps Wal.

Inductive StorageWriteOp :=
  | WAppendEvent (event : EventEnvelope)
  | WAppendPayload (source : SourceId) (p : EventPayload) (ts_unix_ms : Z) (ts_mono_ns : N)
  | WUpsertTxSeen (r : TxSeenRecord)
  | WUpsertTxFull (r : TxFullRecord)
  | WUpsertTxFeatures (r : TxFeaturesRecord)
  | WUpsertOpportunity (r : OpportunityRecord)
  | WUpsertTxLifecycle (r : TxLifecycleRecord)
  | WUpsertPeerStats (r : PeerStatsRecord)
  | WWriteSchedulerSnapshot (s : PersistedSchedulerSnapshot).

Record StorageWriterConfig := mkWriterConfig {
  queue_capacity : N;
  flush_batch_size : N;
  flush_interval_ms : N;
}.
Definition writer_config_default : StorageWriterConfig := mkWriterConfig 8192 512 500.
Definition normalize_writer_config (c : StorageWriterConfig) : StorageWriterConfig :=
  mkWriterConfig (N.max (queue_capacity c) 1) (N.max (flush_batch_size c) 1)
    (N.max (flush_interval_ms c) 1).

Section writer.
Context {W : Type} `{!DurableLog W}.

Record Writer := mkWriter {
  wr_storage : InMemoryStorage;
  wr_batch : list EventEnvelope;
  wr_log : option W;
  wr_sequencer : GlobalSequencer;
}.

(** What the environment does during one step: the clock's readings around
    storage writes, and whether appending to the log, flushing to the sink and
    clearing the log succeed. *)
Record StepEnv := mkEnv {
  env_projection_ns : N;
  env_lifecycle_ns : N;
  env_elapsed : N;
  env_log_ok : bool;
  env_sink_ok : bool;
  env_clear_ok : bool;
}.

(** An event to append: numbered, logged, applied and added to the batch. *)
Definition write_event (env : StepEnv) (event : EventEnvelope) (w : Writer) : Writer :=
  let '(event, sequencer) := assign (wr_sequencer w) event in
  {| wr_storage := append_event event (env_projection_ns env) (env_lifecycle_ns env) (env_elapsed env)
       (wr_storage w);
     wr_batch := wr_batch w ++ [event];
     wr_log := if env_log_ok env then dl_append event <$> wr_log w else wr_log w;
     wr_sequencer := sequencer |}.

Definition set_wr_storage (s : InMemoryStorage) (w : Writer) : Writer :=
  mkWriter s (wr_batch w) (wr_log w) (wr_sequencer w).

Definition apply_write_op (env : StepEnv) (op : StorageWriteOp) (w : Writer) : Writer :=
  let s := wr_storage w in
  let n := env_elapsed env in
  match op with
  | WAppendEvent event => write_event env event w
  | WAppendPayload source p ts_unix_ms ts_mono_ns =>
      write_event env (mkEnvelope 0 ts_unix_ms ts_mono_ns source p) w
  | WUpsertTxSeen r => set_wr_storage (upsert_tx_seen r n s) w
  | WUpsertTxFull r => set_wr_storage (upsert_tx_full r n s) w
  | WUpsertTxFeatures r => set_wr_storage (upsert_tx_features r n s) w
  | WUpsertOpportunity r => set_wr_storage (upsert_opportunity r n s) w
  | WUpsertTxLifecycle r => set_wr_storage (upsert_tx_lifecycle r n s) w
  | WUpsertPeerStats r => set_wr_storage (upsert_peer_stats r n s) w
  | WWriteSchedulerSnapshot p => set_wr_storage (write_scheduler_snapshot p n s) w
  end.

(** [flush_batch]: what the sink accepted, and the writer afterwards. *)
Definition flush_batch (env : StepEnv) (w : Writer) : list EventEnvelope * Writer :=
  match wr_batch w with
  | [] => ([], w)
  | pending =>
      let taken := mkWriter (wr_storage w) [] (wr_log w) (wr_sequencer w) in
      if negb (env_sink_ok env) then ([], taken)
      else
        (pending,
         mkWriter (wr_storage w) []
           (if env_clear_ok env then dl_clear <$> wr_log w else wr_log w) (wr_sequencer w))
  end.

(** One turn of the loop. *)
Inductive WriterInput := InOp (op : StorageWriteOp) | InTick | InClosed.
Definition writer_step (config : StorageWriterConfig) (w : Writer) (input : WriterInput * StepEnv) :
    list EventEnvelope * Writer :=
  let '(i, env) := input in
  match i with
  | InOp op =>
      let w := apply_write_op env op w in
      if (flush_batch_size config <=? usize_of (length (wr_batch w)))%N then flush_batch env w
      else ([], w)
  | InTick | InClosed => flush_batch env w
  end.

Fixpoint writer_run (config : StorageWriterConfig) (w : Writer) (inputs : list (WriterInput * StepEnv)) :
    list EventEnvelope * Writer :=
  match inputs with
  | [] => ([], w)
  | i :: inputs' =>
      let '(delivered, w1) := writer_step config w i in
      let '(later, w2) := writer_run config w1 inputs' in (delivered ++ later, w2)
  end.

(** The start of [spawn_single_writer]: recover, then number after the latest
    stored event.  [timing] is the clock around each recovered append. *)
Definition spawn_single_writer (timing : EventEnvelope -> N * N * N) (storage : InMemoryStorage)
    (log : option W) : Writer :=
  let recovered := match log with Some l => default [] (dl_recover l) | None => [] end in
  let storage :=
    foldl (fun s e => let '(a, b, c) := timing e in append_event e a b c s) storage recovered in
  mkWriter storage [] log (from_latest_seq_id (latest_seq_id storage)).

(** ** The events a run numbers *)
Definition op_event (op : StorageWriteOp) : option EventEnvelope :=
  match op with
  | WAppendEvent e => Some e
  | WAppendPayload source p ts_unix_ms ts_mono_ns => Some (mkEnvelope 0 ts_unix_ms ts_mono_ns source p)
  | _ => None
  end.
Definition op_snapshot (op : StorageWriteOp) : option PersistedSchedulerSnapshot :=
  match op with WWriteSchedulerSnapshot p => Some p | _ => None end.
Definition input_snapshot (i : WriterInput * StepEnv) : option PersistedSchedulerSnapshot :=
  match i.1 with InOp op => op_snapshot op | _ => None end.
Definition input_event (i : WriterInput * StepEnv) : option EventEnvelope :=
  match i.1 with InOp op => op_event op | _ => None end.
Definition assigned (w : Writer) (inputs : list (WriterInput * StepEnv)) : list EventEnvelope :=
  (assign_all (wr_sequencer w) (omap input_event inputs)).1.

Definition env_fine (i : WriterInput * StepEnv) : Prop :=
  env_log_ok i.2 = true /\ env_sink_ok i.2 = true /\ env_clear_ok i.2 = true.

(** The log holds the batch. *)
Definition in_sync (w : Writer) : Prop :=
  match wr_log w with Some l => dl_holds l (wr_batch w) | None => True end.

Lemma apply_write_op_event env op w :
  env_log_ok env = true ->
  match op_event op with
  | Some e =>
      let '(e', q) := assign (wr_sequencer w) e in
      wr_batch (apply_write_op env op w) = wr_batch w ++ [e'] /\
      wr_log (apply_write_op env op w) = dl_append e' <$> wr_log w /\
      wr_sequencer (apply_write_op env op w) = q
  | None =>
      wr_batch (apply_write_op env op w) = wr_batch w /\
      wr_log (apply_write_op env op w) = wr_log w /\
      wr_sequencer (apply_write_op env op w) = wr_sequencer w
  end.
Proof.
  intros Hok. destruct op; cbn [op_event apply_write_op]; try done;
    unfold write_event; destruct (assign _ _) as [e' q]; cbn; by rewrite Hok.
Qed.

Lemma flush_in_sync env w l :
  env_sink_ok env = true -> env_clear_ok env = true -> wr_log w = Some l -> dl_holds l (wr_batch w) ->
  let r := flush_batch env w in
  r.1 = wr_batch w /\ wr_batch r.2 = [] /\ wr_sequencer r.2 = wr_sequencer w /\
  exists l', wr_log r.2 = Some l' /\ dl_holds l' [].
Proof.
  intros Hs Hc Hl Hh. unfold flush_batch.
  destruct (wr_batch w) as [|e b] eqn:E; cbn [fst snd].
  - rewrite E. repeat split. by exists l.
  - rewrite Hs, Hc, Hl. cbn. repeat split. exists (dl_clear l). split; [done|].
    by eapply dl_clear_holds.
Qed.

Lemma assign_all_cons s e l :
  assign_all s (e :: l) =
    let '(e', s1) := assign s e in let '(l1, s2) := assign_all s1 l in (e' :: l1, s2).
Proof. done. Qed.

(** One step delivers a prefix and keeps the rest in the batch and in the log. *)
Lemma writer_step_exact config w l input :
  (1 <= flush_batch_size config)%N ->
  env_fine input -> wr_log w = Some l -> dl_holds l (wr_batch w) ->
  (usize_of (length (wr_batch w)) < flush_batch_size config)%N ->
  Forall dl_storable (assigned w [input]) ->
  let r := writer_step config w input in
  r.1 ++ wr_batch r.2 = wr_batch w ++ assigned w [input] /\
  wr_sequencer r.2 = (assign_all (wr_sequencer w) (omap input_event [input])).2 /\
  (usize_of (length (wr_batch r.2)) < flush_batch_size config)%N /\
  exists l', wr_log r.2 = Some l' /\ dl_holds l' (wr_batch r.2).
Proof.
  intros Hsize (Hlog & Hsink & Hclear) Hl Hh Hlen Hst. destruct input as [i env]. cbn [snd] in *.
  unfold assigned in *.
  destruct i as [op| |].
  - cbn [writer_step]. pose proof (apply_write_op_event env op w Hlog) as Hop.
    set (w1 := apply_write_op env op w) in *.
    change (omap input_event [(InOp op, env)]) with (omap op_event [op]) in *.
    assert (exists l1 new, wr_log w1 = Some l1 /\ dl_holds l1 (wr_batch w1) /\
      wr_batch w1 = wr_batch w ++ new /\ new = (assign_all (wr_sequencer w) (omap op_event [op])).1 /\
      wr_sequencer w1 = (assign_all (wr_sequencer w) (omap op_event [op])).2)
      as (l1 & new & Hl1 & Hh1 & Hb1 & Hnew & Hq1).
    { cbn [omap list_omap] in *. destruct (op_event op) as [e|].
      - rewrite assign_all_cons in *. destruct (assign (wr_sequencer w) e) as [e' q].
        destruct Hop as (-> & -> & ->). rewrite Hl. cbn in *.
        exists (dl_append e' l), [e']. rewrite Forall_singleton in Hst.
        split_and!; try done. by apply dl_append_holds.
      - destruct Hop as (-> & -> & ->). exists l, []. by rewrite app_nil_r. }
    rewrite <-Hnew. destruct (N.leb_spec (flush_batch_size config) (usize_of (length (wr_batch w1)))).
    + destruct (flush_in_sync env w1 l1 Hsink Hclear Hl1 Hh1) as (-> & -> & -> & l' & -> & Hh').
      rewrite app_nil_r, Hb1, Hq1. split; [done|]. split; [done|]. split; [int_lia|]. by exists l'.
    + cbn [fst snd]. rewrite Hq1. split; [by rewrite Hb1|]. split; [done|]. split; [done|]. by exists l1.
  - cbn [writer_step omap list_omap input_event fst assign_all snd].
    destruct (flush_in_sync env w l Hsink Hclear Hl Hh) as (-> & -> & -> & l' & -> & Hh').
    rewrite !app_nil_r. repeat split; [int_lia|]. by exists l'.
  - cbn [writer_step omap list_omap input_event fst assign_all snd].
    destruct (flush_in_sync env w l Hsink Hclear Hl Hh) as (-> & -> & -> & l' & -> & Hh').
    rewrite !app_nil_r. repeat split; [int_lia|]. by exists l'.
Qed.

Lemma assign_all_app s l1 l2 :
  assign_all s (l1 ++ l2) =
    let '(a1, s1) := assign_all s l1 in let '(a2, s2) := assign_all s1 l2 in (a1 ++ a2, s2).
Proof.
  revert s. induction l1 as [|e l1 IH]; intros s.
  - cbn. by destruct (assign_all s l2).
  - change ((e :: l1) ++ l2) with (e :: (l1 ++ l2)). rewrite !assign_all_cons.
    destruct (assign s e) as [e' q]. rewrite IH. destruct (assign_all q l1) as [a1 s1].
    by destruct (assign_all s1 l2).
Qed.

Lemma assign_inputs_cons s i inputs :
  assign_all s (omap input_event (i :: inputs)) =
    let '(a1, s1) := assign_all s (omap input_event [i]) in
    let '(a2, s2) := assign_all s1 (omap input_event inputs) in (a1 ++ a2, s2).
Proof. rewrite <-assign_all_app. f_equal. apply (omap_app input_event [i] inputs). Qed.

Lemma writer_run_exact config w l inputs :
  (1 <= flush_batch_size config)%N ->
  Forall env_fine inputs -> wr_log w = Some l -> dl_holds l (wr_batch w) ->
  (usize_of (length (wr_batch w)) < flush_batch_size config)%N ->
  Forall dl_storable (assigned w inputs) ->
  let r := writer_run config w inputs in
  r.1 ++ wr_batch r.2 = wr_batch w ++ assigned w inputs /\
  (usize_of (length (wr_batch r.2)) < flush_batch_size config)%N /\
  exists l', wr_log r.2 = Some l' /\ dl_holds l' (wr_batch r.2).
Proof.
  intros Hsize Hf. revert w l. induction Hf as [|i inputs Hi _ IH]; intros w l Hl Hh Hlen Hst.
  { cbn. rewrite app_nil_r. split; [done|]. split; [done|]. by exists l. }
  unfold assigned in Hst |- *. rewrite assign_inputs_cons in Hst |- *.
  pose proof (writer_step_exact config w l i Hsize Hi Hl Hh Hlen) as Hstep.
  unfold assigned in Hstep.
  destruct (assign_all (wr_sequencer w) (omap input_event [i])) as [a1 q1] eqn:E1.
  destruct (assign_all q1 (omap input_event inputs)) as [a2 q2] eqn:E2. cbn [fst snd] in *.
  apply Forall_app in Hst as [Hst1 Hst2]. specialize (Hstep Hst1).
  cbn [writer_run]. destruct (writer_step config w i) as [d1 w1]. cbn [fst snd] in Hstep.
  destruct Hstep as (Hd1 & Hq1 & Hlen1 & l1 & Hl1 & Hh1).
  specialize (IH w1 l1 Hl1 Hh1 Hlen1). unfold assigned in IH. rewrite Hq1, E2 in IH.
  specialize (IH Hst2). destruct (writer_run config w1 inputs) as [d2 w2]. cbn [fst snd] in *.
  destruct IH as (Hd2 & Hlen2 & Hlog2).
  split; [|done]. by rewrite <-app_assoc, Hd2, app_assoc, Hd1, app_assoc.
Qed.

(** Assigned ids do not decrease. *)
Lemma assign_all_sorted s l :
  (next_seq_id_field s <= u64_max)%N ->
  StronglySorted (cmp_le (cmp_on seq_id N.compare)) (assign_all s l).1.
Proof.
  intros Hs.
  assert (forall (m : list EventEnvelope), (forall i j x y, (i < j)%nat -> m !! i = Some x -> m !! j = Some y ->
    (seq_id x <= seq_id y)%N) -> StronglySorted (cmp_le (cmp_on seq_id N.compare)) m) as Hsort.
  { induction m as [|x m IH]; intros Hm; [constructor|]. apply StronglySorted_cons. split.
    - apply Forall_forall. intros y [j Hj]%list_elem_of_lookup_1. unfold cmp_on.
      rewrite N.compare_gt_iff. apply N.le_ngt. apply (Hm 0%nat (S j)); [lia|done|done].
    - apply IH. intros i j y z Hij Hy Hz. apply (Hm (S i) (S j)); [lia|done|done]. }
  apply Hsort. intros i j x y Hij Hx Hy.
  apply assign_all_ids in Hx, Hy; [|done..]. rewrite Hx, Hy. lia.
Qed.

(** The read model sees every numbered event, and the other writes. *)
Lemma apply_write_op_storage env op w :
  exists op', wr_storage (apply_write_op env op w) = storage_op (wr_storage w) op' /\
    appended op' = (fun e => (assign (wr_sequencer w) e).1) <$> op_event op /\
    told_snapshot op' = op_snapshot op /\
    wr_sequencer (apply_write_op env op w) = (assign_all (wr_sequencer w) (omap op_event [op])).2.
Proof.
  destruct op as [e|src p a b|r|r|r|r|r|r|r]; cbn [op_event apply_write_op].
  1,2: unfold write_event; cbn [omap list_omap op_event]; rewrite assign_all_cons;
    cbn [fmap option_fmap option_map];
    destruct (assign _ _) as [e' q] eqn:E; cbn [fst snd wr_storage wr_sequencer assign_all].
  1,2: by exists (OpAppend e' (env_projection_ns env) (env_lifecycle_ns env) (env_elapsed env)).
  - by exists (OpTxSeen r (env_elapsed env)).
  - by exists (OpTxFull r (env_elapsed env)).
  - by exists (OpTxFeatures r (env_elapsed env)).
  - by exists (OpOpportunity r (env_elapsed env)).
  - by exists (OpTxLifecycle r (env_elapsed env)).
  - by exists (OpPeerStats r (env_elapsed env)).
  - by exists (OpSnapshot r (env_elapsed env)).
Qed.

Lemma flush_batch_keeps env w :
  wr_storage (flush_batch env w).2 = wr_storage w /\ wr_sequencer (flush_batch env w).2 = wr_sequencer w.
Proof. unfold flush_batch. destruct (wr_batch w); [done|]. by destruct (negb (env_sink_ok env)). Qed.

Lemma writer_run_storage config w inputs :
  exists ops, wr_storage (writer_run config w inputs).2 = foldl storage_op (wr_storage w) ops /\
    omap appended ops = assigned w inputs /\ omap told_snapshot ops = omap input_snapshot inputs.
Proof.
  revert w. induction inputs as [|i inputs IH]; intros w; [by exists []|].
  assert (exists ops, wr_storage (writer_step config w i).2 = foldl storage_op (wr_storage w) ops /\
    omap appended ops = assigned w [i] /\ omap told_snapshot ops = omap input_snapshot [i] /\
    wr_sequencer (writer_step config w i).2 = (assign_all (wr_sequencer w) (omap input_event [i])).2)
    as (ops1 & Hs1 & Ha1 & Ht1 & Hq1).
  { destruct i as [[op| |] env]; cbn [writer_step].
    - destruct (apply_write_op_storage env op w) as (op' & Hs & Ha & Ht & Hq). exists [op'].
      change (omap input_event [(InOp op, env)]) with (omap op_event [op]). unfold assigned.
      change (omap input_event [(InOp op, env)]) with (omap op_event [op]).
      set (w1 := apply_write_op env op w) in *. split_and!.
      + destruct (_ <=? _)%N; [|done]. by rewrite (proj1 (flush_batch_keeps env w1)).
      + cbn [omap list_omap]. rewrite Ha. destruct (op_event op) as [e|]; [|done].
        rewrite assign_all_cons. cbn [fmap option_fmap option_map].
        by destruct (assign (wr_sequencer w) e).
      + cbn [omap list_omap]. by rewrite Ht.
      + destruct (_ <=? _)%N; [|done]. by rewrite (proj2 (flush_batch_keeps env w1)).
    - exists []. destruct (flush_batch_keeps env w) as [-> ->]. done.
    - exists []. destruct (flush_batch_keeps env w) as [-> ->]. done. }
  cbn [writer_run]. destruct (writer_step config w i) as [d1 w1]. cbn [snd] in *.
  destruct (IH w1) as (ops2 & Hs2 & Ha2 & Ht2). destruct (writer_run config w1 inputs) as [d2 w2].
  cbn [snd] in *. exists (ops1 ++ ops2). rewrite foldl_app, <-Hs1. split; [done|].
  split; [|rewrite omap_app, Ht1, Ht2; cbn [omap list_omap]; by destruct (input_snapshot i)].
  rewrite omap_app, Ha1, Ha2. unfold assigned. rewrite Hq1, (assign_inputs_cons _ i inputs).
  destruct (assign_all (wr_sequencer w) (omap input_event [i])) as [a1 q1]. cbn [fst snd].
  by destruct (assign_all q1 (omap input_event inputs)).
Qed.

(** ** Theorems *)

(** C14: without failures the writer is exactly-once. It starts with an empty
    batch and an empty log, the batch size is at least one, the log can store
    every event, and no append, flush or clear fails. After any number of
    complete inputs the events delivered to the sink followed by those waiting
    in the batch are exactly the numbered events, in order and with consecutive
    ids (up to 2^64); the log recovers precisely the waiting ones; fewer than a
    batch are ever waiting; and the read model was given the same events in the
    same order. So a stop between two inputs leaves in the log exactly what the
    sink has not been given. A crash inside a step, between the sink's
    acceptance and the clearing of the log or within an append, is not covered
    ([Wal.torn_tail_loses_log]), nor is what a restart does with the recovered
    events ([restart_skips_recovered]). *)
Theorem writer_exactly_once config w l inputs
    (Hsize : (1 <= flush_batch_size config)%N) (Hfine : Forall env_fine inputs)
    (Hlog : wr_log w = Some l) (Hheld : dl_holds l []) (Hbatch : wr_batch w = [])
    (Hseq : (next_seq_id_field (wr_sequencer w) <= u64_max)%N)
    (Hst : Forall dl_storable (assigned w inputs)) :
  let '(delivered, w') := writer_run config w inputs in
  delivered ++ wr_batch w' = assigned w inputs /\
  (exists l', wr_log w' = Some l' /\ dl_recover l' = Some (wr_batch w')) /\
  (usize_of (length (wr_batch w')) < flush_batch_size config)%N /\
  (forall i e, assigned w inputs !! i = Some e ->
     seq_id e = N.min (next_seq_id_field (wr_sequencer w) + N.of_nat i) u64_max) /\
  (exists ops, wr_storage w' = foldl storage_op (wr_storage w) ops /\
     omap appended ops = assigned w inputs).
Proof.
  rewrite <-Hbatch in Hheld.
  pose proof (writer_run_exact config w l inputs Hsize Hfine Hlog Hheld) as H.
  destruct (writer_run_storage config w inputs) as (ops & Hops1 & Hops2 & _).
  destruct (writer_run config w inputs) as [delivered w']. cbn [fst snd] in *.
  destruct H as (Hd & Hlen & l' & Hl' & Hh'); [rewrite Hbatch; int_lia|done|].
  rewrite Hbatch in Hd. cbn in Hd. split; [done|]. split; [|split; [done|split; [|by exists ops]]].
  - exists l'. split; [done|]. rewrite (dl_recover_holds _ _ Hh'). f_equal.
    apply (sort_by_id (cmp_on seq_id N.compare)).
    pose proof (assign_all_sorted (wr_sequencer w) (omap input_event inputs) Hseq) as Hsort.
    fold (assigned w inputs) in Hsort. rewrite <-Hd in Hsort.
    by apply StronglySorted_app_1_r in Hsort.
  - intros i e Hi. by apply assign_all_ids in Hi.
Qed.

(** A failed flush loses its batch: the events were taken out of the
    batch before the sink refused them, and the next successful flush clears
    the log that still held them.  From any state with a non-empty batch, a
    failed flush, one more event and a successful flush deliver only the new
    event, and the log then recovers nothing. *)
Theorem failed_flush_loses_batch config w l held e fail ok
    (Hlog : wr_log w = Some l) (Hheld : dl_holds l held) (Hbatch : wr_batch w <> [])
    (Hfail : env_sink_ok fail = false)
    (Hok : env_sink_ok ok = true /\ env_clear_ok ok = true /\ env_log_ok ok = true)
    (Hst : dl_storable (assign (wr_sequencer w) e).1) :
  let '(delivered, w') :=
    writer_run config w [(InTick, fail); (InOp (WAppendEvent e), ok); (InTick, ok)] in
  delivered = [(assign (wr_sequencer w) e).1] /\ wr_batch w' = [] /\
  exists l', wr_log w' = Some l' /\ dl_recover l' = Some [].
Proof.
  destruct Hok as (Hs & Hc & Hlg).
  assert (exists l1, dl_holds l1 (held ++ [(assign (wr_sequencer w) e).1]) /\
    l1 = dl_append (assign (wr_sequencer w) e).1 l) as (l1 & Hl1 & ->)
    by (eexists; split; [by apply dl_append_holds|done]).
  cbn [writer_run writer_step]. unfold flush_batch at 1. rewrite Hfail. cbn [negb].
  destruct (wr_batch w) as [|b0 b]; [done|]. cbn [apply_write_op]. unfold write_event.
  cbn [wr_sequencer wr_storage wr_batch wr_log]. rewrite Hlg, Hlog.
  destruct (assign (wr_sequencer w) e) as [e' q]. cbn [fst] in *.
  cbn [app wr_batch length fmap option_fmap option_map].
  assert (dl_recover (dl_clear (dl_append e' l)) = Some []) as Hrec
    by (apply dl_recover_holds with (l := []); by eapply dl_clear_holds).
  destruct (_ <=? _)%N; unfold flush_batch; cbn [wr_batch wr_log wr_storage wr_sequencer];
    rewrite Hs, Hc; cbn; (split; [done|]); (split; [done|]); by eexists.
Qed.

(** A restart puts the recovered events into the read model but not into
    the batch: they are never delivered to the sink, because the first
    successful flush after the restart clears the log that held them; and
    after a flush has emptied the log, a restart with an empty read model
    numbers events from 1 again. *)
Theorem restart_skips_recovered config timing s l held e ok
    (Hheld : dl_holds l held)
    (Hok : env_sink_ok ok = true /\ env_clear_ok ok = true /\ env_log_ok ok = true)
    (Hst : dl_storable (assign (wr_sequencer (spawn_single_writer timing s (Some l))) e).1) :
  let w := spawn_single_writer timing s (Some l) in
  let '(delivered, w') := writer_run config w [(InOp (WAppendEvent e), ok); (InTick, ok)] in
  delivered = [(assign (wr_sequencer w) e).1] /\ wr_batch w' = [] /\
  (exists l', wr_log w' = Some l' /\ dl_recover l' = Some []) /\
  (held = [] -> st_event_index s = [] -> seq_id (assign (wr_sequencer w) e).1 = 1%N).
Proof.
  destruct Hok as (Hs & Hc & Hlg). cbv zeta. set (w := spawn_single_writer timing s (Some l)) in *.
  assert (held = [] -> st_event_index s = [] -> seq_id (assign (wr_sequencer w) e).1 = 1%N) as Hone.
  { intros -> He. unfold w, spawn_single_writer. rewrite (dl_recover_holds _ _ Hheld). cbn.
    unfold latest_seq_id. rewrite He. done. }
  assert (dl_holds (dl_append (assign (wr_sequencer w) e).1 l)
    (held ++ [(assign (wr_sequencer w) e).1])) as Happ by (by apply dl_append_holds).
  cbn [writer_run writer_step apply_write_op]. unfold write_event.
  assert (wr_batch w = []) as -> by done. assert (wr_log w = Some l) as -> by done. rewrite Hlg.
  destruct (assign (wr_sequencer w) e) as [e' q]. cbn [fst] in *.
  cbn [app wr_batch length fmap option_fmap option_map].
  assert (dl_recover (dl_clear (dl_append e' l)) = Some []) as Hrec
    by (apply dl_recover_holds with (l := []); by eapply dl_clear_holds).
  destruct (_ <=? _)%N; unfold flush_batch; cbn [wr_batch wr_log wr_storage wr_sequencer];
    rewrite Hs, Hc; cbn; (split; [done|]); (split; [done|]); (split; [by eexists|done]).
Qed.
End writer.

(** ** Concrete runs, over the segmented log *)
#[local] Instance sample_log : DurableLog (gmap (list N) (list N)) :=
  segmented_log sample_encode sample_decode (MapIter0 := bytes_iter) sample_wal.
Definition sample_writer_config : StorageWriterConfig := mkWriterConfig 4 2 500.
Definition sample_env (sink : bool) : StepEnv := mkEnv 1 1 1 true sink true.
Definition sample_writer (next : N) (batch : list EventEnvelope) (log : gmap (list N) (list N)) :
    Writer (W := gmap (list N) (list N)) :=
  mkWriter (with_config sample_config) batch (Some log) (mkSequencer next).

Lemma sample_log_empty : dl_holds sample_dir [].
Proof.
  exists []. split; [|done]. apply no_log_rep. split; [reflexivity|].
  intros name [c Hc]. unfold sample_dir in Hc. apply lookup_singleton_Some in Hc as [<- _]. reflexivity.
Qed.

Lemma sample_log_one : dl_holds (dl_append (sample_logged 1) sample_dir) [sample_logged 1].
Proof. apply (dl_append_holds _ []); [apply sample_log_empty|]. by apply sample_line_ok. Qed.

Definition sample_inputs : list (WriterInput * StepEnv) :=
  [(InOp (WAppendEvent (sample_logged 1)), sample_env true); (InTick, sample_env true);
   (InOp (WUpsertTxFeatures (sample_feature 1 90 "swap")), sample_env true);
   (InOp (WAppendEvent (sample_logged 2)), sample_env true)].

Lemma writer_exactly_once_witness :
  let '(delivered, w') := writer_run sample_writer_config (sample_writer 1 [] sample_dir) sample_inputs in
  delivered = [sample_logged 1] /\ delivered ++ wr_batch w' = [sample_logged 1; sample_logged 2].
Proof.
  pose proof (writer_exactly_once sample_writer_config (sample_writer 1 [] sample_dir) sample_dir
    sample_inputs) as H.
  destruct (writer_run _ _ sample_inputs) as [delivered w'] eqn:E.
  assert (delivered = [sample_logged 1]) as Hd
    by (apply (f_equal fst) in E; vm_compute in E; by rewrite <-E).
  split; [exact Hd|].
  destruct H as [H _]; [..|exact H].
  - cbn. lia.
  - repeat constructor.
  - reflexivity.
  - apply sample_log_empty.
  - reflexivity.
  - cbn. int_lia.
  - repeat constructor; by apply sample_line_ok.
Defined.

Lemma failed_flush_loses_batch_witness :
  let '(delivered, w') :=
    writer_run sample_writer_config
      (sample_writer 2 [sample_logged 1] (dl_append (sample_logged 1) sample_dir))
      [(InTick, sample_env false); (InOp (WAppendEvent (sample_logged 2)), sample_env true);
       (InTick, sample_env true)] in
  delivered = [sample_logged 2] /\ wr_batch w' = [].
Proof.
  pose proof (failed_flush_loses_batch sample_writer_config
    (sample_writer 2 [sample_logged 1] (dl_append (sample_logged 1) sample_dir))
    (dl_append (sample_logged 1) sample_dir) [sample_logged 1] (sample_logged 2)
    (sample_env false) (sample_env true) eq_refl sample_log_one ltac:(discriminate) eq_refl
    ltac:(repeat split) ltac:(by apply sample_line_ok)) as H.
  destruct (writer_run _ _ _) as [delivered w']. destruct H as (-> & Hb & _). split; [reflexivity|exact Hb].
Defined.

Lemma restart_skips_recovered_witness :
  let w := spawn_single_writer (fun _ => (1, 1, 1)%N) (with_config sample_config)
    (Some (dl_append (sample_logged 1) sample_dir)) in
  list_events (wr_storage w) = [sample_logged 1] /\
  (writer_run sample_writer_config w
    [(InOp (WAppendEvent (sample_logged 2)), sample_env true); (InTick, sample_env true)]).1
  = [sample_logged 2].
Proof.
  split; [vm_compute; reflexivity|].
  set (w := spawn_single_writer _ _ _).
  assert ((assign (wr_sequencer w) (sample_logged 2)).1 = sample_logged 2) as E
    by (vm_compute; reflexivity).
  pose proof (restart_skips_recovered sample_writer_config (fun _ => (1, 1, 1)%N)
    (with_config sample_config) (dl_append (sample_logged 1) sample_dir) [sample_logged 1]
    (sample_logged 2) (sample_env true) sample_log_one ltac:(repeat split)) as H.
  fold w in H. rewrite E in H. specialize (H ltac:(by apply sample_line_ok)). cbv zeta in H.
  destruct (writer_run _ _ _) as [delivered w']. apply H.
Defined.
