(* ===== verification/Text.v ===== *)
(** * Text: the text operations of the HTTP layer

    Rust's [str::trim], [split(',')], ASCII case folding and [dedup], over the
    UTF-8 bytes of a string, and the decimal numbers of event identifiers. *)
From stdpp Require Import base gmap strings list numbers sorting pretty.
From S2P Require Import Prelude Wal.

(** The rest of a text after a leading white-space character. *)
Definition after_white (l : list N) : option (list N) :=
  match l with
  | [] => None
  | b :: l1 =>
      if ((9 <=? b) && (b <=? 13) || (b =? 32))%N then Some l1
      else match l1 with
      | c :: d :: l3 =>
          if blank_bytes [b; c] then Some (d :: l3)
          else if blank_bytes [b; c; d] then Some l3 else None
      | [c] => if blank_bytes [b; c] then Some [] else None
      | [] => None
      end
  end.
Fixpoint trim_start_fuel (fuel : nat) (l : list N) : list N :=
  match fuel with
  | O => l
  | S fuel' => match after_white l with Some rest => trim_start_fuel fuel' rest | None => l end
  end.
(** Every turn drops at least one byte. *)
Definition trim_start (l : list N) : list N := trim_start_fuel (length l) l.
(** The shortest prefix whose rest is blank. *)
Fixpoint trim_end (l : list N) : list N :=
  match l with
  | [] => []
  | b :: rest => if blank_bytes l then [] else b :: trim_end rest
  end.
Definition trim_bytes (l : list N) : list N := trim_end (trim_start l).

Definition string_of_bytes (l : list N) : string :=
  String.string_of_list_ascii (Ascii.ascii_of_N <$> l).
Definition str_trim (s : string) : string := string_of_bytes (trim_bytes (str_bytes s)).

(** [str::split(',')]: at least one piece. *)
Fixpoint split_comma (piece l : list N) : list (list N) :=
  match l with
  | [] => [piece]
  | b :: rest => if (b =? 44)%N then piece :: split_comma [] rest else split_comma (piece ++ [b]) rest
  end.

Definition lower_byte (b : N) : N := if ((65 <=? b) && (b <=? 90))%N then (b + 32)%N else b.
Definition to_ascii_lowercase (s : string) : string := string_of_bytes (lower_byte <$> str_bytes s).
Definition eq_ignore_ascii_case (s t : string) : bool :=
  bool_decide (lower_byte <$> str_bytes s = lower_byte <$> str_bytes t).

(** [Vec::dedup]. *)
Fixpoint dedup {A} `{EqDecision A} (l : list A) : list A :=
  match l with
  | x :: ((y :: _) as rest) => if decide (x = y) then dedup rest else x :: dedup rest
  | _ => l
  end.

(** ** Theorems *)

Lemma after_white_shorter l rest : after_white l = Some rest -> (length rest < length l)%nat.
Proof.
  destruct l as [|b [|c [|d l]]]; cbn [after_white]; [done|..].
  all: repeat (case_match; try done); intros [= <-]; cbn; lia.
Qed.

(** Enough fuel: the result does not start with white space. *)
Lemma trim_start_done fuel l : (length l <= fuel)%nat -> after_white (trim_start_fuel fuel l) = None.
Proof.
  revert l. induction fuel as [|fuel IH]; intros l Hl; cbn [trim_start_fuel].
  - by destruct l; [|cbn in Hl; lia].
  - destruct (after_white l) as [rest|] eqn:E; [|done]. apply IH. apply after_white_shorter in E. lia.
Qed.

Lemma str_of_bytes l : Forall (fun b => b < 256)%N l -> str_bytes (string_of_bytes l) = l.
Proof.
  intros H. unfold str_bytes, string_of_bytes. rewrite String.list_ascii_of_string_of_list_ascii.
  rewrite <- list_fmap_compose. induction H as [|b l Hb Hl IH]; [done|].
  cbn. rewrite IH. f_equal. by apply Ascii.N_ascii_embedding.
Qed.

Lemma elem_of_dedup {A} `{EqDecision A} (l : list A) x : x ∈ dedup l <-> x ∈ l.
Proof.
  induction l as [|y l IH]; [done|]. destruct l as [|z l]; [done|].
  change (dedup (y :: z :: l)) with (if decide (y = z) then dedup (z :: l) else y :: dedup (z :: l)).
  destruct (decide (y = z)) as [->|Hne].
  - rewrite IH, !elem_of_cons. tauto.
  - rewrite elem_of_cons, IH, !elem_of_cons. tauto.
Qed.

(** ** Decimal numbers *)
Lemma parse_digits_bound acc ds v : (acc <= u64_max)%N -> parse_digits acc ds = Some v -> (v <= u64_max)%N.
Proof.
  revert acc. induction ds as [|c ds IH]; intros acc H; cbn [parse_digits]; [by intros [= <-]|].
  destruct (_ && _)%bool; [|done]. destruct (_ <=? _)%N eqn:E; [|done]. apply IH. by apply N.leb_le.
Qed.

Lemma parse_u64_bound l v : parse_u64 l = Some v -> (v <= u64_max)%N.
Proof.
  unfold parse_u64. destruct l as [|c l]; [done|]. destruct (c =? 43)%N; [destruct l; [done|]|];
    intros H; by eapply (parse_digits_bound 0); [lia|].
Qed.

Lemma parse_digits_app acc l1 l2 : parse_digits acc (l1 ++ l2) = parse_digits acc l1 ≫= fun a => parse_digits a l2.
Proof.
  revert acc. induction l1 as [|c l1 IH]; intros acc; [done|]. cbn [app parse_digits].
  destruct (_ && _)%bool; [|done]. destruct (_ <=? _)%N; [apply IH|done].
Qed.

Lemma pretty_char_digit n : (n < 10)%N -> Ascii.N_of_ascii (pretty_N_char n) = (48 + n)%N.
Proof.
  intros H. destruct n as [|p]; [done|]. by do 4 (destruct p as [p|p|]; try done; try lia).
Qed.

Lemma str_bytes_string a s : str_bytes (String a s) = Ascii.N_of_ascii a :: str_bytes s.
Proof. done. Qed.

Lemma parse_digit_snoc acc l d v :
  parse_digits acc l = Some v -> (d < 10)%N -> (v * 10 + d <= u64_max)%N ->
  parse_digits acc (l ++ [48 + d]%N) = Some (v * 10 + d)%N.
Proof.
  intros E Hd Hv. rewrite parse_digits_app, E. cbn [mbind option_bind parse_digits].
  replace ((48 <=? 48 + d) && (48 + d <=? 57))%N with true
    by (symmetry; apply andb_true_iff; rewrite !N.leb_le; lia).
  replace (48 + d - 48)%N with d by lia. by rewrite (proj2 (N.leb_le _ _) Hv).
Qed.

Lemma pretty_go_digits n s :
  (n <= u64_max)%N ->
  exists ds, str_bytes (pretty_N_go n s) = ds ++ str_bytes s /\ parse_digits 0 ds = Some n.
Proof.
  revert s. induction (N.lt_wf_0 n) as [n _ IH]. intros s Hn.
  destruct (decide (n = 0)%N) as [->|Hne]; [by exists []|].
  rewrite pretty_N_go_step by lia.
  assert (n / 10 < n)%N as Hlt by (apply N.div_lt; lia).
  destruct (IH _ Hlt (String (pretty_N_char (n `mod` 10)) s) ltac:(lia)) as (ds & E & P).
  rewrite str_bytes_string, pretty_char_digit in E by (apply N.mod_lt; lia).
  exists (ds ++ [48 + n `mod` 10]%N). split; [by rewrite E, <-(assoc_L (++))|].
  pose proof (N.div_mod n 10 ltac:(lia)) as D.
  rewrite (parse_digit_snoc _ _ _ _ P); [f_equal; lia|apply N.mod_lt; lia|lia].
Qed.

(** [n.to_string()] is read back by [parse::<u64>]. *)
Lemma parse_pretty_u64 n : (n <= u64_max)%N -> parse_u64 (str_bytes (pretty n)) = Some n.
Proof.
  intros Hn. unfold pretty, pretty_N. case_decide as E; [by subst|].
  destruct (pretty_go_digits n "" Hn) as (ds & Hs & P). rewrite Hs, app_nil_r.
  destruct ds as [|c ds]; [by injection P|]. cbn [parse_u64].
  destruct (N.eqb_spec c 43) as [->|]; [done|exact P].
Qed.

(** Digits are not white space. *)
Lemma digit_not_white b l : (48 <= b <= 57)%N -> after_white (b :: l) = None /\ blank_bytes (b :: l) = false.
Proof.
  intros Hb. assert ((9 <=? b) && (b <=? 13) || (b =? 32) = false)%N as E1.
  { destruct (N.leb_spec 9 b), (N.leb_spec b 13), (N.eqb_spec b 32); cbn; (done || lia). }
  assert (forall k, (194 <= k)%N -> (b =? k)%N = false) as E2 by (intros k Hk; apply N.eqb_neq; lia).
  split; [|cbn [blank_bytes]]; rewrite ?E1.
  - destruct l as [|c [|d l]]; cbn [after_white blank_bytes]; rewrite E1, ?E2 by done; [done|..];
      cbn [andb orb]; rewrite ?E2 by done; done.
  - destruct l as [|c [|d l]]; [done|..]; rewrite ?E2 by done; done.
Qed.

Lemma trim_digits l : Forall (fun b => 48 <= b <= 57)%N l -> trim_bytes l = l.
Proof.
  intros Hl. unfold trim_bytes.
  assert (trim_start l = l) as ->.
  { unfold trim_start. destruct Hl as [|b l Hb _]; [done|]. cbn [length trim_start_fuel].
    by rewrite (proj1 (digit_not_white b l Hb)). }
  induction Hl as [|b l Hb _ IH]; [done|]. cbn [trim_end].
  by rewrite (proj2 (digit_not_white b l Hb)), IH.
Qed.

Lemma parse_digits_range acc l v : parse_digits acc l = Some v -> Forall (fun b => 48 <= b <= 57)%N l.
Proof.
  revert acc. induction l as [|c l IH]; intros acc; [constructor|]. cbn [parse_digits].
  destruct (N.leb_spec 48 c), (N.leb_spec c 57); cbn [andb]; try done.
  destruct (_ <=? _)%N; [|done]. intros E. constructor; [lia|by apply (IH _ E)].
Qed.

Lemma pretty_digits n : (n <= u64_max)%N -> Forall (fun b => 48 <= b <= 57)%N (str_bytes (pretty n)).
Proof.
  intros Hn. unfold pretty, pretty_N. case_decide; [by repeat constructor|].
  destruct (pretty_go_digits n "" Hn) as (ds & -> & P). rewrite app_nil_r. by apply (parse_digits_range 0 _ n).
Qed.

(** A decimal identifier survives trimming and parsing. *)
Lemma parse_trimmed_pretty n : (n <= u64_max)%N -> parse_u64 (trim_bytes (str_bytes (pretty n))) = Some n.
Proof. intros Hn. rewrite trim_digits by (by apply pretty_digits). by apply parse_pretty_u64. Qed.

(** ** Trimming twice trims once *)
Lemma blank_app x y : blank_bytes x = true -> blank_bytes y = true -> blank_bytes (x ++ y) = true.
Proof.
  intros Hx Hy. remember (length x) as n eqn:En. revert x Hx En.
  induction (lt_wf n) as [n _ IH]. intros x Hx ->.
  destruct x as [|b x1]; [done|]. cbn [app blank_bytes length] in *.
  destruct (_ || _)%bool; [by apply (IH (length x1)); [lia|..]|].
  destruct x1 as [|c x2]; [done|]. cbn [app length] in *.
  destruct (_ && _)%bool; [by apply (IH (length x2)); [lia|..]|].
  destruct x2 as [|d x3]; [done|]. cbn [app length] in *.
  destruct (_ || _)%bool; [by apply (IH (length x3)); [lia|..]|done].
Qed.

Lemma trim_end_split l : exists w, blank_bytes w = true /\ l = trim_end l ++ w.
Proof.
  induction l as [|b l (w & Hw & E)]; [by exists []|]. cbn [trim_end].
  destruct (blank_bytes (b :: l)) eqn:B; [by exists (b :: l)|].
  exists w. split; [done|]. cbn [app]. by rewrite <-E.
Qed.

Lemma trim_end_blank l : l <> [] -> blank_bytes l = false -> trim_end l <> [] /\ blank_bytes (trim_end l) = false.
Proof.
  intros Hl B. destruct (trim_end_split l) as (w & Hw & E). split.
  - intros E0. rewrite E0 in E. cbn in E. congruence.
  - destruct (blank_bytes (trim_end l)) eqn:B'; [|done].
    rewrite E, (blank_app _ w B' Hw) in B. done.
Qed.

Lemma trim_end_idemp l : trim_end (trim_end l) = trim_end l.
Proof.
  induction l as [|b l IH]; [done|]. cbn [trim_end].
  destruct (blank_bytes (b :: l)) eqn:B; [done|].
  destruct (trim_end_blank (b :: l) ltac:(done) B) as [_ B']. cbn [trim_end] in B'. rewrite B in B'.
  change (trim_end (b :: trim_end l)) with (if blank_bytes (b :: trim_end l) then [] else b :: trim_end (trim_end l)).
  by rewrite B', IH.
Qed.

(** A prefix of a text without leading white space has none either. *)
Lemma after_white_prefix l w : after_white (l ++ w) = None -> after_white l = None.
Proof.
  destruct l as [|b [|c [|d l]]]; [done|..]; cbn [app after_white]; try done.
  - by destruct (_ || _)%bool.
  - destruct (_ || _)%bool; [done|]. destruct w as [|d w]; [done|]. cbn [app]. by destruct (blank_bytes [b; c]).
  - destruct (_ || _)%bool; [done|]. destruct (blank_bytes [b; c]); [done|]. by destruct (blank_bytes [b; c; d]).
Qed.

Lemma trim_start_fixed l : after_white l = None -> trim_start l = l.
Proof. intros E. unfold trim_start. destruct (length l); [done|]. cbn [trim_start_fuel]. by rewrite E. Qed.

Lemma trim_bytes_idemp l : trim_bytes (trim_bytes l) = trim_bytes l.
Proof.
  unfold trim_bytes. rewrite (trim_start_fixed (trim_end _)); [apply trim_end_idemp|].
  destruct (trim_end_split (trim_start l)) as (w & _ & E). apply (after_white_prefix _ w).
  rewrite <-E. by apply trim_start_done.
Qed.

Lemma bytes_of_str s : Forall (fun b => b < 256)%N (str_bytes s).
Proof.
  unfold str_bytes. apply Forall_fmap, Forall_true. intros a. apply Ascii.N_ascii_bounded.
Qed.

Lemma trim_start_suffix fuel l : exists p, l = p ++ trim_start_fuel fuel l.
Proof.
  revert l. induction fuel as [|fuel IH]; intros l; [by exists []|]. cbn [trim_start_fuel].
  destruct (after_white l) as [rest|] eqn:E; [|by exists []].
  destruct (IH rest) as [p Hp]. assert (exists q, l = q ++ rest) as [q ->].
  { destruct l as [|b [|c [|d l]]]; cbn [after_white] in E; repeat case_match; simplify_eq;
      try (by eexists [_]); try (by eexists [_; _]); by eexists [_; _; _]. }
  exists (q ++ p). by rewrite <-app_assoc, <-Hp.
Qed.

Lemma str_trim_bytes s : str_bytes (str_trim s) = trim_bytes (str_bytes s).
Proof.
  apply str_of_bytes. pose proof (bytes_of_str s) as H. unfold trim_bytes, trim_start.
  destruct (trim_start_suffix (length (str_bytes s)) (str_bytes s)) as [p E]. rewrite E in H.
  destruct (trim_end_split (trim_start_fuel (length (str_bytes s)) (str_bytes s))) as (w & _ & E').
  rewrite E' in H. apply Forall_app in H as [_ H]. by apply Forall_app in H as [H _].
Qed.

Lemma str_trim_idemp s : str_trim (str_trim s) = str_trim s.
Proof. unfold str_trim at 1. by rewrite str_trim_bytes, trim_bytes_idemp. Qed.
