(* ===== verification/Auth.v ===== *)
(** * Auth: the API key check and the rate limiter

    [src/crates/viz-api/src/auth.rs] and the middleware [require_api_key] of
    [src/crates/viz-api/src/lib.rs].  The configuration is read from the
    environment, an argument; [Instant::now()] is an argument, in nanoseconds.
    Token counts are binary64 values ([F64]). *)
From Stdlib Require Import QArith Qpower Qminmax Lqa.
From stdpp Require Import base gmap strings list numbers sorting pretty.
From S2P Require Import Prelude F64 Wal Text.

#[local] Open Scope N_scope.

(** ** Configuration *)
Record ApiAuthConfig := mkApiAuthConfig {
  enabled : bool;
  api_keys : gset string;
  requests_per_minute : N;
}.
Definition auth_config_default : ApiAuthConfig := mkApiAuthConfig false ∅ 600.

Definition parse_env_bool (raw : string) : bool :=
  bool_decide (to_ascii_lowercase raw ∈ ["1"; "true"; "yes"; "on"]).

(** [value.trim().parse::<u32>().ok()]. *)
Definition parse_u32 (value : string) : option N :=
  parse_u64 (str_bytes (str_trim value)) ≫= fun n => if n <=? u32_max then Some n else None.

(** [ApiAuthConfig::from_env], [env name] being [std::env::var(name).ok()]. *)
Definition auth_from_env (env : string -> option string) : ApiAuthConfig :=
  mkApiAuthConfig
    (match env "VIZ_API_AUTH_ENABLED" with
     | Some value => parse_env_bool (str_trim value)
     | None => false
     end)
    (match env "VIZ_API_API_KEYS" with
     | Some value =>
         list_to_set (filter (fun key => key <> "")
           ((fun piece => str_trim (string_of_bytes piece)) <$> split_comma [] (str_bytes value)))
     | None => ∅
     end)
    (match env "VIZ_API_RATE_LIMIT_PER_MINUTE" ≫= parse_u32 with
     | Some value => if 0 <? value then value else 600
     | None => 600
     end).

Definition validates_key (config : ApiAuthConfig) (key : string) : bool :=
  negb (enabled config) || bool_decide (key ∈ api_keys config).

(** ** Rate limiter *)
Record TokenBucket := mkTokenBucket { tokens : f64; last_refill : N }.

(** The map behind its lock; [buckets = None] when the lock is poisoned. *)
Record ApiRateLimiter := mkApiRateLimiter {
  capacity : f64;
  refill_per_sec : f64;
  buckets : option (gmap string TokenBucket);
}.

Definition rate_limiter_new (per_minute : N) : ApiRateLimiter :=
  let cap := f64_of_N (N.max per_minute 1) in
  mkApiRateLimiter cap (f64_div cap (f64_of_N 60)) (Some ∅).

(** [Duration::as_secs_f64] of a duration in nanoseconds. *)
Definition nanos_per_sec : N := 1000000000.
Definition as_secs_f64 (nanos : N) : f64 :=
  f64_add (f64_of_N (nanos / nanos_per_sec))
          (f64_div (f64_of_N (nanos mod nanos_per_sec)) (f64_of_N nanos_per_sec)).

(** The bucket after the refill; [Instant::duration_since] saturates at zero. *)
Definition replenish (l : ApiRateLimiter) (bucket : TokenBucket) (now : N) : f64 :=
  let elapsed := as_secs_f64 (now - last_refill bucket) in
  f64_min (f64_add (tokens bucket) (f64_mul elapsed (refill_per_sec l))) (capacity l).

(** [ApiRateLimiter::allow] called at [now], the clock read before the lock. *)
Definition allow (l : ApiRateLimiter) (key : string) (now : N) : bool * ApiRateLimiter :=
  match buckets l with
  | None => (false, l)
  | Some guard =>
      let bucket := default (mkTokenBucket (capacity l) now) (guard !! key) in
      let replenished := replenish l bucket now in
      let put t := mkApiRateLimiter (capacity l) (refill_per_sec l)
                     (Some (<[key := mkTokenBucket t now]> guard)) in
      if f64_lt replenished (f64_of_N 1) then (false, put replenished)
      else (true, put (f64_sub replenished (f64_of_N 1)))
  end.

(** A sequence of calls, in the order in which they take the lock. *)
Fixpoint limiter_run (l : ApiRateLimiter) (calls : list (string * N)) : list bool * ApiRateLimiter :=
  match calls with
  | [] => ([], l)
  | (key, now) :: rest =>
      let '(ok, l1) := allow l key now in
      let '(oks, l2) := limiter_run l1 rest in (ok :: oks, l2)
  end.

(** ** Middleware *)
Inductive Gate := Passed | Unauthorized | TooManyRequests.
#[export] Instance Gate_eq_dec : EqDecision Gate.
Proof. solve_decision. Defined.

(** [require_api_key]; [header] is [x-api-key] when it is visible ASCII. *)
Definition require_api_key (config : ApiAuthConfig) (l : ApiRateLimiter)
    (header : option string) (now : N) : Gate * ApiRateLimiter :=
  if negb (enabled config) then (Passed, l)
  else
    let maybe_key := (str_trim <$> header) ≫= fun key => if decide (key = "") then None else Some key in
    match maybe_key with
    | Some api_key =>
        if validates_key config api_key then
          let '(ok, l1) := allow l api_key now in
          if ok then (Passed, l1) else (TooManyRequests, l1)
        else (Unauthorized, l)
    | None => (Unauthorized, l)
    end.

Fixpoint gate_run (config : ApiAuthConfig) (l : ApiRateLimiter) (requests : list (option string * N))
  : list Gate * ApiRateLimiter :=
  match requests with
  | [] => ([], l)
  | (header, now) :: rest =>
      let '(g, l1) := require_api_key config l header now in
      let '(gs, l2) := gate_run config l1 rest in (g :: gs, l2)
  end.

Example limiter_two : fst (limiter_run (rate_limiter_new 2)
  [("k", 0); ("k", 1); ("k", 2); ("j", 3); ("k", 29000000000); ("k", 30000000001)]) =
  [true; true; false; true; false; true].
Proof. vm_compute. reflexivity. Qed.
Example auth_env_keys : elements (api_keys (auth_from_env (fun name =>
  if decide (name = "VIZ_API_API_KEYS") then Some " a ,, b" else None))) = ["b"; "a"] \/
  elements (api_keys (auth_from_env (fun name =>
  if decide (name = "VIZ_API_API_KEYS") then Some " a ,, b" else None))) = ["a"; "b"].
Proof. vm_compute. auto. Qed.

(** ** The numbers of one refill *)
#[local] Open Scope Q_scope.

(** Tokens earned by [n] nanoseconds at [C] per minute, exactly; the relative
    error allowed for the binary64 computation. *)
Definition earned (C n : N) : Q := NQ (n * C) * (1 # 60000000000).
Definition slack : Q := 1 # 100000.
Definition max_nanos : N := (2 ^ 53 * nanos_per_sec)%N.

Lemma earned_add C a b : earned C (a + b) == earned C a + earned C b.
Proof. unfold earned. rewrite N.mul_add_distr_r, NQ_add. ring. Qed.
Lemma earned_nonneg C n : 0 <= earned C n.
Proof. unfold earned. pose proof (NQ_nonneg (n * C)). lra. Qed.
Lemma earned_split C a b c : (a <= b <= c)%N -> earned C (c - a) == earned C (b - a) + earned C (c - b).
Proof. intros H. rewrite <-earned_add. by replace (b - a + (c - b))%N with (c - a)%N by lia. Qed.

Lemma as_secs_near n : (n < max_nanos)%N -> near (4 * epsilon) (NQ n * (1 # 1000000000)) (f64_val (as_secs_f64 n)).
Proof.
  intros Hn. unfold max_nanos in Hn. unfold as_secs_f64.
  pose proof (N.div_mod n nanos_per_sec ltac:(unfold nanos_per_sec; lia)) as E.
  pose proof (N.mod_lt n nanos_per_sec ltac:(unfold nanos_per_sec; lia)) as Hr.
  assert (n / nanos_per_sec < 2 ^ 53)%N as Hq by (apply N.Div0.div_lt_upper_bound; unfold nanos_per_sec in *; lia).
  revert E Hr Hq. generalize (n / nanos_per_sec)%N (n mod nanos_per_sec)%N. intros q r -> Hr Hq.
  assert (f64_val (f64_of_N q) == NQ q) as Eq by (apply f64_of_N_exact; lia).
  assert (f64_val (f64_of_N r) == NQ r) as Er by (apply f64_of_N_exact; unfold nanos_per_sec in *; lia).
  assert (f64_val (f64_of_N nanos_per_sec) == (1000000000 # 1)) as En by (by rewrite f64_of_N_exact).
  assert (0 < f_mant (f64_of_N nanos_per_sec))%N as Hpos by (apply f64_of_N_pos; unfold nanos_per_sec; lia).
  pose proof (f64_div_rounds (f64_of_N r) (f64_of_N nanos_per_sec) Hpos) as Hd.
  assert (NQ r / (1000000000 # 1) == NQ r * (1 # 1000000000)) as Ed by field.
  pose proof (f64_add_rounds (f64_of_N q) (f64_div (f64_of_N r) (f64_of_N nanos_per_sec))) as Ha.
  rewrite Er, En, Ed in Hd. rewrite Eq in Ha. apply rounds_near in Hd, Ha. revert Hd Ha.
  generalize (f64_val (f64_div (f64_of_N r) (f64_of_N nanos_per_sec))). intros d Hd Ha.
  revert Ha. generalize (f64_val (f64_add (f64_of_N q) (f64_div (f64_of_N r) (f64_of_N nanos_per_sec)))).
  intros v Ha. rewrite NQ_add, NQ_mul. change (NQ nanos_per_sec) with (1000000000 # 1).
  pose proof (NQ_nonneg q). pose proof (NQ_nonneg r). unfold near, epsilon in *. lra.
Qed.

Section refill.
Context (C : N) (HC : (1 <= C <= u32_max)%N).

Definition limit_capacity : f64 := f64_of_N C.
Definition limit_rate : f64 := f64_div limit_capacity (f64_of_N 60).

Lemma capacity_val : f64_val limit_capacity == NQ C.
Proof using HC. apply f64_of_N_exact. unfold u32_max in HC. lia. Qed.

Lemma refill_near n :
  (n < max_nanos)%N -> near (8 * epsilon) (earned C n) (f64_val (f64_mul (as_secs_f64 n) limit_rate)).
Proof using HC.
  intros Hn. pose proof (as_secs_near n Hn) as He.
  pose proof (f64_div_rounds limit_capacity (f64_of_N 60) ltac:(by apply f64_of_N_pos)) as Hr.
  fold limit_rate in Hr. pose proof (f64_mul_rounds (as_secs_f64 n) limit_rate) as Hm.
  rewrite capacity_val in Hr. assert (f64_val (f64_of_N 60) == 60) as E60 by (by rewrite f64_of_N_exact).
  rewrite E60 in Hr. apply rounds_near in Hr, Hm.
  pose proof (NQ_nonneg n) as Hn0. pose proof (NQ_nonneg C) as HC0.
  assert (earned C n == NQ n * (1 # 1000000000) * (NQ C / 60)) as ->
    by (unfold earned; rewrite NQ_mul; field).
  assert (NQ C / 60 == NQ C * (1 # 60)) as E by field. rewrite E in Hr |- *.
  pose proof (near_mul (4 * epsilon) epsilon (NQ n * (1 # 1000000000)) _ (NQ C * (1 # 60)) _ ltac:(unfold epsilon; lra) ltac:(unfold epsilon; lra)
    ltac:(lra) ltac:(lra) He Hr) as Hp.
  assert (0 <= NQ n * (1 # 1000000000) * (NQ C * (1 # 60))) as Hpos by nra.
  eapply near_weaken; [|exact Hpos|eapply near_trans; [| |exact Hpos|exact Hp|exact Hm]]; unfold epsilon; lra.
Qed.

(** The sum before the cap. *)
Lemma replenish_near tok n :
  (f_mant tok <= 2 ^ 53)%N -> f64_val tok <= NQ C -> (n < max_nanos)%N ->
  f64_val tok + earned C n * (1 - slack) <=
    f64_val (f64_add tok (f64_mul (as_secs_f64 n) limit_rate)) <=
  f64_val tok + earned C n * (1 + slack).
Proof using HC.
  intros Hm Htok Hn. pose proof (refill_near n Hn) as Hy. pose proof (f64_val_nonneg tok) as H0.
  destruct (N.eq_0_gt_0_cases n) as [->|Hpos].
  - assert (earned C 0 == 0) as E0 by done. rewrite E0 in Hy |- *.
    rewrite f64_add_zero; [lra|done|]. unfold near in Hy. lra.
  - pose proof (f64_add_rounds tok (f64_mul (as_secs_f64 n) limit_rate)) as Ha.
    apply rounds_near in Ha. revert Hy Ha.
    generalize (f64_val (f64_add tok (f64_mul (as_secs_f64 n) limit_rate))).
    generalize (f64_val (f64_mul (as_secs_f64 n) limit_rate)). intros y s Hy Ha.
    assert (NQ C <= 60000000000 * earned C n) as HX.
    { unfold earned. assert (NQ C <= NQ (n * C)) by (apply NQ_le; nia). lra. }
    pose proof (earned_nonneg C n) as HX0.
    revert HX HX0 Hy. generalize (earned C n). intros X HX HX0 Hy.
    unfold near, slack, epsilon in *. split; nra.
Qed.
End refill.

(** ** One call *)
Definition bucket_ok (C : N) (b : TokenBucket) : Prop :=
  (f_mant (tokens b) <= 2 ^ 53)%N /\ f64_val (tokens b) <= NQ C.

(** A limiter of [C] requests per minute whose clock has not passed [now]. *)
Record limiter_ok (C : N) (now : N) (l : ApiRateLimiter) (m : gmap string TokenBucket) : Prop := {
  ok_capacity : capacity l = limit_capacity C;
  ok_rate : refill_per_sec l = limit_rate C;
  ok_buckets : buckets l = Some m;
  ok_tokens : map_Forall (fun _ b => bucket_ok C b /\ (last_refill b <= now)%N) m;
}.

Lemma rate_limiter_new_ok per_minute now : limiter_ok (N.max per_minute 1) now (rate_limiter_new per_minute) ∅.
Proof. split; [done..|apply map_Forall_empty]. Qed.

(** The bucket a call starts from. *)
Definition bucket_at (C now : N) (m : gmap string TokenBucket) (key : string) : TokenBucket :=
  default (mkTokenBucket (limit_capacity C) now) (m !! key).

Section calls.
Context (C : N) (HC : (1 <= C <= u32_max)%N).

Lemma one_val : f64_val (f64_of_N 1) == 1.
Proof. by rewrite f64_of_N_exact. Qed.

Lemma bucket_at_ok now0 now l m key :
  limiter_ok C now0 l m -> (now0 <= now)%N ->
  bucket_ok C (bucket_at C now m key) /\ (last_refill (bucket_at C now m key) <= now)%N.
Proof using HC.
  intros Hok Hnow. unfold bucket_at. destruct (m !! key) as [b|] eqn:E; cbn [default].
  - destruct (ok_tokens _ _ _ _ Hok key b E) as [H1 H2]. split; [done|]. unfold id. lia.
  - split; [|cbn; lia]. split; cbn [tokens].
    + by apply round_ratio_mant.
    + rewrite capacity_val by done. apply Qle_refl.
Qed.

(** The refilled count: at most the capacity, and the tokens earned since the
    last call within [slack]. *)
Lemma replenish_bounds l b now :
  capacity l = limit_capacity C -> refill_per_sec l = limit_rate C ->
  bucket_ok C b -> (last_refill b <= now < max_nanos)%N ->
  let r := replenish l b now in let e := earned C (now - last_refill b) in
  (f_mant r <= 2 ^ 53)%N /\ f64_val r <= NQ C /\
  f64_val r <= f64_val (tokens b) + e * (1 + slack) /\
  (f64_val r < NQ C -> f64_val (tokens b) + e * (1 - slack) <= f64_val r).
Proof using HC.
  intros Ec Er [Hm Ht] Hnow. cbn zeta. unfold replenish. rewrite Ec, Er.
  pose proof (replenish_near C HC (tokens b) (now - last_refill b) Hm Ht ltac:(lia)) as Hs.
  assert (f_mant (f64_add (tokens b) (f64_mul (as_secs_f64 (now - last_refill b)) (limit_rate C))) <= 2 ^ 53)%N as Hms
    by (apply round_ratio_mant, scale_num_pos; lia).
  revert Hs Hms. generalize (f64_add (tokens b) (f64_mul (as_secs_f64 (now - last_refill b)) (limit_rate C))).
  intros s Hs Hms. pose proof (f64_min_spec s (limit_capacity C)) as Hmin.
  rewrite (capacity_val C HC) in Hmin. split.
  { unfold f64_min. case_match; [|done]. by apply round_ratio_mant. }
  destruct (Q.min_spec (f64_val s) (NQ C)) as [[Hlt E]|[Hge E]]; rewrite E in Hmin.
  - rewrite Hmin. split_and!; [lra..|]. intros _. lra.
  - rewrite Hmin. split_and!; [lra..|]. intros H. lra.
Qed.

Lemma allow_step now0 now l m key :
  limiter_ok C now0 l m -> (now0 <= now < max_nanos)%N ->
  let '(ok, l1) := allow l key now in
  let b := bucket_at C now m key in let e := earned C (now - last_refill b) in
  exists t, limiter_ok C now l1 (<[key := mkTokenBucket t now]> m) /\
    let r := f64_val t + (if ok then 1 else 0) in
    r <= NQ C /\ r <= f64_val (tokens b) + e * (1 + slack) /\
    (if ok then 1 <= r else r < 1 /\ f64_val (tokens b) + e * (1 - slack) <= r).
Proof using HC.
  intros Hok Hnow. unfold allow. rewrite (ok_buckets _ _ _ _ Hok), (ok_capacity _ _ _ _ Hok).
  fold (bucket_at C now m key).
  destruct (bucket_at_ok now0 now l m key Hok ltac:(lia)) as [Hb Hlast].
  destruct (replenish_bounds l (bucket_at C now m key) now (ok_capacity _ _ _ _ Hok) (ok_rate _ _ _ _ Hok)
    Hb ltac:(lia)) as (Hm & HrC & Hup & Hlow).
  revert Hm HrC Hup Hlow. generalize (replenish l (bucket_at C now m key) now). intros r Hm HrC Hup Hlow.
  assert (forall t, bucket_ok C (mkTokenBucket t now) ->
    limiter_ok C now (mkApiRateLimiter (limit_capacity C) (refill_per_sec l) (Some (<[key := mkTokenBucket t now]> m)))
      (<[key := mkTokenBucket t now]> m)) as Hput.
  { intros t Ht. split; [done|apply Hok|done|]. apply map_Forall_insert_2; [cbn; split; [done|lia]|].
    eapply map_Forall_impl; [apply Hok|]. intros k b' [H1 H2]. split; [done|lia]. }
  assert (1 <= NQ C) as HC1 by (change 1 with (NQ 1); apply NQ_le; lia).
  assert (NQ C <= NQ (2 ^ 53)) as HC53 by (apply NQ_le; unfold u32_max in HC; lia).
  destruct (f64_lt r (f64_of_N 1)) eqn:E.
  - apply f64_lt_spec in E. rewrite one_val in E. exists r. split; [by apply Hput|]. cbn zeta.
    split_and!; lra.
  - assert (1 <= f64_val r) as H1.
    { destruct (Qlt_le_dec (f64_val r) 1) as [H|H]; [|done]. rewrite <-one_val in H.
      apply f64_lt_spec in H. congruence. }
    pose proof (f64_sub_one r Hm ltac:(lra)) as Es. exists (f64_sub r (f64_of_N 1)). split.
    + apply Hput. split; cbn [tokens]; [|rewrite Es; lra]. apply round_ratio_mant, scale_num_pos. lia.
    + cbn zeta. rewrite Es. split_and!; lra.
Qed.
End calls.

(** ** Sequences of calls *)

(** The calls read the clock in the order in which they take the lock, between
    [t0] and [t1]. *)
Fixpoint within (t0 : N) (calls : list (string * N)) (t1 : N) : Prop :=
  match calls with
  | [] => (t0 <= t1)%N
  | (_, now) :: rest => (t0 <= now)%N /\ within now rest t1
  end.

(** How many calls of [key] were allowed. *)
Fixpoint granted (key : string) (calls : list (string * N)) (oks : list bool) : N :=
  match calls, oks with
  | (k, _) :: calls', ok :: oks' =>
      ((if decide (k = key) then (if ok then 1 else 0) else 0) + granted key calls' oks')%N
  | _, _ => 0%N
  end.

Lemma within_le t0 calls t1 : within t0 calls t1 -> (t0 <= t1)%N.
Proof. revert t0. induction calls as [|[k now] calls IH]; intros t0; cbn; [done|]. intros [H1 H2%IH]. lia. Qed.

Lemma within_app t0 calls calls' t1 :
  within t0 (calls ++ calls') t1 -> exists t, within t0 calls t /\ within t calls' t1.
Proof.
  revert t0. induction calls as [|[k now] calls IH]; intros t0; cbn.
  - intros H. by exists t0.
  - intros [H1 H2]. destruct (IH now H2) as (t & Ha & Hb). by exists t.
Qed.

Lemma limiter_run_cons l key now rest :
  limiter_run l ((key, now) :: rest) =
  (fst (allow l key now) :: fst (limiter_run (snd (allow l key now)) rest),
   snd (limiter_run (snd (allow l key now)) rest)).
Proof. cbn [limiter_run]. destruct (allow l key now) as [ok l1]; cbn. by destruct (limiter_run l1 rest). Qed.

Section runs.
Context (C : N) (HC : (1 <= C <= u32_max)%N) (key : string).

Lemma allow_step_pair now0 now l m k :
  limiter_ok C now0 l m -> (now0 <= now < max_nanos)%N ->
  let ok := fst (allow l k now) in
  let b := bucket_at C now m k in let e := earned C (now - last_refill b) in
  exists t, limiter_ok C now (snd (allow l k now)) (<[k := mkTokenBucket t now]> m) /\
    let r := f64_val t + (if ok then 1 else 0) in
    r <= NQ C /\ r <= f64_val (tokens b) + e * (1 + slack) /\
    (if ok then 1 <= r else r < 1 /\ f64_val (tokens b) + e * (1 - slack) <= r).
Proof using HC.
  intros Hok Hnow. pose proof (allow_step C HC now0 now l m k Hok Hnow) as H.
  destruct (allow l k now) as [ok l1]. exact H.
Qed.

Lemma run_ok calls : forall t0 t1 l m,
  limiter_ok C t0 l m -> within t0 calls t1 -> (t1 < max_nanos)%N ->
  exists m', limiter_ok C t1 (snd (limiter_run l calls)) m'.
Proof using HC.
  induction calls as [|[k now] calls IH]; intros t0 t1 l m Hok Hw Ht.
  - exists m. destruct Hok as [H1 H2 H3 H4]. split; [done..|]. cbn in Hw.
    eapply map_Forall_impl; [exact H4|]. intros i b [? ?]. split; [done|lia].
  - destruct Hw as [Hle Hw]. pose proof (within_le _ _ _ Hw).
    destruct (allow_step_pair t0 now l m k Hok ltac:(lia)) as (t & Hok1 & _).
    rewrite limiter_run_cons. by apply (IH now t1 _ _ Hok1 Hw).
Qed.

(** The tokens [key] could have at [t]: at most [B]. *)
Definition level_le (m : gmap string TokenBucket) (t : N) (B : Q) : Prop :=
  NQ C <= B \/ exists b, m !! key = Some b /\ f64_val (tokens b) + earned C (t - last_refill b) * (1 + slack) <= B.

Lemma earned_slack n : 0 <= earned C n * (1 + slack) /\ 0 <= earned C n * (1 - slack).
Proof. pose proof (earned_nonneg C n). unfold slack. lra. Qed.

Lemma earned_between a b c :
  (a <= b <= c)%N -> earned C (c - a) * (1 + slack) == earned C (b - a) * (1 + slack) + earned C (c - b) * (1 + slack).
Proof. intros H. rewrite (earned_split C a b c H). ring. Qed.

Lemma grants_bounded calls : forall t0 t1 l m B,
  limiter_ok C t0 l m -> within t0 calls t1 -> (t1 < max_nanos)%N -> level_le m t0 B ->
  0 <= B -> NQ (granted key calls (fst (limiter_run l calls))) <= B + earned C (t1 - t0) * (1 + slack).
Proof using HC.
  induction calls as [|[k now] calls IH]; intros t0 t1 l m B Hok Hw Ht HB HB0.
  - cbn [granted]. change (NQ 0) with 0. pose proof (earned_slack (t1 - t0)). lra.
  - destruct Hw as [Hle Hw]. pose proof (within_le _ _ _ Hw) as Hle1.
    destruct (allow_step_pair t0 now l m k Hok ltac:(lia)) as (t & Hok1 & Hr).
    rewrite limiter_run_cons. cbn [fst granted]. revert Hr Hok1.
    generalize (fst (allow l k now)) (snd (allow l k now)). intros ok l1 (HrC & Hru & Hr1) Hok1.
    pose proof (earned_between t0 now t1 ltac:(lia)) as Esplit. pose proof (earned_slack (now - t0)) as He0.
    destruct (decide (k = key)) as [->|Hne].
    + set (r := f64_val t + (if ok then 1 else 0)) in *.
      pose proof (f64_val_nonneg t) as Ht0.
      assert (r <= B + earned C (now - t0) * (1 + slack)) as HrB.
      { destruct HB as [HB|(b & Eb & HB)]; [lra|]. unfold bucket_at in Hru. rewrite Eb in Hru. cbn in Hru.
        destruct (ok_tokens _ _ _ _ Hok key b Eb) as [_ Hlast].
        pose proof (earned_between (last_refill b) t0 now ltac:(lia)). lra. }
      assert (level_le (<[key := mkTokenBucket t now]> m) now (f64_val t)) as HL.
      { right. eexists. split; [apply lookup_insert_eq|]. cbn [tokens last_refill].
        replace (now - now)%N with 0%N by lia. assert (earned C 0 == 0) as -> by done. lra. }
      pose proof (IH now t1 l1 _ (f64_val t) Hok1 Hw Ht HL Ht0) as H. rewrite NQ_add.
      assert (NQ (if ok then 1 else 0)%N == (if ok then 1 else 0)) as -> by (by destruct ok).
      unfold r in HrB. lra.
    + pose proof (IH now t1 l1 _ (B + earned C (now - t0) * (1 + slack)) Hok1 Hw Ht) as H.
      rewrite N.add_0_l. assert (0 <= B + earned C (now - t0) * (1 + slack)) as HB1 by lra.
      enough (level_le (<[k := mkTokenBucket t now]> m) now (B + earned C (now - t0) * (1 + slack))) as HL
        by (specialize (H HL HB1); lra).
      destruct HB as [HB|(b & Eb & HB)]; [left; lra|]. right. exists b.
      rewrite lookup_insert_ne by done. split; [done|].
      destruct (ok_tokens _ _ _ _ Hok key b Eb) as [_ Hlast].
      pose proof (earned_between (last_refill b) t0 now ltac:(lia)). lra.
Qed.

(** While [key] is refused its tokens grow. *)
Lemma refused_accumulates calls : forall t0 t1 l m b,
  limiter_ok C t0 l m -> within t0 (calls ++ [(key, t1)]) t1 -> (t1 < max_nanos)%N -> m !! key = Some b ->
  granted key (calls ++ [(key, t1)]) (fst (limiter_run l (calls ++ [(key, t1)]))) = 0%N ->
  f64_val (tokens b) + earned C (t1 - last_refill b) * (1 - slack) < 1.
Proof using HC.
  induction calls as [|[k now] calls IH]; intros t0 t1 l m b Hok Hw Ht Eb; cbn [app] in Hw |- *;
    rewrite limiter_run_cons; cbn [fst granted]; intros Hg.
  - destruct (allow_step_pair t0 t1 l m key Hok ltac:(cbn in Hw; lia)) as (t & Hok1 & Hr). revert Hr Hg.
    generalize (fst (allow l key t1)). intros ok (_ & _ & Hr) Hg. rewrite decide_True in Hg by done.
    destruct ok; [lia|]. unfold bucket_at in Hr. rewrite Eb in Hr. cbn in Hr. lra.
  - destruct Hw as [Hle Hw]. pose proof (within_le _ _ _ Hw) as Hle1.
    destruct (allow_step_pair t0 now l m k Hok ltac:(lia)) as (t & Hok1 & Hr). revert Hr Hg Hok1.
    generalize (fst (allow l k now)) (snd (allow l k now)). intros ok l1 (_ & _ & Hr) Hg Hok1.
    destruct (ok_tokens _ _ _ _ Hok key b Eb) as [_ Hlast].
    destruct (decide (k = key)) as [->|Hne].
    + destruct ok; [lia|]. unfold bucket_at in Hr. rewrite Eb in Hr. cbn in Hr.
      pose proof (IH now t1 l1 _ _ Hok1 Hw Ht (lookup_insert_eq _ _ _) ltac:(lia)) as H. cbn [tokens last_refill] in H.
      pose proof (earned_split C (last_refill b) now t1 ltac:(lia)) as Es. rewrite Es. lra.
    + apply (IH now t1 l1 (<[k := mkTokenBucket t now]> m) b Hok1 Hw Ht); [by rewrite lookup_insert_ne|lia].
Qed.
End runs.

(** A limiter reached from its start. *)
Lemma reached_ok per_minute pre t0 :
  (per_minute <= u32_max)%N -> within 0 pre t0 -> (t0 < max_nanos)%N ->
  exists m, limiter_ok (N.max per_minute 1) t0 (snd (limiter_run (rate_limiter_new per_minute) pre)) m.
Proof.
  intros Hp Hw Ht. unfold u32_max in Hp.
  by eapply (run_ok (N.max per_minute 1) ltac:(unfold u32_max; lia)); [apply rate_limiter_new_ok|..].
Qed.

Lemma limiter_run_app l a b :
  limiter_run l (a ++ b) =
  (fst (limiter_run l a) ++ fst (limiter_run (snd (limiter_run l a)) b),
   snd (limiter_run (snd (limiter_run l a)) b)).
Proof.
  revert l. induction a as [|[k now] a IH]; intros l; [cbn; by destruct (limiter_run l b)|].
  cbn [app]. rewrite !limiter_run_cons, IH. done.
Qed.

(** C35: the rate limit holds while the calls read the clock in the order in
    which they take the lock. From a fresh limiter, whatever such calls came
    before, and however those of different keys alternate, a key is granted in
    a window of [T] nanoseconds no more requests than its allowance [C] and the
    share of it that the window earns, [C * T / 60 s], the binary64 arithmetic
    included (one part in 100,000), for every 32-bit setting, the zero setting
    counting as one, and for clock readings below 2^53 seconds. The order
    matters: a call reads the clock before it takes the lock, and calls that
    overtake each other in between can be granted more
    ([clock_race_overgrants]). *)
Theorem rate_limit_bound (per_minute : N) (key : string) (pre calls : list (string * N)) (t0 T : N) :
  (per_minute <= u32_max)%N -> within 0 pre t0 -> within t0 calls (t0 + T) -> (t0 + T < max_nanos)%N ->
  let C := N.max per_minute 1 in
  let l := snd (limiter_run (rate_limiter_new per_minute) pre) in
  (granted key calls (fst (limiter_run l calls)) * (60 * nanos_per_sec * 100000) <=
   C * (60 * nanos_per_sec * 100000 + T * 100001))%N.
Proof.
  intros Hp Hpre Hcalls Ht. cbn zeta. set (C := N.max per_minute 1).
  assert (1 <= C <= u32_max)%N as HC by (unfold u32_max in *; subst C; lia).
  destruct (reached_ok per_minute pre t0 Hp Hpre ltac:(lia)) as [m Hok]. fold C in Hok.
  pose proof (grants_bounded C HC key calls t0 (t0 + T) _ m (NQ C) Hok Hcalls Ht
    (or_introl (Qle_refl _)) (NQ_nonneg C)) as H.
  apply NQ_le. rewrite !NQ_mul, NQ_add, !NQ_mul. replace (t0 + T - t0)%N with T in H by lia.
  unfold earned, slack in H. rewrite NQ_mul in H.
  change (NQ 60) with 60. change (NQ nanos_per_sec) with (1000000000 # 1).
  change (NQ 100000) with (100000 # 1). change (NQ 100001) with (100001 # 1). lra.
Qed.

(** No key is locked out.  A key that goes on asking after a call at [t0]
    is granted a request by the time [61 s / C] have passed, however often and
    at whatever moments it was refused in between, and whatever the other keys
    do: refusals do not postpone the refill. *)
Theorem rate_limit_recovers (per_minute : N) (key : string) (pre mid : list (string * N)) (t0 t1 : N) :
  (per_minute <= u32_max)%N -> within 0 pre t0 -> within t0 (mid ++ [(key, t1)]) t1 -> (t1 < max_nanos)%N ->
  (61 * nanos_per_sec <= (t1 - t0) * N.max per_minute 1)%N ->
  let l := snd (limiter_run (rate_limiter_new per_minute) (pre ++ [(key, t0)])) in
  (1 <= granted key (mid ++ [(key, t1)]) (fst (limiter_run l (mid ++ [(key, t1)]))))%N.
Proof.
  intros Hp Hpre Hmid Ht Hlong. cbn zeta. set (C := N.max per_minute 1) in *.
  assert (1 <= C <= u32_max)%N as HC by (unfold u32_max in *; subst C; lia).
  pose proof (within_le _ _ _ Hmid) as H01.
  destruct (reached_ok per_minute pre t0 Hp Hpre ltac:(lia)) as [m Hok]. fold C in Hok.
  rewrite (limiter_run_app _ pre), (limiter_run_cons _ key t0 []). cbn [snd limiter_run].
  destruct (allow_step_pair C HC t0 t0 _ m key Hok ltac:(lia)) as (t & Hok1 & _).
  set (l := snd (allow _ key t0)) in *.
  set (g := granted key (mid ++ [(key, t1)]) (fst (limiter_run l (mid ++ [(key, t1)])))).
  destruct (N.eq_0_gt_0_cases g) as [Hg|Hg]; [|lia]. exfalso.
  pose proof (refused_accumulates C HC key mid t0 t1 l _ (mkTokenBucket t t0) Hok1 Hmid Ht
    (lookup_insert_eq _ _ _) Hg) as H. cbn [tokens last_refill] in H.
  pose proof (f64_val_nonneg t) as Hpos. apply NQ_le in Hlong. rewrite (NQ_mul 61) in Hlong.
  change (NQ 61) with 61 in Hlong. change (NQ nanos_per_sec) with (1000000000 # 1) in Hlong.
  unfold earned, slack in H. lra.
Qed.

(** The clock is read before the lock is taken, so a call that waits for
    the lock moves [last_refill] back and the same seconds are credited again:
    a limit of one request per minute grants three requests within 62
    seconds, where calls in clock order get at most two. *)
Theorem clock_race_overgrants :
  let calls := [("k", 0); ("k", 61 * nanos_per_sec); ("k", nanos_per_sec); ("k", 62 * nanos_per_sec)]%N in
  fst (limiter_run (rate_limiter_new 1) calls) = [true; true; false; true] /\
  (forall calls', within 0 calls' (62 * nanos_per_sec) ->
     granted "k" calls' (fst (limiter_run (rate_limiter_new 1) calls')) <= 2)%N.
Proof.
  split; [vm_compute; reflexivity|]. intros calls' Hw.
  destruct (reached_ok 1 [] 0 ltac:(unfold u32_max; lia) ltac:(cbn; lia) ltac:(unfold max_nanos, nanos_per_sec; lia))
    as [m Hok].
  pose proof (grants_bounded 1 ltac:(unfold u32_max; lia) "k" calls' 0 (62 * nanos_per_sec) _ m (NQ 1) Hok Hw
    ltac:(unfold max_nanos, nanos_per_sec; lia) (or_introl (Qle_refl _)) (NQ_nonneg 1)) as H.
  cbn [limiter_run snd] in H. revert H.
  generalize (granted "k" calls' (fst (limiter_run (rate_limiter_new 1) calls'))). intros g H.
  assert (earned 1 (62 * nanos_per_sec - 0) == (62 # 60)) as E by (vm_compute; reflexivity).
  rewrite E in H. unfold slack in H. change (NQ 1) with 1 in H.
  assert (NQ g < NQ 3) as H3 by (change (NQ 3) with 3; lra). apply NQ_lt in H3. lia.
Qed.

(** ** The middleware *)

(** The key a request is charged to: its trimmed header, when configured. *)
Definition charged (config : ApiAuthConfig) (request : option string * N) : option (string * N) :=
  match str_trim <$> fst request with
  | Some key => if decide (key <> "" /\ key ∈ api_keys config) then Some (key, snd request) else None
  | None => None
  end.

Lemma require_api_key_spec config l header now :
  enabled config = true ->
  require_api_key config l header now =
  match charged config (header, now) with
  | Some (key, _) => (if fst (allow l key now) then Passed else TooManyRequests, snd (allow l key now))
  | None => (Unauthorized, l)
  end.
Proof.
  intros E. unfold require_api_key, charged, validates_key. rewrite E. cbn [negb fst snd].
  destruct header as [s|]; [|done]. cbn [fmap option_fmap option_map mbind option_bind].
  destruct (decide (str_trim s = "")) as [->|Hne]; [by rewrite decide_False by tauto|]. cbn [orb].
  case_bool_decide as Hin; [rewrite decide_True by done|by rewrite decide_False by tauto].
  destruct (allow l (str_trim s) now) as [[|] l1]; done.
Qed.

(** The answers, given those of the limiter for the charged requests. *)
Fixpoint answers (config : ApiAuthConfig) (requests : list (option string * N)) (oks : list bool) : list Gate :=
  match requests with
  | [] => []
  | request :: rest =>
      match charged config request, oks with
      | Some _, ok :: oks' => (if ok then Passed else TooManyRequests) :: answers config rest oks'
      | _, _ => Unauthorized :: answers config rest oks
      end
  end.

Lemma allow_dom l key now m m' :
  buckets l = Some m -> buckets (snd (allow l key now)) = Some m' -> dom m' = {[key]} ∪ dom m.
Proof.
  unfold allow. intros ->. case_match; cbn; intros [= <-]; by rewrite dom_insert_L.
Qed.

Lemma allow_unpoisoned l key now m :
  buckets l = Some m -> exists m', buckets (snd (allow l key now)) = Some m'.
Proof. unfold allow. intros ->. case_match; cbn; eauto. Qed.

(** C36: the gate.  Switched off, every request passes and nothing is counted.
    Switched on, a request passes only with a configured key (its header
    trimmed) that the limiter grants at that moment: the limiter sees exactly
    the authenticated requests, in order, every other request is refused
    without being counted, and the limiter's memory holds configured keys only,
    however many keys the requests try. *)
Theorem api_gate_exact (config : ApiAuthConfig) (requests : list (option string * N)) (l : ApiRateLimiter) (m : gmap string TokenBucket) :
  buckets l = Some m -> dom m ⊆ api_keys config ->
  (enabled config = false -> gate_run config l requests = ((fun _ => Passed) <$> requests, l)) /\
  (enabled config = true ->
     gate_run config l requests =
       (answers config requests (fst (limiter_run l (omap (charged config) requests))),
        snd (limiter_run l (omap (charged config) requests))) /\
     exists m', buckets (snd (gate_run config l requests)) = Some m' /\ dom m' ⊆ api_keys config).
Proof.
  intros Hm Hdom. split; intros He; revert l m Hm Hdom.
  - induction requests as [|[header now] requests IH]; intros l m Hm Hdom; [done|].
    cbn [gate_run fmap list_fmap]. unfold require_api_key at 1. rewrite He. cbn [negb].
    by rewrite (IH l m Hm Hdom).
  - induction requests as [|[header now] requests IH]; intros l m Hm Hdom; [by eauto|].
    cbn [gate_run answers omap list_omap]. rewrite (require_api_key_spec config l header now He).
    destruct (charged config (header, now)) as [[key n]|] eqn:Ec.
    + unfold charged in Ec. cbn [fst snd] in Ec. destruct (str_trim <$> header); [|done].
      case_decide as Hk; [|done]. injection Ec as -> <-. rewrite limiter_run_cons. cbn [fst snd].
      destruct (allow_unpoisoned l key now m Hm) as [m1 Hm1].
      pose proof (allow_dom l key now m m1 Hm Hm1) as Hd.
      assert (dom m1 ⊆ api_keys config) as Hdom1 by (rewrite Hd; set_solver).
      destruct (IH (snd (allow l key now)) m1 Hm1 Hdom1) as [E Hex]. rewrite E in Hex |- *. done.
    + destruct (IH l m Hm Hdom) as [E Hex]. rewrite E in Hex |- *. done.
Qed.

(** ** Configuration *)
(** The settings read from any environment are well formed: the rate is a
    positive 32-bit number, no key is blank, and every key is written the way
    the gate compares it (without surrounding white space), so a client that
    sends any configured key, with or without white space around it, is
    recognised by it.  With authentication on and no key configured every
    request is refused. *)
Theorem auth_config_well_formed (env : string -> option string) :
  let config := auth_from_env env in
  (1 <= requests_per_minute config <= u32_max)%N /\
  (forall key, key ∈ api_keys config -> key <> "" /\ str_trim key = key) /\
  (forall header now, enabled config = true -> charged config (Some header, now) =
     if decide (str_trim header ∈ api_keys config) then Some (str_trim header, now) else None) /\
  (forall requests l, enabled config = true -> api_keys config = ∅ ->
     gate_run config l requests = ((fun _ => Unauthorized) <$> requests, l)).
Proof.
  cbn zeta. set (config := auth_from_env env).
  assert (forall key, key ∈ api_keys config -> key <> "" /\ str_trim key = key) as Hkeys.
  { unfold config, auth_from_env; cbn [api_keys]. destruct (env "VIZ_API_API_KEYS") as [value|]; [|set_solver].
    intros key. rewrite elem_of_list_to_set, list_elem_of_filter, list_elem_of_fmap.
    intros [Hne (piece & -> & _)]. split; [done|]. apply str_trim_idemp. }
  split_and!; [| |exact Hkeys| |].
  - unfold config, auth_from_env; cbn. repeat case_match; try lia.
    match goal with H : (0 <? _)%N = true |- _ => apply N.ltb_lt in H end. lia.
  - unfold config, auth_from_env, u32_max; cbn [requests_per_minute].
    destruct (env "VIZ_API_RATE_LIMIT_PER_MINUTE") as [value|]; cbn [mbind option_bind]; [|lia].
    unfold parse_u32. destruct (parse_u64 _) as [n|]; cbn [mbind option_bind]; [|lia].
    destruct (n <=? u32_max)%N eqn:E; [|lia]. apply N.leb_le in E. unfold u32_max in E.
    destruct (0 <? n)%N; lia.
  - intros header now He. unfold charged. cbn [fst snd fmap option_fmap option_map].
    destruct (decide (str_trim header ∈ api_keys config)) as [Hin|Hin].
    + rewrite decide_True; [done|]. split; [by apply Hkeys|done].
    + rewrite decide_False; [done|]. tauto.
  - intros requests l He E0. induction requests as [|[header now] requests IH]; [done|].
    cbn [gate_run fmap list_fmap]. rewrite (require_api_key_spec config l header now He).
    unfold charged. rewrite E0. cbn [fst]. destruct (str_trim <$> header); cbn [snd].
    + rewrite decide_False by set_solver. by rewrite IH.
    + by rewrite IH.
Qed.

(** ** Witnesses *)
Lemma rate_limit_bound_witness :
  let calls := [("k", 5); ("j", 6); ("k", 7); ("k", 8)]%N in
  within 0 [("k", 1)]%N 5 /\ within 5 calls (5 + 10) /\
  granted "k" calls (fst (limiter_run (snd (limiter_run (rate_limiter_new 3) [("k", 1)]%N)) calls)) = 2%N /\
  (2 * (60 * nanos_per_sec * 100000) <= 3 * (60 * nanos_per_sec * 100000 + 10 * 100001))%N.
Proof.
  assert (within 0 [("k", 1)]%N 5) as H1 by (cbn; lia).
  assert (within 5 [("k", 5); ("j", 6); ("k", 7); ("k", 8)]%N (5 + 10)) as H2 by (cbn; lia).
  split_and!; [done|done|vm_compute; reflexivity|].
  exact (rate_limit_bound 3 "k" [("k", 1)]%N [("k", 5); ("j", 6); ("k", 7); ("k", 8)]%N 5 10
    ltac:(vm_compute; discriminate) H1 H2 ltac:(vm_compute; reflexivity)).
Defined.

Lemma rate_limit_recovers_witness :
  let mid := [("k", 2); ("j", 20); ("k", 30000000000)]%N in
  fst (limiter_run (rate_limiter_new 1) ([("k", 1)] ++ mid)%N) = [true; false; true; false] /\
  (1 <= granted "k" (mid ++ [("k", 62000000000%N)])
     (fst (limiter_run (snd (limiter_run (rate_limiter_new 1) ([] ++ [("k", 1%N)]))) (mid ++ [("k", 62000000000%N)]))))%N.
Proof.
  cbn zeta. split; [vm_compute; reflexivity|].
  apply (rate_limit_recovers 1 "k" [] [("k", 2); ("j", 20); ("k", 30000000000)]%N 1 62000000000).
  - unfold u32_max. lia.
  - cbn. lia.
  - cbn. lia.
  - unfold max_nanos, nanos_per_sec. lia.
  - unfold nanos_per_sec. lia.
Defined.

Lemma api_gate_exact_witness :
  let config := mkApiAuthConfig true {["key"]} 1 in
  let requests := [(Some " key ", 0); (None, 1); (Some "other", 2); (Some "key", 3)]%N in
  fst (gate_run config (rate_limiter_new 1) requests) = [Passed; Unauthorized; Unauthorized; TooManyRequests] /\
  gate_run config (rate_limiter_new 1) requests =
    (answers config requests (fst (limiter_run (rate_limiter_new 1) (omap (charged config) requests))),
     snd (limiter_run (rate_limiter_new 1) (omap (charged config) requests))).
Proof.
  cbn zeta. split; [vm_compute; reflexivity|].
  apply (api_gate_exact (mkApiAuthConfig true {["key"]} 1)
    [(Some " key ", 0); (None, 1); (Some "other", 2); (Some "key", 3)]%N (rate_limiter_new 1) ∅);
    [reflexivity|set_solver|reflexivity].
Defined.
