(* ===== verification/Recovery.v ===== *)
(** * Recovery: rebuilding the scheduler from the store

    [src/crates/viz-api/src/lib.rs], the start of the HTTP server: the plan of
    the store ([Storage]), the sanitised snapshot, the transactions of the
    replayed events and the scheduler they give ([Scheduler]); the writer of
    the snapshots; the settings read from the environment. *)
From stdpp Require Import base gmap strings list numbers sorting.
From S2P Require Import Prelude Common EventLog Scheduler SchedulerQueue SchedulerInvariant SchedulerViews SchedulerSnapshot.
From S2P Require Import SchedulerActor Storage StorageIndex StorageTables StorageProps Wal Text Replay ReplayMempool.

(** ** Settings *)
Record SchedulerRehydrationConfig := mkRehydrationConfig {
  snapshot_interval_ms : N;
  snapshot_max_finality_age_ms : N;
}.
Definition rehydration_config_default : SchedulerRehydrationConfig := mkRehydrationConfig 5000 300000.

Inductive IngestSourceMode := SourceRpc | SourceP2p | SourceHybrid.
Definition ingest_mode_as_str (mode : IngestSourceMode) : string :=
  match mode with SourceRpc => "rpc" | SourceP2p => "p2p" | SourceHybrid => "hybrid" end.
Definition resolve_ingest_source_mode (env_override : option string) : IngestSourceMode :=
  match to_ascii_lowercase ∘ str_trim <$> env_override with
  | Some mode =>
      if bool_decide (mode = "p2p") then SourceP2p
      else if bool_decide (mode = "hybrid") then SourceHybrid else SourceRpc
  | None => SourceRpc
  end.

(** [raw.and_then(|value| value.trim().parse().ok())] into an unsigned type
    with maximum [max]. *)
Definition parse_env (max : N) (raw : option string) : option N :=
  value ← raw; n ← parse_u64 (str_bytes (str_trim value)); if (n <=? max)%N then Some n else None.

Definition resolve_scheduler_snapshot_interval_ms (raw : option string) : N :=
  match parse_env u64_max raw with Some v => if (0 <? v)%N then v else 5000%N | None => 5000%N end.
Definition resolve_scheduler_snapshot_max_finality_age_ms (raw : option string) : N :=
  default 300000%N (parse_env u64_max raw).
Definition resolve_positive_usize (raw : option string) (dflt : N) : N :=
  match parse_env u64_max raw with Some v => if (0 <? v)%N then v else dflt | None => dflt end.
Definition resolve_scheduler_config (env : string -> option string) : SchedulerConfig :=
  mkConfig
    (resolve_positive_usize (env "VIZ_API_SCHEDULER_HANDOFF_QUEUE_CAPACITY")
       (handoff_queue_capacity scheduler_config_default))
    (resolve_positive_usize (env "VIZ_API_SCHEDULER_MAX_PENDING_PER_SENDER")
       (max_pending_per_sender scheduler_config_default))
    (default (replacement_fee_bump_bps scheduler_config_default)
       (parse_env u16_max (env "VIZ_API_SCHEDULER_REPLACEMENT_FEE_BUMP_BPS"))).

(** ** Sanitising a snapshot *)

(** The hashes that leave the pool, event by event. *)
Definition settle_event (removed_hashes : gset TxHash) (event : EventEnvelope) : gset TxHash :=
  match payload event with
  | PTxDecoded decoded => removed_hashes ∖ {[dec_hash decoded]}
  | PTxReorged reorged => removed_hashes ∖ {[reorged_hash reorged]}
  | PTxDropped dropped => {[dropped_hash dropped]} ∪ removed_hashes
  | PTxReplaced replaced => {[replaced_hash replaced]} ∪ removed_hashes
  | PTxConfirmedProvisional confirmed | PTxConfirmedFinal confirmed =>
      {[confirmed_hash confirmed]} ∪ removed_hashes
  | PTxSeen _ | PTxFetched _ | PCandidateQueued _ | PSimDispatched _ | POppDetected _ | PSimCompleted _
  | PAssemblyDecisionApplied _ | PBundleSubmitted _ | PTxReady _ | PTxBlocked _ => removed_hashes
  end.
Definition settled_hashes (replay_events : list EventEnvelope) : gset TxHash :=
  foldl settle_event ∅ replay_events.

Definition retain_entries (removed : gset TxHash) (queue : PersistedSenderQueueSnapshot) :
    PersistedSenderQueueSnapshot :=
  {| pq_sender := pq_sender queue;
     pq_queued := filter (fun entry => pe_hash entry ∉ removed) (pq_queued queue) |}.

Definition sanitize_scheduler_snapshot_for_rehydration (snapshot : PersistedSchedulerSnapshot)
    (replay_events : list EventEnvelope) : PersistedSchedulerSnapshot :=
  let removed := settled_hashes replay_events in
  if decide (removed = ∅) then snapshot
  else
    {| ps_captured_at_unix_ms := ps_captured_at_unix_ms snapshot;
       ps_captured_at_mono_ns := ps_captured_at_mono_ns snapshot;
       ps_event_seq_hi := ps_event_seq_hi snapshot;
       ps_pending := filter (fun tx => vt_hash tx ∉ removed) (ps_pending snapshot);
       ps_executable_frontier := filter (fun hash => hash ∉ removed) (ps_executable_frontier snapshot);
       ps_sender_queues :=
         filter (fun queue => pq_queued queue <> []) (retain_entries removed <$> ps_sender_queues snapshot) |}.

(** ** The transactions of the replayed events *)
Definition validated_transaction_from_storage_row (source : SourceId) (observed_at_unix_ms : Z)
    (observed_at_mono_ns : N) (row : TxFullRecord) : ValidatedTransaction :=
  {| vt_source_id := source; vt_observed_at_unix_ms := observed_at_unix_ms;
     vt_observed_at_mono_ns := observed_at_mono_ns; vt_calldata := tf_raw_tx row;
     vt_decoded :=
       {| dec_hash := tf_hash row; dec_tx_type := tf_tx_type row; dec_sender := tf_sender row;
          dec_nonce := tf_nonce row; dec_chain_id := tf_chain_id row; dec_to := tf_to row;
          dec_value_wei := tf_value_wei row; dec_gas_limit := tf_gas_limit row;
          dec_gas_price_wei := tf_gas_price_wei row; dec_max_fee_per_gas_wei := tf_max_fee_per_gas_wei row;
          dec_max_priority_fee_per_gas_wei := tf_max_priority_fee_per_gas_wei row;
          dec_max_fee_per_blob_gas_wei := tf_max_fee_per_blob_gas_wei row;
          dec_calldata_len :=
            match tf_calldata_len row with
            | Some len => Some len
            | None => Some (N.min (usize_of (length (tf_raw_tx row))) u32_max)
            end |} |}.

Definition validated_transaction_from_event (storage : InMemoryStorage) (event : EventEnvelope) :
    option ValidatedTransaction :=
  match payload event with
  | PTxDecoded decoded =>
      Some {| vt_source_id := source_id event; vt_observed_at_unix_ms := ingest_ts_unix_ms event;
              vt_observed_at_mono_ns := ingest_ts_mono_ns event;
              vt_calldata :=
                match tx_full_by_hash (dec_hash decoded) storage with Some row => tf_raw_tx row | None => [] end;
              vt_decoded := decoded |}
  | PTxReorged reorged =>
      validated_transaction_from_storage_row (source_id event) (ingest_ts_unix_ms event)
        (ingest_ts_mono_ns event) <$> tx_full_by_hash (reorged_hash reorged) storage
  | _ => None
  end.

(** ** The bootstrap *)

(** The part of [runtime_bootstrap_from_storage_and_rehydration_impl] that
    decides the scheduler: whether a rebuild from RPC is asked for and the
    scheduler's configuration and state; [None] is the panic of [expect]. *)
Definition bootstrap_scheduler (env : string -> option string) (rehydration : SchedulerRehydrationConfig)
    (storage : InMemoryStorage) : option (bool * (SchedulerConfig * SchedulerState)) :=
  let plan := scheduler_rehydration_plan (snapshot_max_finality_age_ms rehydration) storage in
  let replay_events := plan_replay_events plan in
  let sanitized_snapshot :=
    (fun snapshot => sanitize_scheduler_snapshot_for_rehydration snapshot replay_events) <$> plan_snapshot plan in
  let replay_transactions := omap (validated_transaction_from_event storage) replay_events in
  let scheduler_config := resolve_scheduler_config env in
  match scheduler_rehydrate scheduler_config sanitized_snapshot replay_transactions with
  | inl scheduler => Some (plan_requires_rpc_rebuild plan, scheduler)
  | inr _ =>
      match scheduler_rehydrate scheduler_config None [] with
      | inl scheduler => Some (true, scheduler)
      | inr _ => None
      end
  end.

(** What [spawn_scheduler_snapshot_writer] sends to the storage writer on a
    tick: the latest id it read before, then the scheduler's state. *)
Definition snapshot_to_write (event_seq_hi : option N) (s : SchedulerState) (unix_ms : Z) (mono_ns : N) :
    PersistedSchedulerSnapshot :=
  let snapshot := persisted_snapshot s unix_ms mono_ns in
  {| ps_captured_at_unix_ms := ps_captured_at_unix_ms snapshot;
     ps_captured_at_mono_ns := ps_captured_at_mono_ns snapshot;
     ps_event_seq_hi := default 0%N event_seq_hi;
     ps_pending := ps_pending snapshot;
     ps_executable_frontier := ps_executable_frontier snapshot;
     ps_sender_queues := ps_sender_queues snapshot |}.

(** ** Replay metrics *)
Record ReplayRuntimeMetricsSnapshot := mkReplayMetrics {
  lag_events : N;
  checkpoint_duration_ms : N;
  reorg_depth : N;
}.
(** [elapsed_ns] is what the clock measures around the checkpoint. *)
Definition build_replay_runtime_metrics (elapsed_ns : N) (storage : InMemoryStorage) :
    ReplayRuntimeMetricsSnapshot :=
  let latest := default 0%N (latest_seq_id storage) in
  let checkpoint_seq_id :=
    match st_scheduler_snapshot storage with Some snapshot => ps_event_seq_hi snapshot | None => latest end in
  let replay_tail := scan_events checkpoint_seq_id u64_max storage in
  let replay_tail_reorgs :=
    usize_of (length (List.filter (fun event =>
      match payload event with PTxReorged _ => true | _ => false end) replay_tail)) in
  let duration :=
    if (latest =? 0)%N then 0%N else N.min (div_ceil elapsed_ns 1000000) u64_max in
  mkReplayMetrics (sat_sub latest checkpoint_seq_id) duration replay_tail_reorgs.

(** ** The state without some hashes *)
Section kept.
Context (removed : gset TxHash).

Definition keep_pending (p : gmap TxHash ValidatedTransaction) : gmap TxHash ValidatedTransaction :=
  omap (fun tx => if decide (vt_hash tx ∉ removed) then Some tx else None) p.
Definition keep_queue (q : gmap N TxHash) : gmap N TxHash :=
  omap (fun h => if decide (h ∉ removed) then Some h else None) q.
Definition keep_queues (qs : gmap Address (gmap N TxHash)) : gmap Address (gmap N TxHash) :=
  omap (fun q => if decide (keep_queue q = ∅) then None else Some (keep_queue q)) qs.
(** The scheduler of the transactions that are left. *)
Definition kept_state (s : SchedulerState) : SchedulerState :=
  queue_state (keep_pending (pending s)) (keep_queues (sender_queues s)).

Lemma keep_pending_values p :
  bt_values (keep_pending p) = filter (fun tx => vt_hash tx ∉ removed) (bt_values p).
Proof. unfold keep_pending. rewrite bt_values_omap. apply (omap_guard (fun tx => vt_hash tx ∉ removed)). Qed.

Lemma keep_queue_values q : bt_values (keep_queue q) = filter (fun h => h ∉ removed) (bt_values q).
Proof. unfold keep_queue. rewrite bt_values_omap. apply (omap_guard (fun h => h ∉ removed)). Qed.

Lemma keep_queue_lookup q n h : keep_queue q !! n = Some h <-> q !! n = Some h /\ h ∉ removed.
Proof.
  unfold keep_queue. rewrite lookup_omap_Some. split.
  - intros (k & E & Hk). case_decide; by simplify_eq.
  - intros [Hq Hh]. exists h. by rewrite decide_True.
Qed.

Lemma keep_pending_lookup p h tx :
  keep_pending p !! h = Some tx <-> p !! h = Some tx /\ vt_hash tx ∉ removed.
Proof.
  unfold keep_pending. rewrite lookup_omap_Some. split.
  - intros (k & E & Hk). case_decide; by simplify_eq.
  - intros [Hq Hh]. exists tx. by rewrite decide_True.
Qed.

Lemma keep_queues_lookup qs a q :
  keep_queues qs !! a = Some q <-> q <> ∅ /\ exists q0, qs !! a = Some q0 /\ q = keep_queue q0.
Proof.
  unfold keep_queues. rewrite lookup_omap_Some. split.
  - intros (q0 & E & Hq). case_decide; simplify_eq. eauto.
  - intros (Hne & q0 & Hq & ->). exists q0. by rewrite decide_False.
Qed.

Lemma keep_wf p qs : queues_wf p qs -> queues_wf (keep_pending p) (keep_queues qs).
Proof.
  intros Hq. split.
  - intros a q n h (_ & q0 & Hq0 & ->)%keep_queues_lookup [Hn Hh]%keep_queue_lookup.
    destruct (qw_entry _ _ Hq _ _ _ _ Hq0 Hn) as (tx & Htx & Hs & Hnn). exists tx.
    rewrite keep_pending_lookup. split; [|done]. split; [done|].
    by rewrite (proj1 (qw_pending _ _ Hq _ _ Htx)).
  - intros h tx [Htx Hh]%keep_pending_lookup. destruct (qw_pending _ _ Hq _ _ Htx) as (E & q & Ha & Hn).
    split; [done|]. exists (keep_queue q). rewrite E in Hh.
    assert (keep_queue q !! vt_nonce tx = Some h) as Hk by (by apply keep_queue_lookup).
    split; [|done]. apply keep_queues_lookup. split; [intros E0; by rewrite E0 in Hk|eauto].
  - by intros a q [Hne _]%keep_queues_lookup.
Qed.

Lemma keep_fits p : fits p -> fits (keep_pending p).
Proof.
  unfold fits, keep_pending. intros H. rewrite <-length_bt_iter in H |- *. rewrite bt_iter_omap.
  enough (length (omap (fun kv => pair kv.1 <$> (if decide (vt_hash kv.2 ∉ removed) then Some kv.2 else None))
    (bt_iter p)) <= length (bt_iter p))%nat by (unfold usize_of in *; lia).
  generalize (bt_iter p). intros l. induction l as [|[k tx] l IH]; csimpl; [done|].
  case_decide; csimpl; lia.
Qed.

(** The sanitised queues are those of the kept state. *)
Lemma keep_persisted_entries q :
  persisted_entry <$> bt_iter (keep_queue q) =
  filter (fun entry => pe_hash entry ∉ removed) (persisted_entry <$> bt_iter q).
Proof.
  unfold keep_queue. rewrite bt_iter_omap. induction (bt_iter q) as [|[n h] l IH]; [done|]. csimpl.
  rewrite filter_cons. cbn [pe_hash persisted_entry snd].
  repeat case_decide; csimpl; by rewrite IH.
Qed.

Lemma keep_persisted_queues qs :
  persisted_queues (keep_queues qs) =
  filter (fun queue => pq_queued queue <> []) (retain_entries removed <$> persisted_queues qs).
Proof.
  unfold persisted_queues, keep_queues. rewrite bt_iter_omap.
  induction (bt_iter qs) as [|[a q] l IH]; [done|]. csimpl. rewrite filter_cons.
  cbn [pq_queued retain_entries]. rewrite <-keep_persisted_entries.
  case_decide as E; csimpl; rewrite IH.
  - rewrite decide_False; [done|]. intros H. apply H. by rewrite E, bt_iter_empty.
  - rewrite decide_True; [by rewrite keep_persisted_entries|].
    intros H%fmap_nil_inv%bt_iter_nil. done.
Qed.
End kept.

Lemma keep_nothing s :
  scheduler_wf s -> keep_pending ∅ (pending s) = pending s /\ keep_queues ∅ (sender_queues s) = sender_queues s.
Proof.
  intros [Hq _ _ _]. assert (forall q, keep_queue ∅ q = q) as Hk.
  { intros q. apply map_eq. intros n. apply option_eq. intros h. rewrite keep_queue_lookup. set_solver. }
  split; apply map_eq; intros k; apply option_eq; intros x.
  - rewrite keep_pending_lookup. set_solver.
  - rewrite keep_queues_lookup. setoid_rewrite Hk. split; [by intros (_ & q & ? & ->)|].
    intros Hx. split; [by eapply qw_nonempty|eauto].
Qed.

(** A sanitised snapshot is that of the kept state, but for its frontier. *)
Lemma sanitized_snapshot s seq ms ns tail :
  scheduler_wf s ->
  let removed := settled_hashes tail in
  sanitize_scheduler_snapshot_for_rehydration (snapshot_to_write seq s ms ns) tail =
    mkPersisted ms ns (default 0%N seq) (bt_values (keep_pending removed (pending s)))
      (filter (fun h => h ∉ removed) (executable_frontier_hashes s))
      (persisted_queues (keep_queues removed (sender_queues s))).
Proof.
  intros Hwf. cbv zeta. unfold sanitize_scheduler_snapshot_for_rehydration, snapshot_to_write, persisted_snapshot.
  cbn [ps_captured_at_unix_ms ps_captured_at_mono_ns ps_event_seq_hi ps_pending ps_executable_frontier
       ps_sender_queues].
  rewrite persisted_queues_eq. case_decide as E.
  - rewrite E. destruct (keep_nothing s Hwf) as [-> ->]. rewrite filter_all; [done|]. set_solver.
  - by rewrite keep_pending_values, keep_persisted_queues.
Qed.

Lemma sanitized_rehydration s seq ms ns tail :
  scheduler_wf s -> fits (pending s) ->
  let removed := settled_hashes tail in
  let before := filter (fun h => h ∉ removed) (executable_frontier_hashes s) in
  from_persisted_snapshot (sanitize_scheduler_snapshot_for_rehydration (snapshot_to_write seq s ms ns) tail) =
    if decide (before = [] \/ executable_frontier_hashes (kept_state removed s) = before)
    then inl (kept_state removed s) else inr ExecutableFrontierMismatch.
Proof.
  intros Hwf Hfit. cbv zeta. rewrite sanitized_snapshot by done.
  pose proof Hwf as [Hq _ _ _]. apply from_persisted_wf; [by apply keep_wf|by apply keep_fits].
Qed.

(** ** What a settled hash is *)
Definition settles (event : EventEnvelope) : option TxHash :=
  match payload event with
  | PTxDropped dropped => Some (dropped_hash dropped)
  | PTxReplaced replaced => Some (replaced_hash replaced)
  | PTxConfirmedProvisional confirmed | PTxConfirmedFinal confirmed => Some (confirmed_hash confirmed)
  | _ => None
  end.
Definition revives (event : EventEnvelope) : option TxHash :=
  match payload event with
  | PTxDecoded decoded => Some (dec_hash decoded)
  | PTxReorged reorged => Some (reorged_hash reorged)
  | _ => None
  end.

Lemma settle_event_elem removed e h :
  h ∈ settle_event removed e <-> settles e = Some h \/ (h ∈ removed /\ revives e <> Some h).
Proof.
  unfold settle_event, settles, revives. destruct (payload e);
    rewrite ?elem_of_difference, ?elem_of_union, ?elem_of_singleton; clear; intuition congruence.
Qed.

(** The last event about [h] settles it. *)
Lemma settled_hashes_elem tail h :
  h ∈ settled_hashes tail <->
  exists pre e post, tail = pre ++ e :: post /\ settles e = Some h /\ Forall (fun e => revives e <> Some h) post.
Proof.
  unfold settled_hashes. induction tail as [|e tail IH] using rev_ind.
  - cbn. split; [set_solver|]. intros (pre & e & post & E & _). by destruct pre.
  - rewrite foldl_snoc, settle_event_elem, IH. split.
    + intros [Hs|[(pre & e0 & post & -> & Hs & Hp) Hr]].
      * by exists tail, e, [].
      * exists pre, e0, (post ++ [e]). rewrite <-app_assoc. split; [done|]. split; [done|].
        apply Forall_app. by rewrite Forall_singleton.
    + intros (pre & e0 & post & E & Hs & Hp). destruct post as [|e1 post _] using rev_ind.
      * apply app_inj_tail in E as [-> ->]. by left.
      * rewrite app_comm_cons, app_assoc in E. apply app_inj_tail in E as [-> ->].
        apply Forall_app in Hp as [Hp Hr]. rewrite Forall_singleton in Hr. right. split; [|done]. eauto 10.
Qed.

(** ** Readiness *)
Definition queued_hashes (s : SchedulerState) : list TxHash := bt_values (sender_queues s) ≫= bt_values.

Lemma frontier_loop_sublist p next gap l : frontier_loop p next gap l `sublist_of` l.*2.
Proof.
  revert next gap. induction l as [|[n h] l IH]; intros next gap; [done|]. csimpl.
  case_decide; [|by constructor]. destruct (queue_entry_state next gap n) as [[[|] next'] gap']; by constructor.
Qed.

Lemma frontier_sublist s : executable_frontier_hashes s `sublist_of` queued_hashes s.
Proof. apply sublist_bind. intros q _. apply frontier_loop_sublist. Qed.

Lemma queued_hashes_kept removed s :
  queued_hashes (kept_state removed s) = filter (fun h => h ∉ removed) (queued_hashes s).
Proof.
  unfold queued_hashes, kept_state. cbn [sender_queues queue_state set_counts set_queues]. unfold keep_queues.
  rewrite bt_values_omap. induction (bt_values (sender_queues s)) as [|q l IH]; [done|]. csimpl.
  rewrite filter_app, <-IH, <-keep_queue_values. case_decide as E; [|done].
  rewrite E. unfold bt_values at 2. by rewrite bt_iter_empty.
Qed.

Lemma queued_hashes_NoDup s : scheduler_wf s -> NoDup (queued_hashes s).
Proof.
  intros [Hq _ _ _]. change (queued_hashes s) with ((bt_iter (sender_queues s)).*2 ≫= bt_values).
  assert ((bt_iter (sender_queues s)).*2 ≫= bt_values = bt_iter (sender_queues s) ≫= (fun aq => bt_values aq.2))
    as -> by (induction (bt_iter (sender_queues s)) as [|aq l IH]; csimpl; by rewrite ?IH).
  apply NoDup_bind.
  - intros [a1 q1] [a2 q2] h H1%elem_of_bt_iter H2%elem_of_bt_iter.
    intros (n1 & Hn1)%elem_of_bt_values (n2 & Hn2)%elem_of_bt_values. cbn in *.
    destruct (qw_entry _ _ Hq _ _ _ _ H1 Hn1) as (t1 & Ht1 & <- & _).
    destruct (qw_entry _ _ Hq _ _ _ _ H2 Hn2) as (t2 & Ht2 & <- & _). simplify_eq. congruence.
  - intros [a q] Ha%elem_of_bt_iter. cbn. apply NoDup_fmap_2_strong.
    + intros [n1 h1] [n2 h2] H1%elem_of_bt_iter H2%elem_of_bt_iter; cbn. intros <-.
      destruct (qw_entry _ _ Hq _ _ _ _ Ha H1) as (t1 & Ht1 & _ & <-).
      destruct (qw_entry _ _ Hq _ _ _ _ Ha H2) as (t2 & Ht2 & _ & <-). by simplify_eq.
    + apply (NoDup_fmap_1 fst), bt_keys_NoDup.
  - apply (NoDup_fmap_1 fst), bt_keys_NoDup.
Qed.

(** The kept frontier is the old one without the removed hashes exactly when
    no remaining transaction changes between ready and blocked. *)
Lemma frontier_kept_iff removed s :
  scheduler_wf s ->
  let before := filter (fun h => h ∉ removed) (executable_frontier_hashes s) in
  let kept := kept_state removed s in
  executable_frontier_hashes kept = before <->
  forall h, h ∈ queued_hashes kept ->
    (h ∈ executable_frontier_hashes s <-> h ∈ executable_frontier_hashes kept).
Proof.
  intros Hwf. cbv zeta. set (before := filter _ _). set (kept := kept_state removed s).
  assert (forall h, h ∈ queued_hashes kept -> h ∈ before <-> h ∈ executable_frontier_hashes s) as Hb.
  { intros h. unfold kept, before. rewrite queued_hashes_kept, !list_elem_of_filter. tauto. }
  assert (before `sublist_of` queued_hashes kept) as Hs1.
  { unfold kept, before. rewrite queued_hashes_kept. apply sublist_filter_mono, frontier_sublist. }
  pose proof (frontier_sublist kept) as Hs2.
  assert (NoDup (queued_hashes kept)) as Hnd.
  { unfold kept. rewrite queued_hashes_kept. by apply NoDup_filter, queued_hashes_NoDup. }
  split.
  - intros E h Hh. by rewrite E, Hb.
  - intros H. rewrite (sublist_filter_elem _ _ Hs1 Hnd), (sublist_filter_elem _ _ Hs2 Hnd).
    apply filter_ext_elem. intros h Hh. by rewrite Hb, H.
Qed.

Lemma queued_iff_pending s h : scheduler_wf s -> h ∈ queued_hashes s <-> is_Some (pending s !! h).
Proof.
  intros [Hq _ _ _]. unfold queued_hashes. rewrite list_elem_of_bind. split.
  - intros (q & Hn%elem_of_bt_values & [a Ha]%elem_of_bt_values). destruct Hn as [n Hn].
    destruct (qw_entry _ _ Hq _ _ _ _ Ha Hn) as (tx & Htx & _). eauto.
  - intros [tx Htx]. destruct (qw_pending _ _ Hq _ _ Htx) as (_ & q & Ha & Hn).
    exists q. rewrite !elem_of_bt_values. eauto.
Qed.

Lemma kept_state_wf removed s : scheduler_wf s -> fits (pending s) -> scheduler_wf (kept_state removed s).
Proof.
  intros [Hq _ _ _] Hfit. apply (keep_wf removed) in Hq. apply (keep_fits removed) in Hfit.
  unfold kept_state. rewrite <-recompute_default by done. by apply recompute_wf.
Qed.

(** C23: what survives a restart of the snapshot of a well-formed scheduler
    with fewer than 2^64 transactions. The hashes stripped from it are those
    whose last event of the replayed tail drops, replaces or confirms them; the
    remaining transactions form a well-formed scheduler, and rehydration gives
    exactly that scheduler or fails on the recorded frontier. It succeeds if
    and only if either no ready transaction is left, or the stripped ones
    change the readiness of none that is left. *)
Theorem sanitized_recovery_exact s seq ms ns tail (Hwf : scheduler_wf s) (Hfit : fits (pending s)) :
  let removed := settled_hashes tail in
  let kept := kept_state removed s in
  let restored :=
    from_persisted_snapshot (sanitize_scheduler_snapshot_for_rehydration (snapshot_to_write seq s ms ns) tail) in
  (forall h : TxHash, h ∈ removed <->
     exists pre e post, tail = pre ++ e :: post /\ settles e = Some h /\
       Forall (fun e => revives e <> Some h) post) /\
  scheduler_wf kept /\
  (forall h tx, pending kept !! h = Some tx <-> pending s !! h = Some tx /\ h ∉ removed) /\
  (restored = inl kept \/ restored = inr ExecutableFrontierMismatch) /\
  (restored = inl kept <->
     (forall h, h ∈ executable_frontier_hashes s -> h ∈ removed) \/
     (forall h, is_Some (pending kept !! h) ->
        (h ∈ executable_frontier_hashes s <-> h ∈ executable_frontier_hashes kept))).
Proof.
  cbv zeta. rewrite sanitized_rehydration by done. set (removed := settled_hashes tail).
  pose proof (kept_state_wf removed s Hwf Hfit) as Hk.
  split; [apply settled_hashes_elem|]. split; [done|]. split.
  { intros h tx. change (pending (kept_state removed s)) with (keep_pending removed (pending s)).
    rewrite keep_pending_lookup. split; intros [Htx Hh]; (split; [done|]);
      by rewrite (proj1 (qw_pending _ _ (wf_queues _ Hwf) _ _ Htx)) in *. }
  split; [case_decide; auto|].
  transitivity (filter (fun h => h ∉ removed) (executable_frontier_hashes s) = [] \/
    executable_frontier_hashes (kept_state removed s) =
      filter (fun h => h ∉ removed) (executable_frontier_hashes s)).
  { case_decide; split; [done|done|discriminate|done]. }
  rewrite filter_nil_iff, frontier_kept_iff by done. split; (intros [H|H]; [left|right]; intros h Hh).
  - destruct (decide (h ∈ removed)) as [|Hn]; [done|]. by destruct (H h Hh).
  - apply H. by apply queued_iff_pending.
  - intros Hn. by apply Hn, H.
  - apply H. by apply queued_iff_pending.
Qed.

(** ** The bootstrap *)
Lemma resolve_positive raw dflt : (0 < dflt)%N -> (0 < resolve_positive_usize raw dflt)%N.
Proof. unfold resolve_positive_usize. destruct (parse_env _ raw) as [v|]; [|done]. by destruct (N.ltb_spec 0 v). Qed.

Lemma resolved_config_valid env : validate_config (resolve_scheduler_config env) = inl (resolve_scheduler_config env).
Proof.
  unfold validate_config. pose proof (resolve_positive (env "VIZ_API_SCHEDULER_HANDOFF_QUEUE_CAPACITY") 1024 eq_refl).
  pose proof (resolve_positive (env "VIZ_API_SCHEDULER_MAX_PENDING_PER_SENDER") 64 eq_refl).
  cbn [resolve_scheduler_config handoff_queue_capacity max_pending_per_sender scheduler_config_default].
  rewrite !(proj2 (N.eqb_neq _ _)) by lia. done.
Qed.

Lemma rehydrate_resolved env snap txs :
  scheduler_rehydrate (resolve_scheduler_config env) snap txs =
  match match snap with Some snap => from_persisted_snapshot snap | None => inl state_default end with
  | inl state => inl (resolve_scheduler_config env, admit_all (resolve_scheduler_config env) txs state)
  | inr e => inr (InitSnapshot e)
  end.
Proof. unfold scheduler_rehydrate. rewrite resolved_config_valid. by destruct snap as [x|]; [destruct (from_persisted_snapshot x)|]. Qed.

(** A store that holds a snapshot of a scheduler and was told of no final
    confirmation past the allowed age. *)
Lemma bootstrap_snapshot env rehydration config ops s seq ms ns :
  let st := storage_after config ops in
  let cfg := resolve_scheduler_config env in
  let finalized := omap told_final ops in
  scheduler_wf s -> fits (pending s) ->
  list.last (omap told_snapshot ops) = Some (snapshot_to_write seq s ms ns) ->
  let outrun := bool_decide (finalized <> [] /\
    (Z.of_N (N.min (snapshot_max_finality_age_ms rehydration) (Z.to_N i64_max)) <
       i64_sat_sub (foldl Z.max 0 finalized) ms)%Z) in
  let tail := filter (fun e => (default 0 seq < seq_id e)%N) (list_events st) in
  let removed := settled_hashes tail in
  let kept := kept_state removed s in
  let before := filter (fun h => h ∉ removed) (executable_frontier_hashes s) in
  bootstrap_scheduler env rehydration st = Some
    (if outrun then (true, (cfg, state_default))
     else if decide (before = [] \/ executable_frontier_hashes kept = before)
     then (false, (cfg, admit_all cfg (omap (validated_transaction_from_event st) tail) kept))
     else (true, (cfg, state_default))).
Proof.
  intros st cfg finalized Hwf Hfit E outrun tail removed kept before.
  pose proof (rehydration_plan_exact config ops (snapshot_max_finality_age_ms rehydration)) as Hplan.
  cbv zeta in Hplan. fold st finalized in Hplan. rewrite E in Hplan.
  change (ps_captured_at_unix_ms (snapshot_to_write seq s ms ns)) with ms in Hplan.
  change (ps_event_seq_hi (snapshot_to_write seq s ms ns)) with (default 0%N seq) in Hplan.
  fold outrun tail in Hplan. unfold bootstrap_scheduler. destruct outrun.
  - rewrite Hplan. cbn. by rewrite rehydrate_resolved.
  - destruct Hplan as (-> & -> & ->). cbn [fmap option_fmap option_map].
    rewrite rehydrate_resolved, sanitized_rehydration by done.
    fold removed kept before. case_decide; [done|]. by rewrite rehydrate_resolved.
Qed.


(** ** Settlements of transactions the snapshot does not hold *)
Definition settles_pending (s : SchedulerState) (e : EventEnvelope) : bool :=
  match settles e with Some h => bool_decide (is_Some (pending s !! h)) | None => true end.

Lemma settled_filter s tail h :
  is_Some (pending s !! h) -> h ∈ settled_hashes tail <-> h ∈ settled_hashes (List.filter (settles_pending s) tail).
Proof.
  intros Hh. unfold settled_hashes. assert (forall r1 r2 : gset TxHash, (h ∈ r1 <-> h ∈ r2) ->
    h ∈ foldl settle_event r1 tail <-> h ∈ foldl settle_event r2 (List.filter (settles_pending s) tail)) as H;
    [|by apply H].
  induction tail as [|e tail IH]; intros r1 r2 Hr; [done|]. cbn [foldl List.filter].
  assert (h ∈ settle_event r1 e <-> h ∈ settle_event r2 e) as He by (rewrite !settle_event_elem; by rewrite Hr).
  destruct (settles_pending s e) eqn:E; [by apply IH|]. apply IH. rewrite settle_event_elem.
  unfold settles_pending in E. destruct (settles e) as [k|] eqn:Ek; [|done].
  apply bool_decide_eq_false in E. rewrite <-Hr. split; [intros [[= ->]|[? _]]; done|].
  intros Hin. right. split; [done|]. unfold settles in Ek. unfold revives. by destruct (payload e).
Qed.

Lemma no_tx_of_settlement storage e : is_Some (settles e) -> validated_transaction_from_event storage e = None.
Proof. unfold settles, validated_transaction_from_event. intros [h Hh]. by destruct (payload e). Qed.

Lemma keep_agree s r1 r2 :
  scheduler_wf s -> (forall h, is_Some (pending s !! h) -> h ∈ r1 <-> h ∈ r2) ->
  keep_pending r1 (pending s) = keep_pending r2 (pending s) /\
  keep_queues r1 (sender_queues s) = keep_queues r2 (sender_queues s) /\
  filter (fun h => h ∉ r1) (executable_frontier_hashes s) = filter (fun h => h ∉ r2) (executable_frontier_hashes s).
Proof.
  intros Hwf Hr. pose proof (wf_queues _ Hwf) as Hq.
  assert (forall a q, sender_queues s !! a = Some q -> keep_queue r1 q = keep_queue r2 q) as Hk.
  { intros a q Ha. apply map_eq. intros n. apply option_eq. intros h. rewrite !keep_queue_lookup.
    apply and_iff_under. intros Hn. destruct (qw_entry _ _ Hq _ _ _ _ Ha Hn) as (tx & Htx & _).
    by rewrite Hr by eauto. }
  split_and!.
  - apply map_eq. intros h. apply option_eq. intros tx. rewrite !keep_pending_lookup.
    apply and_iff_under. intros Htx. rewrite (proj1 (qw_pending _ _ Hq _ _ Htx)). by rewrite Hr by eauto.
  - unfold keep_queues. apply map_eq. intros a. rewrite !lookup_omap.
    destruct (sender_queues s !! a) as [q|] eqn:Ha; [|done]. cbn. by rewrite (Hk a q Ha).
  - apply filter_ext_elem. intros h Hh. rewrite Hr; [done|]. apply (queued_iff_pending _ _ Hwf).
    eapply elem_of_sublist; [done|apply frontier_sublist].
Qed.

(** Settlements of transactions the snapshot does not hold have no effect
    on a restart: dropping every such event from the replayed tail gives the
    same scheduler.  So a transaction that was decoded after the snapshot and
    then dropped, replaced or confirmed comes back as pending. *)
Theorem tail_settlement_ignored cfg storage s seq ms ns tail (Hwf : scheduler_wf s) :
  let restart events :=
    scheduler_rehydrate cfg
      (Some (sanitize_scheduler_snapshot_for_rehydration (snapshot_to_write seq s ms ns) events))
      (omap (validated_transaction_from_event storage) events) in
  restart tail = restart (List.filter (settles_pending s) tail).
Proof.
  cbv beta zeta. rewrite !sanitized_snapshot by done.
  destruct (keep_agree s _ _ Hwf (settled_filter s tail)) as (-> & -> & ->). f_equal.
  induction tail as [|e tail IH]; [done|]. cbn [List.filter omap list_omap].
  destruct (settles_pending s e) eqn:E; [cbn [omap list_omap]; by rewrite IH|].
  rewrite no_tx_of_settlement; [done|]. unfold settles_pending in E. by destruct (settles e).
Qed.

(** ** Concrete restarts *)
Definition restart_config : SchedulerConfig := scheduler_config_default.
(** Sender 5 has a run of three nonces; sender 6 has one transaction. *)
Definition restart_state : SchedulerState :=
  admit_all restart_config [sample_tx 11 5 5 100; sample_tx 12 5 6 100; sample_tx 13 5 7 100; sample_tx 21 6 0 100]
    state_default.
Definition restart_event (seq : N) (p : EventPayload) : EventEnvelope := mkEnvelope seq 1000 seq "live" p.
Definition restart_ops (tail : list EventPayload) : list StorageOp :=
  OpSnapshot (snapshot_to_write None restart_state 5 6) 0 ::
    imap (fun i p => OpAppend (restart_event (N.of_nat (S i)) p) 0 0 0) tail.
Definition no_env : string -> option string := fun _ => None.
Definition restart (tail : list EventPayload) : option (bool * (SchedulerConfig * SchedulerState)) :=
  bootstrap_scheduler no_env rehydration_config_default
    (storage_after storage_config_default (restart_ops tail)).
Definition pending_after (r : option (bool * (SchedulerConfig * SchedulerState))) : option (bool * list TxHash) :=
  (fun x => (x.1, bt_keys (pending x.2.2))) <$> r.

(** One settled transaction can cost the whole pool.  Confirming the lowest
    nonce of a run keeps the rest of the pool over a restart; dropping a
    transaction from the middle of the run discards every pending transaction,
    of every sender, and asks for a rebuild; and a transaction decoded and
    confirmed after the snapshot is pending again. *)
Theorem settlement_can_discard_pool :
  pending_after (restart [PTxConfirmedFinal (mkTxConfirmed 11 1 1)]) = Some (false, [12; 13; 21])%N /\
  pending_after (restart [PTxDropped (mkTxDropped 12 "evicted")]) = Some (true, []) /\
  pending_after (restart [PTxDecoded (vt_decoded (sample_tx 14 5 8 100)); PTxConfirmedFinal (mkTxConfirmed 14 1 1)]) =
    Some (false, [11; 12; 13; 14; 21])%N.
Proof. split_and!; vm_compute; reflexivity. Qed.

(** ** Witnesses *)
Lemma restart_state_wf : scheduler_wf restart_state.
Proof.
  unfold restart_state. rewrite admit_all_run. apply run_commands_ok.
  - apply state_ok_default.
  - repeat (apply Forall_cons_2; [vm_compute; discriminate|]). apply Forall_nil_2.
  - vm_compute. discriminate.
Qed.
Lemma restart_state_fits : fits (pending restart_state).
Proof. vm_compute. discriminate. Qed.
Definition drop_middle : list EventEnvelope := [restart_event 1 (PTxDropped (mkTxDropped 12 "evicted"))].

Lemma sanitized_recovery_exact_witness :
  from_persisted_snapshot
    (sanitize_scheduler_snapshot_for_rehydration (snapshot_to_write None restart_state 5 6) drop_middle) =
    inr ExecutableFrontierMismatch /\
  (12%N ∈ settled_hashes drop_middle <->
   exists pre e post, drop_middle = pre ++ e :: post /\ settles e = Some 12%N /\
     Forall (fun e => revives e <> Some 12%N) post).
Proof.
  split; [vm_compute; reflexivity|].
  apply (proj1 (sanitized_recovery_exact restart_state None 5 6 drop_middle restart_state_wf restart_state_fits)).
Defined.


Lemma tail_settlement_ignored_witness :
  let storage := with_config storage_config_default in
  let tail := [restart_event 1 (PTxDecoded (vt_decoded (sample_tx 14 5 8 100)));
               restart_event 2 (PTxConfirmedFinal (mkTxConfirmed 14 1 1))] in
  List.filter (settles_pending restart_state) tail = take 1 tail /\
  scheduler_rehydrate restart_config
    (Some (sanitize_scheduler_snapshot_for_rehydration (snapshot_to_write None restart_state 5 6) tail))
    (omap (validated_transaction_from_event storage) tail) =
  scheduler_rehydrate restart_config
    (Some (sanitize_scheduler_snapshot_for_rehydration (snapshot_to_write None restart_state 5 6)
       (List.filter (settles_pending restart_state) tail)))
    (omap (validated_transaction_from_event storage) (List.filter (settles_pending restart_state) tail)).
Proof.
  cbv zeta. split; [vm_compute; reflexivity|].
  apply (tail_settlement_ignored restart_config _ restart_state None 5 6 _ restart_state_wf).
Defined.
