(* ===== verification/LiveState.v ===== *)
(** * LiveState: the shared state of the live runtime (crates/runtime-core/src/lib.rs)

    [RuntimeCore] behind its locks: the builder engine, the counters of drops,
    of the searcher and of remote simulation, the status store, the cached
    account seeds and the health of the chains.  Each method of
    [RuntimeCoreHandle] takes one lock, so each is one step of the state; the
    clock's readings are arguments. *)
From stdpp Require Import base gmap strings list numbers sorting.
From S2P Require Import Prelude Common EventLog Simulation Assembly Storage Scheduler.

(** ** Data *)
Inductive RuntimeIngestMode := ModeRpc | ModeP2p | ModeHybrid.
Definition runtime_mode_as_str (mode : RuntimeIngestMode) : string :=
  match mode with ModeRpc => "rpc" | ModeP2p => "p2p" | ModeHybrid => "hybrid" end.

Inductive LiveRpcDropReason := StorageQueueFull | StorageQueueClosed | InvalidPendingHash.
Definition drop_reason_as_label (reason : LiveRpcDropReason) : string :=
  match reason with
  | StorageQueueFull => "storage_queue_full"
  | StorageQueueClosed => "storage_queue_closed"
  | InvalidPendingHash => "invalid_pending_hash"
  end.

Record LiveRpcDropMetricsSnapshot := mkDropMetrics {
  drop_storage_queue_full : N;
  drop_storage_queue_closed : N;
  drop_invalid_pending_hash : N;
}.
Definition drop_metrics_default : LiveRpcDropMetricsSnapshot := mkDropMetrics 0 0 0.

Record LiveRpcSearcherMetricsSnapshot := mkSearcherMetrics {
  executable_batches_total : N;
  executable_candidates_total : N;
  executable_bundle_candidates_total : N;
  max_executable_candidates_in_batch : N;
  comparison_batches_total : N;
  executable_top_score_total : N;
  executable_top_score_wins_total : N;
  top_score_ties_total : N;
  overlapping_candidates_total : N;
  executable_only_candidates_total : N;
}.
Definition searcher_metrics_default : LiveRpcSearcherMetricsSnapshot := mkSearcherMetrics 0 0 0 0 0 0 0 0 0 0.

Record LiveRpcSimulationMetricsSnapshot := mkSimMetrics {
  sim_enqueued_total : N;
  sim_completed_total : N;
  sim_ok_total : N;
  sim_failed_total : N;
  sim_state_error_total : N;
  sim_timeout_total : N;
  sim_queue_full_drop_total : N;
  sim_stale_drop_total : N;
  sim_queue_depth : N;
  sim_queue_capacity : N;
  sim_inflight_current : N;
  sim_worker_total : N;
  sim_cache_hit_total : N;
  sim_cache_miss_total : N;
  sim_tx_total : N;
  sim_last_latency_ms : N;
  sim_max_latency_ms : N;
  sim_total_latency_ms : N;
  revert_fail_total : N;
  out_of_gas_fail_total : N;
  nonce_mismatch_fail_total : N;
  state_mismatch_fail_total : N;
  unknown_fail_total : N;
  state_rpc_fail_total : N;
  state_timeout_fail_total : N;
}.
Definition simulation_metrics_default : LiveRpcSimulationMetricsSnapshot :=
  mkSimMetrics 0 0 0 0 0 0 0 0 0 0 0 0 0 0 0 0 0 0 0 0 0 0 0 0 0.

Record LiveRpcSimulationStatusSnapshot := mkSimStatus {
  ss_id : string;
  ss_bundle_id : string;
  ss_status : string;
  ss_relay_url : string;
  ss_attempt_count : N;
  ss_accepted : bool;
  ss_fail_category : option string;
  ss_started_unix_ms : Z;
  ss_finished_unix_ms : Z;
}.

Record LiveRpcChainStatus := mkChainStatus {
  cs_chain_key : string;
  cs_chain_id : option N;
  cs_source_id : string;
  cs_state : string;
  cs_endpoint_index : N;
  cs_endpoint_count : N;
  cs_ws_url : string;
  cs_http_url : string;
  cs_last_pending_unix_ms : option Z;
  cs_silent_for_ms : option N;
  cs_updated_unix_ms : Z;
  cs_last_error : option string;
  cs_rotation_count : N;
}.

Record CachedAccountSeed := mkCachedSeed {
  ca_seed : AccountSeed;
  ca_block_number : N;
  ca_cached_at_unix_ms : Z;
}.

Record SimulationStatusStore := mkStatusStore {
  sts_latest : option LiveRpcSimulationStatusSnapshot;
  sts_by_id : gmap string LiveRpcSimulationStatusSnapshot;
}.

(** The scheduler, the storage and its writer are components of their own. *)
Record RuntimeCore := mkRuntimeCore {
  rc_builder_engine : AssemblyEngine;
  rc_drop_metrics : LiveRpcDropMetricsSnapshot;
  rc_searcher_metrics : LiveRpcSearcherMetricsSnapshot;
  rc_simulation_metrics : LiveRpcSimulationMetricsSnapshot;
  rc_simulation_status : SimulationStatusStore;
  rc_chain_status : gmap string LiveRpcChainStatus;
  rc_account_seeds : gmap (string * Address) CachedAccountSeed;
  rc_feed_start_count : N;
}.
Definition runtime_core_start : RuntimeCore :=
  mkRuntimeCore (engine_new assembly_config_default) drop_metrics_default searcher_metrics_default
    simulation_metrics_default (mkStatusStore None ∅) ∅ ∅ 0.

Definition set_engine e (c : RuntimeCore) : RuntimeCore :=
  mkRuntimeCore e (rc_drop_metrics c) (rc_searcher_metrics c) (rc_simulation_metrics c)
    (rc_simulation_status c) (rc_chain_status c) (rc_account_seeds c) (rc_feed_start_count c).
Definition set_drop_metrics m (c : RuntimeCore) : RuntimeCore :=
  mkRuntimeCore (rc_builder_engine c) m (rc_searcher_metrics c) (rc_simulation_metrics c)
    (rc_simulation_status c) (rc_chain_status c) (rc_account_seeds c) (rc_feed_start_count c).
Definition set_searcher_metrics m (c : RuntimeCore) : RuntimeCore :=
  mkRuntimeCore (rc_builder_engine c) (rc_drop_metrics c) m (rc_simulation_metrics c)
    (rc_simulation_status c) (rc_chain_status c) (rc_account_seeds c) (rc_feed_start_count c).
Definition set_simulation_metrics m (c : RuntimeCore) : RuntimeCore :=
  mkRuntimeCore (rc_builder_engine c) (rc_drop_metrics c) (rc_searcher_metrics c) m
    (rc_simulation_status c) (rc_chain_status c) (rc_account_seeds c) (rc_feed_start_count c).
Definition set_simulation_status m (c : RuntimeCore) : RuntimeCore :=
  mkRuntimeCore (rc_builder_engine c) (rc_drop_metrics c) (rc_searcher_metrics c)
    (rc_simulation_metrics c) m (rc_chain_status c) (rc_account_seeds c) (rc_feed_start_count c).
Definition set_chain_status m (c : RuntimeCore) : RuntimeCore :=
  mkRuntimeCore (rc_builder_engine c) (rc_drop_metrics c) (rc_searcher_metrics c)
    (rc_simulation_metrics c) (rc_simulation_status c) m (rc_account_seeds c) (rc_feed_start_count c).
Definition set_account_seeds m (c : RuntimeCore) : RuntimeCore :=
  mkRuntimeCore (rc_builder_engine c) (rc_drop_metrics c) (rc_searcher_metrics c)
    (rc_simulation_metrics c) (rc_simulation_status c) (rc_chain_status c) m (rc_feed_start_count c).

(** ** Counters *)
Definition observe_drop_reason (reason : LiveRpcDropReason) (m : LiveRpcDropMetricsSnapshot) :
    LiveRpcDropMetricsSnapshot :=
  match reason with
  | StorageQueueFull =>
      mkDropMetrics (incr (drop_storage_queue_full m)) (drop_storage_queue_closed m) (drop_invalid_pending_hash m)
  | StorageQueueClosed =>
      mkDropMetrics (drop_storage_queue_full m) (incr (drop_storage_queue_closed m)) (drop_invalid_pending_hash m)
  | InvalidPendingHash =>
      mkDropMetrics (drop_storage_queue_full m) (drop_storage_queue_closed m) (incr (drop_invalid_pending_hash m))
  end.

Definition observe_searcher_batch (executable : list OpportunityRecord) (m : LiveRpcSearcherMetricsSnapshot) :
    LiveRpcSearcherMetricsSnapshot :=
  let executable_count := usize_of (length executable) in
  let bundles :=
    usize_of (length (List.filter (fun c => bool_decide (or_strategy c = "BundleCandidate")) executable)) in
  let top := match executable with c :: _ => or_score c | [] => 0%N end in
  mkSearcherMetrics
    (incr (executable_batches_total m))
    (sat_add u64_max (executable_candidates_total m) executable_count)
    (sat_add u64_max (executable_bundle_candidates_total m) bundles)
    (N.max (max_executable_candidates_in_batch m) executable_count)
    (comparison_batches_total m)
    (sat_add u64_max (executable_top_score_total m) top)
    (executable_top_score_wins_total m) (top_score_ties_total m) (overlapping_candidates_total m)
    (sat_add u64_max (executable_only_candidates_total m) executable_count).

(** Assignments to the counters of the queue, of the workers and of the cache. *)
Definition set_queue_counters enqueued full stale depth capacity inflight workers hit miss
    (m : LiveRpcSimulationMetricsSnapshot) : LiveRpcSimulationMetricsSnapshot :=
  mkSimMetrics enqueued (sim_completed_total m) (sim_ok_total m) (sim_failed_total m)
    (sim_state_error_total m) (sim_timeout_total m) full stale depth capacity inflight workers hit miss
    (sim_tx_total m) (sim_last_latency_ms m) (sim_max_latency_ms m) (sim_total_latency_ms m)
    (revert_fail_total m) (out_of_gas_fail_total m) (nonce_mismatch_fail_total m)
    (state_mismatch_fail_total m) (unknown_fail_total m) (state_rpc_fail_total m)
    (state_timeout_fail_total m).

Definition configure_simulation_queue (queue_capacity worker_total : N) (m : LiveRpcSimulationMetricsSnapshot) :=
  set_queue_counters (sim_enqueued_total m) (sim_queue_full_drop_total m) (sim_stale_drop_total m)
    (sim_queue_depth m) queue_capacity (sim_inflight_current m) worker_total (sim_cache_hit_total m)
    (sim_cache_miss_total m) m.
Definition observe_simulation_enqueue (m : LiveRpcSimulationMetricsSnapshot) :=
  set_queue_counters (incr (sim_enqueued_total m)) (sim_queue_full_drop_total m) (sim_stale_drop_total m)
    (incr (sim_queue_depth m)) (sim_queue_capacity m) (sim_inflight_current m) (sim_worker_total m)
    (sim_cache_hit_total m) (sim_cache_miss_total m) m.
Definition observe_simulation_dequeue (m : LiveRpcSimulationMetricsSnapshot) :=
  set_queue_counters (sim_enqueued_total m) (sim_queue_full_drop_total m) (sim_stale_drop_total m)
    (sat_sub (sim_queue_depth m) 1) (sim_queue_capacity m) (incr (sim_inflight_current m))
    (sim_worker_total m) (sim_cache_hit_total m) (sim_cache_miss_total m) m.
Definition observe_simulation_finish (m : LiveRpcSimulationMetricsSnapshot) :=
  set_queue_counters (sim_enqueued_total m) (sim_queue_full_drop_total m) (sim_stale_drop_total m)
    (sim_queue_depth m) (sim_queue_capacity m) (sat_sub (sim_inflight_current m) 1)
    (sim_worker_total m) (sim_cache_hit_total m) (sim_cache_miss_total m) m.
Definition observe_simulation_queue_full_drop (m : LiveRpcSimulationMetricsSnapshot) :=
  set_queue_counters (sim_enqueued_total m) (incr (sim_queue_full_drop_total m)) (sim_stale_drop_total m)
    (sim_queue_depth m) (sim_queue_capacity m) (sim_inflight_current m)
    (sim_worker_total m) (sim_cache_hit_total m) (sim_cache_miss_total m) m.
Definition observe_simulation_stale_drop (m : LiveRpcSimulationMetricsSnapshot) :=
  set_queue_counters (sim_enqueued_total m) (sim_queue_full_drop_total m) (incr (sim_stale_drop_total m))
    (sim_queue_depth m) (sim_queue_capacity m) (sim_inflight_current m)
    (sim_worker_total m) (sim_cache_hit_total m) (sim_cache_miss_total m) m.
Definition observe_simulation_cache_hit (m : LiveRpcSimulationMetricsSnapshot) :=
  set_queue_counters (sim_enqueued_total m) (sim_queue_full_drop_total m) (sim_stale_drop_total m)
    (sim_queue_depth m) (sim_queue_capacity m) (sim_inflight_current m)
    (sim_worker_total m) (incr (sim_cache_hit_total m)) (sim_cache_miss_total m) m.
Definition observe_simulation_cache_miss (m : LiveRpcSimulationMetricsSnapshot) :=
  set_queue_counters (sim_enqueued_total m) (sim_queue_full_drop_total m) (sim_stale_drop_total m)
    (sim_queue_depth m) (sim_queue_capacity m) (sim_inflight_current m)
    (sim_worker_total m) (sim_cache_hit_total m) (incr (sim_cache_miss_total m)) m.

Definition known_fail_categories : list string :=
  ["revert"; "out_of_gas"; "nonce_mismatch"; "state_mismatch"; "state_rpc"; "state_timeout"].
(** [bump c n] is [n.saturating_add(1)] in the arm that [c] selects. *)
Definition bump (c : bool) (n : N) : N := if c then incr n else n.

(** The two [match]es select one status counter and one category counter. *)
Definition observe_simulation_result (status : string) (latency_ms tx_count : N) (fail_category : option string)
    (m : LiveRpcSimulationMetricsSnapshot) : LiveRpcSimulationMetricsSnapshot :=
  let status_is s := bool_decide (status = s) in
  let failed_by s := bool_decide (fail_category = Some s) in
  let other := match fail_category with Some c => bool_decide (c ∉ known_fail_categories) | None => false end in
  mkSimMetrics (sim_enqueued_total m) (incr (sim_completed_total m))
    (bump (status_is "ok") (sim_ok_total m)) (bump (status_is "failed") (sim_failed_total m))
    (bump (status_is "state_error") (sim_state_error_total m)) (bump (status_is "timeout") (sim_timeout_total m))
    (sim_queue_full_drop_total m) (sim_stale_drop_total m) (sim_queue_depth m) (sim_queue_capacity m)
    (sim_inflight_current m) (sim_worker_total m) (sim_cache_hit_total m) (sim_cache_miss_total m)
    (sat_add u64_max (sim_tx_total m) tx_count) latency_ms (N.max (sim_max_latency_ms m) latency_ms)
    (sat_add u64_max (sim_total_latency_ms m) latency_ms)
    (bump (failed_by "revert") (revert_fail_total m))
    (bump (failed_by "out_of_gas") (out_of_gas_fail_total m))
    (bump (failed_by "nonce_mismatch") (nonce_mismatch_fail_total m))
    (bump (failed_by "state_mismatch") (state_mismatch_fail_total m))
    (bump other (unknown_fail_total m))
    (bump (failed_by "state_rpc") (state_rpc_fail_total m))
    (bump (failed_by "state_timeout") (state_timeout_fail_total m)).

(** ** Stores *)
Definition record_simulation_status (snapshot : LiveRpcSimulationStatusSnapshot) (st : SimulationStatusStore) :
    SimulationStatusStore :=
  mkStatusStore (Some snapshot) (<[ss_id snapshot := snapshot]> (sts_by_id st)).
Definition simulation_status (id : string) (st : SimulationStatusStore) : option LiveRpcSimulationStatusSnapshot :=
  if bool_decide (id = "latest") then sts_latest st else sts_by_id st !! id.

Definition cached_account_seed (http_url : string) (address : Address) (block_number : N) (now_unix_ms ttl_ms : Z)
    (cache : gmap (string * Address) CachedAccountSeed) : option AccountSeed :=
  entry ← cache !! (http_url, address);
  if negb (ca_block_number entry =? block_number)%N then None
  else if (ttl_ms <? i64_sat_sub now_unix_ms (ca_cached_at_unix_ms entry))%Z then None
  else Some (ca_seed entry).
Definition cache_account_seed (http_url : string) (address : Address) (block_number : N) (cached_at_unix_ms : Z)
    (seed : AccountSeed) (cache : gmap (string * Address) CachedAccountSeed) :
    gmap (string * Address) CachedAccountSeed :=
  <[(http_url, address) := mkCachedSeed seed block_number cached_at_unix_ms]> cache.

(** [chain_status]: [silent_for_ms] is filled in on reading. *)
Definition with_silence (now_unix_ms : Z) (status : LiveRpcChainStatus) : LiveRpcChainStatus :=
  let silent :=
    last_seen ← cs_last_pending_unix_ms status;
    let elapsed_ms := i64_sat_sub now_unix_ms last_seen in
    if (elapsed_ms <? 0)%Z then None else Some (Z.to_N elapsed_ms) in
  mkChainStatus (cs_chain_key status) (cs_chain_id status) (cs_source_id status) (cs_state status)
    (cs_endpoint_index status) (cs_endpoint_count status) (cs_ws_url status) (cs_http_url status)
    (cs_last_pending_unix_ms status) silent (cs_updated_unix_ms status) (cs_last_error status)
    (cs_rotation_count status).
Definition chain_status (now_unix_ms : Z) (m : gmap string LiveRpcChainStatus) : list LiveRpcChainStatus :=
  with_silence now_unix_ms <$> bt_values m.
Definition upsert_chain_status (status : LiveRpcChainStatus) (m : gmap string LiveRpcChainStatus) :
    gmap string LiveRpcChainStatus :=
  <[cs_chain_key status := status]> m.

(** ** What the counters of the simulation queue say *)

(** The updates of the simulation counters, in the order in which the lock
    serialises them. *)
Inductive SimObservation :=
  | ObsConfigure (queue_capacity worker_total : N)
  | ObsEnqueue | ObsDequeue | ObsFinish | ObsQueueFull | ObsStale | ObsCacheHit | ObsCacheMiss
  | ObsResult (status : string) (latency_ms tx_count : N) (fail_category : option string).
#[export] Instance SimObservation_eq_dec : EqDecision SimObservation.
Proof. solve_decision. Defined.

Definition observe (m : LiveRpcSimulationMetricsSnapshot) (o : SimObservation) : LiveRpcSimulationMetricsSnapshot :=
  match o with
  | ObsConfigure queue_capacity worker_total => configure_simulation_queue queue_capacity worker_total m
  | ObsEnqueue => observe_simulation_enqueue m
  | ObsDequeue => observe_simulation_dequeue m
  | ObsFinish => observe_simulation_finish m
  | ObsQueueFull => observe_simulation_queue_full_drop m
  | ObsStale => observe_simulation_stale_drop m
  | ObsCacheHit => observe_simulation_cache_hit m
  | ObsCacheMiss => observe_simulation_cache_miss m
  | ObsResult status latency_ms tx_count fail_category =>
      observe_simulation_result status latency_ms tx_count fail_category m
  end.
Definition observed (obs : list SimObservation) : LiveRpcSimulationMetricsSnapshot :=
  foldl observe simulation_metrics_default obs.

Definition count_obs (o : SimObservation) (obs : list SimObservation) : Z :=
  Z.of_nat (length (List.filter (fun o' => bool_decide (o' = o)) obs)).
(** By how much [late] runs ahead of [early] at worst, over the prefixes. *)
Definition worst_lead (early late : SimObservation) (obs : list SimObservation) : Z :=
  foldr Z.max 0%Z
    ((fun n => (count_obs late (take n obs) - count_obs early (take n obs))%Z) <$> seq 0 (S (length obs))).

Lemma count_obs_snoc o obs o' :
  count_obs o (obs ++ [o']) = (count_obs o obs + if bool_decide (o' = o) then 1 else 0)%Z.
Proof. unfold count_obs. rewrite List.filter_app, length_app. cbn. case_bool_decide; cbn; lia. Qed.

Lemma count_obs_nonneg o obs : (0 <= count_obs o obs <= Z.of_nat (length obs))%Z.
Proof. unfold count_obs. pose proof (List.filter_length_le (fun o' => bool_decide (o' = o)) obs). lia. Qed.

Lemma foldr_max_app l1 l2 : foldr Z.max 0%Z (l1 ++ l2) = Z.max (foldr Z.max 0%Z l1) (foldr Z.max 0%Z l2).
Proof.
  assert (forall l, (0 <= foldr Z.max 0%Z l)%Z) as H0 by (intros l; induction l; cbn; lia).
  induction l1 as [|x l1 IH]; cbn; [specialize (H0 l2); lia|]. lia.
Qed.

Lemma worst_lead_snoc early late obs o :
  worst_lead early late (obs ++ [o]) =
    Z.max (worst_lead early late obs) (count_obs late (obs ++ [o]) - count_obs early (obs ++ [o])).
Proof.
  unfold worst_lead. rewrite length_app, Nat.add_1_r, (seq_S (S (length obs))), fmap_app, foldr_max_app.
  cbn [Nat.add fmap list_fmap foldr]. rewrite (take_ge (obs ++ [o])) by (rewrite length_app; cbn; lia).
  erewrite (list_fmap_ext _ (fun n => (count_obs late (take n obs) - count_obs early (take n obs))%Z)).
  2: { intros i n Hn. apply lookup_seq in Hn as [-> Hlt]. by rewrite take_app_le by lia. }
  enough (forall l, (0 <= foldr Z.max 0%Z l)%Z) as H0.
  { match goal with |- context [foldr Z.max 0%Z ?l] => specialize (H0 l) end. lia. }
  intros l. induction l; cbn; lia.
Qed.

Lemma worst_lead_bounds early late obs :
  (0 <= worst_lead early late obs <= count_obs late obs /\
   count_obs late obs - count_obs early obs <= worst_lead early late obs)%Z.
Proof.
  induction obs as [|o obs IH] using rev_ind; [unfold worst_lead, count_obs; cbn; lia|].
  rewrite worst_lead_snoc, !count_obs_snoc. pose proof (count_obs_nonneg early obs).
  pose proof (count_obs_nonneg late obs). repeat case_bool_decide; lia.
Qed.

(** The depth and the number of running simulations that the counters
    show, for any order in which the enqueueing tasks and the workers get the
    lock.  The depth is the number of counted enqueues minus the number of
    counted dequeues, plus the worst lead that the dequeues ever had over the
    enqueues.  A worker may take a task before its enqueue is counted (the
    send comes first), the decrement at zero is then lost, and the depth stays
    too high by that lead for the rest of the run; it is exact when no dequeue
    overtakes its enqueue.  A worker counts its own finish after its dequeue,
    so that the running number is exact. *)
Theorem simulation_depth_exact obs (Hfit : (Z.of_nat (length obs) <= Z.of_N u64_max)%Z) :
  let m := observed obs in
  Z.of_N (sim_queue_depth m) =
    (count_obs ObsEnqueue obs - count_obs ObsDequeue obs + worst_lead ObsEnqueue ObsDequeue obs)%Z /\
  Z.of_N (sim_inflight_current m) =
    (count_obs ObsDequeue obs - count_obs ObsFinish obs + worst_lead ObsDequeue ObsFinish obs)%Z.
Proof.
  cbv zeta. induction obs as [|o obs IH] using rev_ind; [done|].
  rewrite length_app in Hfit. cbn [length] in Hfit. destruct (IH ltac:(lia)) as [Hd Hi]. clear IH.
  unfold observed in *. rewrite !foldl_snoc, !worst_lead_snoc, !count_obs_snoc.
  set (m := foldl observe simulation_metrics_default obs) in *.
  pose proof (count_obs_nonneg ObsEnqueue obs). pose proof (count_obs_nonneg ObsDequeue obs).
  pose proof (count_obs_nonneg ObsFinish obs).
  pose proof (worst_lead_bounds ObsEnqueue ObsDequeue obs). pose proof (worst_lead_bounds ObsDequeue ObsFinish obs).
  destruct o; cbn [observe configure_simulation_queue observe_simulation_enqueue observe_simulation_dequeue
    observe_simulation_finish observe_simulation_queue_full_drop observe_simulation_stale_drop
    observe_simulation_cache_hit observe_simulation_cache_miss observe_simulation_result set_queue_counters
    sim_queue_depth sim_inflight_current]; repeat case_bool_decide; try congruence;
    unfold incr, sat_add, sat_sub, u64_max in *; lia.
Qed.

(** An observation as the simulation workers make it: one of the four labels,
    with a category exactly when the simulation did not succeed. *)
Definition result_labelled (o : SimObservation) : Prop :=
  match o with
  | ObsResult status _ _ fail_category =>
      status ∈ ["ok"; "failed"; "state_error"; "timeout"] /\ (fail_category = None <-> status = "ok")
  | _ => True
  end.
Definition is_result (o : SimObservation) : bool := match o with ObsResult _ _ _ _ => true | _ => false end.
Definition latency_of (o : SimObservation) : option N :=
  match o with ObsResult _ latency_ms _ _ => Some latency_ms | _ => None end.

(** What the counters of results satisfy after any history. *)
Record results_balanced (obs : list SimObservation) (m : LiveRpcSimulationMetricsSnapshot) : Prop := {
  rb_completed : sim_completed_total m = usize_of (length (List.filter is_result obs));
  rb_status : sim_completed_total m =
    (sim_ok_total m + sim_failed_total m + sim_state_error_total m + sim_timeout_total m)%N;
  rb_category : (revert_fail_total m + out_of_gas_fail_total m + nonce_mismatch_fail_total m +
      state_mismatch_fail_total m + unknown_fail_total m + state_rpc_fail_total m + state_timeout_fail_total m =
    sim_failed_total m + sim_state_error_total m + sim_timeout_total m)%N;
  rb_max : sim_max_latency_ms m = foldr N.max 0%N (omap latency_of obs);
  rb_last : sim_last_latency_ms m = default 0%N (list.last (omap latency_of obs));
}.

Lemma bump_one c n : (n < u64_max)%N -> bump c n = (n + if c then 1 else 0)%N.
Proof. unfold bump, incr, sat_add. destruct c; lia. Qed.

Lemma category_count (s : string) :
  let one t := if bool_decide (Some s = Some t) then 1%N else 0%N in
  (one "revert" + one "out_of_gas" + one "nonce_mismatch" + one "state_mismatch" +
   (if bool_decide (s ∉ known_fail_categories) then 1 else 0) + one "state_rpc" + one "state_timeout" = 1)%N.
Proof.
  cbv zeta. unfold known_fail_categories.
  destruct (decide (s ∈ known_fail_categories)) as [Hs|Hs].
  - rewrite (bool_decide_false (s ∉ _)) by naive_solver. unfold known_fail_categories in Hs.
    repeat (apply elem_of_cons in Hs as [->|Hs]; [vm_compute; reflexivity|]). by apply elem_of_nil in Hs.
  - rewrite (bool_decide_true (s ∉ _)) by done. unfold known_fail_categories in Hs.
    repeat (apply not_elem_of_cons in Hs as [? Hs]). repeat (rewrite bool_decide_false by congruence). done.
Qed.

Lemma status_count (s : string) :
  s ∈ ["ok"; "failed"; "state_error"; "timeout"] ->
  let one t := if bool_decide (s = t) then 1%N else 0%N in
  (one "ok" + one "failed" + one "state_error" + one "timeout" = 1)%N.
Proof.
  intros Hs. cbv zeta. repeat (apply elem_of_cons in Hs as [->|Hs]; [vm_compute; reflexivity|]).
  by apply elem_of_nil in Hs.
Qed.

(** Every finished simulation is counted once under one status and, when
    it did not succeed, once under one failure category, for every history of
    updates: the completed total is the number of results and the sum of the
    four status totals, the seven category totals add up to the unsuccessful
    ones, and the latency gauges are the greatest and the latest latency. *)
Theorem simulation_results_balance obs
    (Hlab : Forall result_labelled obs) (Hfit : (usize_of (length obs) <= u64_max)%N) :
  results_balanced obs (observed obs).
Proof.
  induction obs as [|o obs IH] using rev_ind; [by split|].
  apply Forall_app in Hlab as [Hlab Ho]. rewrite Forall_singleton in Ho.
  rewrite length_app in Hfit. unfold usize_of in *. cbn [length] in Hfit.
  destruct (IH Hlab ltac:(lia)) as [Hc Hs Hk Hm Hl]. clear IH. unfold observed in *. rewrite foldl_snoc.
  set (m := foldl observe simulation_metrics_default obs) in *.
  assert (sim_completed_total m < u64_max)%N as Hlt.
  { rewrite Hc. unfold usize_of. pose proof (List.filter_length_le is_result obs). lia. }
  destruct (is_result o) eqn:Er.
  2: { split; rewrite ?List.filter_app, ?omap_app; cbn [List.filter]; rewrite ?Er;
       (destruct o; [..|discriminate Er]); cbn [omap list_omap latency_of]; rewrite ?app_nil_r; done. }
  destruct o as [| | | | | | | |status latency tx_count category]; try discriminate Er.
  destruct Ho as [Hst Hcat]. pose proof (status_count status Hst) as Hone.
  split; rewrite ?List.filter_app, ?omap_app, ?last_snoc; cbn [observe observe_simulation_result List.filter is_result
    omap list_omap latency_of sim_completed_total sim_ok_total sim_failed_total sim_state_error_total
    sim_timeout_total sim_max_latency_ms sim_last_latency_ms revert_fail_total out_of_gas_fail_total
    nonce_mismatch_fail_total state_mismatch_fail_total unknown_fail_total state_rpc_fail_total
    state_timeout_fail_total].
  - rewrite length_app. unfold incr, sat_add, usize_of in *. cbn [length]. lia.
  - rewrite !bump_one by lia. unfold incr, sat_add. cbv beta zeta in Hone. lia.
  - rewrite !bump_one by lia. cbv beta zeta in Hone. destruct category as [c|].
    + pose proof (category_count c) as Hc1. cbv beta zeta in Hc1.
      rewrite (bool_decide_false (status = "ok")) in Hone by (intros E; by apply Hcat in E). lia.
    + rewrite (proj1 Hcat eq_refl) in Hone |- *. repeat (rewrite bool_decide_false in * by done). lia.
  - rewrite Hm. clear. induction (omap latency_of obs); cbn; lia.
  - by rewrite last_snoc.
Qed.
