(* ===== verification/VizMetrics.v ===== *)
(** * VizMetrics: the text of the metrics endpoint

    [src/crates/viz-api/src/lib.rs], [render_prometheus_metrics]: the snapshots
    it reads, the families of samples it writes and their text; a reader of
    that text, and what it reads back. *)
From stdpp Require Import base gmap strings list numbers pretty.
From S2P Require Import Prelude Common EventLog Scheduler SchedulerActor Assembly RelayClient F64 Alerts Wal Text LiveState Recovery.

(** ** Numbers in decimal *)

(** [{x:.k}]: [x] rounded to [k] decimals, ties to even, with all [k] digits
    after the point. *)
Definition fixed_units (decimals : nat) (x : f64) : N :=
  div_ne (scale_den (f_mant x * 10 ^ N.of_nat decimals) (f_exp x)) (scale_num 1 (f_exp x)).
Definition format_fixed (decimals : nat) (x : f64) : string :=
  let units := fixed_units decimals x in
  pretty (units / 10 ^ N.of_nat decimals)%N +:+ "." +:+
    string_of_bytes (dec_pad decimals (units mod 10 ^ N.of_nat decimals)).

(** ** Families of samples *)
Inductive metric_value := IntValue (n : N) | FixedValue (decimals : nat) (x : f64).
Record family := mkFamily {
  fam_name : string;
  fam_kind : string;
  fam_samples : list (option (string * string) * metric_value);
}.
Definition single (name kind : string) (v : metric_value) : family := mkFamily name kind [(None, v)].
Definition labelled (label value : string) (v : metric_value) : option (string * string) * metric_value :=
  (Some (label, value), v).

Definition render_value (v : metric_value) : string :=
  match v with IntValue n => pretty n | FixedValue decimals x => format_fixed decimals x end.
(** A double quote, as a string. *)
Definition quote : string := String (Ascii.ascii_of_N 34) "".
Definition series (name : string) (label : option (string * string)) : string :=
  match label with
  | Some (l, v) => name +:+ "{" +:+ l +:+ "=" +:+ quote +:+ v +:+ quote +:+ "}"
  | None => name
  end.
Definition newline_str : string := String (Ascii.ascii_of_N 10) "".
Definition family_lines (f : family) : list string :=
  ("# TYPE " +:+ fam_name f +:+ " " +:+ fam_kind f) ::
    ((fun s => series (fam_name f) s.1 +:+ " " +:+ render_value s.2) <$> fam_samples f).
Definition render_families (fs : list family) : string :=
  foldr (fun line text => line +:+ newline_str +:+ text) "" (fs ≫= family_lines).

(** ** What the endpoint reads *)
Record DashboardCacheMetrics := mkCacheMetrics {
  dc_refresh_total : N;
  dc_last_build_duration_ns : N;
  dc_total_build_duration_ns : N;
  dc_estimated_bytes : N;
}.
Record PrometheusInputs := mkInputs {
  pm_snapshot : MetricSnapshot;
  pm_cache : DashboardCacheMetrics;
  pm_drops : LiveRpcDropMetricsSnapshot;
  pm_scheduler : SchedulerMetrics;
  pm_builder : AssemblyMetrics;
  pm_searcher : LiveRpcSearcherMetricsSnapshot;
  pm_replay : ReplayRuntimeMetricsSnapshot;
  pm_sim : LiveRpcSimulationMetricsSnapshot;
  pm_relay : RelayDryRunStatus;
}.

Definition relay_success_rate (m : PrometheusInputs) : f64 :=
  if (rs_total_submissions (pm_relay m) =? 0)%N then f64_of_N 0
  else f64_div (f64_of_N (rs_total_accepted (pm_relay m))) (f64_of_N (rs_total_submissions (pm_relay m))).
Definition avg_build_ms (m : PrometheusInputs) : f64 :=
  if (dc_refresh_total (pm_cache m) =? 0)%N then f64_of_N 0
  else f64_div (f64_div (f64_of_N (dc_total_build_duration_ns (pm_cache m))) (f64_of_N (dc_refresh_total (pm_cache m))))
         (f64_of_N 1000000).
Definition last_build_ms (m : PrometheusInputs) : f64 :=
  f64_div (f64_of_N (dc_last_build_duration_ns (pm_cache m))) (f64_of_N 1000000).

Definition metric_families (m : PrometheusInputs) : list family :=
  [
   single "mempulse_ingest_queue_depth" "gauge" (IntValue (mt_queue_depth_current (pm_snapshot m)));
   single "mempulse_ingest_queue_capacity" "gauge" (IntValue (mt_queue_depth_capacity (pm_snapshot m)));
   single "mempulse_ingest_decode_fail_total" "counter" (IntValue (mt_tx_decode_fail_total (pm_snapshot m)));
   single "mempulse_ingest_decode_total" "counter" (IntValue (mt_tx_decode_total (pm_snapshot m)));
   single "mempulse_ingest_lag_ms" "gauge" (IntValue (mt_ingest_lag_ms (pm_snapshot m)));
   single "mempulse_ingest_tx_per_sec_current" "gauge" (IntValue (mt_tx_per_sec_current (pm_snapshot m)));
   single "mempulse_ingest_tx_per_sec_baseline" "gauge" (IntValue (mt_tx_per_sec_baseline (pm_snapshot m)));
   mkFamily "mempulse_ingest_drops_total" "counter"
     [labelled "reason" "decode_fail" (IntValue (mt_tx_decode_fail_total (pm_snapshot m)));
      labelled "reason" "storage_queue_full" (IntValue (drop_storage_queue_full (pm_drops m)));
      labelled "reason" "storage_queue_closed" (IntValue (drop_storage_queue_closed (pm_drops m)));
      labelled "reason" "invalid_pending_hash" (IntValue (drop_invalid_pending_hash (pm_drops m)))];
   single "mempulse_scheduler_admitted_total" "counter" (IntValue (m_admitted_total (pm_scheduler m)));
   single "mempulse_scheduler_duplicate_total" "counter" (IntValue (m_duplicate_total (pm_scheduler m)));
   single "mempulse_scheduler_replacement_total" "counter" (IntValue (m_replacement_total (pm_scheduler m)));
   single "mempulse_scheduler_underpriced_replacement_total" "counter" (IntValue (m_underpriced_replacement_total (pm_scheduler m)));
   single "mempulse_scheduler_sender_limit_drop_total" "counter" (IntValue (m_sender_limit_drop_total (pm_scheduler m)));
   single "mempulse_scheduler_queue_full_drop_total" "counter" (IntValue (m_queue_full_drop_total (pm_scheduler m)));
   single "mempulse_scheduler_pending_total" "gauge" (IntValue (m_pending_total (pm_scheduler m)));
   single "mempulse_scheduler_ready_total" "gauge" (IntValue (m_ready_total (pm_scheduler m)));
   single "mempulse_scheduler_blocked_total" "gauge" (IntValue (m_blocked_total (pm_scheduler m)));
   single "mempulse_scheduler_sender_total" "gauge" (IntValue (m_sender_total (pm_scheduler m)));
   single "mempulse_scheduler_queue_depth" "gauge" (IntValue (m_queue_depth (pm_scheduler m)));
   single "mempulse_scheduler_queue_depth_peak" "gauge" (IntValue (m_queue_depth_peak (pm_scheduler m)));
   single "mempulse_scheduler_handoff_queue_capacity" "gauge" (IntValue (m_handoff_queue_capacity (pm_scheduler m)));
   single "mempulse_builder_inserted_total" "counter" (IntValue (inserted_total (pm_builder m)));
   single "mempulse_builder_replaced_total" "counter" (IntValue (replaced_total (pm_builder m)));
   single "mempulse_builder_rejected_total" "counter" (IntValue (rejected_total (pm_builder m)));
   mkFamily "mempulse_builder_rejected_reason_total" "counter"
     [labelled "reason" "simulation_not_approved" (IntValue (rejected_simulation_not_approved_total (pm_builder m)));
      labelled "reason" "objective_not_improved" (IntValue (rejected_objective_not_improved_total (pm_builder m)));
      labelled "reason" "block_gas_limit_exceeded" (IntValue (rejected_gas_limit_total (pm_builder m)))];
   single "mempulse_builder_rollback_total" "counter" (IntValue (rollback_total (pm_builder m)));
   single "mempulse_builder_active_candidate_total" "gauge" (IntValue (active_candidate_total (pm_builder m)));
   single "mempulse_builder_total_priority_score" "gauge" (IntValue (total_priority_score (pm_builder m)));
   single "mempulse_builder_total_gas_used" "gauge" (IntValue (total_gas_used (pm_builder m)));
   single "mempulse_builder_last_decision_latency_ns" "gauge" (IntValue (last_decision_latency_ns (pm_builder m)));
   single "mempulse_builder_max_decision_latency_ns" "gauge" (IntValue (max_decision_latency_ns (pm_builder m)));
   single "mempulse_builder_total_decision_latency_ns" "counter" (IntValue (total_decision_latency_ns (pm_builder m)));
   single "mempulse_searcher_executable_batches_total" "counter" (IntValue (executable_batches_total (pm_searcher m)));
   single "mempulse_searcher_executable_candidates_total" "counter" (IntValue (executable_candidates_total (pm_searcher m)));
   single "mempulse_searcher_executable_bundle_candidates_total" "counter" (IntValue (executable_bundle_candidates_total (pm_searcher m)));
   single "mempulse_searcher_max_executable_candidates_in_batch" "gauge" (IntValue (max_executable_candidates_in_batch (pm_searcher m)));
   single "mempulse_searcher_comparison_batches_total" "counter" (IntValue (comparison_batches_total (pm_searcher m)));
   single "mempulse_searcher_executable_top_score_total" "counter" (IntValue (executable_top_score_total (pm_searcher m)));
   single "mempulse_searcher_executable_top_score_wins_total" "counter" (IntValue (executable_top_score_wins_total (pm_searcher m)));
   single "mempulse_searcher_top_score_ties_total" "counter" (IntValue (top_score_ties_total (pm_searcher m)));
   single "mempulse_searcher_overlapping_candidates_total" "counter" (IntValue (overlapping_candidates_total (pm_searcher m)));
   single "mempulse_searcher_executable_only_candidates_total" "counter" (IntValue (executable_only_candidates_total (pm_searcher m)));
   single "mempulse_dashboard_cache_refresh_total" "counter" (IntValue (dc_refresh_total (pm_cache m)));
   single "mempulse_dashboard_cache_last_build_ms" "gauge" (FixedValue 3 (last_build_ms m));
   single "mempulse_dashboard_cache_avg_build_ms" "gauge" (FixedValue 3 (avg_build_ms m));
   single "mempulse_dashboard_cache_estimated_bytes" "gauge" (IntValue (dc_estimated_bytes (pm_cache m)));
   single "mempulse_replay_lag_events" "gauge" (IntValue (lag_events (pm_replay m)));
   single "mempulse_replay_checkpoint_duration_ms" "gauge" (IntValue (checkpoint_duration_ms (pm_replay m)));
   single "mempulse_replay_tail_reorged_tx_total" "gauge" (IntValue (reorg_depth (pm_replay m)));
   single "mempulse_sim_enqueued_total" "counter" (IntValue (sim_enqueued_total (pm_sim m)));
   single "mempulse_sim_queue_depth" "gauge" (IntValue (sim_queue_depth (pm_sim m)));
   single "mempulse_sim_queue_capacity" "gauge" (IntValue (sim_queue_capacity (pm_sim m)));
   single "mempulse_sim_inflight_current" "gauge" (IntValue (sim_inflight_current (pm_sim m)));
   single "mempulse_sim_worker_total" "gauge" (IntValue (sim_worker_total (pm_sim m)));
   single "mempulse_sim_latency_ms" "gauge" (IntValue (sim_last_latency_ms (pm_sim m)));
   mkFamily "mempulse_sim_completed_total" "counter"
     [labelled "status" "ok" (IntValue (sim_ok_total (pm_sim m)));
      labelled "status" "failed" (IntValue (sim_failed_total (pm_sim m)));
      labelled "status" "state_error" (IntValue (sim_state_error_total (pm_sim m)));
      labelled "status" "timeout" (IntValue (sim_timeout_total (pm_sim m)))];
   single "mempulse_sim_cache_hits_total" "counter" (IntValue (sim_cache_hit_total (pm_sim m)));
   single "mempulse_sim_cache_misses_total" "counter" (IntValue (sim_cache_miss_total (pm_sim m)));
   single "mempulse_sim_tx_total" "counter" (IntValue (sim_tx_total (pm_sim m)));
   mkFamily "mempulse_sim_fail_total" "counter"
     [labelled "category" "revert" (IntValue (revert_fail_total (pm_sim m)));
      labelled "category" "out_of_gas" (IntValue (out_of_gas_fail_total (pm_sim m)));
      labelled "category" "nonce_mismatch" (IntValue (nonce_mismatch_fail_total (pm_sim m)));
      labelled "category" "state_mismatch" (IntValue (state_mismatch_fail_total (pm_sim m)));
      labelled "category" "state_rpc" (IntValue (state_rpc_fail_total (pm_sim m)));
      labelled "category" "state_timeout" (IntValue (state_timeout_fail_total (pm_sim m)));
      labelled "category" "unknown" (IntValue (unknown_fail_total (pm_sim m)))];
   mkFamily "mempulse_sim_drop_total" "counter"
     [labelled "reason" "queue_full" (IntValue (sim_queue_full_drop_total (pm_sim m)));
      labelled "reason" "stale" (IntValue (sim_stale_drop_total (pm_sim m)))];
   single "mempulse_relay_success_rate" "gauge" (FixedValue 6 (relay_success_rate m));
   single "mempulse_relay_bundle_included_total" "counter" (IntValue (rs_total_accepted (pm_relay m)));
   mkFamily "mempulse_relay_bundle_filtered_total" "counter"
     [labelled "reason" "dry_run_failed" (IntValue (rs_total_failed (pm_relay m)))]  ].
Definition render_prometheus_metrics (m : PrometheusInputs) : string := render_families (metric_families m).

(** ** Reading the text back *)

(** A value as units of a power of ten: [(n, k)] is [n / 10 ^ k]. *)
Fixpoint split_at (sep : N) (l : list N) : option (list N * list N) :=
  match l with
  | [] => None
  | b :: l' => if (b =? sep)%N then Some ([], l') else (fun '(x, y) => (b :: x, y)) <$> split_at sep l'
  end.
Definition read_value (l : list N) : option (N * nat) :=
  match split_at 46 l with
  | Some (whole, frac) => n ← parse_u64 (whole ++ frac); Some (n, length frac)
  | None => n ← parse_u64 l; Some (n, 0%nat)
  end.
(** A line that is no comment: its series and its value. *)
Definition read_sample (line : list N) : option (list N * (N * nat)) :=
  match line with
  | 35%N :: _ => None
  | _ => '(name, value) ← split_at 32 line; v ← read_value value; Some (name, v)
  end.
Definition read_metrics (text : string) : list (list N * (N * nat)) := omap read_sample (lines (str_bytes text)).

(** The samples of some families, and the number each stands for. *)
Definition value_units (v : metric_value) : N * nat :=
  match v with IntValue n => (n, 0%nat) | FixedValue decimals x => (fixed_units decimals x, decimals) end.
Definition samples (fs : list family) : list (string * metric_value) :=
  fs ≫= fun f => (fun s => (series (fam_name f) s.1, s.2)) <$> fam_samples f.

(** ** Decimal lemmas *)
Definition digits (l : list N) : Prop := Forall (fun b => 48 <= b <= 57)%N l.

(** Padded digits after a number shift it and add theirs. *)
Lemma parse_dec_pad_after k acc r : (r < 10 ^ N.of_nat k)%N -> (acc * 10 ^ N.of_nat k + r <= u64_max)%N ->
  parse_digits acc (dec_pad k r) = Some (acc * 10 ^ N.of_nat k + r)%N.
Proof.
  revert r. induction k as [|k IH]; intros r Hr Hmax.
  - cbn in *. f_equal. lia.
  - assert (10 ^ N.of_nat (S k) = 10 * 10 ^ N.of_nat k)%N as E by (by rewrite Nat2N.inj_succ, N.pow_succ_r').
    rewrite E in *. set (p := (10 ^ N.of_nat k)%N) in *. cbn [dec_pad].
    pose proof (N.div_mod r 10 ltac:(done)) as D. pose proof (N.mod_lt r 10 ltac:(done)) as Hm.
    revert D Hm. specialize (IH (r / 10)%N). revert IH. generalize (r / 10)%N, (r mod 10)%N. intros q d IH D Hm.
    rewrite (parse_digit_snoc _ _ _ (acc * p + q)); [f_equal; lia|apply IH; lia|done|lia].
Qed.

Lemma split_at_app sep l rest : sep ∉ l -> split_at sep (l ++ sep :: rest) = Some (l, rest).
Proof.
  induction l as [|b l IH]; cbn; intros H; [by rewrite N.eqb_refl|].
  rewrite (proj2 (N.eqb_neq _ _)) by set_solver. by rewrite IH by set_solver.
Qed.
Lemma split_at_none sep l : sep ∉ l -> split_at sep l = None.
Proof. induction l as [|b l IH]; cbn; intros H; [done|]. rewrite (proj2 (N.eqb_neq _ _)) by set_solver. by rewrite IH by set_solver. Qed.

Lemma digits_no l b : digits l -> (b < 48)%N -> b ∉ l.
Proof. intros Hl Hb Hin. apply (proj1 (Forall_forall _ _) Hl) in Hin. lia. Qed.

(** A value is read back as what it stands for. *)
Lemma read_value_render v : ((value_units v).1 <= u64_max)%N -> read_value (str_bytes (render_value v)) = Some (value_units v).
Proof.
  destruct v as [n|k x]; cbn [value_units fst render_value]; intros Hmax; unfold read_value.
  - rewrite split_at_none by (apply digits_no; [by apply pretty_digits|lia]). by rewrite parse_pretty_u64.
  - unfold format_fixed. set (u := fixed_units k x) in *. set (p := (10 ^ N.of_nat k)%N).
    assert (p <> 0)%N as Hp by (apply N.pow_nonzero; lia). pose proof (N.div_mod u p Hp) as D.
    pose proof (N.mod_lt u p Hp) as Hlt. assert (u / p <= u)%N as Hq by (apply N.Div0.div_le_upper_bound; nia).
    rewrite !str_bytes_app, str_of_bytes by (eapply Forall_impl; [apply dec_pad_digits|]; cbn; lia).
    change (str_bytes ".") with [46%N]. cbn [app]. rewrite split_at_app by (apply digits_no; [apply pretty_digits; lia|lia]).
    rewrite dec_pad_length. unfold parse_u64.
    pose proof (parse_pretty_u64 (u / p) ltac:(lia)) as P. pose proof (pretty_digits (u / p) ltac:(lia)) as Dg.
    destruct (str_bytes (pretty (u / p)%N)) as [|c l]; [done|]. apply Forall_cons in Dg as [Hc _].
    assert (c =? 43 = false)%N as Hc' by (apply N.eqb_neq; lia). cbn [app]. unfold parse_u64 in P. rewrite Hc' in P |- *.
    change (c :: l ++ dec_pad k (u mod p)) with ((c :: l) ++ dec_pad k (u mod p)).
    rewrite parse_digits_app, P. cbn [mbind option_bind].
    assert (u / p * p + u mod p = u)%N as E by (rewrite D at 3; apply N.add_cancel_r, N.mul_comm).
    rewrite parse_dec_pad_after by (fold p; rewrite ?E; done). fold p. by rewrite E.
Qed.

Lemma render_value_digits v : ((value_units v).1 <= u64_max)%N ->
  Forall (fun b => 32 <= b)%N (str_bytes (render_value v)).
Proof.
  assert (forall l, digits l -> Forall (fun b => 32 <= b)%N l) as Hd by (intros l H; eapply Forall_impl; [exact H|]; cbn; lia).
  destruct v as [n|k x]; cbn [value_units fst render_value]; intros Hmax; [by apply Hd, pretty_digits|].
  unfold format_fixed. set (u := fixed_units k x) in *. set (p := (10 ^ N.of_nat k)%N).
  assert (p <> 0)%N as Hp by (apply N.pow_nonzero; lia). pose proof (N.div_mod u p Hp) as D.
  rewrite !str_bytes_app, str_of_bytes by (eapply Forall_impl; [apply dec_pad_digits|]; cbn; lia).
  rewrite !Forall_app. split_and!; [apply Hd, pretty_digits; etrans; [apply N.Div0.div_le_upper_bound with (q := u); nia|done]|by repeat constructor|apply Hd, dec_pad_digits].
Qed.

(** ** The text *)

(** Lines of printable characters. *)
Definition printable (s : string) : Prop := Forall (fun b => 32 <= b)%N (str_bytes s).

Lemma lines_render (ls : list string) : Forall printable ls ->
  lines (str_bytes (foldr (fun line text => line +:+ newline_str +:+ text) "" ls)) = str_bytes <$> ls.
Proof.
  unfold lines. induction 1 as [|line ls Hl _ IH]; [done|]. cbn [foldr]. rewrite !str_bytes_app.
  change (str_bytes newline_str) with [newline]. cbn [app].
  rewrite (lines_loop_line (fun _ => None)).
  - csimpl. rewrite IH, not_return; [done|]. intros E%last_Some_elem_of. apply (proj1 (Forall_forall _ _) Hl) in E. lia.
  - intros Hin. apply (proj1 (Forall_forall _ _) Hl) in Hin. lia.
Qed.

(** A series that cannot be mistaken for a comment or cut short. *)
Definition series_ok (s : string) : bool :=
  match str_bytes s with
  | b :: l => negb (b =? 35)%N && forallb (fun b => 32 <? b)%N (b :: l)
  | [] => false
  end.

Lemma series_ok_spec s : series_ok s = true -> printable s /\
  forall rest, read_sample (str_bytes s ++ 32%N :: rest) = (fun v => (str_bytes s, v)) <$> read_value rest.
Proof.
  unfold series_ok, printable. destruct (str_bytes s) as [|b l]; [done|]. intros [Hb Hl]%andb_true_iff.
  assert (Forall (fun b => 32 < b)%N (b :: l)) as Hall.
  { apply Forall_forall. intros c Hc%list_elem_of_In. by apply N.ltb_lt, (proj1 (forallb_forall _ _) Hl). }
  split; [eapply Forall_impl; [exact Hall|]; cbn; lia|]. intros rest. unfold read_sample.
  rewrite split_at_app by (intros Hin; apply (proj1 (Forall_forall _ _) Hall) in Hin; lia).
  apply negb_true_iff, N.eqb_neq in Hb. cbn [app mbind option_bind].
  transitivity ('(name, value) ← Some (b :: l, rest); v ← read_value value; Some (name, v)).
  - destruct b as [|b]; [done|]. by do 6 (destruct b as [b|b|]; try done).
  - cbn. by destruct (read_value rest).
Qed.

(** A family without a misleading name. *)
Definition family_ok (f : family) : bool :=
  forallb (fun b => 32 <=? b)%N (str_bytes (fam_name f +:+ fam_kind f)) &&
    forallb (fun s => series_ok (series (fam_name f) s.1)) (fam_samples f).
Definition bounded (s : string * metric_value) : Prop := ((value_units s.2).1 <= u64_max)%N.
#[local] Instance bounded_dec s : Decision (bounded s) := decide ((value_units s.2).1 <= u64_max)%N.

Lemma family_lines_printable f : family_ok f = true -> Forall (fun s => bounded (series (fam_name f) s.1, s.2)) (fam_samples f) ->
  Forall printable (family_lines f).
Proof.
  intros [Hn Hs]%andb_true_iff Hb. constructor.
  - unfold printable. rewrite str_bytes_app, forallb_app in Hn. apply andb_true_iff in Hn as [H1 H2].
    assert (forall l, forallb (fun b => 32 <=? b)%N l = true -> Forall (fun b => 32 <= b)%N l) as Hall.
    { intros l Hl. apply Forall_forall. intros c Hc%list_elem_of_In. by apply N.leb_le, (proj1 (forallb_forall _ _) Hl). }
    rewrite !str_bytes_app, !Forall_app. split_and!; [by repeat constructor|by apply Hall|by repeat constructor|by apply Hall].
  - apply Forall_fmap, Forall_forall. intros s Hin. unfold printable, compose. rewrite !str_bytes_app, !Forall_app.
    pose proof (proj1 (forallb_forall _ _) Hs s (proj1 (list_elem_of_In _ _) Hin)) as Hok.
    split_and!; [by apply series_ok_spec|by repeat constructor|]. apply render_value_digits.
    exact (proj1 (Forall_forall _ _) Hb s Hin).
Qed.

Lemma family_lines_read f : family_ok f = true -> Forall (fun s => bounded (series (fam_name f) s.1, s.2)) (fam_samples f) ->
  omap read_sample (str_bytes <$> family_lines f) =
    (fun s => (str_bytes (series (fam_name f) s.1), value_units s.2)) <$> fam_samples f.
Proof.
  intros [_ Hs]%andb_true_iff Hb. unfold family_lines.
  change (omap read_sample (str_bytes <$> ?x :: ?l)) with (omap read_sample (str_bytes <$> l)).
  induction Hb as [|s l Hv _ IH]; [done|]. cbn [forallb] in Hs. apply andb_true_iff in Hs as [Hs Hl]. csimpl.
  rewrite !str_bytes_app. change (str_bytes " ") with [32%N]. cbn [app].
  destruct (series_ok_spec _ Hs) as [_ ->]. rewrite read_value_render by exact Hv. cbn. f_equal. by apply IH.
Qed.

Lemma read_families fs : forallb family_ok fs = true -> Forall bounded (samples fs) ->
  read_metrics (render_families fs) = (fun s => (str_bytes s.1, value_units s.2)) <$> samples fs.
Proof.
  intros Hok Hb. unfold read_metrics, render_families.
  assert (forall f, f ∈ fs -> family_ok f = true /\ Forall (fun s => bounded (series (fam_name f) s.1, s.2)) (fam_samples f)) as Hall.
  { intros f Hf. split; [by apply (proj1 (forallb_forall _ _) Hok), list_elem_of_In|]. apply Forall_forall. intros s Hs.
    apply (proj1 (Forall_forall _ _) Hb (series (fam_name f) s.1, s.2)). apply list_elem_of_bind. exists f. split; [|done].
    apply list_elem_of_fmap. by exists s. }
  rewrite lines_render.
  - clear Hok Hb. unfold samples. induction fs as [|f fs IH]; [done|]. rewrite !bind_cons, fmap_app, omap_app, fmap_app, IH.
    + f_equal. destruct (Hall f) as [Hf Hs]; [by left|]. rewrite (family_lines_read f Hf Hs). by rewrite <-list_fmap_compose.
    + intros g Hg. apply Hall. by right.
  - apply Forall_forall. intros line (f & Hl & Hf)%list_elem_of_bind. destruct (Hall f Hf) as [Hok' Hb'].
    by apply (proj1 (Forall_forall _ _) (family_lines_printable f Hok' Hb')).
Qed.

(** The metrics text is exact.  As long as no number exceeds 64 bits, a reader
    that skips the comments, cuts each line at its first blank and parses the
    decimal number gets exactly the samples of the snapshots, in order: every
    counter with its value, every rate rounded to its decimals.  No series
    occurs twice, and no family does. *)
Theorem metrics_text_exact m (Hbounded : Forall bounded (samples (metric_families m))) :
  read_metrics (render_prometheus_metrics m) =
    (fun s => (str_bytes s.1, value_units s.2)) <$> samples (metric_families m) /\
  NoDup (samples (metric_families m)).*1 /\ NoDup (fam_name <$> metric_families m).
Proof.
  split_and!.
  - by apply read_families.
  - refine (bool_decide_unpack _ _). vm_compute. exact I.
  - refine (bool_decide_unpack _ _). vm_compute. exact I.
Qed.

(** Two of three submissions were accepted; one cache build of 1.2345 ms. *)
Definition sample_inputs : PrometheusInputs :=
  mkInputs (mkMetricSnapshot 0 7 1 10 5 5 0 0 42 100) (mkCacheMetrics 1 1234500 1234500 4096) (mkDropMetrics 1 2 3)
    (mkMetrics 1 2 3 4 5 6 7 8 9 10 11 12 13 14) (mkAssemblyMetrics 1 2 3 4 5 6 7 8 9 10 11 12 13)
    (mkSearcherMetrics 1 2 3 4 5 6 7 8 9 10) (mkReplayMetrics 5 6 7)
    (mkSimMetrics 1 2 3 4 5 6 7 8 9 10 11 12 13 14 15 16 17 18 19 20 21 22 23 24 25) (mkRelayStatus None 3 2 1).

Lemma metrics_text_exact_witness :
  let read name := snd <$> List.find (fun r => bool_decide (r.1 = str_bytes name)) (read_metrics (render_prometheus_metrics sample_inputs)) in
  read "mempulse_ingest_queue_depth" = Some (42%N, 0%nat) /\ read "mempulse_relay_success_rate" = Some (666667%N, 6%nat) /\
  read "mempulse_dashboard_cache_last_build_ms" = Some (1234%N, 3%nat).
Proof.
  cbv zeta beta. rewrite (proj1 (metrics_text_exact sample_inputs ltac:(refine (bool_decide_unpack _ _); vm_compute; exact I))).
  vm_compute. split_and!; reflexivity.
Defined.
