(* ===== verification/StorageExport.v ===== *)
(** * StorageExport: the CSV export of replay frames (crates/storage/src/lib.rs)

    The table of [export_replay_frames_csv], a reader for it, and what can be
    read back: everything of a frame but its sender queues. *)
From stdpp Require Import base gmap strings list numbers pretty.
From S2P Require Import Prelude Common TxDecode LiveHex Wal Text LiveState ReplayMempool Replay VizMetrics.

Definition csv_row (frame : ReplayFrame) : string :=
  pretty (frame_seq_hi frame) +:+ "," +:+ pretty (frame_timestamp_unix_ms frame) +:+ "," +:+
    String.concat ";" (format_hash <$> frame_pending frame).
Definition csv_header : string := "seq_hi,timestamp_unix_ms,pending_hashes".
Definition export_replay_frames_csv (frames : list ReplayFrame) : string :=
  foldr (fun line text => line +:+ newline_str +:+ text) "" (csv_header :: (csv_row <$> frames)).

Lemma str_bytes_inj s t : str_bytes s = str_bytes t -> s = t.
Proof.
  revert t. induction s as [|a s IH]; intros [|b t]; rewrite ?str_bytes_string; try done. intros E. injection E as Ea E.
  rewrite <-(Ascii.ascii_N_embedding a), Ea, Ascii.ascii_N_embedding. f_equal. by apply IH.
Qed.

(** ** Reading it back *)
Fixpoint split_all (sep : N) (l : list N) : list (list N) :=
  match l with
  | [] => [[]]
  | b :: l' =>
      if (b =? sep)%N then [] :: split_all sep l'
      else match split_all sep l' with x :: r => (b :: x) :: r | [] => [[b]] end
  end.
(** The three cells of a row; the hashes are in the third. *)
Definition read_row (line : list N) : option (list N * list N * list (list N)) :=
  '(seq_hi, rest) ← split_at 44 line;
  '(timestamp, hashes) ← split_at 44 rest;
  Some (seq_hi, timestamp, match hashes with [] => [] | _ => split_all 59 hashes end).
Definition read_csv (text : string) : list (list N * list N * list (list N)) :=
  omap read_row (tail (lines (str_bytes text))).
Definition frame_cells (frame : ReplayFrame) : list N * list N * list (list N) :=
  (str_bytes (pretty (frame_seq_hi frame)), str_bytes (pretty (frame_timestamp_unix_ms frame)),
   (fun h => str_bytes (format_hash h)) <$> frame_pending frame).

Lemma split_all_none sep l : sep ∉ l -> split_all sep l = [l].
Proof. induction l as [|b l IH]; cbn; intros H; [done|]. rewrite (proj2 (N.eqb_neq _ _)), IH by set_solver. done. Qed.
Lemma split_all_app sep l rest : sep ∉ l -> split_all sep (l ++ sep :: rest) = l :: split_all sep rest.
Proof.
  induction l as [|b l IH]; cbn; intros H; [by rewrite N.eqb_refl|].
  by rewrite (proj2 (N.eqb_neq _ _)), IH by set_solver.
Qed.
Lemma split_all_concat sep (s : string) (l : list string) : str_bytes s = [sep] -> l <> [] ->
  Forall (fun x => sep ∉ str_bytes x) l -> split_all sep (str_bytes (String.concat s l)) = str_bytes <$> l.
Proof.
  intros Hs. induction l as [|x [|y l] IH]; intros Hl Hsep; [done|..].
  - apply Forall_inv in Hsep. cbn. by apply split_all_none.
  - apply Forall_cons in Hsep as [Hx Hsep].
    change (String.concat s (x :: y :: l)) with (x +:+ s +:+ String.concat s (y :: l)).
    rewrite !str_bytes_app, Hs. cbn [app]. rewrite split_all_app by done. by rewrite IH.
Qed.

(** ** The characters of a row *)
Definition cell (l : list N) : Prop := Forall (fun b => b = 45 \/ 48 <= b <= 57 \/ 97 <= b <= 122)%N l.
Lemma cell_no l b : cell l -> (b < 45 \/ 57 < b < 97)%N -> b ∉ l.
Proof. intros Hl Hb Hin. apply (proj1 (Forall_forall _ _) Hl) in Hin. lia. Qed.

Lemma cell_app l1 l2 : cell l1 -> cell l2 -> cell (l1 ++ l2).
Proof. intros. by apply Forall_app. Qed.
Lemma cell_number n : (n <= u64_max)%N -> cell (str_bytes (pretty n)).
Proof. intros Hn. eapply Forall_impl; [exact (pretty_digits n Hn)|]. cbn. lia. Qed.
Definition i64_ok (z : Z) : Prop := (- 2 ^ 63 <= z < 2 ^ 63)%Z.
Lemma cell_signed z : i64_ok z -> cell (str_bytes (pretty z)).
Proof.
  unfold i64_ok. intros Hz. destruct z as [|p|p]; [repeat constructor; cbn; lia|..].
  - apply (cell_number (Npos p)). unfold u64_max. lia.
  - change (str_bytes (pretty (Z.neg p))) with (str_bytes ("-" +:+ pretty (Npos p))). rewrite str_bytes_app.
    apply cell_app; [repeat constructor; cbn; lia|apply cell_number; unfold u64_max; lia].
Qed.
Lemma cell_hex l : bytes_ok l -> cell (str_bytes (hex_encode l)).
Proof.
  induction 1 as [|b l Hb _ IH]; [constructor|]. rewrite str_bytes_hex_cons. destruct (nibbles b Hb) as (H1 & H2 & _).
  assert (forall d, (d < 16)%N -> cell [Ascii.N_of_ascii (hex_digit d)]) as Hd.
  { intros d H. constructor; [|constructor]. unfold hex_digit. rewrite Ascii.N_ascii_embedding by (case_match; lia).
    destruct (N.ltb_spec d 10); lia. }
  apply (cell_app [_]); [by apply Hd|]. apply (cell_app [_]); [by apply Hd|exact IH].
Qed.

Lemma fmap_inj_on {A B} (P : A -> Prop) (f : A -> B) l l' : (forall x y, P x -> P y -> f x = f y -> x = y) ->
  Forall P l -> Forall P l' -> f <$> l = f <$> l' -> l = l'.
Proof.
  intros Hf Hl. revert l'. induction Hl as [|x l Hx _ IH]; intros [|y l'] Hl' E; try done.
  apply Forall_cons in Hl' as [Hy Hl']. rewrite !fmap_cons in E. injection E as Ex E. f_equal; auto.
Qed.

(** ** The export is exact *)

(** Values of the frame's types. *)
Definition frame_ok (frame : ReplayFrame) : Prop :=
  (frame_seq_hi frame <= u64_max)%N /\ i64_ok (frame_timestamp_unix_ms frame) /\ Forall hash_ok (frame_pending frame).

Lemma cell_hash h : cell (str_bytes (format_hash h)).
Proof.
  unfold format_hash. rewrite str_bytes_app. apply cell_app; [repeat constructor; cbn; lia|].
  apply cell_hex, be_bytes_digit.
Qed.

Lemma concat_hashes_chars l : Forall (fun b => b <> 44 /\ 32 <= b)%N (str_bytes (String.concat ";" (format_hash <$> l))).
Proof.
  assert (forall h, Forall (fun b => b <> 44 /\ 32 <= b)%N (str_bytes (format_hash h))) as Hh
    by (intros h; eapply Forall_impl; [exact (cell_hash h)|]; cbn; lia).
  induction l as [|h [|k l] IH]; [constructor|apply Hh|].
  change (String.concat ";" (format_hash <$> h :: k :: l)) with (format_hash h +:+ ";" +:+ String.concat ";" (format_hash <$> k :: l)).
  rewrite !str_bytes_app. apply Forall_app; split; [apply Hh|]. apply Forall_app; split; [repeat constructor; cbn; lia|exact IH].
Qed.

Lemma read_hashes l :
  match str_bytes (String.concat ";" (format_hash <$> l)) with
  | [] => []
  | _ => split_all 59 (str_bytes (String.concat ";" (format_hash <$> l)))
  end =
    (fun h => str_bytes (format_hash h)) <$> l.
Proof.
  destruct l as [|h l]; [done|].
  assert (split_all 59 (str_bytes (String.concat ";" (format_hash <$> h :: l))) = str_bytes <$> (format_hash <$> h :: l)) as E.
  { apply split_all_concat; [done|done|]. apply Forall_fmap, Forall_true. intros k. apply cell_no; [apply cell_hash|lia]. }
  rewrite <-list_fmap_compose in E. destruct (str_bytes (String.concat _ _)) as [|b bs] eqn:Eb; [|exact E].
  destruct l; cbn in Eb; unfold format_hash in Eb; rewrite ?str_bytes_app in Eb; discriminate Eb.
Qed.

Lemma read_csv_row frame : frame_ok frame -> printable (csv_row frame) /\ read_row (str_bytes (csv_row frame)) = Some (frame_cells frame).
Proof.
  intros (Hseq & Hts & _). pose proof (cell_number _ Hseq) as Cseq. pose proof (cell_signed _ Hts) as Cts.
  pose proof (concat_hashes_chars (frame_pending frame)) as Ch. unfold csv_row, printable, read_row.
  rewrite !str_bytes_app. change (str_bytes ",") with [44%N]. cbn [app]. split.
  - assert (forall l, cell l -> Forall (fun b => 32 <= b)%N l) as Hc by (intros l H; eapply Forall_impl; [exact H|]; cbn; lia).
    apply Forall_app; split; [by apply Hc|]. constructor; [lia|]. apply Forall_app; split; [by apply Hc|]. constructor; [lia|].
    eapply Forall_impl; [exact Ch|]. cbn. lia.
  - rewrite split_at_app by (apply cell_no; [done|lia]). cbn [mbind option_bind].
    rewrite split_at_app by (apply cell_no; [done|lia]). cbn [mbind option_bind]. by rewrite read_hashes.
Qed.

(** The table is read back row by row: the number, the time stamp and the
    pending hashes of every frame, in order.  The sender queues of a frame are
    not in it; two exports are equal exactly when the rest is. *)
Theorem csv_export_exact frames (Hok : Forall frame_ok frames) :
  read_csv (export_replay_frames_csv frames) = frame_cells <$> frames /\
  forall frames', Forall frame_ok frames' ->
    (export_replay_frames_csv frames = export_replay_frames_csv frames' <->
     (fun f => (frame_seq_hi f, frame_timestamp_unix_ms f, frame_pending f)) <$> frames =
     (fun f => (frame_seq_hi f, frame_timestamp_unix_ms f, frame_pending f)) <$> frames').
Proof.
  assert (forall frames, Forall frame_ok frames -> read_csv (export_replay_frames_csv frames) = frame_cells <$> frames) as Hread.
  { clear. intros frames Hok. unfold read_csv, export_replay_frames_csv. rewrite lines_render.
    - cbn [fmap list_fmap tail]. induction Hok as [|f l Hf _ IH]; [done|]. csimpl.
      by rewrite (proj2 (read_csv_row f Hf)), IH.
    - constructor; [apply (bool_decide_unpack _); by vm_compute|]. apply Forall_fmap. eapply Forall_impl; [exact Hok|].
      intros f Hf. by apply read_csv_row. }
  split; [by apply Hread|]. intros frames' Hok'. split.
  - intros E. apply (f_equal read_csv) in E. rewrite !Hread in E by done. revert frames' Hok' E.
    induction Hok as [|f l Hf _ IH]; intros [|f' l'] Hok' E; try done. cbn in E. injection E as E1 E2 E3 E.
    apply Forall_cons in Hok' as [Hf' Hok']. cbn. f_equal; [|by apply IH].
    apply str_bytes_inj in E1, E2. apply (inj pretty) in E1, E2. rewrite E1, E2. f_equal.
    destruct Hf as (_ & _ & H1), Hf' as (_ & _ & H2). revert E3. apply (fmap_inj_on hash_ok); [|done..].
    intros h h' Hh Hh' Eh. by apply format_hash_inj, str_bytes_inj.
  - intros E. unfold export_replay_frames_csv. do 2 f_equal. revert frames' Hok' E.
    induction frames as [|f l IH]; intros [|f' l'] Hok' E; try done. cbn in E. injection E as E1 E2 E3 E.
    cbn. f_equal; [unfold csv_row; by rewrite E1, E2, E3|]. apply IH; [by apply Forall_inv_tail in Hok|by apply Forall_inv_tail in Hok'|done].
Qed.

Example csv_sample :
  let f := mkFrame 7 (-5) [] [] in
  export_replay_frames_csv [f] = csv_header +:+ newline_str +:+ "7,-5," +:+ newline_str /\
  read_csv (export_replay_frames_csv [f; mkFrame 8 6 [1; 2]%N []]) = frame_cells <$> [f; mkFrame 8 6 [1; 2]%N []].
Proof. vm_compute. split; reflexivity. Qed.
