(* ===== verification/LiveConfig.v ===== *)
(** * LiveConfig: the settings of the live feed (crates/runtime-core/src/live_rpc.rs)

    [LiveRpcConfig::from_env] with the chain configurations it reads, and the
    small functions that steer batching, retries and rotation.  The
    environment and the file system are arguments; serde_json's decoding of a
    chain configuration is one too. *)
From stdpp Require Import base gmap strings list numbers sorting.
From S2P Require Import Prelude Common Wal Text.

(** ** Data *)
Record RpcEndpoint := mkEndpoint { ep_ws_url : string; ep_http_url : string }.
Record EnvChainConfig := mkEnvChain {
  env_chain_key : string;
  env_chain_id : option N;
  env_ws_url : option string;
  env_http_url : option string;
  env_endpoints : list RpcEndpoint;
  env_source_id : option string;
}.
Inductive ChainConfigInput := Wrapped (chains : list EnvChainConfig) | ChainList (chains : list EnvChainConfig).

Record ChainRpcConfig := mkChain {
  ch_chain_key : string;
  ch_chain_id : option N;
  ch_endpoints : list RpcEndpoint;
  ch_source_id : SourceId;
}.
Definition chain_primary_ws_url (c : ChainRpcConfig) : option string := ep_ws_url <$> head (ch_endpoints c).
Definition chain_primary_http_url (c : ChainRpcConfig) : option string := ep_http_url <$> head (ch_endpoints c).

Record BatchFetchConfig := mkBatchFetch {
  bf_batch_size : N;
  bf_max_in_flight : N;
  bf_retry_attempts : N;
  bf_retry_backoff_ms : N;
  bf_flush_interval_ms : N;
}.
Definition batch_fetch_default : BatchFetchConfig := mkBatchFetch 32 4 2 100 40.

Record LiveRpcConfig := mkLiveConfig {
  lc_chains : list ChainRpcConfig;
  lc_max_seen_hashes : N;
  lc_batch_fetch : BatchFetchConfig;
  lc_silent_chain_timeout_secs : N;
}.
Definition primary_public_http_url : string := "https://eth.drpc.org".
Definition live_config_default : LiveRpcConfig :=
  mkLiveConfig
    [mkChain "eth-mainnet" (Some 1%N)
       [mkEndpoint "wss://eth.drpc.org" primary_public_http_url;
        mkEndpoint "wss://ethereum-rpc.publicnode.com" "https://ethereum-rpc.publicnode.com"] "rpc-live"]
    10000 batch_fetch_default 20.

Inductive ConfigError :=
  | InvalidValue (key : string)
  | UnreadableFile (path : string) (not_found : bool)
  | InvalidJson (source_label : string)
  | NoChains (source_label : string)
  | EmptyChainKey
  | EmptyWsUrl (chain_key : string)
  | EmptyHttpUrl (chain_key : string).

(** ** Steering *)
Definition resolve_record_chain_id (configured_chain_id tx_chain_id : option N) : option N :=
  match tx_chain_id with Some id => Some id | None => configured_chain_id end.

Definition dispatchable_batch_count (queue_len batch_size max_in_flight : N) : N :=
  if (queue_len =? 0)%N then 0%N
  else N.min (div_ceil queue_len (N.max batch_size 1)) (N.max max_in_flight 1).

Definition retry_backoff_delay_ms (base_backoff_ms attempt : N) : N :=
  sat_mul u64_max base_backoff_ms (2 ^ N.min attempt 16).

Definition rotate_endpoint_index (current endpoint_count : N) : N :=
  if (endpoint_count <=? 1)%N then 0%N else ((current + 1) mod endpoint_count)%N.

Definition should_rotate_silent_chain (last_pending_unix_ms now_unix_ms : Z) (timeout_seconds : N) : bool :=
  if (timeout_seconds =? 0)%N then false
  else
    let timeout_ms := sat_mul u64_max timeout_seconds 1000 in
    let elapsed_ms := i64_sat_sub now_unix_ms last_pending_unix_ms in
    (timeout_ms <=? (if (elapsed_ms <? 0)%Z then 0 else Z.to_N elapsed_ms))%N.

(** ** Reading *)
Section from_env.
Context (env : string -> option string).

Definition read_env_trimmed (key : string) : option string :=
  value ← str_trim <$> env key; if bool_decide (value = "") then None else Some value.

(** [parse_env_usize] and [parse_env_u64]: a [usize] has 64 bits. *)
Definition parse_env_number (key : string) : option N + ConfigError :=
  match read_env_trimmed key with
  | None => inl None
  | Some value =>
      match parse_u64 (str_bytes value) with Some n => inl (Some n) | None => inr (InvalidValue key) end
  end.

Definition resolve_sim_queue_capacity : N :=
  match parse_env_number "VIZ_API_SIM_QUEUE_CAPACITY" with
  | inl (Some value) => N.max value 1 | _ => 128%N end.
Definition resolve_sim_worker_count : N :=
  match parse_env_number "VIZ_API_SIM_WORKER_COUNT" with
  | inl (Some value) => N.max value 1 | _ => 4%N end.
Definition positive_env (key : string) (dflt : N) : N :=
  match env key ≫= (fun raw => parse_u64 (str_bytes (str_trim raw))) with
  | Some value => if (0 <? value)%N then value else dflt
  | None => dflt
  end.
Definition resolve_sim_cache_ttl_ms : N := positive_env "VIZ_API_SIM_CACHE_TTL_MS" 5000.
Definition resolve_sim_rpc_timeout_ms : N := positive_env "VIZ_API_SIM_RPC_TIMEOUT_MS" 2000.

(** ** Chain configurations *)
Definition parse_endpoint_urls (chain_key ws_url http_url : string) : RpcEndpoint + ConfigError :=
  let ws_url := str_trim ws_url in
  if bool_decide (ws_url = "") then inr (EmptyWsUrl chain_key)
  else
    let http_url := str_trim http_url in
    if bool_decide (http_url = "") then inr (EmptyHttpUrl chain_key) else inl (mkEndpoint ws_url http_url).

(** [collect] into a [Result]: the first error ends it. *)
Fixpoint collect_results {A B : Type} (f : A -> B + ConfigError) (l : list A) : list B + ConfigError :=
  match l with
  | [] => inl []
  | x :: l' =>
      match f x with
      | inr e => inr e
      | inl y => match collect_results f l' with inl ys => inl (y :: ys) | inr e => inr e end
      end
  end.

Definition parse_chain_endpoints (chain : EnvChainConfig) (chain_key : string) : list RpcEndpoint + ConfigError :=
  match env_endpoints chain with
  | [] =>
      match parse_endpoint_urls chain_key (default "" (env_ws_url chain)) (default "" (env_http_url chain)) with
      | inl endpoint => inl [endpoint]
      | inr e => inr e
      end
  | endpoints =>
      collect_results (fun e => parse_endpoint_urls chain_key (ep_ws_url e) (ep_http_url e)) endpoints
  end.

Definition parse_env_chain_config (chain : EnvChainConfig) : ChainRpcConfig + ConfigError :=
  let chain_key := str_trim (env_chain_key chain) in
  if bool_decide (chain_key = "") then inr EmptyChainKey
  else
    match parse_chain_endpoints chain chain_key with
    | inr e => inr e
    | inl endpoints =>
        let source_id :=
          match str_trim <$> env_source_id chain with
          | Some value => if bool_decide (value = "") then "rpc-" +:+ chain_key else value
          | None => "rpc-" +:+ chain_key
          end in
        inl (mkChain chain_key (env_chain_id chain) endpoints source_id)
    end.

(** [decode]: serde_json on [ChainConfigInput]; [None] is its error. *)
Context (decode : string -> option ChainConfigInput).

Definition decode_chain_configs (raw source_label : string) : list EnvChainConfig + ConfigError :=
  match decode raw with
  | None => inr (InvalidJson source_label)
  | Some input =>
      match (match input with Wrapped chains => chains | ChainList chains => chains end) with
      | [] => inr (NoChains source_label)
      | chains => inl chains
      end
  end.

Definition parse_chains (raw source_label : string) : list ChainRpcConfig + ConfigError :=
  match decode_chain_configs raw source_label with
  | inr e => inr e
  | inl chains => collect_results parse_env_chain_config chains
  end.
Definition parse_env_chain_configs (raw : string) : list ChainRpcConfig + ConfigError :=
  parse_chains raw "VIZ_API_CHAINS".

(** A file's text, or whether the failure to read it is [ErrorKind::NotFound]. *)
Context (read_to_string : string -> string + bool).

Definition read_chain_configs_from_path (path : string) : list ChainRpcConfig + ConfigError :=
  match read_to_string path with
  | inr not_found => inr (UnreadableFile path not_found)
  | inl text => parse_chains text ("chain config file '" +:+ path +:+ "'")
  end.

Definition is_file_not_found_error (e : ConfigError) : bool :=
  match e with UnreadableFile _ not_found => not_found | _ => false end.

(** The loop over the default paths. *)
Fixpoint first_present (paths : list string) : option (list ChainRpcConfig) + ConfigError :=
  match paths with
  | [] => inl None
  | path :: paths' =>
      match read_chain_configs_from_path path with
      | inl chains => inl (Some chains)
      | inr e => if is_file_not_found_error e then first_present paths' else inr e
      end
  end.

(** [manifest_dir]: the crate's directory at build time. *)
Context (manifest_dir : string).
Definition default_chain_config_paths : list string :=
  ["configs/chain_config.json"; manifest_dir +:+ "/../../configs/chain_config.json"].

Definition load_chain_configs_from_file : option (list ChainRpcConfig) + ConfigError :=
  match read_env_trimmed "VIZ_API_CHAIN_CONFIG_PATH" with
  | Some path =>
      match read_chain_configs_from_path path with inl chains => inl (Some chains) | inr e => inr e end
  | None => first_present default_chain_config_paths
  end.

(** [config.chains.first_mut()] *)
Definition on_first {A} (f : A -> A) (l : list A) : list A :=
  match l with [] => [] | x :: l' => f x :: l' end.
Definition set_ch_endpoints v (c : ChainRpcConfig) : ChainRpcConfig :=
  mkChain (ch_chain_key c) (ch_chain_id c) v (ch_source_id c).
Definition set_ch_source v (c : ChainRpcConfig) : ChainRpcConfig :=
  mkChain (ch_chain_key c) (ch_chain_id c) (ch_endpoints c) v.

(** The overrides of the first chain's URLs and source. *)
Definition override_primary (ws_override http_override source_override : option string)
    (chains : list ChainRpcConfig) : list ChainRpcConfig :=
  let chains :=
    match ws_override, http_override with
    | Some ws_url, _ =>
        on_first (set_ch_endpoints [mkEndpoint ws_url (default primary_public_http_url http_override)]) chains
    | None, Some http_url =>
        on_first (fun c => set_ch_endpoints
          (on_first (fun e => mkEndpoint (ep_ws_url e) http_url) (ch_endpoints c)) c) chains
    | None, None => chains
    end in
  match source_override with Some source_id => on_first (set_ch_source source_id) chains | None => chains end.

#[local] Notation "x <-! c ; k" := (match c with inl x => k | inr e => inr e end)
  (at level 100, c at next level, right associativity).

Definition from_env : LiveRpcConfig + ConfigError :=
  max_seen_hashes <-! parse_env_number "VIZ_API_MAX_SEEN_HASHES";
  batch_size <-! parse_env_number "VIZ_API_RPC_BATCH_SIZE";
  max_in_flight <-! parse_env_number "VIZ_API_RPC_MAX_IN_FLIGHT";
  retry_attempts <-! parse_env_number "VIZ_API_RPC_RETRY_ATTEMPTS";
  retry_backoff_ms <-! parse_env_number "VIZ_API_RPC_RETRY_BACKOFF_MS";
  flush_interval_ms <-! parse_env_number "VIZ_API_RPC_BATCH_FLUSH_MS";
  silent_chain_timeout_secs <-! parse_env_number "VIZ_API_SILENT_CHAIN_TIMEOUT_SECS";
  file_chains <-! load_chain_configs_from_file;
  let configured := default (lc_chains live_config_default) file_chains in
  chains <-! match read_env_trimmed "VIZ_API_CHAINS" with
             | Some chains_override => parse_env_chain_configs chains_override
             | None =>
                 inl (override_primary (read_env_trimmed "VIZ_API_ETH_WS_URL")
                   (read_env_trimmed "VIZ_API_ETH_HTTP_URL") (read_env_trimmed "VIZ_API_SOURCE_ID") configured)
             end;
  inl (mkLiveConfig chains (N.max (default 10000%N max_seen_hashes) 1)
    (mkBatchFetch
       (N.max (default (bf_batch_size batch_fetch_default) batch_size) 1)
       (N.max (default (bf_max_in_flight batch_fetch_default) max_in_flight) 1)
       (default (bf_retry_attempts batch_fetch_default) retry_attempts)
       (N.max (default (bf_retry_backoff_ms batch_fetch_default) retry_backoff_ms) 1)
       (N.max (default (bf_flush_interval_ms batch_fetch_default) flush_interval_ms) 1))
    (N.max (default 20%N silent_chain_timeout_secs) 1)).
End from_env.

(** ** Accepted settings are usable *)
Definition filled (s : string) : Prop := s <> "" /\ str_trim s = s.
Definition endpoint_wf (e : RpcEndpoint) : Prop := filled (ep_ws_url e) /\ filled (ep_http_url e).
Definition chain_wf (c : ChainRpcConfig) : Prop :=
  filled (ch_chain_key c) /\ ch_endpoints c <> [] /\ Forall endpoint_wf (ch_endpoints c) /\ ch_source_id c <> "".
Record config_wf (c : LiveRpcConfig) : Prop := {
  cw_chains : lc_chains c <> [] /\ Forall chain_wf (lc_chains c);
  cw_seen : (1 <= lc_max_seen_hashes c <= u64_max)%N;
  cw_batch : (1 <= bf_batch_size (lc_batch_fetch c) <= u64_max)%N;
  cw_in_flight : (1 <= bf_max_in_flight (lc_batch_fetch c) <= u64_max)%N;
  cw_backoff : (1 <= bf_retry_backoff_ms (lc_batch_fetch c) <= u64_max)%N;
  cw_flush : (1 <= bf_flush_interval_ms (lc_batch_fetch c) <= u64_max)%N;
  cw_silent : (1 <= lc_silent_chain_timeout_secs c <= u64_max)%N;
}.

Lemma read_env_filled env key value : read_env_trimmed env key = Some value -> filled value.
Proof.
  unfold read_env_trimmed. destruct (env key) as [raw|]; [|done]. cbn.
  case_bool_decide; [done|]. intros [= <-]. split; [done|apply str_trim_idemp].
Qed.

Lemma parse_endpoint_wf key ws http e : parse_endpoint_urls key ws http = inl e -> endpoint_wf e.
Proof.
  unfold parse_endpoint_urls. repeat case_bool_decide; try done. intros [= <-].
  by repeat split; cbn; try apply str_trim_idemp.
Qed.

Lemma collect_results_all {A B} (f : A -> B + ConfigError) (P : B -> Prop) l ys :
  (forall x y, f x = inl y -> P y) -> collect_results f l = inl ys -> Forall P ys /\ length ys = length l.
Proof.
  intros Hf. revert ys. induction l as [|x l IH]; intros ys; cbn; [by intros [= <-]|].
  destruct (f x) as [y|] eqn:E; [|done]. destruct (collect_results f l) as [ys'|]; [|done].
  intros [= <-]. destruct (IH _ eq_refl) as [H1 H2]. cbn. split; [constructor; eauto|lia].
Qed.

Lemma parse_chain_wf chain c : parse_env_chain_config chain = inl c -> chain_wf c.
Proof.
  unfold parse_env_chain_config. case_bool_decide as Hk; [done|].
  destruct (parse_chain_endpoints _ _) as [eps|] eqn:E; [|done]. intros [= <-]. split; [|split].
  - split; [done|apply str_trim_idemp].
  - cbn. revert E. unfold parse_chain_endpoints. destruct (env_endpoints chain) as [|e l].
    + destruct (parse_endpoint_urls _ _ _); [|done]. by intros [= <-].
    + intros H%(collect_results_all _ endpoint_wf); [|intros; by eapply parse_endpoint_wf].
      by destruct eps, H.
  - cbn. split.
    + revert E. unfold parse_chain_endpoints. destruct (env_endpoints chain) as [|e l].
      * destruct (parse_endpoint_urls _ _ _) eqn:E; [|done]. intros [= <-]. constructor; [|done].
        by eapply parse_endpoint_wf.
      * intros H%(collect_results_all _ endpoint_wf); [by destruct H|intros; by eapply parse_endpoint_wf].
    + destruct (env_source_id chain) as [s|]; cbn; [|done]. by case_bool_decide.
Qed.

Lemma parse_chains_wf decode raw label cs :
  parse_chains decode raw label = inl cs -> cs <> [] /\ Forall chain_wf cs.
Proof.
  unfold parse_chains, decode_chain_configs. destruct (decode raw) as [input|]; [|done].
  destruct (match input with Wrapped chains => chains | ChainList chains => chains end) as [|c l]; [done|].
  intros H%(collect_results_all _ chain_wf); [|apply parse_chain_wf]. destruct H. by destruct cs.
Qed.

Lemma read_path_wf decode read path cs :
  read_chain_configs_from_path decode read path = inl cs -> cs <> [] /\ Forall chain_wf cs.
Proof. unfold read_chain_configs_from_path. destruct (read path); [apply parse_chains_wf|done]. Qed.

Lemma load_file_wf env decode read dir cs :
  load_chain_configs_from_file env decode read dir = inl (Some cs) -> cs <> [] /\ Forall chain_wf cs.
Proof.
  unfold load_chain_configs_from_file. destruct (read_env_trimmed _ _).
  - destruct (read_chain_configs_from_path _ _ _) eqn:E; [|done]. intros [= <-]. by eapply read_path_wf.
  - generalize (default_chain_config_paths dir). intros paths. induction paths as [|p paths IH]; cbn; [done|].
    destruct (read_chain_configs_from_path _ _ _) eqn:E; [intros [= <-]; by eapply read_path_wf|].
    by destruct (is_file_not_found_error _).
Qed.

Lemma default_chains_wf : Forall chain_wf (lc_chains live_config_default).
Proof.
  repeat (apply Forall_cons_2 || apply Forall_nil_2); unfold chain_wf, filled; cbn.
  split_and!; try done. by repeat constructor; unfold filled; cbn.
Qed.

Lemma override_primary_wf ws http source cs :
  (forall v, ws = Some v -> filled v) -> (forall v, http = Some v -> filled v) ->
  (forall v, source = Some v -> filled v) -> cs <> [] -> Forall chain_wf cs ->
  override_primary ws http source cs <> [] /\ Forall chain_wf (override_primary ws http source cs).
Proof.
  intros Hws Hhttp Hsource Hne Hcs.
  assert (forall f : ChainRpcConfig -> ChainRpcConfig, (forall c, chain_wf c -> chain_wf (f c)) ->
    forall cs, cs <> [] /\ Forall chain_wf cs -> on_first f cs <> [] /\ Forall chain_wf (on_first f cs)) as Hfirst.
  { intros f Hf [|c l] [? Hl]; [done|]. split; [done|]. apply Forall_cons in Hl as [? ?]. constructor; auto. }
  unfold override_primary. cbv zeta.
  set (cs1 := match ws with Some _ => _ | None => _ end).
  assert (cs1 <> [] /\ Forall chain_wf cs1) as H1.
  { unfold cs1. destruct ws as [w|]; [|destruct http as [h|]; [|done]]; apply Hfirst; try done.
    - intros c (? & _ & _ & ?). split; [done|]. split; [done|]. split; [|done].
      constructor; [|done]. split; [by apply Hws|]. destruct http as [h|]; [by apply Hhttp|done].
    - intros c (? & He & Hall & ?). split; [done|]. cbn. destruct (ch_endpoints c) as [|e l]; [done|].
      apply Forall_cons in Hall as [[? _] ?]. split; [done|]. split; [|done].
      constructor; [|done]. split; [done|]. by apply Hhttp. }
  destruct source as [s|]; [|done]. apply Hfirst; [|done]. intros c (? & ? & ? & ?).
  split_and!; try done. by destruct (Hsource s eq_refl).
Qed.

Lemma parse_number_bound env key o d :
  parse_env_number env key = inl o -> (d <= u64_max)%N -> (1 <= N.max (default d o) 1 <= u64_max)%N.
Proof.
  unfold parse_env_number. intros H Hd. assert (default d o <= u64_max)%N; [|unfold u64_max in *; lia].
  destruct (read_env_trimmed env key); [|by simplify_eq].
  destruct (parse_u64 _) eqn:E; simplify_eq. cbn. by eapply parse_u64_bound.
Qed.

(** C31: Whatever the environment, the files and the JSON decoder give, a
    configuration that is accepted can drive the feed: at least one chain; every
    chain has a key, a source and at least one endpoint; keys and URLs are
    trimmed and not empty; the batch size, the number of batches in flight, the
    retry delay, the flush interval, the silence timeout and the size of the
    window are positive 64-bit numbers.  So no worker finds its chain without
    an endpoint, no division is by zero and no window is empty. *)
Theorem config_well_formed env decode read_to_string manifest_dir config :
  from_env env decode read_to_string manifest_dir = inl config -> config_wf config.
Proof.
  unfold from_env. intros H.
  repeat match type of H with context [parse_env_number env ?k] =>
    let E := fresh "E" in destruct (parse_env_number env k) eqn:E; [|done] end.
  destruct (load_chain_configs_from_file _ _ _ _) as [file|] eqn:Ef; [|done].
  destruct (match read_env_trimmed env "VIZ_API_CHAINS" with Some _ => _ | None => _ end) as [chains|] eqn:Ec; [|done].
  injection H as <-. split; cbn; [|by eapply parse_number_bound..].
  destruct (read_env_trimmed env "VIZ_API_CHAINS"); [by eapply parse_chains_wf|]. injection Ec as <-.
  assert (default (lc_chains live_config_default) file <> [] /\
    Forall chain_wf (default (lc_chains live_config_default) file)) as [? ?].
  { destruct file as [cs|]; [by eapply load_file_wf|]. split; [done|apply default_chains_wf]. }
  apply override_primary_wf; try done; intros v; apply read_env_filled.
Qed.

Definition sample_live_env (key : string) : option string :=
  if bool_decide (key = "VIZ_API_ETH_WS_URL") then Some " wss://node " else
  if bool_decide (key = "VIZ_API_RPC_BATCH_SIZE") then Some "0" else None.
Lemma config_well_formed_witness :
  exists config, from_env sample_live_env (fun _ => None) (fun _ => inr true) "" = inl config /\
    chain_primary_ws_url <$> head (lc_chains config) = Some (Some "wss://node") /\ config_wf config.
Proof.
  eexists. split; [vm_compute; reflexivity|]. split; [vm_compute; reflexivity|].
  apply (config_well_formed sample_live_env (fun _ => None) (fun _ => inr true) ""). vm_compute. reflexivity.
Defined.
