(* ===== verification/LiveDecode.v ===== *)
(** * LiveDecode: JSON-RPC answers of the live feed (crates/runtime-core/src/live_rpc.rs)

    From the values serde_json reads to the transactions of the pipeline: the
    lenient conversion of one transaction, single, pending-block and batch
    answers, the retried fetch and the notifications of a subscription.
    serde_json and the HTTP endpoint are arguments.  A [Result] that may panic
    is a [lookup_outcome] whose [Absent] is [Err]. *)
From stdpp Require Import base gmap strings list numbers sorting.
From S2P Require Import Prelude Common EventLog TxDecode LiveHex Wal Text LiveConfig.

(** ** Data *)
Record RpcTransaction := mkRpcTx {
  rt_hash : string;
  rt_from : option string;
  rt_to : option string;
  rt_nonce : option string;
  rt_value : option string;
  rt_gas : option string;
  rt_tx_type : option string;
  rt_chain_id : option string;
  rt_gas_price : option string;
  rt_max_fee_per_gas : option string;
  rt_max_priority_fee_per_gas : option string;
  rt_max_fee_per_blob_gas : option string;
  rt_input : option string;
}.

Record LiveTx := mkLiveTx {
  lt_hash : TxHash;
  lt_sender : Address;
  lt_to : option Address;
  lt_nonce : N;
  lt_tx_type : N;
  lt_value_wei : option N;
  lt_gas_limit : option N;
  lt_chain_id : option N;
  lt_gas_price_wei : option N;
  lt_max_fee_per_gas_wei : option N;
  lt_max_priority_fee_per_gas_wei : option N;
  lt_max_fee_per_blob_gas_wei : option N;
  lt_input : list N;
}.
#[export] Instance LiveTx_eq_dec : EqDecision LiveTx.
Proof. solve_decision. Defined.

(** An envelope's [error] (its code and message go to the log) and [result]. *)
Record RpcEnvelope (A : Type) := mkRpcEnvelope { re_error : bool; re_result : option A }.
Arguments mkRpcEnvelope {A}. Arguments re_error {A}. Arguments re_result {A}.

Inductive RpcBatchResponseId := IdNumber (value : N) | IdString (value : string).
Record RpcBatchFetchResponseEnvelope := mkBatchRow {
  row_id : RpcBatchResponseId;
  row_error : bool;
  row_result : option RpcTransaction;
}.
Inductive RpcBatchFetchResponseBody :=
  | BatchBody (rows : list RpcBatchFetchResponseEnvelope)
  | SingleBody (row : RpcBatchFetchResponseEnvelope).

(** ** One transaction *)

(** [o.as_deref().and_then(parse)] for a parser that may panic. *)
Definition parse_field {A} (parse : string -> lookup_outcome A) (o : option string) : lookup_outcome (option A) :=
  match o with
  | None => Found None
  | Some value =>
      match parse value with Found a => Found (Some a) | Absent => Found None | Panicked => Panicked end
  end.
Definition fixed_number (n : nat) (value : string) : lookup_outcome N :=
  of_be_bytes <$> live_parse_fixed_hex n value.

Definition rpc_tx_to_live_tx (tx : RpcTransaction) (hash_hex : string) : lookup_outcome LiveTx :=
  hash ← match fixed_number 32 (rt_hash tx) with Absent => fixed_number 32 hash_hex | o => o end;
  sender ← parse_field (fixed_number 20) (rt_from tx);
  to ← parse_field (fixed_number 20) (rt_to tx);
  input ← parse_field parse_hex_bytes (rt_input tx);
  Found
    {| lt_hash := hash;
       lt_sender := default 0%N sender;
       lt_to := to;
       lt_nonce := default 0%N (rt_nonce tx ≫= parse_hex_u64);
       lt_tx_type := cast 8 (default 0%N (rt_tx_type tx ≫= parse_hex_u64));
       lt_value_wei := rt_value tx ≫= parse_hex_u128;
       lt_gas_limit := rt_gas tx ≫= parse_hex_u64;
       lt_chain_id := rt_chain_id tx ≫= parse_hex_u64;
       lt_gas_price_wei := rt_gas_price tx ≫= parse_hex_u128;
       lt_max_fee_per_gas_wei := rt_max_fee_per_gas tx ≫= parse_hex_u128;
       lt_max_priority_fee_per_gas_wei := rt_max_priority_fee_per_gas tx ≫= parse_hex_u128;
       lt_max_fee_per_blob_gas_wei := rt_max_fee_per_blob_gas tx ≫= parse_hex_u128;
       lt_input := default [] input |}.

(** ** Answers *)
Definition to_index (id : RpcBatchResponseId) : option N :=
  match id with
  | IdNumber value => Some value
  | IdString value =>
      let trimmed := str_trim value in
      match str_bytes trimmed with
      | 48%N :: 120%N :: _ => parse_hex_u64 trimmed
      | _ => parse_u64 (str_bytes trimmed)
      end
  end.

(** The loop over the rows of a batch. *)
Fixpoint place_rows (hashes : list string) (rows : list RpcBatchFetchResponseEnvelope)
    (fetched : list (option LiveTx)) : lookup_outcome (list (option LiveTx)) :=
  match rows with
  | [] => Found fetched
  | row :: rows' =>
      match to_index (row_id row) with
      | None => place_rows hashes rows' fetched
      | Some index =>
          match hashes !! N.to_nat index with
          | None => place_rows hashes rows' fetched
          | Some hash_hex =>
              if row_error row then place_rows hashes rows' fetched
              else
                match row_result row with
                | None => place_rows hashes rows' fetched
                | Some tx =>
                    match rpc_tx_to_live_tx tx hash_hex with
                    | Found tx => place_rows hashes rows' (<[N.to_nat index := Some tx]> fetched)
                    | Absent => place_rows hashes rows' fetched
                    | Panicked => Panicked
                    end
                end
          end
      end
  end.

Fixpoint convert_all (txs : list RpcTransaction) : lookup_outcome (list LiveTx) :=
  match txs with
  | [] => Found []
  | tx :: txs' => live ← rpc_tx_to_live_tx tx (rt_hash tx); lives ← convert_all txs'; Found (live :: lives)
  end.

(** What is posted to an endpoint. *)
Inductive RpcBody :=
  | GetTransaction (hash_hex : string)
  | GetTransactions (hashes : list string)
  | GetPendingBlock.

Section answers.
Context (decode_single : list N -> option (RpcEnvelope RpcTransaction)).
Context (decode_pending : list N -> option (RpcEnvelope (list RpcTransaction))).
Context (decode_batch : list N -> option RpcBatchFetchResponseBody).

Definition decode_transaction_fetch_response_to_live_tx (payload : list N) (hash_hex : string) :
    lookup_outcome (option LiveTx) :=
  match decode_single payload with
  | None => Absent
  | Some response =>
      if re_error response then Absent
      else match re_result response with
           | None => Found None
           | Some tx => Some <$> rpc_tx_to_live_tx tx hash_hex
           end
  end.

Definition decode_pending_block_response_to_live_txs (payload : list N) : lookup_outcome (list LiveTx) :=
  match decode_pending payload with
  | None => Absent
  | Some response =>
      if re_error response then Absent
      else match re_result response with None => Found [] | Some transactions => convert_all transactions end
  end.

Definition decode_transaction_fetch_batch_response_to_live_txs (payload : list N) (hashes : list string) :
    lookup_outcome (list (option LiveTx)) :=
  match decode_batch payload with
  | None => Absent
  | Some response =>
      let envelopes := match response with BatchBody rows => rows | SingleBody row => [row] end in
      place_rows hashes envelopes (replicate (length hashes) None)
  end.

(** The endpoint: the answer's bytes to the [n]-th post of a body, if any. *)
Context (post : RpcBody -> N -> option (list N)).

Definition fetch_transactions_by_hash_batch (hashes : list string) (attempt : N) :
    lookup_outcome (list (option LiveTx)) :=
  match hashes with
  | [] => Found []
  | [hash_hex] =>
      match post (GetTransaction hash_hex) attempt with
      | None => Absent
      | Some bytes =>
          (fun tx => [tx]) <$> decode_transaction_fetch_response_to_live_tx bytes hash_hex
      end
  | _ =>
      match post (GetTransactions hashes) attempt with
      | None => Absent
      | Some bytes => decode_transaction_fetch_batch_response_to_live_txs bytes hashes
      end
  end.

(** The retry loop, with the delays it slept; [retries] is what is left of
    [retry_attempts]. *)
Fixpoint fetch_with_retry (base_backoff_ms : N) (hashes : list string) (retries : nat) (attempt : N) :
    lookup_outcome (list (option LiveTx)) * list N :=
  match fetch_transactions_by_hash_batch hashes attempt with
  | Absent =>
      match retries with
      | O => (Absent, [])
      | S retries' =>
          let '(result, delays) := fetch_with_retry base_backoff_ms hashes retries' (attempt + 1) in
          (result, retry_backoff_delay_ms base_backoff_ms attempt :: delays)
      end
  | outcome => (outcome, [])
  end.
Definition fetch_transactions_by_hash_batch_with_retry (hashes : list string) (batch_fetch : BatchFetchConfig) :
    lookup_outcome (list (option LiveTx)) * list N :=
  fetch_with_retry (bf_retry_backoff_ms batch_fetch) hashes (N.to_nat (bf_retry_attempts batch_fetch)) 0.

Definition fetch_pending_block_transactions : lookup_outcome (list LiveTx) :=
  match post GetPendingBlock 0 with
  | None => Absent
  | Some bytes => decode_pending_block_response_to_live_txs bytes
  end.
End answers.

(** ** Notifications *)
Inductive WsPendingHashValue := HashStr (hash : string) | HashObj (hash : option string).
Definition as_hash (v : WsPendingHashValue) : option string :=
  match v with HashStr hash => Some hash | HashObj hash => hash end.
Record WsSubscriptionParams := mkWsParams { wp_subscription : string; wp_result : WsPendingHashValue }.
Record WsRpcMessage := mkWsMessage {
  wm_has_id : bool;
  wm_method : option string;
  wm_result : option WsPendingHashValue;
  wm_params : option WsSubscriptionParams;
}.

(** [parse_pending_hash] after serde_json; the new subscription id comes with
    the hash. *)
Definition parse_pending_hash (decoded : option WsRpcMessage) (subscription_id : option string) :
    option string * option string :=
  match decoded with
  | None => (None, subscription_id)
  | Some message =>
      if wm_has_id message then
        (None, match wm_result message ≫= as_hash with Some result => Some result | None => subscription_id end)
      else if negb (bool_decide (wm_method message = Some "eth_subscription")) then (None, subscription_id)
      else
        match wm_params message with
        | None => (None, subscription_id)
        | Some params =>
            match subscription_id with
            | Some expected =>
                if bool_decide (expected = wp_subscription params)
                then (as_hash (wp_result params), subscription_id) else (None, subscription_id)
            | None => (as_hash (wp_result params), subscription_id)
            end
        end
  end.

(** ** What a batch answer means *)

(** The transaction a row gives, with its index; [None] when the row has no
    usable index, an error, no result or an invalid hash. *)
Definition row_answer (hashes : list string) (row : RpcBatchFetchResponseEnvelope) :
    lookup_outcome (nat * LiveTx) :=
  match to_index (row_id row) with
  | None => Absent
  | Some index =>
      match hashes !! N.to_nat index, row_error row, row_result row with
      | Some hash_hex, false, Some tx => pair (N.to_nat index) <$> rpc_tx_to_live_tx tx hash_hex
      | _, _, _ => Absent
      end
  end.
Definition answers_at (hashes : list string) (rows : list RpcBatchFetchResponseEnvelope) (i : nat) : list LiveTx :=
  omap (fun row => match row_answer hashes row with
                   | Found (j, tx) => if decide (j = i) then Some tx else None
                   | _ => None end) rows.

Lemma place_rows_step hashes row rows fetched :
  place_rows hashes (row :: rows) fetched =
    match row_answer hashes row with
    | Found (i, tx) => place_rows hashes rows (<[i := Some tx]> fetched)
    | Absent => place_rows hashes rows fetched
    | Panicked => Panicked
    end.
Proof.
  cbn [place_rows]. unfold row_answer. destruct (to_index (row_id row)) as [index|]; [|done].
  destruct (hashes !! N.to_nat index) as [h|]; [|done]. destruct (row_error row); [done|].
  destruct (row_result row) as [tx|]; [|done]. by destruct (rpc_tx_to_live_tx tx h).
Qed.

Lemma row_answer_bound hashes row i tx : row_answer hashes row = Found (i, tx) -> (i < length hashes)%nat.
Proof.
  unfold row_answer. destruct (to_index (row_id row)) as [index|]; [|done].
  destruct (hashes !! N.to_nat index) as [h|] eqn:E; [|done]. destruct (row_error row); [done|].
  destruct (row_result row) as [rtx|]; [|done]. destruct (rpc_tx_to_live_tx rtx h); [|done..].
  intros [= <- _]. by eapply lookup_lt_Some.
Qed.

Lemma place_rows_exact hashes rows fetched :
  length fetched = length hashes ->
  (Exists (fun row => row_answer hashes row = Panicked) rows /\ place_rows hashes rows fetched = Panicked) \/
  Forall (fun row => row_answer hashes row <> Panicked) rows /\
  exists result, place_rows hashes rows fetched = Found result /\ length result = length hashes /\
    forall i old, fetched !! i = Some old ->
      result !! i = Some (match list.last (answers_at hashes rows i) with Some tx => Some tx | None => old end).
Proof.
  revert fetched. induction rows as [|row rows IH]; intros fetched Hlen; [right; split; [done|]; by exists fetched|].
  rewrite place_rows_step. destruct (row_answer hashes row) as [[i tx]| |] eqn:E.
  - destruct (IH (<[i := Some tx]> fetched)) as [[? ?]|(Hall & result & Hr & Hl & Hat)];
      [by rewrite length_insert|left; split; [by right|done]|].
    right. split; [constructor; [by rewrite E|done]|]. exists result. split; [done|]. split; [done|].
    intros j old Hj. unfold answers_at. cbn [omap list_omap]. rewrite E. fold (answers_at hashes rows j).
    destruct (decide (i = j)) as [<-|Hne].
    + rewrite last_cons. rewrite (Hat i (Some tx)).
      * by destruct (list.last _).
      * apply list_lookup_insert_eq. by eapply lookup_lt_Some.
    + apply Hat. by rewrite list_lookup_insert_ne.
  - destruct (IH fetched Hlen) as [[? ?]|(Hall & result & Hr & Hl & Hat)]; [left; split; [by right|done]|].
    right. split; [constructor; [by rewrite E|done]|]. exists result. split; [done|]. split; [done|].
    intros j old Hj. unfold answers_at. cbn [omap list_omap]. rewrite E. by apply Hat.
  - left. split; [by left|done].
Qed.

Lemma answers_at_perm hashes rows rows' i :
  rows ≡ₚ rows' -> answers_at hashes rows i ≡ₚ answers_at hashes rows' i.
Proof. intros H. unfold answers_at. by rewrite H. Qed.

(** What a batch answer gives.  Either some row's text makes the decoder
    panic (a hexadecimal string with a multi-byte character), or the result has
    one entry per requested hash, in the order of the request: the transaction
    of the last row with that index that carries a transaction with a valid
    hash and no error, and nothing for a hash without such a row.  Rows with
    errors, foreign indices or unreadable ids never disturb the others, and
    when no index is answered twice the order of the rows does not matter. *)
Theorem batch_answer_exact decode_batch payload hashes rows
    (Hdec : decode_batch payload = Some (BatchBody rows)) :
  let decoded := decode_transaction_fetch_batch_response_to_live_txs decode_batch payload hashes in
  (decoded = Panicked <-> Exists (fun row => row_answer hashes row = Panicked) rows) /\
  (Forall (fun row => row_answer hashes row <> Panicked) rows ->
     decoded = Found ((fun i => list.last (answers_at hashes rows i)) <$> seq 0 (length hashes))) /\
  (forall rows' payload', decode_batch payload' = Some (BatchBody rows') -> rows ≡ₚ rows' ->
     (forall i, (length (answers_at hashes rows i) <= 1)%nat) ->
     decode_transaction_fetch_batch_response_to_live_txs decode_batch payload' hashes = decoded).
Proof.
  cbv zeta.
  assert (forall payload rows, decode_batch payload = Some (BatchBody rows) ->
    Exists (fun row => row_answer hashes row = Panicked) rows /\
      decode_transaction_fetch_batch_response_to_live_txs decode_batch payload hashes = Panicked \/
    Forall (fun row => row_answer hashes row <> Panicked) rows /\
      decode_transaction_fetch_batch_response_to_live_txs decode_batch payload hashes =
      Found ((fun i => list.last (answers_at hashes rows i)) <$> seq 0 (length hashes))) as Hgo.
  { clear. intros payload rows Hdec. unfold decode_transaction_fetch_batch_response_to_live_txs. rewrite Hdec.
    destruct (place_rows_exact hashes rows (replicate (length hashes) None)) as [H|(Hall & result & Hr & Hl & Hat)];
      [by rewrite length_replicate|by left|right]. split; [done|]. rewrite Hr. f_equal.
    apply list_eq. intros i. rewrite list_lookup_fmap. destruct (decide (i < length hashes)%nat) as [Hi|Hi].
    - rewrite (Hat i None) by by apply lookup_replicate_2. rewrite lookup_seq_lt by done. cbn.
      by destruct (list.last _).
    - rewrite lookup_ge_None_2 by lia. by rewrite lookup_seq_ge by lia. }
  assert (forall rows, Exists (fun row => row_answer hashes row = Panicked) rows ->
    Forall (fun row => row_answer hashes row <> Panicked) rows -> False) as Habs.
  { intros l H1 H2. apply Exists_exists in H1 as (r & Hr & E). by apply (proj1 (Forall_forall _ _) H2 r). }
  destruct (Hgo _ _ Hdec) as [[Hex E]|[Hall E]]; rewrite E.
  - split; [done|]. split; [intros H; by destruct (Habs rows)|]. intros rows' payload' Hdec' Hperm _.
    destruct (Hgo _ _ Hdec') as [[_ E']|[Hall' _]]; [done|]. destruct (Habs rows Hex). by rewrite Hperm.
  - split; [split; [done|]; intros H; by destruct (Habs rows)|]. split; [done|].
    intros rows' payload' Hdec' Hperm Hone. destruct (Hgo _ _ Hdec') as [[Hex' _]|[_ ->]].
    { destruct (Habs rows'); [done|]. by rewrite <-Hperm. }
    f_equal. apply list_fmap_ext. intros i j _. f_equal. symmetry.
    pose proof (answers_at_perm hashes _ _ j Hperm) as Hp. specialize (Hone j).
    destruct (answers_at hashes rows j) as [|tx [|? ?]]; cbn in Hone; [|..|lia].
    + symmetry in Hp. apply Permutation_nil_r in Hp. by rewrite Hp.
    + symmetry in Hp. by apply Permutation_singleton_r in Hp as ->.
Qed.

(** Two hashes, answered in the reverse order. *)
Definition sample_hash_hex (h : N) : string := format_hash h.
Definition sample_rpc_tx (h : N) : RpcTransaction :=
  mkRpcTx (sample_hash_hex h) (Some "0x00000000000000000000000000000000000000aa") None (Some "0x7") (Some "0x10")
    (Some "0x5208") (Some "0x2") None None (Some "0x64") None None (Some "0x").
Definition sample_rows : list RpcBatchFetchResponseEnvelope :=
  [mkBatchRow (IdNumber 1) false (Some (sample_rpc_tx 12)); mkBatchRow (IdString "0x0") false (Some (sample_rpc_tx 11));
   mkBatchRow (IdNumber 9) false (Some (sample_rpc_tx 13))].
Definition sample_decode_batch (payload : list N) : option RpcBatchFetchResponseBody := Some (BatchBody sample_rows).

Lemma batch_answer_exact_witness :
  sample_decode_batch [] = Some (BatchBody sample_rows) /\
  exists tx11 tx12,
    decode_transaction_fetch_batch_response_to_live_txs sample_decode_batch [] (sample_hash_hex <$> [11; 12]%N) =
      Found [Some tx11; Some tx12] /\ (lt_hash tx11, lt_hash tx12, lt_nonce tx11) = (11, 12, 7)%N.
Proof.
  split; [reflexivity|].
  destruct (batch_answer_exact sample_decode_batch [] (sample_hash_hex <$> [11; 12]%N) sample_rows eq_refl)
    as (_ & Hfound & _).
  eexists _, _. split; [etransitivity; [apply Hfound|vm_compute; reflexivity]|vm_compute; reflexivity].
  repeat (apply Forall_cons_2; [vm_compute; discriminate|]). apply Forall_nil_2.
Defined.
