(* ===== verification/LiveProgram.v ===== *)
(** * LiveProgram: effects and values of the live pipeline (crates/runtime-core/src/live_rpc.rs)

    The handlers of the live feed talk to the scheduler, to the storage queue,
    to the simulation queue, to the clock and to shared counters, while other
    tasks do the same.  A handler is a program whose calls are data: [Do c k]
    makes the call [c] and goes on with its reply.  [run] lets any environment
    answer, with a state of its own, and records the conversation; whatever
    other tasks do in between is part of the environment.

    The second half holds the data of the pipeline and its pure builders. *)
From stdpp Require Import base gmap strings list numbers sorting pretty.
From S2P Require Import Prelude Common EventLog Scheduler SchedulerActor Simulation Features Searcher Assembly.
From S2P Require Import Storage StorageWriter Text TxDecode LiveHex LiveState LiveConfig LiveDecode.

(** ** Data *)
Record ExecutableOpportunity := mkExecutable {
  eo_record : OpportunityRecord;
  eo_candidate : OpportunityCandidate;
}.
Record RemoteSimulationRequest := mkSimRequest {
  rq_tx_hash : TxHash;
  rq_member_tx_hashes : list TxHash;
  rq_txs : list ValidatedTransaction;
  rq_detected_unix_ms : Z;
}.
Inductive RemoteSimulationStatus := SimOk | SimFailed | SimStateError | SimTimeout.
#[export] Instance RemoteSimulationStatus_eq_dec : EqDecision RemoteSimulationStatus.
Proof. solve_decision. Defined.
Record RemoteSimulationOutcome := mkSimOutcome {
  so_sim_id : string;
  so_status : RemoteSimulationStatus;
  so_fail_category : option string;
  so_latency_ms : N;
  so_tx_count : N;
  so_simulation_batch : option SimulationBatchResult;
}.
Record RegisteredSimulationCandidate := mkRegistered {
  rg_spec : SimulationTaskSpec;
  rg_opportunity : ExecutableOpportunity;
}.
(** The handles a task carries are not data. *)
Record SimulationTask := mkSimTask {
  tk_chain : ChainRpcConfig;
  tk_request : RemoteSimulationRequest;
  tk_candidates : list RegisteredSimulationCandidate;
  tk_enqueued_unix_ms : Z;
}.
Record BuilderDecisionRecord := mkBuilderDecision {
  bd_tx_hash : TxHash;
  bd_block_number : N;
  bd_decision : AssemblyDecision;
}.
Record PendingHashObservation := mkObservation {
  ob_hash_hex : string;
  ob_observed_at_unix_ms : Z;
  ob_observed_at_mono_ns : N;
}.

Inductive StorageTryEnqueueError := TryQueueFull | TryQueueClosed.
Inductive SimSendResult := SimSent | SimQueueFull | SimQueueClosed.
(** A change of a chain's status; the endpoint count and the source are the
    chain's. *)
Record ChainStatusUpdate := mkStatusUpdate {
  su_endpoint : RpcEndpoint;
  su_endpoint_index : N;
  su_state : string;
  su_last_error : option string;
  su_observed_pending : bool;
  su_increment_rotation : bool;
}.
(** What opening a web socket and subscribing came to. *)
Inductive ConnectOutcome := Subscribed | ConnectFailed | SubscribeFailed.

Record RpcHeader := mkRpcHeader {
  rh_number : string;
  rh_timestamp : string;
  rh_gas_limit : string;
  rh_base_fee_per_gas : option string;
  rh_miner : option string;
  rh_state_root : option string;
}.
(** A post awaited under a deadline; [None] when the post or the decoding of
    the answer failed. *)
Inductive timed (A : Type) := Elapsed | Answered (answer : option (RpcEnvelope A)).
Arguments Elapsed {A}. Arguments Answered {A} answer.

(** Why a handler fails. *)
Inductive LiveError := StorageWriterClosed | SchedulerFailed (e : SchedulerEnqueueError) | SimulationQueueClosed.

(** ** Programs *)
Inductive call :=
  | CallNow
  | CallNextSeq
  | CallEnqueue (op : StorageWriteOp)
  | CallAdmit (tx : ValidatedTransaction)
  | CallInvalidate (hash : TxHash)
  | CallPending (hashes : list TxHash)
  | CallReady
  | CallRegister (cands : list SchedulerCandidate)
  | CallApplyResult (result : SchedulerSimulationResult)
  | CallSimSend (task : SimulationTask)
  | CallObserveDrop (reason : LiveRpcDropReason)
  | CallObserveSim (o : SimObservation)
  | CallObserveSearcher (executable : list OpportunityRecord)
  | CallRecordStatus (snapshot : LiveRpcSimulationStatusSnapshot)
  | CallBuilderInsert (candidate : AssemblyCandidate)
  | CallElapsed
  | CallMono
  | CallConnect (ws_url : string)
  | CallPong
  | CallUpdateStatus (update : ChainStatusUpdate)
  | CallFetchRows (http_url : string) (hashes : list string)
  | CallFetchPending (http_url : string)
  | CallHeader (http_url : string)
  | CallScalar (http_url method address_hex : string)
  | CallSeedLookup (http_url : string) (address : Address) (block_number : N) (now_unix_ms ttl_ms : Z)
  | CallSeedStore (http_url : string) (address : Address) (block_number : N) (now_unix_ms : Z) (seed : AccountSeed).

Definition reply (c : call) : Type :=
  match c with
  | CallNow => Z
  | CallNextSeq => N
  | CallEnqueue _ => unit + StorageTryEnqueueError
  | CallAdmit _ => SchedulerAdmissionOutcome + SchedulerEnqueueError
  | CallInvalidate _ => unit + SchedulerEnqueueError
  | CallPending _ | CallReady => list ValidatedTransaction
  | CallRegister _ => list SimulationTaskSpec + SchedulerEnqueueError
  | CallApplyResult _ => SchedulerSimulationApplyOutcome + SchedulerEnqueueError
  | CallSimSend _ => SimSendResult
  | CallBuilderInsert _ => AssemblyDecision
  | CallElapsed | CallMono => N
  | CallConnect _ => ConnectOutcome
  | CallPong => bool
  | CallFetchRows _ _ => lookup_outcome (list (option LiveTx))
  | CallFetchPending _ => lookup_outcome (list LiveTx)
  | CallHeader _ => timed RpcHeader
  | CallScalar _ _ _ => timed string
  | CallSeedLookup _ _ _ _ _ => option AccountSeed
  | CallObserveDrop _ | CallObserveSim _ | CallObserveSearcher _ | CallRecordStatus _ | CallUpdateStatus _
  | CallSeedStore _ _ _ _ _ => unit
  end.

Inductive prog (A : Type) : Type :=
  | Ret (a : A)
  | Do (c : call) (k : reply c -> prog A).
Arguments Ret {A} a.
Arguments Do {A} c k.

Fixpoint bind {A B} (p : prog A) (f : A -> prog B) : prog B :=
  match p with
  | Ret a => f a
  | Do c k => Do c (fun r => bind (k r) f)
  end.

Declare Scope live_scope.
Delimit Scope live_scope with live.
Notation "x <- p ;; k" := (bind p (fun x => k))
  (at level 100, p at next level, right associativity) : live_scope.
Notation "x <! c ;; k" := (Do c (fun x => k))
  (at level 100, c at next level, right associativity) : live_scope.
Open Scope live_scope.

(** [Result<()>] of a handler, and [Result<bool>] of a step of it: [inl false]
    makes the handler return [Ok(())]. *)
Abbreviation outcome_unit := (unit + LiveError)%type.
Abbreviation outcome_bool := (bool + LiveError)%type.
(** [if !step? { return Ok(()) }] *)
Definition and_then {A} (r : outcome_bool) (stop : outcome_bool -> A) (go : A) : A :=
  match r with inl true => go | _ => stop r end.
Definition return_early (r : outcome_bool) : prog outcome_unit :=
  Ret (match r with inl _ => inl tt | inr e => inr e end).
Notation "'try!' p ;; k" := (bind p (fun r => and_then r return_early k))
  (at level 100, p at next level, right associativity) : live_scope.

(** [for x in l { if !body(x)? { return Ok(()) } }] *)
Fixpoint for_each {A} (l : list A) (body : A -> prog outcome_bool) : prog outcome_bool :=
  match l with
  | [] => Ret (inl true)
  | x :: l' => r <- body x ;; and_then r Ret (for_each l' body)
  end.

(** ** Running a program *)
Definition exchange : Type := { c : call & reply c }.
Definition exch (c : call) (r : reply c) : exchange := existT c r.

Section run.
Context {S : Type} (env : forall c : call, S -> reply c * S).

Record outcome_of (A : Type) := mkRun { run_log : list exchange; run_value : A; run_state : S }.
Arguments mkRun {A}. Arguments run_log {A}. Arguments run_value {A}. Arguments run_state {A}.

Fixpoint run {A} (p : prog A) (s : S) : outcome_of A :=
  match p with
  | Ret a => mkRun [] a s
  | Do c k =>
      let '(r, s1) := env c s in
      let o := run (k r) s1 in
      mkRun (exch c r :: run_log o) (run_value o) (run_state o)
  end.

Lemma run_bind {A B} (p : prog A) (f : A -> prog B) s :
  run (bind p f) s =
    let o1 := run p s in
    let o2 := run (f (run_value o1)) (run_state o1) in
    mkRun (run_log o1 ++ run_log o2) (run_value o2) (run_state o2).
Proof.
  revert s. induction p as [a|c k IH]; intros s; cbn; [by destruct (run (f a) s)|].
  destruct (env c s) as [r s1]. rewrite IH. done.
Qed.
End run.
Arguments mkRun {S A}. Arguments run_log {S A}. Arguments run_value {S A}. Arguments run_state {S A}.
Arguments outcome_of : clear implicits.


(** What holds of every call a program makes and of every value it returns,
    whatever the replies. *)
Fixpoint obeys {A} (P : call -> Prop) (Q : A -> Prop) (p : prog A) : Prop :=
  match p with
  | Ret a => Q a
  | Do c k => P c /\ forall r, obeys P Q (k r)
  end.
Definition any {A} (_ : A) : Prop := True.

Lemma obeys_mono {A} (P P' : call -> Prop) (Q Q' : A -> Prop) p :
  (forall c, P c -> P' c) -> (forall a, Q a -> Q' a) -> obeys P Q p -> obeys P' Q' p.
Proof. intros HP HQ. induction p as [a|c k IH]; cbn; [apply HQ|]. intros [Hc Hk]. auto. Qed.

Lemma obeys_bind {A B} P (Q : A -> Prop) (Q' : B -> Prop) (p : prog A) (f : A -> prog B) :
  obeys P Q p -> (forall a, Q a -> obeys P Q' (f a)) -> obeys P Q' (bind p f).
Proof. intros Hp Hf. induction p as [a|c k IH]; cbn in *; [by apply Hf|]. destruct Hp as [Hc Hk]. auto. Qed.

Lemma obeys_seq P (p q : prog outcome_bool) : obeys P any p -> obeys P any q -> obeys P any (r <- p ;; and_then r Ret q).
Proof. intros Hp Hq. apply (obeys_bind _ _ _ _ _ Hp). by intros [[]|e]. Qed.

Lemma obeys_for_each {A} P (l : list A) body : (forall x, obeys P any (body x)) -> obeys P any (for_each l body).
Proof. intros Hb. induction l as [|x l IH]; [done|]. by apply obeys_seq. Qed.

Lemma run_obeys {S A} (env : forall c : call, S -> reply c * S) P (Q : A -> Prop) p s :
  obeys P Q p -> Forall (fun x => P (projT1 x)) (run_log (run env p s)) /\ Q (run_value (run env p s)).
Proof.
  revert s. induction p as [a|c k IH]; intros s Hp; [by split|]. cbn in *. destruct Hp as [Hc Hk].
  destruct (env c s) as [r s1]. destruct (IH r s1 (Hk r)) as [Hl Hv]. split; [by constructor|done].
Qed.

(** Every exchange of a conversation was answered by the environment. *)
Lemma run_answered {S A} (env : forall c : call, S -> reply c * S) (p : prog A) s x :
  x ∈ run_log (run env p s) -> exists s', (env (projT1 x) s').1 = projT2 x.
Proof.
  revert s. induction p as [a|c k IH]; intros s; cbn; [by intros ?%not_elem_of_nil|].
  destruct (env c s) as [r s1] eqn:E. cbn. intros [->|Hx]%elem_of_cons; [|by apply IH in Hx].
  exists s. cbn. by rewrite E.
Qed.

(** The storage operations of a conversation: attempted, and taken by the queue. *)
Definition attempted_op (x : exchange) : option StorageWriteOp :=
  match projT1 x with CallEnqueue op => Some op | _ => None end.
Definition accepted_op (x : exchange) : option StorageWriteOp :=
  match x with
  | existT (CallEnqueue op) (inl _) => Some op
  | _ => None
  end.
Definition attempted_ops (log : list exchange) : list StorageWriteOp := omap attempted_op log.
Definition accepted_ops (log : list exchange) : list StorageWriteOp := omap accepted_op log.
Definition op_payload (op : StorageWriteOp) : option EventPayload :=
  match op with WAppendPayload _ p _ _ => Some p | WAppendEvent e => Some (payload e) | _ => None end.

(** ** Storage *)
Definition classify_storage_enqueue_drop_reason (error : StorageTryEnqueueError) : LiveRpcDropReason :=
  match error with TryQueueFull => StorageQueueFull | TryQueueClosed => StorageQueueClosed end.

Definition try_enqueue_storage_write (op : StorageWriteOp) : prog outcome_bool :=
  r <! CallEnqueue op ;;
  match r with
  | inl _ => Ret (inl true)
  | inr error =>
      _ <! CallObserveDrop (classify_storage_enqueue_drop_reason error) ;;
      match error with
      | TryQueueFull => Ret (inl false)
      | TryQueueClosed => Ret (inr StorageWriterClosed)
      end
  end.

Definition append_event_op (chain : ChainRpcConfig) (now_unix_ms : Z) (seq_id : N) (p : EventPayload) : StorageWriteOp :=
  WAppendPayload (ch_source_id chain) p now_unix_ms (sat_mul u64_max seq_id 1000000).
Definition append_event_with_owner (chain : ChainRpcConfig) (now_unix_ms : Z) (p : EventPayload) : prog outcome_bool :=
  seq_id <! CallNextSeq ;;
  try_enqueue_storage_write (append_event_op chain now_unix_ms seq_id p).

(** ** Payloads *)
Definition queue_transition_payload (transition : SchedulerQueueTransition) : EventPayload :=
  match tr_state transition with
  | Ready => PTxReady (mkTxReady (tr_hash transition) (tr_sender transition) (tr_nonce transition))
  | Blocked expected_nonce =>
      PTxBlocked (mkTxBlocked (tr_hash transition) (tr_sender transition) (tr_nonce transition) (Some expected_nonce))
  end.
Definition append_queue_transition_event_with_owner (chain : ChainRpcConfig) (now_unix_ms : Z)
    (transition : SchedulerQueueTransition) : prog outcome_bool :=
  append_event_with_owner chain now_unix_ms (queue_transition_payload transition).

Definition build_opportunity_detected_payload (opportunity : OpportunityRecord) : EventPayload :=
  POppDetected
    {| opp_hash := or_tx_hash opportunity; opp_strategy := or_strategy opportunity;
       opp_score := or_score opportunity; opp_protocol := or_protocol opportunity;
       opp_category := or_category opportunity;
       opp_feature_engine_version := or_feature_engine_version opportunity;
       opp_scorer_version := or_scorer_version opportunity;
       opp_strategy_version := or_strategy_version opportunity; opp_reasons := or_reasons opportunity |}.

Definition build_candidate_queued_payload (candidate : SchedulerCandidate) (opportunity : OpportunityRecord) :
    EventPayload :=
  PCandidateQueued
    {| cq_candidate_id := cand_id candidate; cq_tx_hash := cand_tx_hash candidate;
       cq_member_tx_hashes := cand_member_tx_hashes candidate; cq_chain_id := or_chain_id opportunity;
       cq_strategy := cand_strategy candidate; cq_score := cand_score candidate;
       cq_protocol := or_protocol opportunity; cq_category := or_category opportunity;
       cq_feature_engine_version := or_feature_engine_version opportunity;
       cq_scorer_version := or_scorer_version opportunity;
       cq_strategy_version := or_strategy_version opportunity; cq_reasons := or_reasons opportunity;
       cq_detected_unix_ms := cand_detected_unix_ms candidate |}.

Definition build_sim_dispatched_payload (spec : SimulationTaskSpec) : EventPayload :=
  PSimDispatched (mkSimDispatched (task_candidate_id spec) (task_tx_hash spec) (task_member_tx_hashes spec)
    (task_block_number spec)).

Definition simulation_status_label (status : RemoteSimulationStatus) : string :=
  match status with
  | SimOk => "ok" | SimFailed => "failed" | SimStateError => "state_error" | SimTimeout => "timeout"
  end.
Definition simulation_fail_category_label (category : SimulationFailCategory) : string :=
  match category with
  | FailRevert => "revert" | FailOutOfGas => "out_of_gas" | FailNonceMismatch => "nonce_mismatch"
  | FailStateMismatch => "state_mismatch" | FailUnknown => "unknown"
  end.

(** [format_fixed_hex(&hash)[2..10]] *)
Definition hash_prefix (hash : TxHash) : string := String.substring 2 8 (format_hash hash).
Definition build_bundle_id (hash : TxHash) (detected_unix_ms : Z) : string :=
  "bundle-" +:+ hash_prefix hash +:+ "-" +:+ pretty detected_unix_ms.
Definition bundle_id_for_opportunity (opportunity : OpportunityRecord) : string :=
  build_bundle_id (or_tx_hash opportunity) (or_detected_unix_ms opportunity).
Definition request_sim_id (request : RemoteSimulationRequest) : string :=
  "sim-" +:+ hash_prefix (rq_tx_hash request) +:+ "-" +:+ pretty (rq_detected_unix_ms request).

Definition build_sim_completed_payload (opportunity : OpportunityRecord) (outcome : RemoteSimulationOutcome) :
    SimCompleted :=
  {| simc_hash := or_tx_hash opportunity; simc_sim_id := so_sim_id outcome;
     simc_status := simulation_status_label (so_status outcome);
     simc_feature_engine_version := or_feature_engine_version opportunity;
     simc_scorer_version := or_scorer_version opportunity;
     simc_strategy_version := or_strategy_version opportunity;
     simc_fail_category := so_fail_category outcome; simc_latency_ms := Some (so_latency_ms outcome);
     simc_tx_count := Some (so_tx_count outcome) |}.

Definition build_bundle_submitted_payload (opportunity : OpportunityRecord) (sim_event : SimCompleted) : EventPayload :=
  PBundleSubmitted
    {| bs_hash := or_tx_hash opportunity; bs_bundle_id := bundle_id_for_opportunity opportunity;
       bs_sim_id := simc_sim_id sim_event; bs_relay := "not_submitted"; bs_accepted := false;
       bs_feature_engine_version := or_feature_engine_version opportunity;
       bs_scorer_version := or_scorer_version opportunity;
       bs_strategy_version := or_strategy_version opportunity |}.

Definition build_assembly_decision_payload (tx_hash : TxHash) (block_number : N) (decision : AssemblyDecision) :
    EventPayload :=
  match decision with
  | Inserted candidate_id replaced_candidate_ids =>
      PAssemblyDecisionApplied
        (mkAssemblyDecisionApplied candidate_id tx_hash "inserted" replaced_candidate_ids None block_number)
  | Rejected candidate_id reason =>
      PAssemblyDecisionApplied
        (mkAssemblyDecisionApplied candidate_id tx_hash "rejected" [] (Some reason) block_number)
  end.

(** ** Transactions and opportunities *)
Definition validated_transaction_from_live_tx (chain : ChainRpcConfig) (observed_at_unix_ms : Z)
    (observed_at_mono_ns : N) (tx : LiveTx) : ValidatedTransaction :=
  {| vt_source_id := ch_source_id chain; vt_observed_at_unix_ms := observed_at_unix_ms;
     vt_observed_at_mono_ns := observed_at_mono_ns; vt_calldata := lt_input tx;
     vt_decoded :=
       {| dec_hash := lt_hash tx; dec_tx_type := lt_tx_type tx; dec_sender := lt_sender tx;
          dec_nonce := lt_nonce tx;
          dec_chain_id := match lt_chain_id tx with Some id => Some id | None => ch_chain_id chain end;
          dec_to := lt_to tx; dec_value_wei := lt_value_wei tx; dec_gas_limit := lt_gas_limit tx;
          dec_gas_price_wei := lt_gas_price_wei tx; dec_max_fee_per_gas_wei := lt_max_fee_per_gas_wei tx;
          dec_max_priority_fee_per_gas_wei := lt_max_priority_fee_per_gas_wei tx;
          dec_max_fee_per_blob_gas_wei := lt_max_fee_per_blob_gas_wei tx;
          dec_calldata_len := Some (cast 32 (usize_of (length (lt_input tx)))) |} |}.

Definition feature_input (tx : LiveTx) : FeatureInput :=
  mkFeatureInput (lt_to tx) (lt_input tx) (lt_tx_type tx) (lt_chain_id tx) (lt_gas_limit tx) (lt_value_wei tx)
    (lt_gas_price_wei tx) (lt_max_fee_per_gas_wei tx) (lt_max_priority_fee_per_gas_wei tx)
    (lt_max_fee_per_blob_gas_wei tx).

Definition tx_full_record (resolved_chain_id : option N) (tx : LiveTx) : TxFullRecord :=
  {| tf_hash := lt_hash tx; tf_tx_type := lt_tx_type tx; tf_sender := lt_sender tx; tf_nonce := lt_nonce tx;
     tf_to := lt_to tx; tf_chain_id := resolved_chain_id; tf_value_wei := lt_value_wei tx;
     tf_gas_limit := lt_gas_limit tx; tf_gas_price_wei := lt_gas_price_wei tx;
     tf_max_fee_per_gas_wei := lt_max_fee_per_gas_wei tx;
     tf_max_priority_fee_per_gas_wei := lt_max_priority_fee_per_gas_wei tx;
     tf_max_fee_per_blob_gas_wei := lt_max_fee_per_blob_gas_wei tx;
     tf_calldata_len := Some (cast 32 (usize_of (length (lt_input tx)))); tf_raw_tx := lt_input tx |}.

Definition tx_features_record (resolved_chain_id : option N) (tx : LiveTx) : TxFeaturesRecord :=
  let analysis := analyze_transaction (feature_input tx) in
  {| fr_hash := lt_hash tx; fr_chain_id := resolved_chain_id; fr_protocol := an_protocol analysis;
     fr_category := an_category analysis; fr_mev_score := an_mev_score analysis;
     fr_urgency_score := an_urgency_score analysis;
     fr_method_selector := be_bytes 4 <$> an_method_selector analysis;
     fr_feature_engine_version := feature_engine_version |}.

Definition searcher_limits : SearcherConfig := mkSearcherConfig 0 8.
Definition executable_of (detected_unix_ms : Z) (chain_id : option N) (candidate : OpportunityCandidate) :
    ExecutableOpportunity :=
  mkExecutable
    {| or_tx_hash := oc_tx_hash candidate; or_chain_id := chain_id;
       or_strategy := strategy_debug (oc_strategy candidate); or_score := oc_score candidate;
       or_protocol := oc_protocol candidate; or_category := oc_category candidate;
       or_feature_engine_version := oc_feature_engine_version candidate;
       or_scorer_version := oc_scorer_version candidate; or_strategy_version := oc_strategy_version candidate;
       or_reasons := oc_reasons candidate; or_detected_unix_ms := detected_unix_ms |}
    candidate.
Definition build_executable_opportunities (executable : list ValidatedTransaction) (detected_unix_ms : Z)
    (chain_id : option N) : list ExecutableOpportunity :=
  match executable with
  | [] => []
  | _ =>
      let batch := (fun tx => mkSearcherInput (vt_decoded tx) (vt_calldata tx)) <$> executable in
      executable_of detected_unix_ms chain_id <$> sb_candidates (rank_opportunity_batch batch searcher_limits)
  end.

Definition is_ready (transition : SchedulerQueueTransition) : bool :=
  match tr_state transition with Ready => true | Blocked _ => false end.
(** The hashes that became ready, once each, in order of first occurrence. *)
Fixpoint first_occurrences (seen : gset TxHash) (l : list TxHash) : list TxHash :=
  match l with
  | [] => []
  | h :: l' => if decide (h ∈ seen) then first_occurrences seen l' else h :: first_occurrences ({[h]} ∪ seen) l'
  end.
Definition ready_hashes_of (queue_transitions : list SchedulerQueueTransition) : list TxHash :=
  first_occurrences ∅ (tr_hash <$> List.filter is_ready queue_transitions).

Definition ready_transactions_for_queue_transitions (queue_transitions : list SchedulerQueueTransition) :
    prog (list ValidatedTransaction) :=
  match ready_hashes_of queue_transitions with
  | [] => Ret []
  | ready_hashes => txs <! CallPending ready_hashes ;; Ret txs
  end.
Definition ready_frontier_for_queue_transitions (queue_transitions : list SchedulerQueueTransition) :
    prog (list ValidatedTransaction) :=
  if negb (existsb is_ready queue_transitions) then Ret []
  else ready <! CallReady ;; Ret ready.

Definition requested_hashes (opportunity : ExecutableOpportunity) : list TxHash :=
  match oc_member_tx_hashes (eo_candidate opportunity) with
  | [] => [or_tx_hash (eo_record opportunity)]
  | members => members
  end.

Definition scheduler_candidate_from_executable_opportunity (opportunity : ExecutableOpportunity) : SchedulerCandidate :=
  {| cand_id := strategy_debug (oc_strategy (eo_candidate opportunity)) +:+ ":" +:+
       format_hash (or_tx_hash (eo_record opportunity));
     cand_tx_hash := or_tx_hash (eo_record opportunity);
     cand_member_tx_hashes := requested_hashes opportunity;
     cand_score := or_score (eo_record opportunity);
     cand_strategy := or_strategy (eo_record opportunity);
     cand_detected_unix_ms := or_detected_unix_ms (eo_record opportunity) |}.

(** ** Simulation requests *)

(** The loop over the requested hashes: [None] is the early return. *)
Fixpoint select_hashes (executable : list ValidatedTransaction) (requested : list TxHash) (selected : gset TxHash) :
    option (gset TxHash) :=
  match requested with
  | [] => Some selected
  | requested_hash :: requested' =>
      match List.find (fun tx => (vt_hash tx =? requested_hash)%N) executable with
      | None => None
      | Some requested_tx =>
          select_hashes executable requested'
            (foldl (fun selected candidate =>
               if ((vt_sender candidate =? vt_sender requested_tx) &&
                   (vt_nonce candidate <=? vt_nonce requested_tx))%N
               then {[vt_hash candidate]} ∪ selected else selected) selected executable)
      end
  end.

Definition build_remote_simulation_request (opportunity : ExecutableOpportunity)
    (executable : list ValidatedTransaction) : option RemoteSimulationRequest :=
  let requested := requested_hashes opportunity in
  selected_hashes ← select_hashes executable requested (list_to_set requested);
  let txs := filter (fun tx => vt_hash tx ∈ selected_hashes) executable in
  Some {| rq_tx_hash := or_tx_hash (eo_record opportunity); rq_member_tx_hashes := vt_hash <$> txs;
          rq_txs := txs; rq_detected_unix_ms := or_detected_unix_ms (eo_record opportunity) |}.

Definition simulation_task_key (request : RemoteSimulationRequest) : string :=
  let members := sort_by String.compare (format_hash <$> rq_member_tx_hashes request) in
  format_hash (rq_tx_hash request) +:+ ":" +:+ String.concat "," members.

(** [LiveRpcSimulationService::enqueue], for a queue of a capacity and workers. *)
Definition enqueue_simulation_task (queue_capacity worker_total : N) (task : SimulationTask) : prog outcome_bool :=
  sent <! CallSimSend task ;;
  match sent with
  | SimSent =>
      _ <! CallObserveSim (ObsConfigure queue_capacity worker_total) ;;
      _ <! CallObserveSim ObsEnqueue ;;
      Ret (inl true)
  | SimQueueFull =>
      _ <! CallObserveSim (ObsConfigure queue_capacity worker_total) ;;
      _ <! CallObserveSim ObsQueueFull ;;
      Ret (inl false)
  | SimQueueClosed => Ret (inr SimulationQueueClosed)
  end.
