(* ===== verification/Startup.v ===== *)
(** * Startup: assembling the process, its background tasks, its end

    [src/crates/node-runtime/src] (builder.rs, handle.rs), the parts of
    [src/crates/viz-api/src/lib.rs] that start and stop the background tasks
    and bundle the start, and the helpers of
    [src/crates/viz-api/src/bin/viz-api.rs]. *)
From stdpp Require Import base gmap strings list numbers relations.
From S2P Require Import Prelude Common EventLog Scheduler Storage StorageWriter Text LiveState LiveConfig LiveDecode LiveProgram Recovery.

(** ** Modes and addresses *)
Definition runtime_ingest_mode_from_source_mode (mode : IngestSourceMode) : RuntimeIngestMode :=
  match mode with SourceRpc => ModeRpc | SourceP2p => ModeP2p | SourceHybrid => ModeHybrid end.

Inductive IngestMode := NodeRpc | NodeP2p | NodeHybrid.
Definition mode_as_str (mode : IngestMode) : string :=
  match mode with NodeRpc => "rpc" | NodeP2p => "p2p" | NodeHybrid => "hybrid" end.
Definition mode_parse (raw : option string) : IngestMode :=
  match to_ascii_lowercase ∘ str_trim <$> raw with
  | Some mode =>
      if bool_decide (mode = "p2p") then NodeP2p else if bool_decide (mode = "hybrid") then NodeHybrid else NodeRpc
  | None => NodeRpc
  end.
Definition runtime_ingest_mode (mode : IngestMode) : RuntimeIngestMode :=
  match mode with NodeRpc => ModeRpc | NodeP2p => ModeP2p | NodeHybrid => ModeHybrid end.

Definition resolve_bind_addr (env_override : option string) : string :=
  match str_trim <$> env_override with
  | Some value => if bool_decide (value = "") then "0.0.0.0:3000" else value
  | None => "0.0.0.0:3000"
  end.

(** [directive == "viz_api" || directive.starts_with("viz_api=")] *)
Definition viz_api_directive (directive : list N) : bool :=
  bool_decide (directive = str_bytes "viz_api") || bool_decide (take 8 directive = str_bytes "viz_api=").
Definition resolve_log_filter (env_override : option string) : string :=
  match str_trim <$> env_override with
  | Some value =>
      if bool_decide (value = "") then "info,viz_api=info"
      else if existsb viz_api_directive (trim_bytes <$> split_comma [] (str_bytes value)) then value
      else value +:+ ",viz_api=info"
  | None => "info,viz_api=info"
  end.

(** ** The process: [NodeRuntimeBuilder] and [NodeRuntime] *)
Section node.
Context {Args Core E : Type} (core_start : Args -> Core + E) (core_shutdown : Core -> unit + E).

(** A closure that runs at most once is what it returns; that it ran is
    recorded in the history. *)
Definition ShutdownHook : Type := unit + E.
Definition StartupHookFactory : Type := option Core -> option ShutdownHook + E.

Inductive lifecycle_event := CoreStarted (core : Core) | StartupRan (core : option Core) | HookRan | CoreStopped (core : Core).

Record NodeRuntimeBuilder := mkBuilder {
  nb_ingest_mode : IngestMode;
  nb_runtime_core_start_args : option Args;
  nb_startup : option StartupHookFactory;
}.
Definition builder_from_env (env : string -> option string) : NodeRuntimeBuilder :=
  mkBuilder (mode_parse (env "VIZ_API_INGEST_MODE")) None None.
Definition with_runtime_core_start_args (args : Args) (b : NodeRuntimeBuilder) : NodeRuntimeBuilder :=
  mkBuilder (nb_ingest_mode b) (Some args) (nb_startup b).
Definition with_startup (startup : StartupHookFactory) (b : NodeRuntimeBuilder) : NodeRuntimeBuilder :=
  mkBuilder (nb_ingest_mode b) (nb_runtime_core_start_args b) (Some startup).

Record NodeRuntime := mkNodeRuntime {
  nr_runtime_core : option Core;
  nr_shutdown : option ShutdownHook;
}.

Definition build (b : NodeRuntimeBuilder) : list lifecycle_event * (NodeRuntime + E) :=
  let start runtime_core :=
    match nb_startup b with
    | Some startup =>
        ([StartupRan runtime_core],
         match startup runtime_core with
         | inl shutdown => inl (mkNodeRuntime runtime_core shutdown)
         | inr e => inr e
         end)
    | None => ([], inl (mkNodeRuntime runtime_core None))
    end in
  match nb_runtime_core_start_args b with
  | Some args =>
      match core_start args with
      | inl core => let '(history, r) := start (Some core) in (CoreStarted core :: history, r)
      | inr e => ([], inr e)
      end
  | None => start None
  end.

Definition node_shutdown (r : NodeRuntime) : list lifecycle_event * (unit + E) :=
  let stop_core :=
    match nr_runtime_core r with
    | Some core => ([CoreStopped core], core_shutdown core)
    | None => ([], inl tt)
    end in
  match nr_shutdown r with
  | Some (inr e) => ([HookRan], inr e)
  | Some (inl _) => let '(history, result) := stop_core in (HookRan :: history, result)
  | None => stop_core
  end.

(** Over a whole life the hook runs only when the start handed one out, after
    the start and before the core stops; the core that is stopped is the one
    that was started; and the core is left running exactly when the hook
    fails. *)
Theorem node_lifecycle b r : (build b).2 = inl r ->
  let started := match nb_runtime_core_start_args b with
                 | Some args => match core_start args with inl core => Some core | inr _ => None end
                 | None => None end in
  nr_runtime_core r = started /\
  (build b).1 ++ (node_shutdown r).1 =
    option_list (CoreStarted <$> started) ++ (if nb_startup b is Some _ then [StartupRan started] else []) ++
    (if nr_shutdown r is Some _ then [HookRan] else []) ++
    (match nr_shutdown r with Some (inr _) => [] | _ => option_list (CoreStopped <$> started) end) /\
  (forall e, nr_shutdown r = Some (inr e) -> (node_shutdown r).2 = inr e).
Proof.
  unfold build, node_shutdown. destruct b as [mode args startup]. cbn.
  destruct args as [args|]; [destruct (core_start args) as [core|e]|]; cbn; [|done|];
    (destruct startup as [f|]; cbn; [destruct (f _) as [hook|e']; [|done]|]); intros [= <-]; cbn;
    try (destruct hook as [[u|e']|]; cbn); split_and!; try done; congruence.
Qed.
End node.

(** ** The tick of the snapshot writer *)

(** What one tick meets: the answer of [try_reserve], the latest id of the
    store, the scheduler and the two clocks. *)
Record WriterTick := mkTick {
  tick_reserve : unit + StorageTryEnqueueError;
  tick_latest_seq_id : option N;
  tick_scheduler : SchedulerState;
  tick_unix_ms : Z;
  tick_mono_ns : N;
}.
(** What [spawn_scheduler_snapshot_writer] sends while it runs, and whether it
    still runs after these ticks. *)
Fixpoint snapshot_writer_run (ticks : list WriterTick) : list StorageWriteOp * bool :=
  match ticks with
  | [] => ([], true)
  | t :: ticks =>
      match tick_reserve t with
      | inl _ =>
          let snapshot := snapshot_to_write (tick_latest_seq_id t) (tick_scheduler t) (tick_unix_ms t) (tick_mono_ns t) in
          let '(sent, alive) := snapshot_writer_run ticks in (WWriteSchedulerSnapshot snapshot :: sent, alive)
      | inr TryQueueFull => snapshot_writer_run ticks
      | inr TryQueueClosed => ([], false)
      end
  end.
Definition ticker_period_ms (interval_ms : N) : N := N.max interval_ms 1.

(** ** Tasks that start once *)

(** An [OnceLock] with the handle of a task, and the tasks that run. *)
Record TaskSlot := mkSlot {
  abort_slot : option nat;
  running : gset nat;
  spawned_total : nat;
}.
Definition slot_empty : TaskSlot := mkSlot None ∅ 0.

(** Where one call of [start_scheduler_snapshot_writer_once] or
    [start_replay_runtime_metrics_refresher_once] is: before the look at the
    slot, before the spawn, before the set, or back. *)
Inductive starter := ToCheck | ToSpawn | ToSet (task : nat) | Started.
Definition start_once_step (p : starter) (s : TaskSlot) : starter * TaskSlot :=
  match p with
  | ToCheck => (if abort_slot s is Some _ then Started else ToSpawn, s)
  | ToSpawn =>
      let task := spawned_total s in
      (ToSet task, mkSlot (abort_slot s) ({[task]} ∪ running s) (S task))
  | ToSet task =>
      (Started,
       match abort_slot s with
       | None => mkSlot (Some task) (running s) (spawned_total s)
       | Some _ => mkSlot (abort_slot s) (running s ∖ {[task]}) (spawned_total s)
       end)
  | Started => (Started, s)
  end.
(** [abort_scheduler_snapshot_writer], [abort_replay_runtime_metrics_refresher] *)
Definition abort_task (s : TaskSlot) : TaskSlot :=
  match abort_slot s with
  | Some task => mkSlot (abort_slot s) (running s ∖ {[task]}) (spawned_total s)
  | None => s
  end.

(** Any number of callers, interleaved step by step; aborts in between where
    [aborts] allows them. *)
Inductive tasks_step (aborts : bool) : list starter * TaskSlot -> list starter * TaskSlot -> Prop :=
  | step_starter i p ps s : ps !! i = Some p ->
      tasks_step aborts (ps, s) (<[i := (start_once_step p s).1]> ps, (start_once_step p s).2)
  | step_abort ps s : aborts = true -> tasks_step aborts (ps, s) (ps, abort_task s).

Record tasks_ok (aborts : bool) (ps : list starter) (s : TaskSlot) : Prop := {
  to_owned t : t ∈ running s -> abort_slot s = Some t \/ exists i, ps !! i = Some (ToSet t);
  to_fresh i t : ps !! i = Some (ToSet t) -> (t < spawned_total s)%nat /\ t ∈ running s /\ abort_slot s <> Some t;
  to_distinct i j t : ps !! i = Some (ToSet t) -> ps !! j = Some (ToSet t) -> i = j;
  to_slot t : abort_slot s = Some t -> (t < spawned_total s)%nat;
  to_kept t : aborts = false -> abort_slot s = Some t -> t ∈ running s;
  to_started i : ps !! i = Some Started -> is_Some (abort_slot s);
}.

Lemma tasks_ok_start aborts n : tasks_ok aborts (replicate n ToCheck) slot_empty.
Proof. split; try done; try set_solver; intros i; intros; by repeat match goal with H : replicate _ _ !! _ = _ |- _ => apply lookup_replicate in H as [? _] end. Qed.

Lemma insert_starter (ps : list starter) i p j q : is_Some (ps !! i) ->
  <[i := p]> ps !! j = Some q <-> (i = j /\ p = q) \/ (i <> j /\ ps !! j = Some q).
Proof.
  intros [x Hx]. destruct (decide (i = j)) as [<-|Hne].
  - rewrite list_lookup_insert_eq by (by eapply lookup_lt_Some). naive_solver.
  - rewrite list_lookup_insert_ne by done. naive_solver.
Qed.

Lemma tasks_ok_step aborts ps s ps' s' :
  tasks_ok aborts ps s -> tasks_step aborts (ps, s) (ps', s') -> tasks_ok aborts ps' s'.
Proof.
  intros [H1 H2 H3 H4 H5 H6] Hstep. inversion Hstep as [i p ? ? Hp|? ? Ha]; subst; clear Hstep.
  - assert (forall q j x, <[i := q]> ps !! j = Some x <-> (i = j /\ q = x) \/ (i <> j /\ ps !! j = Some x)) as Hin
      by (intros; apply insert_starter; eauto).
    destruct p as [| |t|]; cbn.
    + split; try setoid_rewrite Hin; try done.
      * intros t Ht. destruct (H1 t Ht) as [?|[j Hj]]; [by left|right; exists j; right; split; [congruence|done]].
      * intros j t [[_ E]|[_ Hj]]; [by destruct (abort_slot s)|by apply (H2 j)].
      * intros j k t [[_ E]|[_ Hj]] [[_ E']|[_ Hk]]; try by destruct (abort_slot s). by eapply H3.
      * intros j [[_ E]|[_ Hj]]; [|by apply (H6 j)]. destruct (abort_slot s); [eauto|done].
    + split; cbn; try setoid_rewrite Hin.
      * intros t [->%elem_of_singleton|Ht]%elem_of_union; [right; exists i; by left|].
        destruct (H1 t Ht) as [?|[j Hj]]; [by left|right; exists j; right; split; [congruence|done]].
      * intros j t [[_ [= <-]]|[_ Hj]].
        -- split; [lia|]. split; [set_solver|]. intros E%H4. lia.
        -- destruct (H2 j t Hj) as (? & ? & ?). split; [lia|]. split; [set_solver|done].
      * intros j k t [[<- E]|[_ Hj]] [[<- E']|[_ Hk]]; [done| | |by eapply H3].
        -- injection E as <-. destruct (H2 _ _ Hk) as [? _]. lia.
        -- injection E' as <-. destruct (H2 _ _ Hj) as [? _]. lia.
      * intros t Ht%H4. lia.
      * intros t Ha Ht. set_solver.
      * intros j [[_ [=]]|[_ Hj]]. by apply (H6 j).
    + destruct (H2 i t Hp) as (Hlt & Hrun & Hne). destruct (abort_slot s) as [old|] eqn:Hs; split; cbn; try setoid_rewrite Hin.
      * intros u [Hu Hut]%elem_of_difference. destruct (H1 u Hu) as [?|[j Hj]]; [left; congruence|].
        right. exists j. right. split; [|done]. intros <-. apply Hut. assert (u = t) as -> by congruence. set_solver.
      * intros j u [[_ [=]]|[Hij Hj]]. destruct (H2 j u Hj) as (? & ? & ?). split; [done|]. split; [|congruence].
        apply elem_of_difference. split; [done|]. rewrite not_elem_of_singleton. intros ->. apply Hij. by eapply H3.
      * intros j k u [[_ [=]]|[_ Hj]] [[_ [=]]|[_ Hk]]. by eapply H3.
      * intros u [= <-]. by apply H4.
      * intros u Ha [= <-]. apply elem_of_difference. split; [by apply H5|]. rewrite not_elem_of_singleton. congruence.
      * eauto.
      * intros u Hu. destruct (H1 u Hu) as [?|[j Hj]]; [congruence|]. destruct (decide (i = j)) as [<-|Hij].
        -- left. congruence.
        -- right. exists j. by right.
      * intros j u [[_ [=]]|[Hij Hj]]. destruct (H2 j u Hj) as (? & ? & ?). split; [done|]. split; [done|].
        intros [= ->]. apply Hij. by eapply H3.
      * intros j k u [[_ [=]]|[_ Hj]] [[_ [=]]|[_ Hk]]. by eapply H3.
      * by intros u [= <-].
      * by intros u _ [= <-].
      * eauto.
    + rewrite list_insert_id by done. by split.
  - unfold abort_task. destruct (abort_slot s) as [old|] eqn:Hs; [|split; by rewrite ?Hs]. split; cbn; rewrite ?Hs.
    + intros u [Hu _]%elem_of_difference. destruct (H1 u Hu) as [?|?]; [left; congruence|by right].
    + intros j u Hj. destruct (H2 j u Hj) as (? & ? & ?). split; [done|]. split; [|congruence].
      apply elem_of_difference. split; [done|]. rewrite not_elem_of_singleton. congruence.
    + done.
    + intros u [= <-]. by apply H4.
    + done.
    + eauto.
Qed.

(** A background task starts once.  However the calls of any number of callers
    interleave, once all are back the slot holds one task and no other runs;
    unless somebody aborted, it runs; and an abort that comes after that leaves
    no task running. *)
Theorem background_task_single aborts n ps s : (0 < n)%nat ->
  rtc (tasks_step aborts) (replicate n ToCheck, slot_empty) (ps, s) -> Forall (eq Started) ps ->
  exists task, abort_slot s = Some task /\ running s ⊆ {[task]} /\
    (aborts = false -> running s = {[task]}) /\ running (abort_task s) = ∅.
Proof.
  intros Hn Hrun Hdone. assert (tasks_ok aborts ps s /\ length ps = n) as [[H1 _ _ _ H5 H6] Hlen].
  { clear Hdone. assert (forall c d, rtc (tasks_step aborts) c d -> tasks_ok aborts c.1 c.2 /\ length c.1 = n ->
      tasks_ok aborts d.1 d.2 /\ length d.1 = n) as Hinv.
    { induction 1 as [c|[ps1 s1] [ps2 s2] d Hstep _ IH]; [done|]. intros [Hok Hlen]. apply IH. split.
      - by eapply tasks_ok_step.
      - inversion Hstep; subst; cbn in *; by rewrite ?length_insert. }
    apply (Hinv _ _ Hrun). split; [apply tasks_ok_start|apply length_replicate]. }
  destruct ps as [|p ps]; [cbn in Hlen; lia|]. apply Forall_cons in Hdone as Hdone'. destruct Hdone' as [<- _].
  destruct (H6 0%nat eq_refl) as [task Htask]. exists task.
  assert (running s ⊆ {[task]}) as Hsub.
  { intros t Ht. destruct (H1 t Ht) as [E|[i Hi]]; [set_solver|]. exfalso.
    rewrite Forall_forall in Hdone. specialize (Hdone (ToSet t)). apply list_elem_of_lookup_2 in Hi. naive_solver. }
  split_and!; [done|done| |].
  - intros Ha. specialize (H5 task Ha Htask). set_solver.
  - unfold abort_task. rewrite Htask. cbn. set_solver.
Qed.

(** Two callers race past the check; the second one to set aborts its own task. *)
Lemma background_task_single_witness : exists s,
  rtc (tasks_step false) (replicate 2 ToCheck, slot_empty) ([Started; Started], s) /\ running s = {[0%nat]}.
Proof.
  eexists. assert (rtc (tasks_step false) (replicate 2 ToCheck, slot_empty)
    ([Started; Started], mkSlot (Some 0%nat) (({[1%nat]} ∪ ({[0%nat]} ∪ ∅)) ∖ {[1%nat]}) 2)) as Hrun.
  { do 3 (eapply rtc_l; [by apply (step_starter false 0)|]; eapply rtc_l; [by apply (step_starter false 1)|]).
    cbn. apply rtc_refl. }
  split; [exact Hrun|].
  destruct (background_task_single false 2 _ _ ltac:(lia) Hrun ltac:(repeat constructor)) as (task & Ht & _ & Hr & _).
  rewrite (Hr eq_refl). cbn in Ht. by injection Ht as <-.
Defined.

(** ** The bundle of the start *)

(** [runtime_bootstrap_from_storage_and_rehydration_impl] with
    [from_storage]'s settings: the parts that are data. *)
Record RuntimeBootstrap := mkBootstrap {
  rb_live_rpc_config : LiveRpcConfig;
  rb_scheduler : SchedulerConfig * SchedulerState;
  rb_rebuild_scheduler_from_rpc : bool;
  rb_scheduler_snapshot_interval_ms : N;
  rb_replay_runtime_metrics : ReplayRuntimeMetricsSnapshot;
  rb_ingest_mode : IngestSourceMode;
}.
Definition runtime_bootstrap_from_storage (env : string -> option string) (live : LiveRpcConfig + ConfigError)
    (elapsed_ns : N) (storage : InMemoryStorage) : option RuntimeBootstrap :=
  let rehydration := mkRehydrationConfig
    (resolve_scheduler_snapshot_interval_ms (env "VIZ_API_SCHEDULER_SNAPSHOT_INTERVAL_MS"))
    (resolve_scheduler_snapshot_max_finality_age_ms (env "VIZ_API_SCHEDULER_SNAPSHOT_MAX_FINALITY_AGE_MS")) in
  '(rebuild, scheduler) ← bootstrap_scheduler env rehydration storage;
  Some (mkBootstrap (match live with inl config => config | inr _ => live_config_default end) scheduler rebuild
    (snapshot_interval_ms rehydration) (build_replay_runtime_metrics elapsed_ns storage)
    (resolve_ingest_source_mode (env "VIZ_API_INGEST_MODE"))).
Definition default_runtime_bootstrap (env : string -> option string) (live : LiveRpcConfig + ConfigError) (elapsed_ns : N) :
    option RuntimeBootstrap :=
  runtime_bootstrap_from_storage env live elapsed_ns (with_config storage_config_default).

(** The server always starts from nothing: whatever ran before, the start of
    the process builds on a new store, so its scheduler is empty and no rebuild
    is asked for. *)
Theorem server_starts_empty env live elapsed_ns :
  exists b, default_runtime_bootstrap env live elapsed_ns = Some b /\
    rb_scheduler b = (resolve_scheduler_config env, state_default) /\ rb_rebuild_scheduler_from_rpc b = false /\
    rb_replay_runtime_metrics b = mkReplayMetrics 0 0 0.
Proof.
  unfold default_runtime_bootstrap, runtime_bootstrap_from_storage, bootstrap_scheduler.
  cbn [scheduler_rehydration_plan st_scheduler_snapshot with_config]. rewrite rehydrate_resolved. cbn.
  eexists. by split_and!.
Qed.
