(* ===== verification/LivePipeline.v ===== *)
(** * LivePipeline: one pending transaction through the live feed (crates/runtime-core/src/live_rpc.rs)

    [process_pending_hash_with_fetched_tx_with_owner] and the rebuild from a
    pending block, as programs over the calls of [LiveProgram]; then what the
    storage queue receives, whatever the environment does. *)
From stdpp Require Import base gmap strings list numbers sorting.
From S2P Require Import Prelude Common EventLog Scheduler SchedulerActor Features Searcher Assembly.
From S2P Require Import Storage StorageWriter LiveHex LiveState LiveConfig LiveDecode LiveProgram.

Inductive SchedulerPersistenceDecision :=
  | PdAdmitted
  | PdDuplicate
  | PdReplaced (replaced_hash : TxHash)
  | PdDropped (reason : string).
Definition from_admission (admission : SchedulerAdmission) : SchedulerPersistenceDecision :=
  match admission with
  | AdmittedTx => PdAdmitted
  | Duplicate => PdDuplicate
  | Replaced replaced_hash => PdReplaced replaced_hash
  | UnderpricedReplacement => PdDropped "underpriced_replacement"
  | SenderLimitReached => PdDropped "sender_limit_reached"
  end.
Definition decision_is_admitted (d : SchedulerPersistenceDecision) : bool :=
  match d with PdAdmitted | PdReplaced _ => true | _ => false end.
Definition emits_decoded (d : SchedulerPersistenceDecision) : bool := decision_is_admitted d.
Definition decision_replaced_hash (d : SchedulerPersistenceDecision) : option TxHash :=
  match d with PdReplaced replaced_hash => Some replaced_hash | _ => None end.
Definition decision_dropped_reason (d : SchedulerPersistenceDecision) : option string :=
  match d with PdDropped reason => Some reason | _ => None end.
Definition decision_label (d : SchedulerPersistenceDecision) : string :=
  match d with
  | PdAdmitted => "admitted" | PdDuplicate => "duplicate" | PdReplaced _ => "replaced" | PdDropped reason => reason
  end.

(** The scheduler's answer to the admission; [inr] fails the handler. *)
Definition admission_decision (r : SchedulerAdmissionOutcome + SchedulerEnqueueError) :
    (SchedulerPersistenceDecision * list SchedulerQueueTransition) + LiveError :=
  match r with
  | inl outcome => inl (from_admission (admission outcome), queue_transitions outcome)
  | inr QueueFull => inl (PdDropped "queue_full", [])
  | inr QueueClosed => inr (SchedulerFailed QueueClosed)
  end.

Section process.
Context (chain : ChainRpcConfig) (queue_capacity worker_total : N).

Definition seen_op (observation : PendingHashObservation) (hash : TxHash) : StorageWriteOp :=
  WAppendPayload (ch_source_id chain)
    (PTxSeen (mkTxSeen hash "rpc-ws" (ob_observed_at_unix_ms observation) (ob_observed_at_mono_ns observation)))
    (ob_observed_at_unix_ms observation) (ob_observed_at_mono_ns observation).
Definition seen_record (observation : PendingHashObservation) (hash : TxHash) : TxSeenRecord :=
  mkTxSeenRecord hash "rpc-ws" (ob_observed_at_unix_ms observation) (ob_observed_at_mono_ns observation) 1.

(** The part common to fetched and unfetched hashes: seen, then fetched. *)
Definition persist_observation (now : Z) (observation : PendingHashObservation) (hash : TxHash) : prog outcome_bool :=
  _ <! CallNextSeq ;;
  r <- try_enqueue_storage_write (seen_op observation hash) ;;
  and_then r Ret
    (r <- try_enqueue_storage_write (WUpsertTxSeen (seen_record observation hash)) ;;
     and_then r Ret (append_event_with_owner chain now (PTxFetched (mkTxFetched hash now)))).

(** What the decision of the scheduler leaves in the log. *)
Definition persist_decision (now : Z) (tx : LiveTx) (decoded : TxDecoded) (decision : SchedulerPersistenceDecision) :
    prog outcome_bool :=
  r <- match decision_replaced_hash decision with
       | Some replaced_hash =>
           r <- append_event_with_owner chain now (PTxReplaced (mkTxReplaced replaced_hash (lt_hash tx))) ;;
           and_then r Ret
             (r <! CallInvalidate replaced_hash ;;
              Ret (match r with inl _ => inl true | inr error => inr (SchedulerFailed error) end))
       | None => Ret (inl true)
       end ;;
  and_then r Ret
    (r <- (if emits_decoded decision then append_event_with_owner chain now (PTxDecoded decoded) else Ret (inl true)) ;;
     and_then r Ret
       match decision_dropped_reason decision with
       | Some reason => append_event_with_owner chain now (PTxDropped (mkTxDropped (lt_hash tx) reason))
       | None => Ret (inl true)
       end).

(** The dispatched tasks with what was prepared for them: the events are
    appended while the tasks are grouped by key. *)
Abbreviation prepared := (SchedulerCandidate * RemoteSimulationRequest * ExecutableOpportunity)%type.
Abbreviation groups := (gmap string (RemoteSimulationRequest * list RegisteredSimulationCandidate))%type.
Definition add_to_group (task_spec : SimulationTaskSpec) (request : RemoteSimulationRequest)
    (opportunity : ExecutableOpportunity) (grouped : groups) : groups :=
  let registered := mkRegistered task_spec opportunity in
  match grouped !! simulation_task_key request with
  | Some (request0, candidates) => <[simulation_task_key request := (request0, candidates ++ [registered])]> grouped
  | None => <[simulation_task_key request := (request, [registered])]> grouped
  end.
Fixpoint queue_candidates (now : Z) (tasks : list (SimulationTaskSpec * prepared)) (grouped : groups)
    (k : groups -> prog outcome_bool) : prog outcome_bool :=
  match tasks with
  | [] => k grouped
  | (task_spec, (candidate, request, opportunity)) :: tasks' =>
      r <- append_event_with_owner chain now (build_candidate_queued_payload candidate (eo_record opportunity)) ;;
      and_then r Ret (queue_candidates now tasks' (add_to_group task_spec request opportunity grouped) k)
  end.

Definition dispatch_group (now : Z) (group : RemoteSimulationRequest * list RegisteredSimulationCandidate) :
    prog outcome_bool :=
  let '(request, candidates) := group in
  enqueued <- enqueue_simulation_task queue_capacity worker_total (mkSimTask chain request candidates now) ;;
  match enqueued with
  | inl true =>
      for_each candidates (fun candidate =>
        append_event_with_owner chain now (build_sim_dispatched_payload (rg_spec candidate)))
  | inl false => Ret (inl true)
  | inr e => Ret (inr e)
  end.

Definition prepare (context : list ValidatedTransaction) (opportunity : ExecutableOpportunity) : option prepared :=
  (fun request => (scheduler_candidate_from_executable_opportunity opportunity, request, opportunity))
  <$> build_remote_simulation_request opportunity context.

Definition dispatch_simulations (now : Z) (prepared_tasks : list prepared) : prog outcome_bool :=
  match prepared_tasks with
  | [] => Ret (inl true)
  | _ =>
      dispatch <! CallRegister ((fun p => p.1.1) <$> prepared_tasks) ;;
      match dispatch with
      | inr error => Ret (inr (SchedulerFailed error))
      | inl simulation_tasks =>
          queue_candidates now (zip simulation_tasks prepared_tasks) ∅
            (fun grouped => for_each (bt_values grouped) (dispatch_group now))
      end
  end.

Definition observe_executable (opportunities : list ExecutableOpportunity) : prog unit :=
  match eo_record <$> opportunities with
  | [] => Ret tt
  | executable_records => _ <! CallObserveSearcher executable_records ;; Ret tt
  end.

(** The opportunities among the ready transactions, and their simulations. *)
Definition search_and_dispatch (now : Z) (chain_id : option N) (executable context : list ValidatedTransaction) :
    prog outcome_bool :=
  let opportunities := build_executable_opportunities executable now chain_id in
  _ <- observe_executable opportunities ;;
  r <- for_each opportunities (fun opportunity =>
         append_event_with_owner chain now (build_opportunity_detected_payload (eo_record opportunity))) ;;
  and_then r Ret (dispatch_simulations now (omap (prepare context) opportunities)).

(** From the transitions on. *)
Definition persist_transitions (now : Z) (chain_id : option N) (transitions : list SchedulerQueueTransition) :
    prog outcome_bool :=
  executable <- ready_transactions_for_queue_transitions transitions ;;
  context <- ready_frontier_for_queue_transitions transitions ;;
  r <- for_each transitions (append_queue_transition_event_with_owner chain now) ;;
  and_then r Ret (search_and_dispatch now chain_id executable context).

(** What a fetched transaction adds, after the observation is persisted. *)
Definition persist_fetched (now : Z) (observation : PendingHashObservation) (tx : LiveTx)
    (decision : SchedulerPersistenceDecision) (transitions : list SchedulerQueueTransition) : prog outcome_bool :=
  let chain_id := resolve_record_chain_id (ch_chain_id chain) (lt_chain_id tx) in
  let validated := validated_transaction_from_live_tx chain (ob_observed_at_unix_ms observation)
                     (ob_observed_at_mono_ns observation) tx in
  r <- try_enqueue_storage_write (WUpsertTxFull (tx_full_record chain_id tx)) ;;
  and_then r Ret
    (r <- try_enqueue_storage_write (WUpsertTxFeatures (tx_features_record chain_id tx)) ;;
     and_then r Ret
       (r <- persist_decision now tx (vt_decoded validated) decision ;;
        and_then r Ret (persist_transitions now chain_id transitions))).

(** [process_pending_hash_with_fetched_tx_with_owner] *)
Definition process_pending_hash (observation : PendingHashObservation) (hash : TxHash) (fetched_tx : option LiveTx) :
    prog outcome_unit :=
  now <! CallNow ;;
  match fetched_tx with
  | None => try! persist_observation now observation hash ;; Ret (inl tt)
  | Some tx =>
      admitted <! CallAdmit (validated_transaction_from_live_tx chain (ob_observed_at_unix_ms observation)
                               (ob_observed_at_mono_ns observation) tx) ;;
      match admission_decision admitted with
      | inr error => Ret (inr error)
      | inl (decision, transitions) =>
          try! persist_observation now observation hash ;;
          try! persist_fetched now observation tx decision transitions ;;
          Ret (inl tt)
      end
  end.

(** The loop of [process_pending_hash_batch] over the fetched rows. *)
Fixpoint process_rows (rows : list (PendingHashObservation * TxHash * option LiveTx)) : prog outcome_unit :=
  match rows with
  | [] => Ret (inl tt)
  | (observation, hash, fetched_tx) :: rows' =>
      r <- process_pending_hash observation hash fetched_tx ;;
      match r with inl _ => process_rows rows' | inr error => Ret (inr error) end
  end.

(** ** Rebuilding from a pending block *)

(** The loop of [rebuild_scheduler_from_pending_transactions_with_owner];
    [observe] is the observation made for each transaction. *)
Fixpoint rebuild_loop (mono_ns : N -> N) (seen_hashes : gset TxHash) (rebuilt : N) (pending : list LiveTx) :
    prog (N + LiveError) :=
  match pending with
  | [] => Ret (inl rebuilt)
  | tx :: pending' =>
      if decide (lt_hash tx ∈ seen_hashes) then rebuild_loop mono_ns seen_hashes rebuilt pending'
      else
        observed_at <! CallNow ;;
        r <- process_pending_hash (mkObservation (format_hash (lt_hash tx)) observed_at (mono_ns rebuilt))
               (lt_hash tx) (Some tx) ;;
        match r with
        | inr error => Ret (inr error)
        | inl _ => rebuild_loop mono_ns ({[lt_hash tx]} ∪ seen_hashes) (sat_add u64_max rebuilt 1) pending'
        end
  end.
Definition rebuild_scheduler_from_pending_transactions (mono_ns : N -> N) (pending : list LiveTx) : prog (N + LiveError) :=
  rebuild_loop mono_ns ∅ 0 pending.
End process.

(** ** Which calls the pipeline makes *)

(** The calls to the queues, the scheduler's commands and the counters, the
    ones after admission. *)
Definition pipeline_call (c : call) : Prop :=
  match c with
  | CallNextSeq | CallEnqueue _ | CallInvalidate _ | CallPending _ | CallReady | CallRegister _ | CallSimSend _
  | CallObserveDrop _ | CallObserveSim _ | CallObserveSearcher _ => True
  | _ => False
  end.

Create HintDb obeys.
Section obeys.
Context (P : call -> Prop) (HP : forall c, pipeline_call c -> P c).
Context (chain : ChainRpcConfig) (cap workers : N) (now : Z).

Lemma enqueue_obeys op : obeys P any (try_enqueue_storage_write op).
Proof using HP. split; [by apply HP|]. intros [u|[]]; [done|split; [by apply HP|done]..]. Qed.
Lemma append_obeys p : obeys P any (append_event_with_owner chain now p).
Proof using HP. split; [by apply HP|]. intros n. apply enqueue_obeys. Qed.
#[local] Hint Resolve enqueue_obeys append_obeys obeys_seq obeys_for_each : obeys.

Lemma observation_obeys observation hash : obeys P any (persist_observation chain now observation hash).
Proof using HP. split; [by apply HP|]. intros n. auto with obeys. Qed.
Lemma decision_obeys tx decoded d : obeys P any (persist_decision chain now tx decoded d).
Proof using HP.
  unfold persist_decision. apply obeys_seq.
  - destruct (decision_replaced_hash d); [|done]. apply obeys_seq; [apply append_obeys|].
    split; [by apply HP|]. by intros [].
  - apply obeys_seq; [destruct (emits_decoded d); [apply append_obeys|done]|].
    destruct (decision_dropped_reason d); [apply append_obeys|done].
Qed.
Lemma group_obeys g : obeys P any (dispatch_group chain cap workers now g).
Proof using HP.
  destruct g as [request candidates]. apply (obeys_bind _ any).
  - split; [by apply HP|]. intros []; try done; (split; [by apply HP|intros _]; split; [by apply HP|done]).
  - intros [[]|e] _; [auto with obeys|done..].
Qed.
Lemma dispatch_obeys l : obeys P any (dispatch_simulations chain cap workers now l).
Proof using HP.
  unfold dispatch_simulations. destruct l as [|x l]; [done|]. split; [by apply HP|]. intros [tasks|e]; [|done].
  generalize (zip tasks (x :: l)). generalize (∅ : gmap string (RemoteSimulationRequest * list RegisteredSimulationCandidate)).
  intros grouped tasks'. revert grouped.
  induction tasks' as [|[spec [[cand request] opp]] tasks' IH]; intros grouped; cbn [queue_candidates].
  - apply obeys_for_each. apply group_obeys.
  - apply obeys_seq; [apply append_obeys|]. apply IH.
Qed.
Lemma fetched_obeys observation tx d ts : obeys P any (persist_fetched chain cap workers now observation tx d ts).
Proof using HP.
  unfold persist_fetched, persist_transitions, search_and_dispatch. cbv zeta.
  do 2 (apply obeys_seq; [apply enqueue_obeys|]).
  apply obeys_seq; [apply decision_obeys|]. apply (obeys_bind _ any).
  { unfold ready_transactions_for_queue_transitions. destruct (ready_hashes_of ts); [done|]. by split; [apply HP|]. }
  intros executable _. apply (obeys_bind _ any).
  { unfold ready_frontier_for_queue_transitions. destruct (negb _); [done|]. by split; [apply HP|]. }
  intros context _. apply obeys_seq; [apply obeys_for_each; intros t; apply append_obeys|].
  apply (obeys_bind _ any); [unfold observe_executable; destruct (_ <$> _); [done|by split; [apply HP|]]|]. intros _ _.
  apply obeys_seq; [auto with obeys|]. apply dispatch_obeys.
Qed.
End obeys.

Section process_obeys.
Context (P : call -> Prop) (HP : forall c, pipeline_call c -> P c) (Hnow : P CallNow) (Hadmit : forall tx, P (CallAdmit tx)).
Context (chain : ChainRpcConfig) (cap workers : N).

Lemma process_obeys observation hash fetched_tx :
  obeys P any (process_pending_hash chain cap workers observation hash fetched_tx).
Proof using HP Hnow Hadmit.
  split; [done|]. intros now. destruct fetched_tx as [tx|].
  - split; [done|]. intros admitted. destruct (admission_decision admitted) as [[d ts]|e]; [|done].
    apply (obeys_bind _ any); [by apply observation_obeys|]. intros [[]|e] _; [|done..].
    apply (obeys_bind _ any); [by apply fetched_obeys|]. by intros [[]|e] _.
  - apply (obeys_bind _ any); [by apply observation_obeys|]. by intros [[]|e] _.
Qed.
Lemma process_rows_obeys rows : obeys P any (process_rows chain cap workers rows).
Proof using HP Hnow Hadmit.
  induction rows as [|[[observation hash] fetched_tx] rows IH]; [done|].
  apply (obeys_bind _ any); [apply process_obeys|by intros [u|e] _].
Qed.
Lemma rebuild_obeys mono_ns pending : obeys P any (rebuild_scheduler_from_pending_transactions chain cap workers mono_ns pending).
Proof using HP Hnow Hadmit.
  unfold rebuild_scheduler_from_pending_transactions. generalize (∅ : gset TxHash) 0%N.
  induction pending as [|tx pending IH]; intros seen rebuilt; cbn [rebuild_loop]; [done|].
  case_decide; [apply IH|]. split; [done|]. intros at_ms.
  apply (obeys_bind _ any); [apply process_obeys|by intros [u|e] _].
Qed.
End process_obeys.
