(* ===== verification/LiveLog.v ===== *)
(** * LiveLog: what the live pipeline leaves in the storage queue

    For every environment: the operations the storage queue takes are a prefix
    of one fixed sequence, which the scheduler's answers determine; the handler
    stops at the first refusal. *)
From stdpp Require Import base gmap strings list numbers sorting.
From S2P Require Import Prelude Common EventLog Scheduler SchedulerActor Features Searcher Assembly.
From S2P Require Import Storage StorageWriter LiveHex LiveState LiveConfig LiveDecode LiveProgram LivePipeline.

(** ** Reading a conversation *)
Definition refusal (x : exchange) : option StorageTryEnqueueError :=
  match x with existT (CallEnqueue _) (inr e) => Some e | _ => None end.
Definition drop_observed (x : exchange) : option LiveRpcDropReason :=
  match projT1 x with CallObserveDrop reason => Some reason | _ => None end.
Definition offered_task (x : exchange) : option SimulationTask :=
  match projT1 x with CallSimSend task => Some task | _ => None end.
Definition sent_task (x : exchange) : option SimulationTask :=
  match x with existT (CallSimSend task) SimSent => Some task | _ => None end.

(** The answers that end the handler with an error. *)
Definition failure (x : exchange) : option LiveError :=
  match x with
  | existT (CallInvalidate _) (inr e) | existT (CallRegister _) (inr e) | existT (CallApplyResult _) (inr e) =>
      Some (SchedulerFailed e)
  | existT (CallSimSend _) SimQueueClosed => Some SimulationQueueClosed
  | _ => None
  end.

(** An operation without the number its time stamp is made from. *)
Definition untimed (op : StorageWriteOp) : StorageWriteOp :=
  match op with WAppendPayload source p unix_ms _ => WAppendPayload source p unix_ms 0 | _ => op end.
Definition accepted (log : list exchange) : list StorageWriteOp := untimed <$> accepted_ops log.

(** [o] wrote towards [ideal]: what was accepted is a prefix of it; every
    refusal was counted; the value says how it ended. *)
Record writes {S} (o : outcome_of S outcome_bool) (ideal : list StorageWriteOp) (offered : list SimulationTask) :
    Prop := {
  w_prefix : accepted (run_log o) `prefix_of` ideal;
  w_drops : omap drop_observed (run_log o) = classify_storage_enqueue_drop_reason <$> omap refusal (run_log o);
  w_offered : omap offered_task (run_log o) `prefix_of` offered;
  w_value :
    match run_value o with
    | inl true => accepted (run_log o) = ideal /\ omap refusal (run_log o) = [] /\
        omap offered_task (run_log o) = offered /\ omap failure (run_log o) = []
    | inl false => omap refusal (run_log o) = [TryQueueFull]
    | inr StorageWriterClosed => omap refusal (run_log o) = [TryQueueClosed]
    | inr e => omap refusal (run_log o) = [] /\ omap failure (run_log o) = [e]
    end;
}.

Lemma accepted_app l1 l2 : accepted (l1 ++ l2) = accepted l1 ++ accepted l2.
Proof. unfold accepted, accepted_ops. by rewrite omap_app, fmap_app. Qed.

Section writes.
Context {S : Type} (env : forall c : call, S -> reply c * S).
Implicit Types (s : S) (p : prog outcome_bool).

Lemma writes_ret s : writes (run env (Ret (inl true)) s) [] [].
Proof. by split. Qed.

Lemma writes_seq p q s l1 l2 t1 t2 :
  writes (run env p s) l1 t1 ->
  (run_value (run env p s) = inl true -> writes (run env q (run_state (run env p s))) l2 t2) ->
  writes (run env (r <- p ;; and_then r Ret q) s) (l1 ++ l2) (t1 ++ t2).
Proof.
  intros H1 H2. rewrite run_bind. cbv zeta. destruct (run env p s) as [log v s1].
  cbn [run_log run_value run_state] in *.
  assert (v <> inl true -> writes (mkRun (log ++ []) v s1) (l1 ++ l2) (t1 ++ t2)) as Hstop.
  { destruct H1 as [Hp Hd Ho Hv]. rewrite app_nil_r. intros Hne. split; try done; try by apply prefix_app_r.
    cbn [run_log run_value run_state] in *. by destruct v as [[]|[]]. }
  destruct v as [[]|e]; [|by apply Hstop..]. clear Hstop. specialize (H2 eq_refl).
  destruct H1 as [_ Hd1 _ (Ha & Hr & Ht & Hf)]. cbn [and_then]. destruct (run env q s1) as [log2 v2 s2].
  destruct H2 as [Hp2 Hd2 Ho2 Hv2].
  split; cbn [run_log run_value run_state] in *; rewrite ?accepted_app, ?omap_app, ?Ha, ?Hd1, ?Hr, ?Ht, ?Hd2, ?Hf; try done.
  - by apply prefix_app.
  - by apply prefix_app.
  - destruct v2 as [[]|[]]; try done. by destruct Hv2 as (-> & -> & -> & ->).
Qed.

Lemma writes_enqueue op s : writes (run env (try_enqueue_storage_write op) s) [untimed op] [].
Proof.
  unfold try_enqueue_storage_write. cbn [run]. destruct (env (CallEnqueue op) s) as [[u|e] s1].
  - split; cbn; done.
  - cbn [run]. destruct (env (CallObserveDrop _) s1) as [u s2]. destruct e; split; cbn; try done; apply prefix_nil.
Qed.

Lemma writes_append chain now payload s :
  writes (run env (append_event_with_owner chain now payload) s)
    [WAppendPayload (ch_source_id chain) payload now 0] [].
Proof.
  unfold append_event_with_owner. cbn [run]. destruct (env CallNextSeq s) as [n s1].
  destruct (writes_enqueue (append_event_op chain now n payload) s1) as [H1 H2 H3 H4].
  split; cbn; done.
Qed.

Lemma writes_for_each {A} (body : A -> prog outcome_bool) (ideal : A -> list StorageWriteOp) l s :
  (forall x s, x ∈ l -> writes (run env (body x) s) (ideal x) []) ->
  writes (run env (for_each l body) s) (l ≫= ideal) [].
Proof.
  revert s. induction l as [|x l IH]; intros s Hb; [apply writes_ret|]. cbn [for_each].
  apply (writes_seq _ _ _ _ _ [] []); [apply Hb; by left|]. intros _. apply IH. intros y s' Hy. apply Hb. by right.
Qed.

Lemma writes_appends {A} chain now (payload : A -> EventPayload) l s :
  writes (run env (for_each l (fun x => append_event_with_owner chain now (payload x))) s)
    ((fun x => WAppendPayload (ch_source_id chain) (payload x) now 0) <$> l) [].
Proof.
  assert ((fun x => WAppendPayload (ch_source_id chain) (payload x) now 0) <$> l =
    l ≫= (fun x => [WAppendPayload (ch_source_id chain) (payload x) now 0])) as ->
    by (induction l as [|x l IH]; csimpl; by rewrite ?IH).
  apply writes_for_each. intros x s' _. apply writes_append.
Qed.

(** Calls that concern neither storage nor the simulation queue. *)
Definition quiet (c : call) : bool :=
  match c with
  | CallEnqueue _ | CallObserveDrop _ | CallSimSend _ | CallInvalidate _ | CallRegister _ | CallApplyResult _ => false
  | _ => true
  end.
Lemma writes_quiet c (k : reply c -> prog outcome_bool) s ideal offered :
  quiet c = true -> (let '(r, s1) := env c s in writes (run env (k r) s1) ideal offered) ->
  writes (run env (Do c k) s) ideal offered.
Proof.
  intros Hq H. cbn [run]. destruct (env c s) as [r s1]. destruct H as [Hp Hd Ho Hv].
  by destruct c; try discriminate Hq; split.
Qed.

(** ** Simulations *)
Definition task_events (t : SimulationTask) : list StorageWriteOp :=
  (fun c => WAppendPayload (ch_source_id (tk_chain t)) (build_sim_dispatched_payload (rg_spec c))
     (tk_enqueued_unix_ms t) 0) <$> tk_candidates t.
(** The events of the tasks the queue took. *)
Definition sent_events (log : list exchange) : list StorageWriteOp := omap sent_task log ≫= task_events.

Lemma sent_events_app l1 l2 : sent_events (l1 ++ l2) = sent_events l1 ++ sent_events l2.
Proof. unfold sent_events. by rewrite omap_app, bind_app. Qed.

Lemma append_sent chain now payload s :
  omap sent_task (run_log (run env (append_event_with_owner chain now payload) s)) = [].
Proof.
  unfold append_event_with_owner, try_enqueue_storage_write. cbn [run]. destruct (env CallNextSeq s) as [n s1].
  destruct (env (CallEnqueue _) s1) as [[u|e] s2]; cbn; [done|]. destruct (env (CallObserveDrop _) s2) as [u s3].
  by destruct e.
Qed.

Lemma appends_sent {A} chain now (payload : A -> EventPayload) l s :
  omap sent_task (run_log (run env (for_each l (fun x => append_event_with_owner chain now (payload x))) s)) = [].
Proof.
  revert s. induction l as [|x l IH]; intros s; [done|]. cbn [for_each]. rewrite run_bind. cbn [run_log].
  rewrite omap_app, append_sent. destruct (run_value _) as [[]|e]; cbn; [apply IH|done..].
Qed.

Lemma writes_group chain cap workers now request candidates s :
  let o := run env (dispatch_group chain cap workers now (request, candidates)) s in
  writes o (sent_events (run_log o)) [mkSimTask chain request candidates now].
Proof.
  cbv zeta. unfold dispatch_group, enqueue_simulation_task. set (task := mkSimTask chain request candidates now).
  cbn [bind run]. destruct (env (CallSimSend task) s) as [r s1]. destruct r; cbn [bind run].
  - destruct (env (CallObserveSim _) s1) as [u1 s2]. destruct (env (CallObserveSim _) s2) as [u2 s3].
    pose proof (writes_appends chain now (fun c => build_sim_dispatched_payload (rg_spec c)) candidates s3) as Hw.
    pose proof (appends_sent chain now (fun c => build_sim_dispatched_payload (rg_spec c)) candidates s3) as Hs.
    set (o := run env (for_each candidates _) s3) in *. unfold sent_events. cbn [run_log omap list_omap exch sent_task].
    rewrite Hs. cbn [mbind list_bind]. rewrite app_nil_r.
    destruct Hw as [Hp Hd Ho Hv]. split; cbn [run_log run_value run_state]; try done.
    + change (task :: omap offered_task (run_log o) `prefix_of` [task]). apply prefix_cons.
      by apply prefix_nil_inv in Ho as ->.
    + destruct (run_value o) as [[]|e]; try done. destruct Hv as (? & ? & Ht & ?). split_and!; try done.
      change (task :: omap offered_task (run_log o) = [task]). by rewrite Ht.
  - destruct (env (CallObserveSim _) s1) as [u1 s2]. destruct (env (CallObserveSim _) s2) as [u2 s3].
    by split.
  - split; cbn; try done.
Qed.

Lemma writes_groups chain cap workers now groups s :
  let o := run env (for_each groups (dispatch_group chain cap workers now)) s in
  writes o (sent_events (run_log o)) ((fun g => mkSimTask chain g.1 g.2 now) <$> groups).
Proof.
  revert s. induction groups as [|[request candidates] groups IH]; intros s; [apply writes_ret|].
  cbv zeta. cbn [for_each]. pose proof (writes_group chain cap workers now request candidates s) as H1.
  set (o1 := run env (dispatch_group chain cap workers now (request, candidates)) s) in *.
  set (rest := for_each groups (dispatch_group chain cap workers now)).
  assert (exists l2, sent_events (run_log (run env (r <- dispatch_group chain cap workers now (request, candidates) ;;
      and_then r Ret rest) s)) = sent_events (run_log o1) ++ l2 /\
    (run_value o1 = inl true -> l2 = sent_events (run_log (run env rest (run_state o1))))) as (l2 & E & H2).
  { rewrite run_bind. cbv zeta. fold o1. cbn [run_log]. rewrite sent_events_app. eexists. split; [done|].
    by intros ->. }
  rewrite E. apply (writes_seq _ _ _ _ _ [mkSimTask chain request candidates now]); [done|].
  intros Hv. rewrite (H2 Hv). apply IH.
Qed.
End writes.

(** In a sequence that returned [inl true] the first part did too. *)
Ltac advance Hv :=
  rewrite run_bind in Hv |- *; cbv zeta in *; cbn [run_log run_value] in *;
  match type of Hv with context [and_then ?v] => destruct v as [[]|]; try discriminate Hv end;
  cbn [and_then] in *.

(** ** The sequence one transaction writes *)
Section ideal.
Context (chain : ChainRpcConfig) (now : Z).

Definition event_op (p : EventPayload) : StorageWriteOp := WAppendPayload (ch_source_id chain) p now 0.
Definition observation_ops (observation : PendingHashObservation) (hash : TxHash) : list StorageWriteOp :=
  [untimed (seen_op chain observation hash); WUpsertTxSeen (seen_record observation hash);
   event_op (PTxFetched (mkTxFetched hash now))].
Definition decision_payloads (tx : LiveTx) (decoded : TxDecoded) (decision : SchedulerPersistenceDecision) :
    list EventPayload :=
  match decision with
  | PdAdmitted => [PTxDecoded decoded]
  | PdDuplicate => []
  | PdReplaced replaced_hash => [PTxReplaced (mkTxReplaced replaced_hash (lt_hash tx)); PTxDecoded decoded]
  | PdDropped reason => [PTxDropped (mkTxDropped (lt_hash tx) reason)]
  end.

Abbreviation prepared := (SchedulerCandidate * RemoteSimulationRequest * ExecutableOpportunity)%type.
Definition queued_payloads (tasks : list (SimulationTaskSpec * prepared)) : list EventPayload :=
  (fun t => build_candidate_queued_payload t.2.1.1 (eo_record t.2.2)) <$> tasks.
Definition grouped_tasks (tasks : list (SimulationTaskSpec * prepared)) : list SimulationTask :=
  (fun g => mkSimTask chain g.1 g.2 now) <$>
  bt_values (foldl (fun grouped t => add_to_group t.1 t.2.1.2 t.2.2 grouped) ∅ tasks).

(** What is prepared from the answers about ready transactions. *)
Definition opportunities_of (chain_id : option N) (executable : list ValidatedTransaction) : list ExecutableOpportunity :=
  build_executable_opportunities executable now chain_id.
Definition prepared_of (chain_id : option N) (executable context : list ValidatedTransaction) : list prepared :=
  omap (prepare context) (opportunities_of chain_id executable).

Definition transition_payloads (chain_id : option N) (transitions : list SchedulerQueueTransition)
    (executable context : list ValidatedTransaction) (tasks : list SimulationTaskSpec) : list EventPayload :=
  (queue_transition_payload <$> transitions) ++
  ((fun o => build_opportunity_detected_payload (eo_record o)) <$> opportunities_of chain_id executable) ++
  queued_payloads (zip tasks (prepared_of chain_id executable context)).

(** The scheduler's answers on which the sequence depends. *)
Record answers (log : list exchange) (chain_id : option N) (transitions : list SchedulerQueueTransition)
    (executable context : list ValidatedTransaction) (tasks : list SimulationTaskSpec) : Prop := {
  an_executable :
    match ready_hashes_of transitions with
    | [] => executable = [] | hashes => exch (CallPending hashes) executable ∈ log end;
  an_context : if existsb is_ready transitions then exch CallReady context ∈ log else context = [];
  an_tasks :
    match prepared_of chain_id executable context with
    | [] => tasks = []
    | l => exch (CallRegister ((fun p => p.1.1) <$> l)) (inl tasks) ∈ log
    end;
}.
End ideal.

Section pipeline.
Context {S : Type} (env : forall c : call, S -> reply c * S).
Context (chain : ChainRpcConfig) (cap workers : N) (now : Z).
Abbreviation prepared := (SchedulerCandidate * RemoteSimulationRequest * ExecutableOpportunity)%type.

Lemma writes_observation observation hash s :
  writes (run env (persist_observation chain now observation hash) s) (observation_ops chain now observation hash) [].
Proof.
  unfold persist_observation, observation_ops. apply writes_quiet; [done|]. destruct (env CallNextSeq s) as [n s1].
  apply (writes_seq env _ _ _ [_] [_; _] [] []); [apply writes_enqueue|]. intros _.
  apply (writes_seq env _ _ _ [_] [_] [] []); [apply (writes_enqueue env (WUpsertTxSeen _))|]. intros _.
  apply writes_append.
Qed.

Lemma writes_decision tx decoded decision s :
  writes (run env (persist_decision chain now tx decoded decision) s)
    (event_op chain now <$> decision_payloads tx decoded decision) [].
Proof.
  unfold persist_decision. destruct decision as [| |h|reason];
    cbn [decision_replaced_hash emits_decoded decision_is_admitted decision_dropped_reason decision_payloads].
  - apply (writes_seq env (Ret (inl true)) _ _ [] [_] [] []); [apply writes_ret|]. intros _.
    apply (writes_seq env _ (Ret (inl true)) _ [_] [] [] []); [apply writes_append|]. intros _. apply writes_ret.
  - do 2 (apply (writes_seq env (Ret (inl true)) _ _ [] [] [] []); [apply writes_ret|]; intros _). apply writes_ret.
  - apply (writes_seq env _ _ _ [_] [_] [] []).
    + apply (writes_seq env _ _ _ [_] [] [] []); [apply writes_append|]. intros _. cbn [run].
      destruct (env (CallInvalidate h) _) as [[u|e] s1]; by split.
    + intros _. apply (writes_seq env _ (Ret (inl true)) _ [_] [] [] []); [apply writes_append|].
      intros _. apply writes_ret.
  - do 2 (apply (writes_seq env (Ret (inl true)) _ _ [] [_] [] []); [apply writes_ret|]; intros _).
    apply writes_append.
Qed.

(** The loop that appends the queued events leads on to [k]. *)
Lemma writes_queue_candidates (tasks : list (SimulationTaskSpec * prepared)) grouped k offered s :
  (forall s, let o := run env (k (foldl (fun g t => add_to_group t.1 t.2.1.2 t.2.2 g) grouped tasks)) s in
     writes o (sent_events (run_log o)) offered) ->
  let o := run env (queue_candidates chain now tasks grouped k) s in
  writes o ((event_op chain now <$> queued_payloads tasks) ++ sent_events (run_log o)) offered.
Proof.
  revert grouped s. induction tasks as [|[spec [[cand request] opp]] tasks IH]; intros grouped s Hk; [apply Hk|].
  cbv zeta. cbn [queue_candidates queued_payloads fmap list_fmap fst snd app].
  set (payload := build_candidate_queued_payload cand (eo_record opp)).
  set (q := queue_candidates chain now tasks (add_to_group spec request opp grouped) k).
  set (o := run env (r <- append_event_with_owner chain now payload ;; and_then r Ret q) s).
  apply (writes_seq env _ q s [event_op chain now payload] _ [] offered); [apply writes_append|].
  intros Hv. assert (sent_events (run_log o) = sent_events (run_log (run env q
    (run_state (run env (append_event_with_owner chain now payload) s))))) as ->.
  { unfold o. rewrite run_bind. cbv zeta. rewrite Hv. cbn [run_log and_then]. rewrite sent_events_app.
    unfold sent_events at 1. by rewrite append_sent. }
  apply IH. apply Hk.
Qed.

Lemma writes_dispatch (l : list prepared) s :
  let o := run env (dispatch_simulations chain cap workers now l) s in
  exists tasks,
    match l with
    | [] => tasks = []
    | _ => (exists e, run_value o = inr (SchedulerFailed e)) \/
           exch (CallRegister ((fun p => p.1.1) <$> l)) (inl tasks) ∈ run_log o
    end /\
    writes o ((event_op chain now <$> queued_payloads (zip tasks l)) ++ sent_events (run_log o))
      (grouped_tasks chain now (zip tasks l)).
Proof.
  cbv zeta. unfold dispatch_simulations. destruct l as [|x l]; [exists []; split; [done|apply writes_ret]|].
  set (l' := x :: l). cbn [run].
  destruct (env (CallRegister ((fun p => p.1.1) <$> l')) s) as [[tasks|e] s1].
  - exists tasks. split; [right; cbn [run_log]; by left|].
    pose proof (writes_queue_candidates (zip tasks l') ∅
      (fun grouped => for_each (bt_values grouped) (dispatch_group chain cap workers now))
      (grouped_tasks chain now (zip tasks l')) s1) as Hw.
    cbv zeta in Hw. set (o := run env (queue_candidates _ _ _ _ _) s1) in *.
    destruct Hw as [Hp Hd Ho Hv]; [intros s2; apply writes_groups|]. by split.
  - exists []. split; [left; by exists e|]. cbn. by split.
Qed.

(** Calls that neither store nor simulate leave no mark. *)
Definition quiet_log (log : list exchange) : Prop := Forall (fun x => quiet (projT1 x) = true) log.

Lemma quiet_marks log : quiet_log log ->
  accepted log = [] /\ omap drop_observed log = [] /\ omap refusal log = [] /\ omap offered_task log = [] /\
  omap sent_task log = [] /\ omap failure log = [].
Proof.
  induction 1 as [|[c r] log Hc _ (H1 & H2 & H3 & H4 & H5 & H6)]; [done|]. unfold accepted, accepted_ops in *.
  destruct c; try discriminate Hc; done.
Qed.

Definition prepend {A} (log : list exchange) (o : outcome_of S A) : outcome_of S A :=
  mkRun (log ++ run_log o) (run_value o) (run_state o).

Lemma writes_prepend log o ideal offered : quiet_log log -> writes o ideal offered -> writes (prepend log o) ideal offered.
Proof.
  intros (H1 & H2 & H3 & H4 & _ & H6)%quiet_marks [Hp Hd Ho Hv].
  split; cbn [prepend run_log run_value run_state]; by rewrite ?accepted_app, ?omap_app, ?H1, ?H2, ?H3, ?H4, ?H6.
Qed.

Lemma sent_prepend {A} log (o : outcome_of S A) : quiet_log log -> sent_events (run_log (prepend log o)) = sent_events (run_log o).
Proof.
  intros (_ & _ & _ & _ & H & _)%quiet_marks. unfold prepend. cbn [run_log]. rewrite sent_events_app.
  unfold sent_events at 1. by rewrite H.
Qed.

Lemma read_executable {A} transitions (f : list ValidatedTransaction -> prog A) s :
  exists log executable s1,
    run env (bind (ready_transactions_for_queue_transitions transitions) f) s = prepend log (run env (f executable) s1) /\
    quiet_log log /\
    match ready_hashes_of transitions with
    | [] => executable = [] | hashes => exch (CallPending hashes) executable ∈ log end.
Proof.
  unfold ready_transactions_for_queue_transitions. destruct (ready_hashes_of transitions) as [|h l].
  - exists [], [], s. cbn. split; [by destruct (run env (f []) s)|]. by split; [constructor|].
  - cbn [bind run]. destruct (env (CallPending (h :: l)) s) as [txs s1].
    exists [exch (CallPending (h :: l)) txs], txs, s1. split; [done|]. split; [by repeat constructor|by left].
Qed.

Lemma read_context {A} transitions (f : list ValidatedTransaction -> prog A) s :
  exists log context s1,
    run env (bind (ready_frontier_for_queue_transitions transitions) f) s = prepend log (run env (f context) s1) /\
    quiet_log log /\ (if existsb is_ready transitions then exch CallReady context ∈ log else context = []).
Proof.
  unfold ready_frontier_for_queue_transitions. destruct (existsb is_ready transitions); cbn [negb].
  - cbn [bind run]. destruct (env CallReady s) as [txs s1]. exists [exch CallReady txs], txs, s1.
    split; [done|]. split; [by repeat constructor|by left].
  - exists [], [], s. cbn. split; [by destruct (run env (f []) s)|]. by split; [constructor|].
Qed.

Lemma run_observe {A} opportunities (f : unit -> prog A) s :
  exists log s1, run env (bind (observe_executable opportunities) f) s = prepend log (run env (f tt) s1) /\ quiet_log log.
Proof.
  unfold observe_executable. destruct (eo_record <$> opportunities) as [|r l].
  - exists [], s. cbn. by split; [destruct (run env (f tt) s)|constructor].
  - cbn [bind run]. destruct (env (CallObserveSearcher (r :: l)) s) as [u s1].
    exists [exch (CallObserveSearcher (r :: l)) u], s1. split; [done|by repeat constructor].
Qed.

Lemma sent_seq p q s :
  (forall s, omap sent_task (run_log (run env p s)) = []) ->
  run_value (run env p s) = inl true ->
  sent_events (run_log (run env (r <- p ;; and_then r Ret q) s)) =
    sent_events (run_log (run env q (run_state (run env p s)))).
Proof.
  intros Hp Hv. rewrite run_bind. cbv zeta. rewrite Hv. cbn [run_log and_then]. rewrite sent_events_app.
  unfold sent_events at 1. by rewrite Hp.
Qed.

Lemma writes_search chain_id executable context s :
  let o := run env (search_and_dispatch chain cap workers now chain_id executable context) s in
  exists tasks,
    (run_value o = inl true ->
       match prepared_of now chain_id executable context with
       | [] => tasks = []
       | l => exch (CallRegister ((fun p => p.1.1) <$> l)) (inl tasks) ∈ run_log o
       end) /\
    writes o
      ((event_op chain now <$>
         ((fun o => build_opportunity_detected_payload (eo_record o)) <$> opportunities_of now chain_id executable) ++
         queued_payloads (zip tasks (prepared_of now chain_id executable context))) ++ sent_events (run_log o))
      (grouped_tasks chain now (zip tasks (prepared_of now chain_id executable context))).
Proof.
  cbv zeta. unfold search_and_dispatch. fold (opportunities_of now chain_id executable).
  fold (prepared_of now chain_id executable context). set (opps := opportunities_of now chain_id executable).
  set (l := prepared_of now chain_id executable context).
  match goal with |- context [run env (bind _ ?f) s] => destruct (run_observe opps f s) as (log & s1 & -> & Hq) end.
  set (p := for_each opps _). set (q := dispatch_simulations chain cap workers now l).
  set (s2 := run_state (run env p s1)). destruct (writes_dispatch l s2) as (tasks & Htasks & Hw).
  fold q in Htasks, Hw. exists tasks. split.
  - intros Hv. cbn [prepend run_log run_value] in *. rewrite run_bind in Hv |- *. cbv zeta in *. fold s2 in Hv |- *.
    cbn [run_log run_value] in *. destruct (run_value (run env p s1)) as [[]|e]; try discriminate Hv.
    cbn [and_then] in *. fold s2 q in Hv |- *. destruct l as [|x l']; [done|]. destruct Htasks as [[e He]|Hin].
    + by rewrite He in Hv.
    + rewrite !elem_of_app. by right; right.
  - rewrite sent_prepend by done. apply writes_prepend; [done|]. rewrite fmap_app, <-app_assoc.
    assert (writes (run env p s1) (event_op chain now <$> ((fun o => build_opportunity_detected_payload (eo_record o)) <$> opps)) [])
      as H1 by (rewrite <-list_fmap_compose; apply writes_appends).
    apply (writes_seq env p q s1 _ _ [] _ H1). intros Hv. fold s2 q.
    rewrite (sent_seq p q); [exact Hw| |done]. intros s'. apply appends_sent.
Qed.

Lemma writes_transitions chain_id transitions s :
  let o := run env (persist_transitions chain cap workers now chain_id transitions) s in
  exists executable context tasks,
    (run_value o = inl true -> answers now (run_log o) chain_id transitions executable context tasks) /\
    writes o
      ((event_op chain now <$> transition_payloads now chain_id transitions executable context tasks) ++
        sent_events (run_log o))
      (grouped_tasks chain now (zip tasks (prepared_of now chain_id executable context))).
Proof.
  cbv zeta. unfold persist_transitions.
  match goal with |- context [run env (bind _ ?f) s] =>
    destruct (read_executable transitions f s) as (log1 & executable & s1 & -> & Hq1 & Hex) end.
  match goal with |- context [run env (bind _ ?f) s1] =>
    destruct (read_context transitions f s1) as (log2 & context & s2 & -> & Hq2 & Hct) end.
  set (p := for_each transitions _). set (q := search_and_dispatch chain cap workers now chain_id executable context).
  set (s3 := run_state (run env p s2)). destruct (writes_search chain_id executable context s3) as (tasks & Htasks & Hw).
  fold q in Htasks, Hw. exists executable, context, tasks. split.
  - intros Hv. cbn [prepend run_log run_value] in *. rewrite run_bind in Hv |- *. cbv zeta in *.
    cbn [run_log run_value] in *. destruct (run_value (run env p s2)) as [[]|e]; try discriminate Hv.
    cbn [and_then] in *. fold s3 q in Hv |- *. specialize (Htasks Hv). split.
    + destruct (ready_hashes_of transitions); [done|]. apply elem_of_app. by left.
    + destruct (existsb is_ready transitions); [|done]. rewrite !elem_of_app. by right; left.
    + destruct (prepared_of _ _ _ _); [done|]. rewrite !elem_of_app. by right; right; right.
  - rewrite !sent_prepend by done. apply writes_prepend; [done|]. apply writes_prepend; [done|].
    unfold transition_payloads. rewrite fmap_app, <-app_assoc.
    assert (writes (run env p s2) (event_op chain now <$> (queue_transition_payload <$> transitions)) [])
      as H1 by (rewrite <-list_fmap_compose; apply writes_appends).
    apply (writes_seq env p q s2 _ _ [] _ H1). intros Hv. fold s3 q.
    rewrite (sent_seq p q); [exact Hw| |done]. intros s'. apply appends_sent.
Qed.

Definition transaction_ops (observation : PendingHashObservation) (hash : TxHash) (tx : LiveTx)
    (decision : SchedulerPersistenceDecision) (transitions : list SchedulerQueueTransition)
    (executable context : list ValidatedTransaction) (tasks : list SimulationTaskSpec) : list StorageWriteOp :=
  let chain_id := resolve_record_chain_id (ch_chain_id chain) (lt_chain_id tx) in
  let validated := validated_transaction_from_live_tx chain (ob_observed_at_unix_ms observation)
                     (ob_observed_at_mono_ns observation) tx in
  observation_ops chain now observation hash ++
  [WUpsertTxFull (tx_full_record chain_id tx); WUpsertTxFeatures (tx_features_record chain_id tx)] ++
  (event_op chain now <$>
     decision_payloads tx (vt_decoded validated) decision ++
     transition_payloads now chain_id transitions executable context tasks).

Lemma observation_sent observation hash s :
  omap sent_task (run_log (run env (persist_observation chain now observation hash) s)) = [].
Proof.
  unfold persist_observation, try_enqueue_storage_write. cbn [run bind]. destruct (env CallNextSeq s) as [n s1].
  destruct (env (CallEnqueue _) s1) as [[u|e] s2]; cbn [bind run and_then].
  - destruct (env (CallEnqueue _) s2) as [[u2|e] s3]; cbn [bind run and_then].
    + apply append_sent.
    + destruct (env (CallObserveDrop _) s3) as [u3 s4]. by destruct e.
  - destruct (env (CallObserveDrop _) s2) as [u3 s4]. by destruct e.
Qed.

Lemma enqueue_sent op s : omap sent_task (run_log (run env (try_enqueue_storage_write op) s)) = [].
Proof.
  unfold try_enqueue_storage_write. cbn [run]. destruct (env (CallEnqueue op) s) as [[u|e] s1]; [done|].
  cbn [run]. destruct (env (CallObserveDrop _) s1) as [u s2]. by destruct e.
Qed.

Lemma offered_none_sent log : omap offered_task log `prefix_of` [] -> omap sent_task log = [].
Proof.
  intros H%prefix_nil_inv. induction log as [|[c r] log IH]; [done|].
  destruct c; cbn in H; try discriminate H; cbn; by apply IH.
Qed.

Lemma decision_sent tx decoded decision s :
  omap sent_task (run_log (run env (persist_decision chain now tx decoded decision) s)) = [].
Proof. apply offered_none_sent, (w_offered _ _ _ (writes_decision tx decoded decision s)). Qed.

Lemma writes_fetched observation hash tx decision transitions s :
  let chain_id := resolve_record_chain_id (ch_chain_id chain) (lt_chain_id tx) in
  let p := r <- persist_observation chain now observation hash ;;
           and_then r Ret (persist_fetched chain cap workers now observation tx decision transitions) in
  let o := run env p s in
  exists executable context tasks,
    (run_value o = inl true -> answers now (run_log o) chain_id transitions executable context tasks) /\
    writes o (transaction_ops observation hash tx decision transitions executable context tasks ++ sent_events (run_log o))
      (grouped_tasks chain now (zip tasks (prepared_of now chain_id executable context))).
Proof.
  cbv zeta. unfold persist_fetched, transaction_ops.
  set (chain_id := resolve_record_chain_id _ _). set (decoded := vt_decoded _).
  set (p1 := persist_observation _ _ _ _). set (p2 := try_enqueue_storage_write (WUpsertTxFull _)).
  set (p3 := try_enqueue_storage_write (WUpsertTxFeatures _)). set (p4 := persist_decision _ _ _ _ _).
  set (p5 := persist_transitions _ _ _ _ _ _). set (q4 := r <- p4 ;; _). set (q3 := r <- p3 ;; _).
  set (q2 := r <- p2 ;; _).
  set (s1 := run_state (run env p1 s)). set (s2 := run_state (run env p2 s1)).
  set (s3 := run_state (run env p3 s2)). set (s4 := run_state (run env p4 s3)).
  destruct (writes_transitions chain_id transitions s4) as (executable & context & tasks & Hans & Hw).
  fold p5 in Hans, Hw. exists executable, context, tasks.
  rewrite fmap_app, <-!app_assoc. split.
  - intros Hv. advance Hv. fold s1 in Hv |- *. unfold q2 in Hv |- *. advance Hv. fold s2 in Hv |- *.
    unfold q3 in Hv |- *. advance Hv. fold s3 in Hv |- *. unfold q4 in Hv |- *. advance Hv. fold s4 in Hv |- *.
    destruct (Hans Hv) as [H1 H2 H3]. split.
    + destruct (ready_hashes_of transitions); [done|]. rewrite !elem_of_app. tauto.
    + destruct (existsb is_ready transitions); [|done]. rewrite !elem_of_app. tauto.
    + destruct (prepared_of _ _ _ _); [done|]. rewrite !elem_of_app. tauto.
  - apply (writes_seq env p1 q2 s _ _ [] _ (writes_observation observation hash s)). intros E1. fold s1.
    rewrite (sent_seq p1 q2) by (done || apply observation_sent). fold s1.
    apply (writes_seq env p2 q3 s1 [_] (_ :: _) [] _ (writes_enqueue env _ s1)). intros E2. fold s2.
    unfold q2. rewrite (sent_seq p2 q3) by (done || apply enqueue_sent). fold s2.
    apply (writes_seq env p3 q4 s2 [_] (_ ++ _) [] _ (writes_enqueue env _ s2)). intros E3. fold s3.
    unfold q3. rewrite (sent_seq p3 q4) by (done || apply enqueue_sent). fold s3.
    apply (writes_seq env p4 p5 s3 _ _ [] _ (writes_decision tx decoded decision s3)). intros E4. fold s4.
    unfold q4. rewrite (sent_seq p4 p5) by (done || apply decision_sent). exact Hw.
Qed.

(** How the handler ends when its last step ends with [v]. *)
Definition settle (v : outcome_bool) : outcome_unit := match v with inl _ => inl tt | inr e => inr e end.

Lemma run_last p s : run env (try! p ;; Ret (inl tt)) s =
  mkRun (run_log (run env p s)) (settle (run_value (run env p s))) (run_state (run env p s)).
Proof.
  rewrite run_bind. cbv zeta. destruct (run env p s) as [log v s1]. cbn [run_log run_value run_state].
  destruct v as [[]|e]; cbn; by rewrite app_nil_r.
Qed.

Lemma run_two p q s : run env (try! p ;; try! q ;; Ret (inl tt)) s =
  run env (try! (r <- p ;; and_then r Ret q) ;; Ret (inl tt)) s.
Proof.
  rewrite (run_last (r <- p ;; and_then r Ret q)). rewrite !run_bind. cbv zeta.
  destruct (run env p s) as [log v s1]. cbn [run_log run_value run_state].
  destruct v as [[]|e]; cbn [and_then]; [|done..]. by rewrite run_last.
Qed.
End pipeline.

(** C13: What one fetched transaction leaves in the storage queue, whatever the
    environment does between the calls and however it answers.  The handler
    asks the scheduler first; if its queue is closed nothing is written.
    Otherwise the operations the storage queue takes are a prefix of one
    sequence: the observation, the full record and the features, the decision
    (replaced before decoded, or dropped), the queue transitions, the
    opportunities, the queued candidates, and the dispatches of the simulation
    tasks whose queue took them.  The handler stops at the first refusal,
    counts it exactly once, and returns normally on a full queue but fails on a
    closed one; it fails otherwise only when the scheduler or the simulation
    queue did; when nothing is refused the whole sequence is written, every
    group of candidates was offered to the simulation queue, and the sequence
    is that of the scheduler's own answers. *)
Theorem pipeline_log_exact {S} (env : forall c : call, S -> reply c * S) chain cap workers observation hash tx s :
  let chain_id := resolve_record_chain_id (ch_chain_id chain) (lt_chain_id tx) in
  let o := run env (process_pending_hash chain cap workers observation hash (Some tx)) s in
  exists now admitted rest,
    run_log o = exch CallNow now ::
      exch (CallAdmit (validated_transaction_from_live_tx chain (ob_observed_at_unix_ms observation)
                         (ob_observed_at_mono_ns observation) tx)) admitted :: rest /\
    match admission_decision admitted with
    | inr e => rest = [] /\ run_value o = inr e
    | inl (decision, transitions) =>
        exists executable context tasks,
          let ideal := transaction_ops chain now observation hash tx decision transitions executable context tasks ++
                       sent_events rest in
          let groups := grouped_tasks chain now (zip tasks (prepared_of now chain_id executable context)) in
          accepted rest `prefix_of` ideal /\
          omap drop_observed rest = classify_storage_enqueue_drop_reason <$> omap refusal rest /\
          omap offered_task rest `prefix_of` groups /\
          match run_value o with
          | inl _ =>
              omap refusal rest = [TryQueueFull] \/
              omap refusal rest = [] /\ accepted rest = ideal /\ omap offered_task rest = groups /\
                answers now rest chain_id transitions executable context tasks
          | inr StorageWriterClosed => omap refusal rest = [TryQueueClosed]
          | inr e => omap refusal rest = [] /\ omap failure rest = [e]
          end
    end.
Proof.
  cbv zeta. unfold process_pending_hash. cbn [run]. destruct (env CallNow s) as [now s1].
  destruct (env (CallAdmit _) s1) as [admitted s2]. exists now, admitted.
  destruct (admission_decision admitted) as [[decision transitions]|e].
  - rewrite run_two, run_last. cbn [run_log run_value]. eexists. split; [done|].
    destruct (writes_fetched env chain cap workers now observation hash tx decision transitions s2)
      as (executable & context & tasks & Hans & [Hp Hd Ho Hv]).
    exists executable, context, tasks. split; [done|]. split; [done|]. split; [done|].
    destruct (run_value _) as [[]|e]; cbn [settle]; [|by left|done].
    right. destruct Hv as (Ha & Hr & Ht & _). split; [done|]. split; [done|]. split; [done|]. by apply Hans.
  - exists []. by split.
Qed.
