(* ===== verification/LiveMirror.v ===== *)
(** * LiveMirror: the live log replays to the live scheduler

    The live feed logs what the scheduler decided; replay rebuilds a mempool
    from the log.  Here the two meet: a simulation between the scheduler's
    state and the mempool that replays the payloads the storage queue took,
    one processed transaction at a time. *)
From stdpp Require Import base gmap strings list numbers sorting.
From S2P Require Import Prelude Common EventLog Scheduler SchedulerQueue SchedulerInvariant SchedulerRefinement SchedulerViews SchedulerActor.
From S2P Require Import ReplayMempool ReplayLifecycle ReplayQueues Searcher Assembly Storage StorageWriter.
From S2P Require Import LiveHex LiveState LiveConfig LiveDecode LiveProgram LivePipeline LiveLog.

(** ** The slots, event by event *)

(** The payloads a live feed can log about a mempool: no confirmations and no
    reorganisations. *)
Definition unsettled (p : EventPayload) : bool :=
  match p with PTxConfirmedProvisional _ | PTxConfirmedFinal _ | PTxReorged _ => false | _ => true end.

Definition slots_spec (s : MempoolState) (p : EventPayload) (b : Address) (m : N) : option TxHash :=
  match p with
  | PTxDecoded d => if decide ((b, m) = (dec_sender d, dec_nonce d)) then Some (dec_hash d) else rslot s b m
  | PTxReady r => if decide ((b, m) = (ready_sender r, ready_nonce r)) then Some (ready_hash r) else rslot s b m
  | PTxBlocked r => if decide ((b, m) = (blocked_sender r, blocked_nonce r)) then Some (blocked_hash r) else rslot s b m
  | PTxReplaced r => if decide (rslot s b m = Some (replaced_hash r)) then None else rslot s b m
  | PTxDropped d => if decide (rslot s b m = Some (dropped_hash d)) then None else rslot s b m
  | _ => rslot s b m
  end.

Section slots.
Context (slot_of : TxHash -> Address * N).

Lemma enqueue_slot_id s h a n b m : mempool_wf slot_of s -> slot_of h = (a, n) ->
  rslot (recompute_sender_queue_states a (ensure_sender_queue_entry h a n s)) b m =
    if decide ((b, m) = (a, n)) then Some h else rslot s b m.
Proof.
  intros Hwf Hh. rewrite <-(set_txs_id s) at 1. apply (enqueued_slot slot_of s (ms_txs s)); try done. by left.
Qed.

Lemma decoded_slot d s b m : mempool_wf slot_of s -> coherent slot_of (PTxDecoded d) ->
  rslot (apply_decoded d s).2 b m = slots_spec s (PTxDecoded d) b m.
Proof.
  intros Hwf Hcoh. simpl in Hcoh. unfold apply_decoded. fold (rslot s (dec_sender d) (dec_nonce d)).
  cbn [slots_spec]. set (a := dec_sender d) in *. set (n := dec_nonce d) in *.
  destruct (rslot s a n) as [old|] eqn:Hs; [destruct (decide (old = dec_hash d)) as [->|Hne]|]; cbn [snd].
  1, 3: by apply enqueue_slot_id.
  apply (enqueued_slot slot_of s (alter (retire (StReplaced (dec_hash d))) old (ms_txs s))); try done.
  - intros k _ Hk. apply lookup_alter_ne. congruence.
  - intros k _ E. rewrite Hs in E. injection E as <-. right. exists (dec_hash d).
    rewrite (core_alter_status _ (StReplaced (dec_hash d))), decide_True by done.
    by destruct (mw_slot _ _ Hwf _ _ _ Hs) as [_ ->].
Qed.

Lemma leave_slot s txs1 h b m : mempool_wf slot_of s ->
  (forall k, k <> h -> txs1 !! k = ms_txs s !! k) ->
  (forall c st, core txs1 h = Some (c, st) -> is_pending st = false /\ c = known_slot s h) ->
  rslot (leave_queue h (known_slot s h) (set_txs txs1 s)) b m =
    if decide (rslot s b m = Some h) then None else rslot s b m.
Proof. intros Hwf Hsame Hret. by apply (left_slot slot_of s txs1 h). Qed.

Lemma slot_step e s b m : mempool_wf slot_of s -> coherent slot_of (payload e) -> unsettled (payload e) = true ->
  rslot (apply_event e s).2 b m = slots_spec s (payload e) b m.
Proof.
  intros Hwf Hcoh Hp. unfold apply_event.
  destruct (payload e) as [x|x|d|r|r|x|x|x|x|x|x|r|d|c|c|r]; try done; cbn [slots_spec].
  - by apply decoded_slot.
  - unfold apply_ready. cbn [snd]. by apply enqueue_slot_id.
  - unfold apply_blocked. cbn [snd]. destruct (blocked_expected_nonce r); by apply enqueue_slot_id.
  - unfold apply_replaced. cbn [snd]. apply leave_slot; [done|intros; by apply lookup_alter_ne|].
    by intros c st [-> ->]%replaced_known.
  - unfold apply_dropped. cbn [snd]. apply leave_slot; [done|intros; by apply lookup_insert_ne|].
    by intros c st [-> ->]%dropped_known.
Qed.
End slots.

(** ** The simulation relation *)
Definition same_pool (s s' : SchedulerState) : Prop :=
  pending s' = pending s /\ sender_queues s' = sender_queues s.
Lemma same_queues_pool s s' : same_queues s s' -> same_pool s s'.
Proof. by intros (? & ? & _). Qed.

Section mirror.
Context (slot_of : TxHash -> Address * N).

(** The replayed mempool holds the scheduler's queues, with their states, and
    the pending transactions of replay are exactly the scheduler's. *)
Record mirrors (s : SchedulerState) (m : MempoolState) : Prop := {
  mi_queues : queues_wf (pending s) (sender_queues s);
  mi_mempool : mempool_wf slot_of m;
  mi_slot a n : rslot m a n = slot s a n;
  mi_pending h : lifecycle m h = Some StPending <-> is_Some (pending s !! h);
  mi_annotated a : annotated m a;
}.

Lemma mirrors_default : mirrors state_default mempool_default.
Proof.
  split.
  - apply queues_wf_empty.
  - apply mempool_wf_default.
  - intros a n. unfold rslot, slot. cbn. by rewrite !lookup_empty.
  - intros h. unfold lifecycle. cbn. rewrite !lookup_empty. split; [done|by intros []].
  - intros a q. cbn. by rewrite lookup_empty.
Qed.

Lemma mirrors_same s s' m : same_pool s s' -> mirrors s m -> mirrors s' m.
Proof.
  intros [Hp Hq] [H1 H2 H3 H4 H5]. split; try done.
  - by rewrite Hp, Hq.
  - intros a n. rewrite H3. unfold slot. by rewrite Hq.
  - intros h. by rewrite Hp.
Qed.

Lemma pending_slot s h tx : queues_wf (pending s) (sender_queues s) -> pending s !! h = Some tx ->
  slot s (vt_sender tx) (vt_nonce tx) = Some h.
Proof. intros Hwf Hh. destruct (qw_pending _ _ Hwf _ _ Hh) as (_ & q & Hq & Hn). unfold slot. by rewrite Hq. Qed.

Lemma slot_is_pending s a n h : queues_wf (pending s) (sender_queues s) -> slot s a n = Some h -> is_Some (pending s !! h).
Proof. intros Hwf Hs. destruct (slot_pending _ _ _ _ Hwf Hs) as (tx & -> & _). eauto. Qed.

Lemma slot_unique s a n b m h : queues_wf (pending s) (sender_queues s) ->
  slot s a n = Some h -> slot s b m = Some h -> (a, n) = (b, m).
Proof.
  intros Hwf (q1 & H1 & H2)%bind_Some (q2 & H3 & H4)%bind_Some.
  by destruct (queues_slot_unique _ _ Hwf _ _ _ _ _ _ _ H1 H2 H3 H4) as [-> ->].
Qed.

(** One event that reports a change of the queues from [s] to [s']. *)
Lemma mirrors_step s s' m e : mirrors s m -> queues_wf (pending s') (sender_queues s') ->
  coherent slot_of (payload e) -> unsettled (payload e) = true ->
  (forall a n, slots_spec m (payload e) a n = slot s' a n) ->
  (forall h, lifecycle_spec m (payload e) h = Some StPending <-> is_Some (pending s' !! h)) ->
  (forall a, overrides (payload e) a = false) -> mirrors s' (apply_event e m).2.
Proof.
  intros [H1 H2 H3 H4 H5] Hwf Hcoh Hu Hslot Hlife Hover.
  destruct (event_step slot_of e m H2 Hcoh) as [Hm Ha]. split; try done.
  - intros a n. rewrite (slot_step slot_of) by done. apply Hslot.
  - intros h. rewrite lifecycle_step. apply Hlife.
  - intros a. apply Ha. left. split; [apply H5|apply Hover].
Qed.

(** Payloads that say nothing about the mempool. *)
Definition inert (p : EventPayload) : bool :=
  match p with
  | PTxSeen _ | PTxFetched _ | PCandidateQueued _ | PSimDispatched _ | POppDetected _
  | PSimCompleted _ | PAssemblyDecisionApplied _ | PBundleSubmitted _ => true
  | _ => false
  end.
Lemma apply_inert events m : Forall (fun e => inert (payload e) = true) events -> apply_all events m = m.
Proof.
  induction 1 as [|e l He _ IH]; [done|]. cbn [apply_all foldl]. fold (apply_all l).
  assert (apply_event e m = ([], m)) as -> by (unfold apply_event; by destruct (payload e)). exact IH.
Qed.

(** A transition the scheduler reports overwrites a state with itself. *)
Lemma annotated_override s1 a n h st :
  mempool_wf slot_of s1 -> annotated s1 a -> rslot s1 a n = Some h ->
  (forall q, ms_sender_queues s1 !! a = Some q -> mk_position (n, h) st ∈ queue_positions q) ->
  annotated (set_txs (alter (set_queue_state (Some (to_replay st))) h (ms_txs s1)) s1) a.
Proof.
  intros Hwf Ha Hs Hpos q Hq pos Hin. cbn [ms_sender_queues set_txs] in Hq.
  destruct (Ha q Hq pos Hin) as (e & He & Hst & Hqs). cbn [ms_txs set_txs].
  destruct (decide (h = pos_hash pos)) as [->|Hne]; [|rewrite lookup_alter_ne by done; by exists e].
  rewrite lookup_alter_eq, He. eexists. split; [done|]. split; [done|]. cbn. do 2 f_equal.
  assert (NoDup (pos_hash <$> queue_positions q)) as Hnd.
  { rewrite positions_hashes. apply queue_hashes_NoDup_2. intros n1 n2 k H1 H2.
    apply (slot_inj slot_of s1 a n1 n2 k Hwf); unfold rslot; rewrite Hq; done. }
  specialize (Hpos q Hq). apply list_elem_of_lookup in Hin as [i Hi], Hpos as [j Hj].
  assert (i = j) as ->; [|rewrite Hi in Hj; by injection Hj as ->].
  apply (NoDup_lookup _ i j (pos_hash pos) Hnd); rewrite list_lookup_fmap; [by rewrite Hi|by rewrite Hj].
Qed.

(** Two families of queues with the same slots are equal. *)
Lemma queues_agree s m : queues_wf (pending s) (sender_queues s) -> queues_nonempty m ->
  (forall a n, rslot m a n = slot s a n) -> ms_sender_queues m = sender_queues s.
Proof.
  intros Hwf Hne Heq. apply map_eq. intros a.
  destruct (ms_sender_queues m !! a) as [q1|] eqn:H1, (sender_queues s !! a) as [q2|] eqn:H2; [f_equal| | |done].
  - apply map_eq. intros n. specialize (Heq a n). unfold rslot, slot in Heq. by rewrite H1, H2 in Heq.
  - destruct (Hne a q1 H1). apply map_eq. intros n. specialize (Heq a n). unfold rslot, slot in Heq.
    rewrite H1, H2 in Heq. cbn in Heq. by rewrite Heq, lookup_empty.
  - destruct (qw_nonempty _ _ Hwf a q2 H2). apply map_eq. intros n. specialize (Heq a n). unfold rslot, slot in Heq.
    rewrite H1, H2 in Heq. cbn in Heq. by rewrite <-Heq, lookup_empty.
Qed.

(** The listed states are the new queue's. *)
Definition in_queue (s : SchedulerState) (t : SchedulerQueueTransition) : Prop :=
  mk_position (tr_nonce t, tr_hash t) (tr_state t) ∈ sender_queue_positions s (tr_sender t).

Lemma mirrors_transition s m e t : mirrors s m -> in_queue s t ->
  payload e = queue_transition_payload t -> mirrors s (apply_event e m).2.
Proof.
  intros Hm Hin He. pose proof Hm as [H1 H2 H3 H4 H5]. unfold in_queue in Hin.
  rewrite sender_queue_positions_eq in Hin by done.
  set (a := tr_sender t) in *. set (n := tr_nonce t) in *. set (h := tr_hash t) in *.
  assert (slot s a n = Some h /\ forall q, sender_queues s !! a = Some q -> mk_position (n, h) (tr_state t) ∈ queue_positions q)
    as [Hs Hpos].
  { unfold slot. destruct (sender_queues s !! a) as [q|]; cbn in *; [|by apply not_elem_of_nil in Hin].
    split; [|by intros ? [= <-]]. apply elem_of_bt_iter. rewrite <-queue_positions_entries.
    apply list_elem_of_fmap. by exists (mk_position (n, h) (tr_state t)). }
  assert (rslot m a n = Some h) as Hr by (by rewrite H3).
  assert (slot_of h = (a, n)) as Hof by (by apply (mw_slot _ _ H2) in Hr as [? _]).
  assert (coherent slot_of (payload e)) as Hcoh by (rewrite He; unfold queue_transition_payload; by destruct (tr_state t)).
  destruct (event_step slot_of e m H2 Hcoh) as [Hwf' Hann].
  assert (forall b k, rslot (apply_event e m).2 b k = rslot m b k) as Hslots.
  { intros b k. rewrite (slot_step slot_of); [|done..|rewrite He; unfold queue_transition_payload; by destruct (tr_state t)].
    rewrite He. unfold queue_transition_payload. destruct (tr_state t); cbn; fold a n h; case_decide as E;
      [by simplify_eq|done|by simplify_eq|done]. }
  split; try done.
  - intros b k. by rewrite Hslots.
  - intros k. rewrite lifecycle_step, <-H4. rewrite He.
    assert (lifecycle m h = Some StPending) as Hp by (apply H4; eauto using slot_is_pending).
    unfold queue_transition_payload. destruct (tr_state t); cbn; fold h; case_decide; by subst.
  - intros b. destruct (decide (b = a)) as [->|Hne].
    + unfold apply_event. rewrite He. unfold queue_transition_payload, apply_ready, apply_blocked.
      set (s1 := recompute_sender_queue_states a (ensure_sender_queue_entry h a n m)).
      assert (s1 = enqueued m (ms_txs m) h a n) as E1 by (unfold s1, enqueued; by rewrite set_txs_id).
      assert (mempool_wf slot_of s1) as Hwf1 by (rewrite E1; apply enqueued_wf; try done; by left).
      assert (annotated s1 a) as Ha1 by (rewrite E1; apply (enqueued_annotated slot_of); try done; [by left|by right]).
      assert (forall b k, rslot s1 b k = slot s b k) as Hs1.
      { intros b k. unfold s1. rewrite (enqueue_slot_id slot_of) by done. rewrite H3. case_decide as E; [|done]. injection E as -> ->. by rewrite Hs. }
      assert (rslot s1 a n = Some h) as Hr1 by (by rewrite Hs1).
      assert (forall q, ms_sender_queues s1 !! a = Some q -> mk_position (n, h) (tr_state t) ∈ queue_positions q) as Hq1.
      { intros q. rewrite (queues_agree s s1); [apply Hpos|done|intros b q0; apply (mw_nonempty _ _ Hwf1)|apply Hs1]. }
      pose proof (annotated_override s1 a n h (tr_state t) Hwf1 Ha1 Hr1 Hq1) as Hov.
      by destruct (tr_state t).
    + apply Hann. left. split; [apply H5|]. rewrite He. unfold queue_transition_payload.
      destruct (tr_state t); cbn; fold a; by apply N.eqb_neq.
Qed.

Lemma mirrors_transitions s m events ts : mirrors s m -> Forall (in_queue s) ts ->
  payload <$> events = queue_transition_payload <$> ts -> mirrors s (apply_all events m).
Proof.
  intros Hm Hts. revert m events Hm. induction Hts as [|t ts Ht _ IH]; intros m [|e events] Hm Heq; try done.
  csimpl in Heq. injection Heq as He Hl. cbn [apply_all foldl]. fold (apply_all events).
  apply (IH (apply_event e m).2 events); [|done]. by eapply mirrors_transition.
Qed.

(** ** One admission *)

(** What the log says of an admission, before the transitions. *)
Definition admission_payloads (tx : ValidatedTransaction) (o : SchedulerAdmission) : list EventPayload :=
  match o with
  | AdmittedTx => [PTxDecoded (vt_decoded tx)]
  | Duplicate => []
  | Replaced h => [PTxReplaced (mkTxReplaced h (vt_hash tx)); PTxDecoded (vt_decoded tx)]
  | UnderpricedReplacement => [PTxDropped (mkTxDropped (vt_hash tx) "underpriced_replacement")]
  | SenderLimitReached => [PTxDropped (mkTxDropped (vt_hash tx) "sender_limit_reached")]
  end.

Lemma admit_queues_wf config tx s : queues_wf (pending s) (sender_queues s) ->
  queues_wf (pending (admit_tx config tx s).2) (sender_queues (admit_tx config tx s).2).
Proof.
  intros Hwf. destruct (admit_branch_spec config tx s Hwf) as [Hdup|Hnew Hslot Hlen|Hnew Hslot Hlen
    |h inc Hnew Hslot Hinc Hfee|h inc Hnew Hslot Hinc Hfee]; try done.
  - by apply (queues_wf_insert _ _ _ None).
  - by apply (queues_wf_insert _ _ _ (Some h)).
Qed.

Lemma mirrors_dropped s m e h reason : mirrors s m -> pending s !! h = None ->
  payload e = PTxDropped (mkTxDropped h reason) -> mirrors s (apply_event e m).2.
Proof.
  intros Hm Hn He. pose proof Hm as [H1 H2 H3 H4 H5]. apply (mirrors_step s); rewrite ?He; cbn; try done.
  - intros a n. rewrite H3. case_decide as E; [|done]. apply (slot_is_pending _ _ _ _ H1) in E as [tx E]. congruence.
  - intros k. case_decide as E; [subst; rewrite Hn; split; [done|by intros []]|apply H4].
Qed.

(** A transaction enters the free slot it is meant for. *)
Lemma mirrors_decoded s' m e tx : mempool_wf slot_of m -> (forall a, annotated m a) ->
  queues_wf (pending s') (sender_queues s') -> slot_of (vt_hash tx) = pool_key tx ->
  rslot m (vt_sender tx) (vt_nonce tx) = None -> pending s' !! vt_hash tx = Some tx ->
  (forall a n, (a, n) <> pool_key tx -> rslot m a n = slot s' a n) ->
  (forall k, k <> vt_hash tx -> lifecycle m k = Some StPending <-> is_Some (pending s' !! k)) ->
  payload e = PTxDecoded (vt_decoded tx) -> mirrors s' (apply_event e m).2.
Proof.
  intros Hm Ha Hwf Hof Hfree Hp Hslots Hlife He.
  destruct (event_step slot_of e m Hm) as [Hwf' Hann]; [by rewrite He|].
  assert (unsettled (payload e) = true) as Hu by (by rewrite He).
  assert (coherent slot_of (payload e)) as Hcoh by (by rewrite He).
  split; [done|done| | |].
  - intros a n. rewrite (slot_step slot_of), He by done. cbn. case_decide as E; [|by apply Hslots].
    injection E as -> ->. symmetry. by apply pending_slot.
  - intros h. rewrite lifecycle_step, He. cbn. fold (vt_hash tx) (vt_sender tx) (vt_nonce tx). rewrite Hfree.
    case_decide as E; [subst; rewrite Hp; split; eauto|]. rewrite decide_False by done. apply Hlife. congruence.
  - intros a. apply Hann. left. split; [apply Ha|]. by rewrite He.
Qed.

(** The admission as a whole: the decision, then the transitions. *)
Lemma mirrors_decision config tx s m events :
  mirrors s m -> slot_of (vt_hash tx) = pool_key tx ->
  payload <$> events = admission_payloads tx (admission (admit_tx config tx s).1) ->
  mirrors (admit_tx config tx s).2 (apply_all events m).
Proof.
  intros Hm Hof Hev. pose proof Hm as [H1 H2 H3 H4 H5].
  pose proof (admit_queues_wf config tx s H1) as Hwf. pose proof (admit_branch_spec config tx s H1) as Hb.
  remember (admission (admit_tx config tx s).1) as o eqn:Ho; clear Ho.
  remember (pending (admit_tx config tx s).2) as p' eqn:Hp'.
  remember (sender_queues (admit_tx config tx s).2) as qs' eqn:Hqs'.
  destruct Hb as [Hdup|Hnew Hslot Hlen|Hnew Hslot Hlen|h inc Hnew Hslot Hinc Hfee|h inc Hnew Hslot Hinc Hfee];
    cbn [admission_payloads] in Hev.
  - apply fmap_nil_inv in Hev as ->. apply (mirrors_same s); [|done]. by split.
  - destruct events as [|e [|]]; try done. injection Hev as He. apply (mirrors_same s); [by split|].
    by eapply mirrors_dropped.
  - destruct events as [|e [|]]; try done. injection Hev as He.
    apply (mirrors_decoded _ m e tx); try done; rewrite <-?Hp', <-?Hqs'; try done.
    + by rewrite H3.
    + by rewrite lookup_insert_eq.
    + intros a n Hne. rewrite H3. symmetry. rewrite (slot_queue_insert s _ tx) by done. by rewrite decide_False.
    + intros k Hk. rewrite lookup_insert_ne by done. apply H4.
  - destruct events as [|e [|]]; try done. injection Hev as He. apply (mirrors_same s); [by split|].
    by eapply mirrors_dropped.
  - destruct events as [|e1 [|e2 [|]]]; try done. injection Hev as He1 He2. cbn [apply_all foldl].
    assert (coherent slot_of (payload e1)) as Hcoh by (by rewrite He1).
    destruct (event_step slot_of e1 m H2 Hcoh) as [Hwf1 Hann1].
    assert (forall a n, rslot (apply_event e1 m).2 a n = if decide (slot s a n = Some h) then None else slot s a n) as Hs1.
    { intros a n. rewrite (slot_step slot_of), He1 by (done || by rewrite He1). cbn. by rewrite H3. }
    apply (mirrors_decoded _ (apply_event e1 m).2 e2 tx); try done; rewrite <-?Hp', <-?Hqs'; try done.
    + intros a. apply Hann1. left. split; [apply H5|]. by rewrite He1.
    + rewrite Hs1. by rewrite decide_True.
    + by rewrite lookup_insert_eq.
    + intros a n Hne. rewrite Hs1. rewrite (slot_queue_insert s (admit_tx config tx s).2 tx) by done. rewrite (decide_False (P := _ = (_, _))) by done.
      rewrite decide_False; [done|]. intros Hs. apply Hne. by eapply slot_unique.
    + intros k Hk. rewrite lifecycle_step, He1, lookup_insert_ne by done. cbn. case_decide as E; subst.
      * rewrite lookup_delete_eq. split; [by destruct (lifecycle m k)|by intros []].
      * rewrite lookup_delete_ne by done. apply H4.
Qed.

Lemma mirrors_admit config tx s m events1 events2 :
  mirrors s m -> slot_of (vt_hash tx) = pool_key tx ->
  let '(o, s') := admit_tx config tx s in
  payload <$> events1 = admission_payloads tx (admission o) ->
  payload <$> events2 = queue_transition_payload <$> queue_transitions o ->
  mirrors s' (apply_all events2 (apply_all events1 m)).
Proof.
  intros Hm Hof. pose proof (mirrors_decision config tx s m events1 Hm Hof) as Hd.
  pose proof (admit_transitions config tx s (mi_queues _ _ Hm)) as Ht.
  destruct (admit_tx config tx s) as [o s']. cbn [fst snd] in *. intros H1 H2. specialize (Hd H1).
  apply (mirrors_transitions s' _ _ (queue_transitions o)); [done| |done]. rewrite Ht.
  destruct (is_admitted (admission o)); [|by constructor]. apply Forall_forall. intros t Hin.
  apply elem_of_transitions in Hin as (<- & Hin & _). exact Hin.
Qed.
End mirror.

(** ** One worker and its scheduler *)

(** An environment whose scheduler answers admissions with [admit_tx] and whose
    queues change by nothing else; everything else is free. *)
Record owns_scheduler {S} (config : SchedulerConfig) (sched : S -> SchedulerState)
    (env : forall c : call, S -> reply c * S) : Prop := {
  os_admit tx s outcome : (env (CallAdmit tx) s).1 = inl outcome ->
    outcome = (admit_tx config tx (sched s)).1 /\
    same_pool (admit_tx config tx (sched s)).2 (sched (env (CallAdmit tx) s).2);
  os_other c s : match c with CallAdmit _ => True | _ => same_pool (sched s) (sched (env c s).2) end;
}.

(** A conversation in which no admission, storage write, scheduler command or
    simulation hand-over failed. *)
Definition admission_error (x : exchange) : option SchedulerEnqueueError :=
  match x with existT (CallAdmit _) (inr e) => Some e | _ => None end.
Definition clean (log : list exchange) : Prop :=
  omap refusal log = [] /\ omap failure log = [] /\ omap admission_error log = [].

Lemma clean_app l1 l2 : clean (l1 ++ l2) <-> clean l1 /\ clean l2.
Proof. unfold clean. rewrite !omap_app, !app_nil. tauto. Qed.
Lemma clean_cons x l : clean (x :: l) <-> clean [x] /\ clean l.
Proof. apply (clean_app [x] l). Qed.

(** Processing a transaction admits nothing beyond the first call, so the rest
    leaves the queues alone. *)
Definition no_admission (c : call) : Prop := match c with CallAdmit _ => False | _ => True end.
Lemma pipeline_no_admission c : pipeline_call c -> no_admission c.
Proof. by destruct c. Qed.

Section feed.
Context {S : Type} (config : SchedulerConfig) (sched : S -> SchedulerState) (env : forall c : call, S -> reply c * S).
Context (Howns : owns_scheduler config sched env).
Context (chain : ChainRpcConfig) (cap workers : N) (slot_of : TxHash -> Address * N).

Lemma run_no_admission {A} (p : prog A) s : obeys no_admission any p -> same_pool (sched s) (sched (run_state (run env p s))).
Proof.
  revert s. induction p as [a|c k IH]; intros s Hp; [done|]. cbn in *. destruct Hp as [Hc Hk].
  pose proof (os_other _ _ _ Howns c s) as Ho. destruct (env c s) as [r s1] eqn:E. cbn [run_state snd] in *.
  destruct (IH r s1 (Hk r)) as [H1 H2]. destruct c; try done; destruct Ho as [H3 H4]; split; congruence.
Qed.

(** The payloads of a conversation, in the order the queue took them. *)
Definition logged (log : list exchange) : list EventPayload := omap op_payload (accepted_ops log).

Lemma logged_app l1 l2 : logged (l1 ++ l2) = logged l1 ++ logged l2.
Proof. unfold logged, accepted_ops. by rewrite !omap_app. Qed.

Lemma logged_accepted log : logged log = omap op_payload (accepted log).
Proof.
  unfold logged, accepted. induction (accepted_ops log) as [|op l IH]; [done|]. csimpl. rewrite IH.
  by destruct op.
Qed.

Lemma clean_end {A} (o : outcome_of A outcome_bool) ideal offered :
  writes o ideal offered -> clean (run_log o) -> run_value o = inl true /\ accepted (run_log o) = ideal.
Proof.
  intros [_ _ _ Hv] (Hr & Hf & _). destruct (run_value o) as [[]|e]; [split; [done|by destruct Hv]|congruence|].
  exfalso. destruct e; [congruence| |]; destruct Hv as [_ Hv]; congruence.
Qed.

Lemma payload_split events l1 l2 : payload <$> events = l1 ++ l2 ->
  exists events1 events2, events = events1 ++ events2 /\ payload <$> events1 = l1 /\ payload <$> events2 = l2.
Proof. intros H. apply fmap_app_inv in H as (e1 & e2 & -> & -> & ->). eauto. Qed.

Lemma apply_all_app e1 e2 m : apply_all (e1 ++ e2) m = apply_all e2 (apply_all e1 m).
Proof. apply foldl_app. Qed.

Lemma inert_payloads events m : Forall (fun p => inert p = true) (payload <$> events) -> apply_all events m = m.
Proof. intros H. apply apply_inert. by rewrite Forall_fmap in H. Qed.

Lemma event_ops_payloads now (l : list EventPayload) :
  omap op_payload (event_op chain now <$> l : list StorageWriteOp) = l.
Proof. induction l as [|p l IH]; [done|]. csimpl. by rewrite IH. Qed.

Lemma sent_events_inert log : Forall (fun p => inert p = true) (omap op_payload (sent_events log)).
Proof.
  apply Forall_forall. intros p (op & Hop & Hp)%list_elem_of_omap. unfold sent_events in Hop.
  apply list_elem_of_bind in Hop as (t & Hop & _). unfold task_events in Hop.
  apply list_elem_of_fmap in Hop as (c & -> & _). by injection Hp as <-.
Qed.

(** One transaction. *)
Definition slot_known_tx (fetched_tx : option LiveTx) : Prop :=
  match fetched_tx with Some tx => slot_of (lt_hash tx) = (lt_sender tx, lt_nonce tx) | None => True end.

Lemma decision_log now observation hash tx decision transitions executable context tasks log :
  let validated := validated_transaction_from_live_tx chain (ob_observed_at_unix_ms observation)
                     (ob_observed_at_mono_ns observation) tx in
  exists before after,
    omap op_payload (transaction_ops chain now observation hash tx decision transitions executable context tasks ++
        sent_events log) =
      before ++ decision_payloads tx (vt_decoded validated) decision ++ (queue_transition_payload <$> transitions) ++ after /\
    Forall (fun p => inert p = true) before /\ Forall (fun p => inert p = true) after.
Proof.
  cbv zeta. unfold transaction_ops, transition_payloads. rewrite !omap_app, event_ops_payloads.
  set (opps := _ <$> opportunities_of _ _ _). set (queued := queued_payloads _).
  eexists [_; _], (opps ++ queued ++ omap op_payload (sent_events log)). split_and!.
  - cbn [observation_ops omap list_omap op_payload untimed seen_op event_op app]. rewrite <-!app_assoc.
    by do 2 f_equal.
  - by repeat constructor.
  - rewrite !Forall_app. split_and!; [| |apply sent_events_inert].
    + apply Forall_fmap, Forall_forall. by intros.
    + apply Forall_fmap, Forall_forall. by intros.
Qed.
Lemma transaction_payloads now observation hash tx (o : SchedulerAdmissionOutcome) executable context tasks log :
  let validated := validated_transaction_from_live_tx chain (ob_observed_at_unix_ms observation)
                     (ob_observed_at_mono_ns observation) tx in
  exists before after,
    omap op_payload (transaction_ops chain now observation hash tx (from_admission (admission o)) (queue_transitions o)
        executable context tasks ++ sent_events log) =
      before ++ admission_payloads validated (admission o) ++ (queue_transition_payload <$> queue_transitions o) ++ after /\
    Forall (fun p => inert p = true) before /\ Forall (fun p => inert p = true) after.
Proof.
  cbv zeta. destruct (decision_log now observation hash tx (from_admission (admission o)) (queue_transitions o) executable
    context tasks log) as (before & after & E & Hb & Ha).
  exists before, after. split; [|done]. rewrite E. by destruct (admission o).
Qed.

(** The shape of one row's log: what the scheduler decided about the
    transaction, between payloads that say nothing about the mempool. *)
Lemma process_shape observation hash fetched_tx s :
  let o := run env (process_pending_hash chain cap workers observation hash fetched_tx) s in
  clean (run_log o) -> run_value o = inl tt /\
  match fetched_tx with
  | Some tx =>
      let validated := validated_transaction_from_live_tx chain (ob_observed_at_unix_ms observation)
                         (ob_observed_at_mono_ns observation) tx in
      exists s1 before after, same_pool (sched s) (sched s1) /\
        logged (run_log o) = before ++ admission_payloads validated (admission (admit_tx config validated (sched s1)).1) ++
          (queue_transition_payload <$> queue_transitions (admit_tx config validated (sched s1)).1) ++ after /\
        Forall (fun p => inert p = true) before /\ Forall (fun p => inert p = true) after /\
        same_pool (admit_tx config validated (sched s1)).2 (sched (run_state o))
  | None => Forall (fun p => inert p = true) (logged (run_log o)) /\ same_pool (sched s) (sched (run_state o))
  end.
Proof using Howns.
  cbv zeta. unfold process_pending_hash. cbn [run].
  pose proof (os_other _ _ _ Howns CallNow s) as Hnow. destruct (env CallNow s) as [now s1]. cbn [snd] in Hnow.
  destruct fetched_tx as [tx|].
  - set (validated := validated_transaction_from_live_tx _ _ _ _). cbn [run].
    pose proof (os_admit _ _ _ Howns validated s1) as Hadmit. destruct (env (CallAdmit validated) s1) as [admitted s2].
    cbn [fst snd] in Hadmit. destruct admitted as [outcome|e];
      [|cbn; intros (_ & _ & [=])].
    destruct (Hadmit outcome eq_refl) as [-> Hsame]. cbn [admission_decision].
    rewrite run_two, run_last. cbn [run_log run_value run_state].
    set (o := (admit_tx config validated (sched s1)).1) in *.
    pose proof (writes_fetched env chain cap workers now observation hash tx (from_admission (admission o)) (queue_transitions o) s2)
      as (executable & context & tasks & _ & Hw).
    set (p := bind (persist_observation _ _ _ _) _) in *. intros Hclean.
    apply clean_cons in Hclean as [_ Hclean], Hclean as [_ Hclean]. destruct (clean_end _ _ _ Hw Hclean) as [Hv Ha].
    rewrite Hv. split; [done|]. exists s1. change (logged _) with (logged (run_log (run env p s2))).
    rewrite logged_accepted, Ha.
    destruct (transaction_payloads now observation hash tx o executable context tasks (run_log (run env p s2)))
      as (before & after & E & Hb & Haf).
    exists before, after. split_and!; [done|exact E|done..|].
    destruct Hsame as [H1 H2]. enough (same_pool (sched s2) (sched (run_state (run env p s2)))) as [H3 H4] by (split; congruence).
    apply run_no_admission. apply obeys_seq; [apply observation_obeys|apply fetched_obeys]; apply pipeline_no_admission.
  - rewrite run_last. cbn [run_log run_value run_state]. set (p := persist_observation _ _ _ _).
    intros Hclean. apply clean_cons in Hclean as [_ Hclean].
    pose proof (writes_observation env chain now observation hash s1) as Hw. fold p in Hw.
    destruct (clean_end _ _ _ Hw Hclean) as [Hv Ha]. rewrite Hv. split; [done|].
    change (logged _) with (logged (run_log (run env p s1))). rewrite logged_accepted. split.
    + rewrite Ha. by repeat constructor.
    + destruct Hnow as [H1 H2]. enough (same_pool (sched s1) (sched (run_state (run env p s1)))) as [H3 H4] by (split; congruence).
      apply run_no_admission, observation_obeys, pipeline_no_admission.
Qed.

Lemma mirrors_process observation hash fetched_tx s m events :
  mirrors slot_of (sched s) m -> slot_known_tx fetched_tx ->
  let o := run env (process_pending_hash chain cap workers observation hash fetched_tx) s in
  clean (run_log o) -> payload <$> events = logged (run_log o) ->
  run_value o = inl tt /\ mirrors slot_of (sched (run_state o)) (apply_all events m).
Proof.
  intros Hm Hslot. cbv zeta. intros Hclean Hev.
  destruct (process_shape observation hash fetched_tx s Hclean) as [Hv Hshape]. split; [exact Hv|].
  destruct fetched_tx as [tx|].
  - destruct Hshape as (s1 & before & after & Hs1 & E & Hb & Ha & Hend). rewrite E in Hev.
    apply payload_split in Hev as (e1 & ev & -> & H1 & Hev).
    apply payload_split in Hev as (e2 & ev' & -> & H2 & Hev). apply payload_split in Hev as (e3 & e4 & -> & H3 & H4).
    rewrite !apply_all_app, (inert_payloads e1), (inert_payloads e4) by congruence.
    apply (mirrors_same slot_of _ _ _ Hs1) in Hm. apply (mirrors_same slot_of _ _ _ Hend).
    set (validated := validated_transaction_from_live_tx _ _ _ _) in *.
    pose proof (mirrors_admit slot_of config validated (sched s1) m e2 e3 Hm Hslot) as Hgo.
    destruct (admit_tx config validated (sched s1)) as [o1 st]. by apply Hgo.
  - destruct Hshape as [Hl Hend]. rewrite inert_payloads by (by rewrite Hev).
    by apply (mirrors_same slot_of _ _ _ Hend).
Qed.

Lemma mirrors_rows rows s m events :
  mirrors slot_of (sched s) m -> Forall (fun row => slot_known_tx row.2) rows ->
  let o := run env (process_rows chain cap workers rows) s in
  clean (run_log o) -> payload <$> events = logged (run_log o) ->
  run_value o = inl tt /\ mirrors slot_of (sched (run_state o)) (apply_all events m).
Proof.
  intros Hm Hrows. revert s m events Hm.
  induction Hrows as [|[[observation hash] fetched_tx] rows Hrow _ IH]; intros s m events Hm; cbv zeta; cbn [process_rows].
  - intros _ Hev. apply fmap_nil_inv in Hev as ->. by split.
  - rewrite run_bind. cbv zeta. pose proof (mirrors_process observation hash fetched_tx s m) as Hone. cbv zeta in Hone.
    destruct (run env (process_pending_hash chain cap workers observation hash fetched_tx) s) as [log v s1].
    cbn [run_log run_value run_state] in *. rewrite logged_app. intros [Hc1 Hc2]%clean_app Hev.
    apply payload_split in Hev as (e1 & e2 & -> & H1 & H2). destruct (Hone e1 Hm Hrow Hc1 H1) as [-> Hm1].
    rewrite apply_all_app. by apply IH.
Qed.
End feed.

(** ** What the views show *)
Lemma mirrors_view slot_of s m : mirrors slot_of s m ->
  sender_queues_view m =
    (fun '(a, _) => {| rq_sender := a; rq_queued := to_entry <$> sender_queue_positions s a |}) <$> bt_iter (sender_queues s).
Proof.
  intros [H1 H2 H3 H4 H5]. unfold sender_queues_view.
  rewrite (queues_agree s m H1 (fun a q => mw_nonempty _ _ H2 a q) H3).
  assert (forall a q, (a, q) ∈ bt_iter (sender_queues s) -> sender_queues s !! a = Some q) as Hin.
  { intros a q. by rewrite elem_of_bt_iter. }
  induction (bt_iter (sender_queues s)) as [|[a q] l IH]; [done|]. csimpl.
  assert (sender_queues s !! a = Some q) as Hq by (apply Hin; by left).
  rewrite (annotated_view m a q) by (done || by rewrite (queues_agree s m H1 (fun a q => mw_nonempty _ _ H2 a q) H3)).
  rewrite sender_queue_positions_eq, Hq by done. cbn [from_option].
  destruct (to_entry <$> queue_positions q) as [|x lx] eqn:Hl.
  - exfalso. apply fmap_nil_inv in Hl. apply (qw_nonempty _ _ H1 a q Hq). apply map_empty. intros n.
    destruct (q !! n) as [h|] eqn:Hn; [|done]. destruct (queue_positions_complete q n h Hn) as [st Hst].
    rewrite Hl in Hst. by apply not_elem_of_nil in Hst.
  - f_equal. apply IH. intros b q' Hb. apply Hin. by right.
Qed.

(** The log of the live feed replays to the live scheduler.  One worker
    processes any rows (transactions or hashes without details) with a
    scheduler whose queues only its admissions change; the searcher, the
    simulations, the clock and the counters may do anything.  If the storage
    queue took every write and no call failed, then replaying the logged
    payloads from the empty mempool leaves exactly the scheduler's pending
    transactions pending, and the replayed sender queues are the scheduler's:
    the same senders, nonces and hashes, with the same ready or blocked
    states. *)
Theorem live_log_replays_to_scheduler {S} config (sched : S -> SchedulerState) env chain cap workers slot_of rows s0 events
  (Howns : owns_scheduler config sched env)
  (Hstart : same_pool state_default (sched s0))
  (Hslots : Forall (fun row => slot_known_tx slot_of row.2) rows) :
  let o := run env (process_rows chain cap workers rows) s0 in
  let live := sched (run_state o) in
  let replayed := apply_all events mempool_default in
  clean (run_log o) -> payload <$> events = logged (run_log o) ->
  run_value o = inl tt /\
  (forall h, lifecycle replayed h = Some StPending <-> is_Some (pending live !! h)) /\
  sender_queues_view replayed =
    (fun '(a, _) => {| rq_sender := a; rq_queued := to_entry <$> sender_queue_positions live a |}) <$>
      bt_iter (sender_queues live).
Proof.
  cbv zeta. intros Hc He.
  pose proof (mirrors_same slot_of _ _ _ Hstart (mirrors_default slot_of)) as Hm.
  destruct (mirrors_rows config sched env Howns chain cap workers slot_of rows s0 mempool_default events Hm Hslots Hc He)
    as [Hv Hend].
  split; [done|]. split; [apply Hend|]. by apply (mirrors_view slot_of).
Qed.

(** ** A transaction the log lost *)

(** Payloads that do not make [h] pending. *)
Definition mute (h : TxHash) (p : EventPayload) : Prop :=
  inert p = true \/ p = PTxDropped (mkTxDropped h "queue_full").
Lemma mute_lifecycle h events m : Forall (mute h) (payload <$> events) ->
  lifecycle m h <> Some StPending -> lifecycle (apply_all events m) h <> Some StPending.
Proof.
  rewrite Forall_fmap. revert m. induction events as [|e l IH]; intros m Hm Hl; [done|].
  apply Forall_cons in Hm as [He Hm]. cbn [apply_all foldl]. apply IH; [exact Hm|].
  rewrite lifecycle_step. destruct He as [He|He]; cbn in He.
  - by destruct (payload e).
  - rewrite He. cbn. by rewrite decide_True.
Qed.

Section orphan.
Context {S : Type} (config : SchedulerConfig) (sched : S -> SchedulerState) (env : forall c : call, S -> reply c * S).
Context (Howns : owns_scheduler config sched env).
(** A refused admission leaves the queues alone. *)
Context (Hrefused : forall t s e, (env (CallAdmit t) s).1 = inr e -> same_pool (sched s) (sched (env (CallAdmit t) s).2)).
Context (chain : ChainRpcConfig) (cap workers : N).

(** What the handler writes after a decision that reports no transition. *)
Lemma decided_rest now observation hash tx decision s :
  let p := r <- persist_observation chain now observation hash ;;
           and_then r Ret (persist_fetched chain cap workers now observation tx decision []) in
  (exists before after, Forall (fun p => inert p = true) before /\ Forall (fun p => inert p = true) after /\
     logged (run_log (run env p s)) `prefix_of` before ++ decision_payloads tx
       (vt_decoded (validated_transaction_from_live_tx chain (ob_observed_at_unix_ms observation)
          (ob_observed_at_mono_ns observation) tx)) decision ++ after) /\
  same_pool (sched s) (sched (run_state (run env p s))).
Proof using Howns.
  cbv zeta. split.
  - pose proof (writes_fetched env chain cap workers now observation hash tx decision [] s)
      as (executable & context & tasks & _ & [Hp _ _ _]). set (p := bind (persist_observation _ _ _ _) _) in *.
    rewrite logged_accepted. destruct Hp as [rest Hp].
    destruct (decision_log chain now observation hash tx decision [] executable context tasks (run_log (run env p s)))
      as (before & after & E & Hb & Ha). exists before, after. split_and!; [done..|].
    exists (omap op_payload rest). rewrite Hp, omap_app in E. exact (eq_sym E).
  - apply (run_no_admission config sched env Howns), obeys_seq;
      [apply observation_obeys|apply fetched_obeys]; apply pipeline_no_admission.
Qed.

(** A transaction the scheduler holds is announced again. *)
Lemma orphan_row observation hash tx s held : pending (sched s) !! lt_hash tx = Some held ->
  let o := run env (process_pending_hash chain cap workers observation hash (Some tx)) s in
  Forall (mute (lt_hash tx)) (logged (run_log o)) /\
  ((forall t s', (env (CallAdmit t) s').1 <> inr QueueFull) -> Forall (fun p => inert p = true) (logged (run_log o))) /\
  same_pool (sched s) (sched (run_state o)).
Proof using Howns Hrefused.
  intros Hheld. cbv zeta. unfold process_pending_hash. cbn [run].
  pose proof (os_other _ _ _ Howns CallNow s) as Hnow. destruct (env CallNow s) as [now s1]. cbn [snd] in Hnow.
  set (validated := validated_transaction_from_live_tx _ _ _ _).
  pose proof (os_admit _ _ _ Howns validated s1) as Hadmit. pose proof (Hrefused validated s1) as Hno.
  assert ((env (CallAdmit validated) s1).1 <> inr QueueFull \/ (env (CallAdmit validated) s1).1 = inr QueueFull) as Hcase.
  { destruct (env (CallAdmit validated) s1).1 as [|[]]; auto. }
  assert ((forall t s', (env (CallAdmit t) s').1 <> inr QueueFull) -> (env (CallAdmit validated) s1).1 <> inr QueueFull) as Hall by auto.
  destruct (env (CallAdmit validated) s1) as [admitted s2]. cbn [fst snd] in *.
  pose proof (fun decision => decided_rest now observation hash tx decision s2) as Hrest.
  destruct Hnow as [Hn1 Hn2]. destruct admitted as [outcome|[]].
  - destruct (Hadmit outcome eq_refl) as [Ho Hs].
    assert ((admit_tx config validated (sched s1)).1 = mkOutcome Duplicate [] /\
      same_pool (sched s1) (admit_tx config validated (sched s1)).2) as [E [H1 H2]].
    { unfold admit_tx. rewrite decide_True; [done|]. rewrite Hn1. by exists held. }
    rewrite E in Ho. subst outcome.
    cbn [admission_decision admission queue_transitions from_admission]. rewrite run_two, run_last. cbn [run_log run_state].
    destruct (Hrest PdDuplicate) as [(before & after & Hb & Ha & Hp) Hsame]. set (p := bind (persist_observation _ _ _ _) _) in *.
    change (logged _) with (logged (run_log (run env p s2))).
    assert (Forall (fun p => inert p = true) (logged (run_log (run env p s2)))) as Hi.
    { destruct Hp as [rest Hp]. assert (Forall (fun p => inert p = true) (before ++ after)) as Hba by (by apply Forall_app).
      cbn [decision_payloads app] in Hp. rewrite Hp in Hba. by apply Forall_app in Hba as [? _]. }
    split_and!; [eapply Forall_impl; [exact Hi|]; by left|done|]. destruct Hs, Hsame. split; congruence.
  - cbn [admission_decision]. rewrite run_two, run_last. cbn [run_log run_state]. destruct (Hno QueueFull eq_refl) as [H1 H2].
    destruct (Hrest (PdDropped "queue_full")) as [(before & after & Hb & Ha & Hp) Hsame].
    set (p := bind (persist_observation _ _ _ _) _) in *. change (logged _) with (logged (run_log (run env p s2))). split_and!.
    + destruct Hp as [rest Hp]. cbn [decision_payloads] in Hp.
      assert (Forall (mute (lt_hash tx)) (before ++ [PTxDropped (mkTxDropped (lt_hash tx) "queue_full")] ++ after)) as Hba.
      { apply Forall_app. split; [eapply Forall_impl; [exact Hb|]; by left|].
        constructor; [by right|]. eapply Forall_impl; [exact Ha|]. by left. }
      rewrite Hp in Hba. by apply Forall_app in Hba as [? _].
    + intros Hf. by destruct (Hall Hf).
    + destruct Hsame. split; congruence.
  - cbn [admission_decision run run_log run_state]. destruct (Hno QueueClosed eq_refl) as [H1 H2].
    split_and!; [constructor|constructor|]. split; congruence.
Qed.
End orphan.

(** C21: a lost admission is never repaired.  While the scheduler holds a
    transaction and its queues are changed by nothing but admissions, and a
    refused admission leaves them alone, the transaction may be announced and
    processed any number of times, and every other call may be answered in any
    way: it stays pending in the scheduler, and the log gets nothing that concerns
    the mempool but, whenever the scheduler's command queue is full, that the
    transaction was dropped.  So a log that missed its admission, because the
    storage queue was full right after the scheduler took it, and that does not
    show it as pending, still does not after all these announcements. *)
Theorem orphan_never_logged {S} config (sched : S -> SchedulerState) env chain cap workers h rows s held
  (Howns : owns_scheduler config sched env)
  (Hrefused : forall t s e, (env (CallAdmit t) s).1 = inr e -> same_pool (sched s) (sched (env (CallAdmit t) s).2))
  (Hheld : pending (sched s) !! h = Some held)
  (Hrows : Forall (fun row => lt_hash <$> row.2 = Some h) rows) :
  let o := run env (process_rows chain cap workers rows) s in
  pending (sched (run_state o)) !! h = Some held /\
  Forall (fun p => inert p = true \/ p = PTxDropped (mkTxDropped h "queue_full")) (logged (run_log o)) /\
  ((forall t s', (env (CallAdmit t) s').1 <> inr QueueFull) -> Forall (fun p => inert p = true) (logged (run_log o))) /\
  forall events m, payload <$> events = logged (run_log o) ->
    lifecycle m h <> Some StPending -> lifecycle (apply_all events m) h <> Some StPending.
Proof.
  cbv zeta. enough (pending (sched (run_state (run env (process_rows chain cap workers rows) s))) !! h = Some held /\
    Forall (mute h) (logged (run_log (run env (process_rows chain cap workers rows) s))) /\
    ((forall t s', (env (CallAdmit t) s').1 <> inr QueueFull) ->
     Forall (fun p => inert p = true) (logged (run_log (run env (process_rows chain cap workers rows) s))))) as (H1 & H2 & H3).
  { split_and!; [done..|]. intros events m He. apply mute_lifecycle. by rewrite He. }
  revert s Hheld. induction Hrows as [|[[observation hash] fetched] rows Hrow _ IH]; intros s Hheld; [by split_and!|].
  cbn [snd] in Hrow. destruct fetched as [tx|]; [|done]. injection Hrow as <-.
  destruct (orphan_row config sched env Howns Hrefused chain cap workers observation hash tx s held Hheld) as (Hm & Hi & Hs & _).
  cbn [process_rows]. rewrite run_bind. cbv zeta. cbn [run_log run_state].
  destruct (run env (process_pending_hash _ _ _ _ _ _) s) as [log v s1]. cbn [run_log run_value run_state] in *.
  rewrite <-Hs in Hheld. rewrite logged_app.
  destruct v as [u|e]; cbn [run run_log run_state]; [|rewrite app_nil_r; by split_and!].
  destruct (IH s1 Hheld) as (H1 & H2 & H3). split_and!; [done|by apply Forall_app|]. intros Hf. apply Forall_app. auto.
Qed.

(** ** Concrete environments *)

(** The scheduler alone, every queue answering [storage] and [simulation]. *)
Definition scripted_env (config : SchedulerConfig) (storage : unit + StorageTryEnqueueError) (simulation : SimSendResult)
    (c : call) (s : SchedulerState) : reply c * SchedulerState :=
  match c with
  | CallNow => (1000%Z, s)
  | CallNextSeq => (1%N, s)
  | CallEnqueue _ => (storage, s)
  | CallAdmit tx => let '(outcome, s') := admit_tx config tx s in (inl outcome, s')
  | CallInvalidate hash => (inl tt, invalidate_candidate_hash hash s)
  | CallPending hashes => (pending_transactions s hashes, s)
  | CallReady => (snap_ready (snapshot s), s)
  | CallRegister cands => let '(tasks, s') := register_candidates cands s in (inl tasks, s')
  | CallApplyResult result => let '(outcome, s') := apply_simulation_result result s in (inl outcome, s')
  | CallSimSend _ => (simulation, s)
  | CallBuilderInsert _ => (Rejected "" "", s)
  | CallElapsed | CallMono => (0%N, s)
  | CallConnect _ => (Subscribed, s)
  | CallPong => (true, s)
  | CallFetchRows _ hashes => (Found (replicate (length hashes) None), s)
  | CallFetchPending _ => (Found [], s)
  | CallHeader _ => (Elapsed, s)
  | CallScalar _ _ _ => (Elapsed, s)
  | CallSeedLookup _ _ _ _ _ => (None, s)
  | CallObserveDrop _ | CallObserveSim _ | CallObserveSearcher _ | CallRecordStatus _ | CallUpdateStatus _
  | CallSeedStore _ _ _ _ _ => (tt, s)
  end.

Lemma scripted_owns config storage simulation : owns_scheduler config id (scripted_env config storage simulation).
Proof.
  split.
  - intros tx s outcome. cbn. destruct (admit_tx config tx s) as [o s']. cbn. by intros [= ->].
  - intros c s. destruct c; cbn; try done.
    + apply same_queues_pool, invalidate_same.
    + pose proof (register_candidates_same cands s) as H. destruct (register_candidates cands s). by apply same_queues_pool.
    + pose proof (apply_simulation_result_same result s) as H. destruct (apply_simulation_result result s).
      by apply same_queues_pool.
Qed.

Definition sample_chain : ChainRpcConfig := mkChain "eth" (Some 1%N) [mkEndpoint "ws" "http"] "rpc-eth".
(** A swap by sender 5, with a nonce and a fee. *)
Definition sample_live (hash nonce fee : N) : LiveTx :=
  {| lt_hash := hash; lt_sender := 5; lt_to := Some 0x7a250d5630b4cf539739df2c5dacb4c659f2488d%N; lt_nonce := nonce;
     lt_tx_type := 2; lt_value_wei := None; lt_gas_limit := Some 210000%N; lt_chain_id := Some 1%N;
     lt_gas_price_wei := None; lt_max_fee_per_gas_wei := Some fee; lt_max_priority_fee_per_gas_wei := Some fee;
     lt_max_fee_per_blob_gas_wei := None; lt_input := [0x38; 0xed; 0x17; 0x39]%N |}.
Definition sample_row (hash nonce fee : N) : PendingHashObservation * TxHash * option LiveTx :=
  (mkObservation "0x" 5 6, hash, Some (sample_live hash nonce fee)).
(** Nonces 7 and 9, the first replaced, then 8; the duplicate and the
    under-priced attempt leave no queue change. *)
Definition sample_feed : list (PendingHashObservation * TxHash * option LiveTx) :=
  [sample_row 1 7 100; sample_row 2 9 100; sample_row 3 7 200; sample_row 4 7 201; sample_row 3 7 200; sample_row 5 8 100]%N.
Definition feed_slot (h : TxHash) : Address * N :=
  if (h =? 2)%N then (5, 9)%N else if (h =? 5)%N then (5, 8)%N else (5, 7)%N.
Definition sample_env := scripted_env scheduler_config_default (inl tt) SimSent.
Definition sample_outcome := run sample_env (process_rows sample_chain 4 1 sample_feed) state_default.
Definition sample_events : list EventEnvelope := sample_event 1 <$> logged (run_log sample_outcome).

Lemma live_log_replays_to_scheduler_witness :
  let live := run_state sample_outcome in
  let replayed := apply_all sample_events mempool_default in
  (bt_keys (pending live) = [2; 3; 5]%N /\ lifecycle replayed 1 = Some (StReplaced 3) /\
   lifecycle replayed 4 = Some (StDropped "underpriced_replacement")) /\
  sender_queues_view replayed =
    [{| rq_sender := 5;
        rq_queued := [mkReplayEntry 3 7 RReady; mkReplayEntry 5 8 RReady; mkReplayEntry 2 9 RReady] |}]%N.
Proof.
  cbv zeta. split; [vm_compute; split_and!; reflexivity|].
  rewrite (proj2 (proj2 (live_log_replays_to_scheduler scheduler_config_default id sample_env sample_chain 4 1
    feed_slot sample_feed state_default sample_events (scripted_owns _ _ _) (conj eq_refl eq_refl)
    ltac:(repeat constructor) ltac:(vm_compute; split_and!; reflexivity) ltac:(vm_compute; reflexivity)))).
  vm_compute. reflexivity.
Defined.

(** The storage queue is full right after the first admission, and drained
    when the transaction is announced again. *)
Definition sample_orphan : SchedulerState :=
  run_state (run (scripted_env scheduler_config_default (inr TryQueueFull) SimSent)
    (process_rows sample_chain 4 1 [sample_row 1 7 100]) state_default).

Lemma orphan_never_logged_witness :
  let rows := [sample_row 1 7 100; sample_row 1 7 100]%N in
  let again := run sample_env (process_rows sample_chain 4 1 rows) sample_orphan in
  bt_keys (pending sample_orphan) = [1%N] /\
  omap (fun p => match p with PTxSeen _ => Some 0%N | PTxFetched _ => Some 1%N | _ => None end) (logged (run_log again)) = [0; 1; 0; 1]%N /\
  Forall (fun p => inert p = true) (logged (run_log again)) /\
  lifecycle (apply_all (sample_event 1 <$> logged (run_log again)) mempool_default) 1 <> Some StPending.
Proof.
  cbv zeta. split; [vm_compute; reflexivity|]. split; [vm_compute; reflexivity|].
  edestruct (orphan_never_logged scheduler_config_default id sample_env sample_chain 4 1 1%N
    [sample_row 1 7 100; sample_row 1 7 100]%N sample_orphan) as (_ & _ & Hinert & Hnever).
  - apply scripted_owns.
  - intros t s e. cbn. by destruct (admit_tx scheduler_config_default t s).
  - vm_compute. reflexivity.
  - by repeat constructor.
  - split.
    + apply Hinert. intros t s'. cbn. by destruct (admit_tx scheduler_config_default t s').
    + apply Hnever; [|by vm_compute]. rewrite <-list_fmap_compose. vm_compute. reflexivity.
Defined.

(** A transaction the scheduler holds is announced again while the
    scheduler's command queue is full: the log calls it dropped, so replay
    shows a pending transaction as dropped. *)
Definition full_scheduler_env (c : call) (s : SchedulerState) : reply c * SchedulerState :=
  match c with CallAdmit _ => (inr QueueFull, s) | c => sample_env c s end.
Example full_queue_hides_pending :
  let first := run sample_env (process_rows sample_chain 4 1 [sample_row 1 7 100]) state_default in
  let second := run full_scheduler_env (process_rows sample_chain 4 1 [sample_row 1 7 100]) (run_state first) in
  let events := sample_event 1 <$> (logged (run_log first) ++ logged (run_log second)) in
  bt_keys (pending (run_state second)) = [1%N] /\
  lifecycle (apply_all events mempool_default) 1 = Some (StDropped "queue_full").
Proof. vm_compute. split; reflexivity. Qed.
