(* ===== verification/LiveSim.v ===== *)
(** * LiveSim: the simulation worker of the live feed
    (crates/runtime-core/src/live_rpc.rs)

    A task is simulated against a header and account seeds fetched under a
    deadline, its result goes to the scheduler, to the log and, for accepted
    candidates, to the builder. *)
From stdpp Require Import base gmap strings list numbers sorting.
From S2P Require Import Prelude Common EventLog Scheduler SchedulerActor SchedulerCandidates Simulation Searcher Assembly Storage StorageWriter.
From S2P Require Import LiveHex LiveState LiveConfig LiveDecode LiveProgram LivePipeline LiveLog LiveMirror SimulatedAssembly.

(** ** What a simulation needs from the chain *)

(** Why the inner future of a simulation does not finish. *)
Inductive sim_stop := StopError | StopElapsed | StopPanicked.
Definition answer_of {A} (reply : timed A) : A + sim_stop :=
  match reply with
  | Elapsed => inr StopElapsed
  | Answered None => inr StopError
  | Answered (Some envelope) =>
      if re_error envelope then inr StopError
      else match re_result envelope with Some result => inl result | None => inr StopError end
  end.

Definition field_or_zero (n : nat) (value : option string) : lookup_outcome N :=
  default 0%N <$> parse_field (fixed_number n) value.

Section worker.
Context {E : Type} `{Revm} (sha256 : list N -> list N).
Context (ttl_ms : Z).

(** What [fetch_remote_chain_context] makes of a header. *)
Definition chain_context_of (chain : ChainRpcConfig) (request : RemoteSimulationRequest) (header : RpcHeader) :
    ChainContext + sim_stop :=
  let tx_chain_id := head (rq_txs request) ≫= fun tx => dec_chain_id (vt_decoded tx) in
  let chain_id := default 1%N (match tx_chain_id with Some id => Some id | None => ch_chain_id chain end) in
  match parse_hex_u64 (rh_number header), parse_hex_u64 (rh_timestamp header), parse_hex_u64 (rh_gas_limit header) with
  | Some block_number, Some block_timestamp, Some gas_limit =>
      let base_fee_wei := default 0%N (rh_base_fee_per_gas header ≫= parse_hex_u128) in
      match field_or_zero 20 (rh_miner header) with
      | Found coinbase =>
          match field_or_zero 32 (rh_state_root header) with
          | Found state_root =>
              inl (mkChainContext chain_id block_number block_timestamp gas_limit base_fee_wei coinbase state_root)
          | _ => inr StopPanicked
          end
      | _ => inr StopPanicked
      end
  | _, _, _ => inr StopError
  end.
Definition fetch_remote_chain_context (chain : ChainRpcConfig) (http_url : string) (request : RemoteSimulationRequest) :
    prog (ChainContext + sim_stop) :=
  answer <! CallHeader http_url ;;
  Ret (match answer_of answer with inl header => chain_context_of chain request header | inr e => inr e end).

Definition fetch_rpc_scalar (http_url method address_hex : string) : prog (string + sim_stop) :=
  answer <! CallScalar http_url method address_hex ;; Ret (answer_of answer).
Definition address_hex (address : Address) : string := format_fixed_hex (be_bytes 20 address).
Definition fetch_account_seed_from_rpc (http_url : string) (address : Address) : prog (AccountSeed + sim_stop) :=
  raw_balance <- fetch_rpc_scalar http_url "eth_getBalance" (address_hex address) ;;
  match raw_balance with
  | inr e => Ret (inr e)
  | inl raw_balance =>
      match parse_hex_u128 raw_balance with
      | None => Ret (inr StopError)
      | Some balance =>
          raw_nonce <- fetch_rpc_scalar http_url "eth_getTransactionCount" (address_hex address) ;;
          Ret (match raw_nonce with
               | inr e => inr e
               | inl raw_nonce =>
                   match parse_hex_u64 raw_nonce with
                   | None => inr StopError
                   | Some nonce => inl (mkSeed balance nonce)
                   end
               end)
      end
  end.

(** The loop over the unique senders. *)
Fixpoint fetch_seeds (http_url : string) (block_number : N) (now_unix_ms : Z) (unique_senders : list Address)
    (seeds : gmap Address AccountSeed) : prog (gmap Address AccountSeed + sim_stop) :=
  match unique_senders with
  | [] => Ret (inl seeds)
  | sender :: unique_senders' =>
      cached <! CallSeedLookup http_url sender block_number now_unix_ms ttl_ms ;;
      match cached with
      | Some seed =>
          _ <! CallObserveSim ObsCacheHit ;;
          fetch_seeds http_url block_number now_unix_ms unique_senders' (<[sender := seed]> seeds)
      | None =>
          _ <! CallObserveSim ObsCacheMiss ;;
          fetched <- fetch_account_seed_from_rpc http_url sender ;;
          match fetched with
          | inr e => Ret (inr e)
          | inl seed =>
              _ <! CallSeedStore http_url sender block_number now_unix_ms seed ;;
              fetch_seeds http_url block_number now_unix_ms unique_senders' (<[sender := seed]> seeds)
          end
      end
  end.
Definition unique_senders (txs : list ValidatedTransaction) : list Address :=
  bt_keys (list_to_map ((fun tx => (vt_sender tx, ())) <$> txs) : gmap Address ()).
Definition fetch_cached_account_seeds (http_url : string) (block_number : N) (txs : list ValidatedTransaction) :
    prog (gmap Address AccountSeed + sim_stop) :=
  now <! CallNow ;;
  fetch_seeds http_url block_number now (unique_senders txs) ∅.

(** [CachedStateProviderView] *)
Definition seed_provider (account_seeds : gmap Address AccountSeed) : StateProvider E :=
  fun address => inl (account_seeds !! address).

(** ** One simulation *)
Definition simulation_inputs (txs : list ValidatedTransaction) : list SimulationTxInput :=
  (fun tx => mkTxInput (vt_decoded tx) (Some (vt_calldata tx))) <$> txs.

(** The future that runs under the deadline. *)
Definition simulate_in_time (chain : ChainRpcConfig) (request : RemoteSimulationRequest) :
    prog (SimulationBatchResult + sim_stop) :=
  match chain_primary_http_url chain with
  | None => Ret (inr StopError)
  | Some http_url =>
      context <- fetch_remote_chain_context chain http_url request ;;
      match context with
      | inr e => Ret (inr e)
      | inl chain_context =>
          seeds <- fetch_cached_account_seeds http_url (cc_block_number chain_context) (rq_txs request) ;;
          Ret (match seeds with
               | inr e => inr e
               | inl account_seeds =>
                   match simulate_with_mode sha256 chain_context (simulation_inputs (rq_txs request))
                           (RpcBacked (seed_provider account_seeds)) with
                   | inl batch => inl batch
                   | inr _ => inr StopError
                   end
               end)
      end
  end.

Definition summarize_simulation_batch (batch : SimulationBatchResult) : RemoteSimulationStatus * option string :=
  match List.find (fun result => negb (sr_success result)) (sbr_tx_results batch) with
  | Some failed => (SimFailed, Some (default "unknown" (simulation_fail_category_label <$> sr_fail_category failed)))
  | None => (SimOk, None)
  end.

(** [None] when the task panicked. *)
Definition outcome_parts (simulated : SimulationBatchResult + sim_stop) :
    option (RemoteSimulationStatus * option string * option SimulationBatchResult) :=
  match simulated with
  | inl batch => let '(status, fail_category) := summarize_simulation_batch batch in Some (status, fail_category, Some batch)
  | inr StopError => Some (SimStateError, Some "state_rpc", None)
  | inr StopElapsed => Some (SimTimeout, Some "state_timeout", None)
  | inr StopPanicked => None
  end.

Definition simulate_remote_request (chain : ChainRpcConfig) (request : RemoteSimulationRequest) :
    prog (option RemoteSimulationOutcome) :=
  let tx_count := usize_of (length (rq_txs request)) in
  simulated <- simulate_in_time chain request ;;
  match outcome_parts simulated with
  | None => Ret None
  | Some (status, fail_category, simulation_batch) =>
      latency_ms <! CallElapsed ;;
      _ <! CallObserveSim (ObsResult (simulation_status_label status) latency_ms tx_count fail_category) ;;
      Ret (Some {| so_sim_id := request_sim_id request; so_status := status; so_fail_category := fail_category;
                   so_latency_ms := latency_ms; so_tx_count := cast 32 tx_count; so_simulation_batch := simulation_batch |})
  end.

(** ** Its result *)
Definition build_simulation_status_snapshot (task : SimulationTask) (outcome : RemoteSimulationOutcome)
    (finished_unix_ms : Z) : LiveRpcSimulationStatusSnapshot :=
  {| ss_id := so_sim_id outcome;
     ss_bundle_id :=
       match head (tk_candidates task) with
       | Some candidate => bundle_id_for_opportunity (eo_record (rg_opportunity candidate))
       | None => build_bundle_id (rq_tx_hash (tk_request task)) (rq_detected_unix_ms (tk_request task))
       end;
     ss_status := simulation_status_label (so_status outcome);
     ss_relay_url := "not_submitted"; ss_attempt_count := 0;
     ss_accepted := bool_decide (so_status outcome = SimOk);
     ss_fail_category := so_fail_category outcome;
     ss_started_unix_ms := tk_enqueued_unix_ms task;
     ss_finished_unix_ms := finished_unix_ms |}.

Definition result_of (candidate : RegisteredSimulationCandidate) (outcome : RemoteSimulationOutcome) : SchedulerSimulationResult :=
  let spec := rg_spec candidate in
  mkSimResult (task_candidate_id spec) (task_tx_hash spec) (task_member_tx_hashes spec) (task_block_number spec)
    (task_generation spec) (bool_decide (so_status outcome = SimOk)).

Section outcome.
Context (task : SimulationTask) (outcome : RemoteSimulationOutcome) (finished_unix_ms : Z).

Definition log_result (candidate : RegisteredSimulationCandidate) : prog outcome_bool :=
  let opportunity := eo_record (rg_opportunity candidate) in
  let sim_event := build_sim_completed_payload opportunity outcome in
  r <- append_event_with_owner (tk_chain task) finished_unix_ms (PSimCompleted sim_event) ;;
  and_then r Ret
    (if bool_decide (so_status outcome = SimOk)
     then append_event_with_owner (tk_chain task) finished_unix_ms (build_bundle_submitted_payload opportunity sim_event)
     else Ret (inl true)).

(** The loop over the candidates: the accepted ids, or how the function
    returns before the builder is asked. *)
Fixpoint apply_results (candidates : list RegisteredSimulationCandidate) (accepted_candidate_ids : gset CandidateId) :
    prog (gset CandidateId + outcome_unit) :=
  match candidates with
  | [] => Ret (inl accepted_candidate_ids)
  | candidate :: candidates' =>
      applied <! CallApplyResult (result_of candidate outcome) ;;
      match applied with
      | inr error => Ret (inr (inr (SchedulerFailed error)))
      | inl applied =>
          if (0 <? stale_result_drop_total applied)%N then
            _ <! CallObserveSim ObsStale ;; apply_results candidates' accepted_candidate_ids
          else
            let accepted' :=
              match builder_handoffs applied with
              | [] => accepted_candidate_ids
              | _ => {[task_candidate_id (rg_spec candidate)]} ∪ accepted_candidate_ids
              end in
            r <- log_result candidate ;;
            match r with
            | inl true => apply_results candidates' accepted'
            | inl false => Ret (inr (inl tt))
            | inr e => Ret (inr (inr e))
            end
      end
  end.

(** [apply_builder_assembly_state_with_owner] *)
Fixpoint insert_accepted (batch : SimulationBatchResult) (candidates : list RegisteredSimulationCandidate)
    (accepted_candidate_ids : gset CandidateId) : prog (list BuilderDecisionRecord) :=
  match candidates with
  | [] => Ret []
  | registered :: candidates' =>
      if negb (bool_decide (task_candidate_id (rg_spec registered) ∈ accepted_candidate_ids))
      then insert_accepted batch candidates' accepted_candidate_ids
      else
        match from_simulated_opportunity (eo_candidate (rg_opportunity registered)) batch with
        | inr _ => insert_accepted batch candidates' accepted_candidate_ids
        | inl builder_candidate =>
            decision <! CallBuilderInsert builder_candidate ;;
            decisions <- insert_accepted batch candidates' accepted_candidate_ids ;;
            Ret (mkBuilderDecision (or_tx_hash (eo_record (rg_opportunity registered)))
                   (sim_block_number (ac_simulation builder_candidate)) decision :: decisions)
        end
  end.
Definition apply_builder_assembly_state (accepted_candidate_ids : gset CandidateId) : prog (list BuilderDecisionRecord) :=
  match so_simulation_batch outcome with
  | None => Ret []
  | Some batch => insert_accepted batch (tk_candidates task) accepted_candidate_ids
  end.

Definition log_decision (record : BuilderDecisionRecord) : prog outcome_bool :=
  append_event_with_owner (tk_chain task) finished_unix_ms
    (build_assembly_decision_payload (bd_tx_hash record) (bd_block_number record) (bd_decision record)).

Definition apply_simulation_task_outcome : prog outcome_unit :=
  _ <! CallRecordStatus (build_simulation_status_snapshot task outcome finished_unix_ms) ;;
  results <- apply_results (tk_candidates task) ∅ ;;
  match results with
  | inr r => Ret r
  | inl accepted_candidate_ids =>
      if decide (accepted_candidate_ids = ∅) then Ret (inl tt)
      else
        decisions <- apply_builder_assembly_state accepted_candidate_ids ;;
        r <- for_each decisions log_decision ;;
        return_early r
  end.
End outcome.

(** One turn of [run_simulation_worker]; [false] when the worker panicked. *)
Definition run_simulation_task (task : SimulationTask) : prog bool :=
  _ <! CallObserveSim ObsDequeue ;;
  _ <! CallNow ;;
  outcome <- simulate_remote_request (tk_chain task) (tk_request task) ;;
  match outcome with
  | None => Ret false
  | Some outcome =>
      finished_unix_ms <! CallNow ;;
      _ <- apply_simulation_task_outcome task outcome finished_unix_ms ;;
      _ <! CallObserveSim ObsFinish ;;
      Ret true
  end.
End worker.

(** ** What the builder is given *)
Definition is_insert (c : call) : Prop := match c with CallBuilderInsert _ => True | _ => False end.
Definition no_insert (c : call) : Prop := ~ is_insert c.
Lemma pipeline_no_insert c : pipeline_call c -> no_insert c.
Proof. destruct c; cbn; unfold no_insert; cbn; tauto. Qed.

(** A batch without a failed transaction approves every candidate it covers. *)
Lemma ok_batch_approves opportunity batch c fail_category :
  summarize_simulation_batch batch = (SimOk, fail_category) ->
  from_simulated_opportunity opportunity batch = inl c -> sim_approved (ac_simulation c) = true.
Proof.
  unfold summarize_simulation_batch, from_simulated_opportunity.
  destruct (List.find _ _) as [r|] eqn:Hf; [done|]. intros _.
  pose proof (join_results_spec (sbr_tx_results batch) (members_of opportunity) true 0 ltac:(int_lia)) as Hj.
  unfold members_of in Hj. destruct (mapM _ _) as [rs|] eqn:Hm.
  - rewrite Hj. intros [= <-]. cbn. apply forallb_forall. intros r Hr%list_elem_of_In.
    apply mapM_Some_1 in Hm. apply list_elem_of_lookup in Hr as [i Hi].
    destruct (Forall2_lookup_r _ _ _ _ _ Hm Hi) as (h & _ & Hh). apply result_for_Some in Hh as [Hin _].
    pose proof (find_none _ _ Hf r) as Hn. rewrite <-list_elem_of_In in Hn. specialize (Hn Hin). cbn in Hn.
    by destruct (sr_success r).
  - destruct Hj as (h & _ & ->). done.
Qed.

Section results.
Context {S : Type} (env : forall c : call, S -> reply c * S).
Context (task : SimulationTask) (outcome : RemoteSimulationOutcome) (finished_unix_ms : Z).

(** The scheduler accepted a candidate of the task. *)
Definition handed_off (log : list exchange) (id : CandidateId) : Prop :=
  exists candidate applied, candidate ∈ tk_candidates task /\ task_candidate_id (rg_spec candidate) = id /\
    exch (CallApplyResult (result_of candidate outcome)) (inl applied) ∈ log /\
    stale_result_drop_total applied = 0%N /\ builder_handoffs applied <> [].

Lemma handed_off_app_l l1 l2 id : handed_off l1 id -> handed_off (l1 ++ l2) id.
Proof using. intros (c & a & H1 & H2 & H3 & H4). exists c, a. split_and!; try done; try apply H4. apply elem_of_app. by left. Qed.
Lemma handed_off_app_r l1 l2 id : handed_off l2 id -> handed_off (l1 ++ l2) id.
Proof using. intros (c & a & H1 & H2 & H3 & H4). exists c, a. split_and!; try done; try apply H4. apply elem_of_app. by right. Qed.

Lemma log_result_writes candidate s :
  exists ideal, writes (run env (log_result task outcome finished_unix_ms candidate) s) ideal [].
Proof using.
  unfold log_result. case_bool_decide.
  - eexists. eapply (writes_seq _ _ _ _ _ _ [] []); [apply writes_append|]. intros _. apply writes_append.
  - eexists. eapply (writes_seq _ _ _ _ _ _ [] []); [apply writes_append|]. intros _. apply writes_ret.
Qed.

Lemma apply_results_spec candidates accepted_ids s : candidates ⊆ tk_candidates task ->
  let o := run env (apply_results task outcome finished_unix_ms candidates accepted_ids) s in
  match run_value o with
  | inl ids => omap refusal (run_log o) = [] /\ forall id, id ∈ ids -> id ∈ accepted_ids \/ handed_off (run_log o) id
  | inr _ => True
  end.
Proof using.
  revert accepted_ids s. induction candidates as [|candidate candidates IH]; intros accepted_ids s Hsub; cbv zeta;
    cbn [apply_results].
  { split; [done|]. by left. }
  assert (candidate ∈ tk_candidates task /\ candidates ⊆ tk_candidates task) as [Hin Hsub'].
  { split; [apply Hsub; by left|]. intros x Hx. apply Hsub. by right. }
  cbn [run]. destruct (env (CallApplyResult (result_of candidate outcome)) s) as [[applied|e] s1] eqn:E; [|done].
  destruct (N.ltb_spec 0 (stale_result_drop_total applied)) as [Hstale|Hfresh].
  - cbn [run]. destruct (env (CallObserveSim ObsStale) s1) as [u s2]. cbn [run_log run_value].
    specialize (IH accepted_ids s2 Hsub'). cbv zeta in IH. destruct (run_value _) as [ids|]; [|done].
    destruct IH as [Hr Hids]. split; [exact Hr|]. intros id Hid. destruct (Hids id Hid) as [?|?]; [by left|].
    right. by apply (handed_off_app_r [_; _]).
  - cbn [run_log run_value]. set (accepted' := match builder_handoffs applied with [] => _ | _ => _ end).
    rewrite run_bind. cbv zeta. destruct (log_result_writes candidate s1) as [ideal [_ _ _ Hw]].
    destruct (run env (log_result _ _ _ _) s1) as [log v s2]. cbn [run_log run_value run_state] in *.
    destruct v as [[]|e]; [|done..]. specialize (IH accepted' s2 Hsub'). cbv zeta in IH.
    destruct (run env (apply_results _ _ _ candidates accepted') s2) as [log2 v2 s3]. cbn [run_log run_value] in *.
    destruct v2 as [ids|]; [|done]. destruct IH as [Hr Hids]. split.
    + change (omap refusal (log ++ log2) = []). rewrite omap_app, Hr. by destruct Hw as (_ & -> & _).
    + intros id Hid. destruct (Hids id Hid) as [Ha|Ha]; [|right; by apply (handed_off_app_r [_]), handed_off_app_r].
      unfold accepted' in Ha. destruct (builder_handoffs applied) as [|h l] eqn:Hh; [by left|].
      apply elem_of_union in Ha as [->%elem_of_singleton|Ha]; [|by left].
      right. exists candidate, applied. split_and!; try done; [by left|lia|by rewrite Hh].
Qed.

Lemma log_result_obeys candidate : obeys no_insert any (log_result task outcome finished_unix_ms candidate).
Proof using.
  apply obeys_seq; [apply append_obeys, pipeline_no_insert|].
  case_bool_decide; [apply append_obeys, pipeline_no_insert|done].
Qed.
Lemma apply_results_obeys candidates ids : obeys no_insert any (apply_results task outcome finished_unix_ms candidates ids).
Proof using.
  revert ids. induction candidates as [|candidate candidates IH]; intros ids; cbn [apply_results]; [done|].
  split; [by intros []|]. intros [applied|e]; [|done]. destruct (_ <? _)%N.
  - split; [by intros []|]. intros _. apply IH.
  - apply (obeys_bind _ any); [apply log_result_obeys|]. intros [[]|e] _; [apply IH|done..].
Qed.

(** What is inserted was accepted and built from the batch. *)
Definition insert_ok (batch : SimulationBatchResult) (ids : gset CandidateId) (c : call) : Prop :=
  match c with
  | CallBuilderInsert built => exists candidate, candidate ∈ tk_candidates task /\
      task_candidate_id (rg_spec candidate) ∈ ids /\
      from_simulated_opportunity (eo_candidate (rg_opportunity candidate)) batch = inl built
  | _ => False
  end.
Lemma insert_accepted_obeys batch candidates ids : candidates ⊆ tk_candidates task ->
  obeys (insert_ok batch ids) any (insert_accepted batch candidates ids).
Proof using.
  induction candidates as [|candidate candidates IH]; intros Hsub; cbn [insert_accepted]; [done|].
  assert (candidate ∈ tk_candidates task /\ candidates ⊆ tk_candidates task) as [Hin Hsub'].
  { split; [apply Hsub; by left|]. intros x Hx. apply Hsub. by right. }
  case_bool_decide; cbn [negb]; [|by apply IH].
  destruct (from_simulated_opportunity _ batch) as [built|e] eqn:Hb; [|by apply IH].
  split; [by exists candidate|]. intros d. apply (obeys_bind _ any); [by apply IH|done].
Qed.
End results.

(** ** Where the state comes from *)

(** The endpoint answered with a result. *)
Definition header_answered (log : list exchange) (http_url : string) (header : RpcHeader) : Prop :=
  exists envelope, exch (CallHeader http_url) (Answered (Some envelope)) ∈ log /\
    re_error envelope = false /\ re_result envelope = Some header.
Definition scalar_answered (log : list exchange) (http_url method : string) (address : Address) (raw : string) : Prop :=
  exists envelope, exch (CallScalar http_url method (address_hex address)) (Answered (Some envelope)) ∈ log /\
    re_error envelope = false /\ re_result envelope = Some raw.

(** A seed is one the cache held for this endpoint, account and block, or
    what the endpoint answered. *)
Definition seed_grounded (ttl_ms : Z) (http_url : string) (block_number : N) (log : list exchange) (address : Address)
    (seed : AccountSeed) : Prop :=
  (exists now, exch (CallSeedLookup http_url address block_number now ttl_ms) (Some seed) ∈ log) \/
  (exists balance nonce, scalar_answered log http_url "eth_getBalance" address balance /\
     scalar_answered log http_url "eth_getTransactionCount" address nonce /\
     parse_hex_u128 balance = Some (seed_balance_wei seed) /\ parse_hex_u64 nonce = Some (seed_nonce seed)).

Lemma answer_of_inl {A} (answer : timed A) a : answer_of answer = inl a ->
  exists envelope, answer = Answered (Some envelope) /\ re_error envelope = false /\ re_result envelope = Some a.
Proof.
  destruct answer as [|[envelope|]]; cbn; [done| |done]. intros Ha. exists envelope. split; [done|].
  destruct (re_error envelope); [done|]. destruct (re_result envelope); [|done]. by injection Ha as ->.
Qed.

Lemma seed_grounded_mono ttl_ms http_url block_number log log' address seed : log ⊆ log' ->
  seed_grounded ttl_ms http_url block_number log address seed -> seed_grounded ttl_ms http_url block_number log' address seed.
Proof.
  intros Hsub [[now Hx]|(b & n & (e1 & H1 & ?) & (e2 & H2 & ?) & ?)]; [left; exists now; by apply Hsub|].
  right. exists b, n. split; [|split]; [exists e1|exists e2|]; auto.
Qed.

Section grounded.
Context {S : Type} (env : forall c : call, S -> reply c * S) (ttl_ms : Z) (http_url : string) (block_number : N).

Lemma fetch_scalar_spec method address s :
  let o := run env (fetch_rpc_scalar http_url method (address_hex address)) s in
  match run_value o with inl raw => scalar_answered (run_log o) http_url method address raw | inr _ => True end.
Proof using.
  cbv zeta. unfold fetch_rpc_scalar. cbn [run]. destruct (env _ s) as [answer s1]. cbn [run_log run_value run].
  destruct (answer_of answer) as [raw|] eqn:Ha; [|done]. apply answer_of_inl in Ha as (envelope & -> & ?).
  exists envelope. split; [by left|done].
Qed.

Lemma fetch_account_spec address s :
  let o := run env (fetch_account_seed_from_rpc http_url address) s in
  match run_value o with
  | inl seed => seed_grounded ttl_ms http_url block_number (run_log o) address seed
  | inr _ => True
  end.
Proof using.
  cbv zeta. unfold fetch_account_seed_from_rpc. rewrite run_bind. cbv zeta. cbn [run_log run_value].
  pose proof (fetch_scalar_spec "eth_getBalance" address s) as H1. cbv zeta in H1.
  destruct (run env (fetch_rpc_scalar _ "eth_getBalance" _) s) as [log1 [raw|] s1]; cbn [run_log run_value run_state] in *; [|done].
  destruct (parse_hex_u128 raw) as [balance|] eqn:Hb; [|done]. rewrite run_bind. cbv zeta. cbn [run_log run_value].
  pose proof (fetch_scalar_spec "eth_getTransactionCount" address s1) as H2. cbv zeta in H2.
  destruct (run env (fetch_rpc_scalar _ "eth_getTransactionCount" _) s1) as [log2 [raw'|] s2]; cbn [run_log run_value run_state run] in *; [|done].
  destruct (parse_hex_u64 raw') as [nonce|] eqn:Hn; [|done]. rewrite app_nil_r. right. exists raw, raw'.
  destruct H1 as (e1 & Hx1 & ?), H2 as (e2 & Hx2 & ?).
  split; [exists e1; split; [set_solver|done]|]. split; [exists e2; split; [set_solver|done]|done].
Qed.

Lemma fetch_seeds_spec now senders seeds s :
  let o := run env (fetch_seeds ttl_ms http_url block_number now senders seeds) s in
  match run_value o with
  | inl seeds' => forall a, (is_Some (seeds' !! a) <-> a ∈ senders \/ is_Some (seeds !! a)) /\
      forall seed, seeds' !! a = Some seed ->
        seeds !! a = Some seed \/ seed_grounded ttl_ms http_url block_number (run_log o) a seed
  | inr _ => True
  end.
Proof using.
  revert seeds s. induction senders as [|sender senders IH]; intros seeds s; cbv zeta; cbn [fetch_seeds].
  { intros a. cbn. split; [set_solver|]. by left. }
  assert (forall seed log1 log2 s',
    seed_grounded ttl_ms http_url block_number log1 sender seed -> log1 ⊆ log2 ->
    let o := run env (fetch_seeds ttl_ms http_url block_number now senders (<[sender := seed]> seeds)) s' in
    match run_value o with
    | inl seeds' => forall a, (is_Some (seeds' !! a) <-> a ∈ sender :: senders \/ is_Some (seeds !! a)) /\
        forall seed, seeds' !! a = Some seed ->
          seeds !! a = Some seed \/ seed_grounded ttl_ms http_url block_number (log2 ++ run_log o) a seed
    | inr _ => True
    end) as Hstep.
  { intros seed log1 log2 s' Hg Hsub. cbv zeta. specialize (IH (<[sender := seed]> seeds) s'). cbv zeta in IH.
    destruct (run_value _) as [seeds'|]; [|done]. intros a. destruct (IH a) as [Hd Hv]. split.
    - rewrite Hd, lookup_insert_is_Some', elem_of_cons. naive_solver.
    - intros x Hx. destruct (Hv x Hx) as [Hl|Hl].
      + apply lookup_insert_Some in Hl as [[-> ->]|[_ Hl]]; [|by left]. right.
        eapply seed_grounded_mono; [|exact Hg]. set_solver.
      + right. eapply seed_grounded_mono; [|exact Hl]. set_solver. }
  cbn [run]. destruct (env (CallSeedLookup _ _ _ _ _) s) as [cached s1] eqn:E. destruct cached as [seed|].
  - cbn [run]. destruct (env (CallObserveSim ObsCacheHit) s1) as [u s2]. cbn [run_log run_value].
    specialize (Hstep seed [exch (CallSeedLookup http_url sender block_number now ttl_ms) (Some seed)]
      [exch (CallSeedLookup http_url sender block_number now ttl_ms) (Some seed); exch (CallObserveSim ObsCacheHit) u] s2).
    apply Hstep; [left; exists now; by left|set_solver].
  - cbn [run]. destruct (env (CallObserveSim ObsCacheMiss) s1) as [u s2]. cbn [run_log run_value].
    rewrite run_bind. cbv zeta. cbn [run_log run_value].
    pose proof (fetch_account_spec sender s2) as Hf. cbv zeta in Hf.
    destruct (run env (fetch_account_seed_from_rpc http_url sender) s2) as [log [seed|] s3]; cbn [run_log run_value run_state] in *; [|done].
    cbn [run]. destruct (env (CallSeedStore _ _ _ _ _) s3) as [u' s4]. cbn [run_log run_value].
    specialize (Hstep seed log (exch (CallSeedLookup http_url sender block_number now ttl_ms) None ::
      exch (CallObserveSim ObsCacheMiss) u :: log ++ [exch (CallSeedStore http_url sender block_number now seed) u']) s4 Hf).
    cbv zeta in Hstep. rewrite <-!app_comm_cons, <-app_assoc in Hstep. apply Hstep. set_solver.
Qed.
End grounded.

Lemma elem_of_unique_senders txs a : a ∈ unique_senders txs <-> a ∈ vt_sender <$> txs.
Proof.
  unfold unique_senders. etransitivity; [apply elem_of_bt_keys|]. rewrite <-not_eq_None_Some.
  assert (((fun tx => (vt_sender tx, ())) <$> txs).*1 = vt_sender <$> txs) as <- by (by rewrite <-list_fmap_compose).
  pose proof (not_elem_of_list_to_map (M := gmap Address) ((fun tx => (vt_sender tx, ())) <$> txs) a) as H.
  destruct (decide (a ∈ ((fun tx => (vt_sender tx, ())) <$> txs).*1)); tauto.
Qed.

(** What a simulated batch rests on. *)
Definition batch_grounded {E} `{Revm} (sha256 : list N -> list N) (ttl_ms : Z) (chain : ChainRpcConfig)
    (request : RemoteSimulationRequest) (log : list exchange) (batch : SimulationBatchResult) : Prop :=
  exists http_url header chain_context account_seeds,
    chain_primary_http_url chain = Some http_url /\ header_answered log http_url header /\
    chain_context_of chain request header = inl chain_context /\
    (forall a, is_Some (account_seeds !! a) <-> a ∈ vt_sender <$> rq_txs request) /\
    (forall a seed, account_seeds !! a = Some seed ->
       seed_grounded ttl_ms http_url (cc_block_number chain_context) log a seed) /\
    simulate_with_mode sha256 chain_context (simulation_inputs (rq_txs request))
      (RpcBacked (E := E) (seed_provider account_seeds)) = inl batch.

Lemma batch_grounded_mono {E} `{Revm} sha256 ttl_ms chain request log log' batch : log ⊆ log' ->
  batch_grounded (E := E) sha256 ttl_ms chain request log batch ->
  batch_grounded (E := E) sha256 ttl_ms chain request log' batch.
Proof.
  intros Hsub (url & h & c & seeds & Hu & (e & He & ?) & Hc & Hd & Hg & Hm). exists url, h, c, seeds.
  split_and!; try done; [exists e; split; [by apply Hsub|done]|]. intros a seed Ha.
  eapply seed_grounded_mono; [exact Hsub|by apply Hg].
Qed.

Lemma simulate_in_time_spec {S E} `{Revm} (env : forall c : call, S -> reply c * S) sha256 ttl_ms chain request s :
  let o := run env (simulate_in_time (E := E) sha256 ttl_ms chain request) s in
  match run_value o with
  | inl batch => batch_grounded (E := E) sha256 ttl_ms chain request (run_log o) batch
  | inr _ => True
  end.
Proof.
  cbv zeta. unfold simulate_in_time. destruct (chain_primary_http_url chain) as [http_url|] eqn:Hu; [|done].
  rewrite run_bind. cbv zeta. cbn [run_log run_value]. unfold fetch_remote_chain_context. cbn [run].
  destruct (env (CallHeader http_url) s) as [answer s1]. cbn [run_log run_value run_state run].
  destruct (answer_of answer) as [header|] eqn:Ha; [|done]. apply answer_of_inl in Ha as (envelope & -> & He).
  destruct (chain_context_of chain request header) as [ctx|] eqn:Hc; [|done].
  rewrite run_bind. cbv zeta. cbn [run_log run_value]. unfold fetch_cached_account_seeds. cbn [run].
  destruct (env CallNow s1) as [now s2]. cbn [run_log run_value run_state].
  pose proof (fetch_seeds_spec env ttl_ms http_url (cc_block_number ctx) now (unique_senders (rq_txs request)) ∅ s2) as Hs.
  cbv zeta in Hs. destruct (run env (fetch_seeds _ _ _ _ _ _) s2) as [log v s3]. cbn [run_log run_value run_state run] in *.
  destruct v as [seeds|]; [|done]. destruct (simulate_with_mode _ _ _ _) as [batch|] eqn:Hb; [|done].
  exists http_url, header, ctx, seeds. split; [done|]. split; [exists envelope; split; [by left|done]|]. split; [done|].
  split; [|split; [|exact Hb]].
  - intros a. destruct (Hs a) as [-> _]. rewrite elem_of_unique_senders, lookup_empty.
    pose proof (is_Some_None (A := AccountSeed)). tauto.
  - intros a seed Hl. destruct (Hs a) as [_ Hg]. destruct (Hg seed Hl) as [Hbad|Hok]; [by rewrite lookup_empty in Hbad|].
    eapply seed_grounded_mono; [|exact Hok]. set_solver.
Qed.

(** ** The builder *)
Definition calm (c : call) : Prop := quiet c = true /\ no_insert c.
Ltac calm := split; [reflexivity|intros []].
Lemma fetch_account_calm http_url address : obeys calm any (fetch_account_seed_from_rpc http_url address).
Proof.
  unfold fetch_account_seed_from_rpc. apply (obeys_bind _ any); [split; [calm|done]|]. intros [raw|] _; [|done].
  destruct (parse_hex_u128 raw); [|done]. apply (obeys_bind _ any); [split; [calm|done]|done].
Qed.
Lemma fetch_seeds_calm ttl_ms http_url block_number now senders seeds :
  obeys calm any (fetch_seeds ttl_ms http_url block_number now senders seeds).
Proof.
  revert seeds. induction senders as [|sender senders IH]; intros seeds; [done|]. cbn [fetch_seeds].
  split; [calm|]. intros [seed|]; (split; [calm|]); intros _; [apply IH|].
  apply (obeys_bind _ any); [apply fetch_account_calm|]. intros [seed|] _; [|done]. split; [calm|]. intros _. apply IH.
Qed.
Lemma simulate_calm {E} `{Revm} sha256 ttl_ms chain request :
  obeys calm any (simulate_remote_request (E := E) sha256 ttl_ms chain request).
Proof.
  unfold simulate_remote_request, simulate_in_time. apply (obeys_bind _ any).
  - destruct (chain_primary_http_url chain) as [http_url|]; [|done]. apply (obeys_bind _ any); [split; [calm|done]|].
    intros [ctx|] _; [|done]. apply (obeys_bind _ any); [|done]. split; [calm|]. intros now. apply fetch_seeds_calm.
  - intros simulated _. destruct (outcome_parts simulated) as [[[status cat] batch]|]; [|done].
    split; [calm|]. intros latency. split; [calm|done].
Qed.

Lemma run_value_obeys {S A} (env : forall c : call, S -> reply c * S) P (Q : A -> Prop) p s :
  obeys P Q p -> Q (run_value (run env p s)).
Proof. intros Hp. by destruct (run_obeys env P Q p s Hp). Qed.

Lemma simulate_remote_spec {S E} `{Revm} (env : forall c : call, S -> reply c * S) sha256 ttl_ms chain request s outcome :
  let o := run env (simulate_remote_request (E := E) sha256 ttl_ms chain request) s in
  run_value o = Some outcome ->
  so_sim_id outcome = request_sim_id request /\
  match so_simulation_batch outcome with
  | Some batch =>
      batch_grounded (E := E) sha256 ttl_ms chain request (run_log o) batch /\
      summarize_simulation_batch batch = (so_status outcome, so_fail_category outcome)
  | None =>
      (so_status outcome, so_fail_category outcome) ∈
        [(SimStateError, Some "state_rpc"); (SimTimeout, Some "state_timeout")]
  end.
Proof.
  cbv zeta. unfold simulate_remote_request. rewrite run_bind. cbv zeta. cbn [run_value run_log].
  pose proof (simulate_in_time_spec (E := E) env sha256 ttl_ms chain request s) as Hs. cbv zeta in Hs.
  destruct (run env (simulate_in_time _ _ _ _) s) as [log v s1]. cbn [run_value run_log run_state] in *.
  destruct (outcome_parts v) as [[[status cat] batch]|] eqn:Ho; [|done].
  cbn [run]. destruct (env CallElapsed s1) as [latency s2]. cbn [run].
  destruct (env (CallObserveSim _) s2) as [u s3]. cbn [run run_value run_log]. intros [= <-]. split; [done|].
  cbn [so_simulation_batch so_status so_fail_category]. destruct v as [b|stop]; cbn in Ho.
  - destruct (summarize_simulation_batch b) as [status' cat'] eqn:Hb. injection Ho as <- <- <-. split; [|done].
    eapply batch_grounded_mono; [|exact Hs]. set_solver.
  - destruct stop; simplify_eq/=; set_solver.
Qed.

(** [find] gives the first failed result. *)
Lemma find_first l r : List.find (fun r => negb (sr_success r)) l = Some r ->
  exists i, l !! i = Some r /\ sr_success r = false /\ Forall (fun r => sr_success r = true) (take i l).
Proof.
  induction l as [|x l IH]; cbn; [done|]. destruct (sr_success x) eqn:Hx; cbn.
  - intros (i & Hi & Hr & Hall)%IH. exists (Datatypes.S i). split_and!; [done..|]. by constructor.
  - intros [= <-]. exists 0%nat. split_and!; [done..|constructor].
Qed.


(** Splitting a conversation at a call. *)
Lemma split_after (P : call -> Prop) pre log before (x : exchange) after : Forall (fun x : exchange => P (projT1 x)) pre -> ~ P (projT1 x) ->
  pre ++ log = before ++ x :: after -> exists before', before = pre ++ before' /\ log = before' ++ x :: after.
Proof.
  revert before. induction pre as [|y pre IH]; intros before Hpre Hx E; [by exists before|].
  apply Forall_cons in Hpre as [Hy Hpre]. destruct before as [|z before]; cbn in E; [by injection E as -> _|].
  injection E as -> E. destruct (IH before Hpre Hx E) as (b & -> & ->). by exists b.
Qed.
Lemma split_before (P : call -> Prop) log post before (x : exchange) after : Forall (fun x : exchange => P (projT1 x)) post -> ~ P (projT1 x) ->
  log ++ post = before ++ x :: after -> exists after', log = before ++ x :: after'.
Proof.
  intros Hpost Hx E. apply app_eq_inv in E as [(k & E1 & E2)|(k & E1 & E2)].
  - destruct k as [|y k]; [|by injection E2 as -> ->; exists k]. rewrite app_nil_r in E1. cbn in E2. subst post.
    by apply Forall_cons in Hpost as [? _].
  - exfalso. subst post. apply Forall_app in Hpost as [_ Hpost]. by apply Forall_cons in Hpost as [? _].
Qed.
Lemma calm_no_refusal log : Forall (fun x : exchange => quiet (projT1 x) = true) log -> omap refusal log = [].
Proof. induction 1 as [|[c r] log Hq _ IH]; [done|]. cbn. rewrite IH. by destruct c. Qed.

Lemma insert_is_insert c : ~ no_insert (CallBuilderInsert c).
Proof. intros Hn. by apply Hn. Qed.

Section builder.
Context {S : Type} (env : forall c : call, S -> reply c * S).
Context (task : SimulationTask) (outcome : RemoteSimulationOutcome) (finished_unix_ms : Z).

(** Every insertion of the conversation comes from the batch, after a hand-off
    of the same candidate and before any refused write. *)
Definition justified (log : list exchange) : Prop :=
  forall before c r after, log = before ++ exch (CallBuilderInsert c) r :: after ->
  omap refusal before = [] /\
  exists candidate batch, candidate ∈ tk_candidates task /\ so_simulation_batch outcome = Some batch /\
    from_simulated_opportunity (eo_candidate (rg_opportunity candidate)) batch = inl c /\
    handed_off task outcome before (task_candidate_id (rg_spec candidate)).

Lemma justified_none log : Forall (fun x : exchange => no_insert (projT1 x)) log -> justified log.
Proof using.
  intros Hn before c r after ->. apply Forall_app in Hn as [_ Hn]. apply Forall_cons in Hn as [Hn _]. by destruct Hn.
Qed.
Lemma justified_pre pre log : Forall (fun x : exchange => calm (projT1 x)) pre -> justified log -> justified (pre ++ log).
Proof using.
  intros Hpre Hlog before c r after E.
  destruct (split_after no_insert pre log before (exch (CallBuilderInsert c) r) after) as (b & -> & E'); [|apply insert_is_insert|exact E|].
  { eapply Forall_impl; [exact Hpre|]. by intros x [_ ?]. }
  destruct (Hlog b c r after E') as (Hr & candidate & batch & ? & ? & ? & Hh).
  split; [|exists candidate, batch; split_and!; try done; by apply handed_off_app_r].
  rewrite omap_app, Hr, calm_no_refusal; [done|]. eapply Forall_impl; [exact Hpre|]. by intros x [? _].
Qed.
Lemma justified_post log post : Forall (fun x : exchange => no_insert (projT1 x)) post -> justified log -> justified (log ++ post).
Proof using.
  intros Hpost Hlog before c r after E.
  destruct (split_before no_insert log post before (exch (CallBuilderInsert c) r) after) as (a & ->); [done|apply insert_is_insert|exact E|].
  by apply (Hlog before c r a).
Qed.

(** The insertions follow the hand-offs. *)
Lemma justified_inserts batch ids applied s : so_simulation_batch outcome = Some batch ->
  Forall (fun x : exchange => no_insert (projT1 x)) applied -> omap refusal applied = [] ->
  (forall id, id ∈ ids -> handed_off task outcome applied id) ->
  justified (applied ++ run_log (run env (insert_accepted batch (tk_candidates task) ids) s)).
Proof using.
  intros Hbatch Hno Hr Hids before c r after E.
  pose proof (insert_accepted_obeys task batch (tk_candidates task) ids ltac:(done)) as Ho.
  destruct (run_obeys env _ _ _ s Ho) as [Hlog _]. clear Ho.
  destruct (split_after no_insert applied _ before (exch (CallBuilderInsert c) r) after Hno (insert_is_insert c) E)
    as (b & -> & E').
  rewrite E' in Hlog. apply Forall_app in Hlog as [Hb Hlog].
  apply Forall_cons in Hlog as [(candidate & Hin & Hid & Hfrom) _]. split.
  - rewrite omap_app, Hr, calm_no_refusal; [done|]. eapply Forall_impl; [exact Hb|].
    intros [c' r']. by destruct c'.
  - exists candidate, batch. split_and!; try done. by apply handed_off_app_l, Hids.
Qed.

Lemma justified_outcome s : justified (run_log (run env (apply_simulation_task_outcome task outcome finished_unix_ms) s)).
Proof using.
  unfold apply_simulation_task_outcome. cbn [run]. destruct (env (CallRecordStatus _) s) as [u s1]. cbn [run_log].
  apply (justified_pre [_]); [repeat constructor; by intros []|]. rewrite run_bind. cbv zeta. cbn [run_log].
  pose proof (apply_results_spec env task outcome finished_unix_ms (tk_candidates task) ∅ s1 ltac:(done)) as Hs. cbv zeta in Hs.
  pose proof (run_obeys env _ _ _ s1 (apply_results_obeys task outcome finished_unix_ms (tk_candidates task) ∅)) as [Hno _].
  destruct (run env (apply_results _ _ _ _ _) s1) as [applied [ids|] s2]; cbn [run_log run_value run_state] in *;
    [|cbn [run run_log]; rewrite app_nil_r; by apply justified_none].
  destruct Hs as [Hr Hids]. destruct (decide (ids = ∅)) as [_|Hne]; [cbn [run run_log]; rewrite app_nil_r; by apply justified_none|].
  assert (forall id, id ∈ ids -> handed_off task outcome applied id) as Hh
    by (intros id Hid; destruct (Hids id Hid) as [?%not_elem_of_empty|?]; done).
  rewrite run_bind. cbv zeta. cbn [run_log]. rewrite app_assoc. apply justified_post.
  - eapply run_obeys with (Q := any). apply (obeys_bind _ any); [|done].
    apply obeys_for_each. intros d. apply append_obeys, pipeline_no_insert.
  - unfold apply_builder_assembly_state. destruct (so_simulation_batch outcome) as [batch|] eqn:Hb.
    + by apply justified_inserts.
    + cbn [run run_log]. rewrite app_nil_r. by apply justified_none.
Qed.
End builder.

(** The conversation of one task. *)
Lemma justified_task {S E} `{Revm} (env : forall c : call, S -> reply c * S) sha256 ttl_ms task s :
  let log := run_log (run env (run_simulation_task (E := E) sha256 ttl_ms task) s) in
  Forall (fun x : exchange => no_insert (projT1 x)) log \/
  exists outcome, justified task outcome log /\ forall batch, so_simulation_batch outcome = Some batch ->
    (forall before c r after, log = before ++ exch (CallBuilderInsert c) r :: after ->
       batch_grounded (E := E) sha256 ttl_ms (tk_chain task) (tk_request task) before batch) /\
    summarize_simulation_batch batch = (so_status outcome, so_fail_category outcome).
Proof.
  cbv zeta. unfold run_simulation_task. cbn [run]. destruct (env (CallObserveSim ObsDequeue) s) as [u1 s1]. cbn [run].
  destruct (env CallNow s1) as [n1 s2]. cbn [run_log]. rewrite run_bind. cbv zeta. cbn [run_log].
  pose proof (run_obeys env _ _ _ s2 (simulate_calm (E := E) sha256 ttl_ms (tk_chain task) (tk_request task))) as [Hcalm _].
  pose proof (simulate_remote_spec (E := E) env sha256 ttl_ms (tk_chain task) (tk_request task) s2) as Hspec. cbv zeta in Hspec.
  destruct (run env (simulate_remote_request _ _ _ _) s2) as [log [outcome|] s3]; cbn [run_log run_value run_state run] in *.
  2: { left. rewrite app_nil_r. do 2 (constructor; [by intros []|]). eapply Forall_impl; [exact Hcalm|]. by intros x [_ ?]. }
  specialize (Hspec outcome eq_refl) as [_ Hbatch]. right. exists outcome.
  destruct (env CallNow s3) as [finished s4]. cbn [run_log]. rewrite run_bind. cbv zeta. cbn [run_log run].
  pose proof (justified_outcome env task outcome finished s4) as Hj.
  destruct (run env (apply_simulation_task_outcome _ _ _) s4) as [alog av s5]. cbn [run_log run_state] in *.
  destruct (env (CallObserveSim ObsFinish) s5) as [u2 s6]. cbn [run_log]. split.
  - apply (justified_pre _ _ [_; _]); [repeat constructor; by intros []|]. apply justified_pre; [exact Hcalm|].
    apply (justified_pre _ _ [_]); [repeat constructor; by intros []|]. apply justified_post; [|exact Hj].
    repeat constructor. by intros [].
  - intros batch Hb. rewrite Hb in Hbatch. destruct Hbatch as [Hg Hs]. split; [|done]. intros before c r after Elog.
    apply (split_after no_insert (_ :: _ :: log) _ before _ after) in Elog as (b & -> & _); [|constructor; [by intros []|]|apply insert_is_insert].
    + eapply batch_grounded_mono; [|exact Hg]. set_solver.
    + constructor; [by intros []|]. eapply Forall_impl; [exact Hcalm|]. by intros x [_ ?].
Qed.

(** C9: a candidate enters the builder only after a simulation that approves
    it, when the answers to simulation results are the scheduler's. Whenever
    the worker inserts a candidate: the task holds it; the assembly candidate
    is what [AssemblyCandidate::from_simulated_opportunity] makes of it and of
    a batch that was run, for the transactions of the request, on the header
    and the accounts that the endpoint answered, or the cache held, earlier in
    the same conversation; the batch approves it; the scheduler had registered
    the candidate, at the generation that the task gives for it, and handed it
    off on an approving result; and no storage write was refused before the
    insertion. *)
Theorem builder_inserts_justified {S E} `{Revm} (env : forall c : call, S -> reply c * S) sha256 ttl_ms task s before c r after
    (Hsched : forall result s applied, (env (CallApplyResult result) s).1 = inl applied ->
       exists st, applied = (apply_simulation_result result st).1) :
  run_log (run env (run_simulation_task (E := E) sha256 ttl_ms task) s) = before ++ exch (CallBuilderInsert c) r :: after ->
  omap refusal before = [] /\ sim_approved (ac_simulation c) = true /\
  (exists candidate batch, candidate ∈ tk_candidates task /\
     from_simulated_opportunity (eo_candidate (rg_opportunity candidate)) batch = inl c /\
     batch_grounded (E := E) sha256 ttl_ms (tk_chain task) (tk_request task) before batch /\
     (exists same result applied st entry, exch (CallApplyResult result) (inl applied) ∈ before /\
        same ∈ tk_candidates task /\ task_candidate_id (rg_spec same) = task_candidate_id (rg_spec candidate) /\
        res_candidate_id result = task_candidate_id (rg_spec candidate) /\
        res_generation result = task_generation (rg_spec same) /\ res_approved result = true /\
        applied = (apply_simulation_result result st).1 /\ builder_handoffs applied <> [] /\
        candidates st !! task_candidate_id (rg_spec candidate) = Some entry /\
        ce_generation entry = res_generation result)).
Proof.
  intros Elog.
  assert (forall x, x ∈ before -> exists s', (env (projT1 x) s').1 = projT2 x) as Hans.
  { intros x Hx. apply (run_answered env (run_simulation_task (E := E) sha256 ttl_ms task) s). rewrite Elog. set_solver. }
  destruct (justified_task (E := E) env sha256 ttl_ms task s) as [Hno|(outcome & Hj & Hb)].
  { rewrite Elog in Hno. apply Forall_app in Hno as [_ [Hx _]%Forall_cons]. by apply insert_is_insert in Hx. }
  destruct (Hj before c r after Elog) as (Hr & candidate & batch & Hin & Hbatch & Hfrom & cand & applied & Hcand & Hid & Hx & Hst & Hne).
  destruct (Hb batch Hbatch) as [Hground Hs]. specialize (Hground before c r after Elog).
  destruct (Hans _ Hx) as [s' Ha]. cbn in Ha. apply Hsched in Ha as [st Happ].
  destruct (apply_simulation_result (result_of cand outcome) st) as [o st'] eqn:Eo. cbn in Happ. subst o.
  destruct (apply_result_key _ _ _ _ Eo Hne) as (entry & He & Hgen & Hok & _).
  assert (so_status outcome = SimOk) as Hstatus by (by apply bool_decide_eq_true in Hok).
  split; [exact Hr|]. split; [rewrite Hstatus in Hs; by eapply ok_batch_approves|].
  exists candidate, batch. split_and!; [done..|].
  exists cand, (result_of cand outcome), applied, st, entry. rewrite Eo, <-Hid. by split_and!.
Qed.

(** ** A concrete worker *)
#[local] Existing Instance ledger_revm.

(** An endpoint that answers every request, and a builder that takes every
    candidate. *)
Definition sample_header : RpcHeader := mkRpcHeader "0x64" "0x65" "0x1c9c380" (Some "0x7") None None.
Definition answered_env (storage : unit + StorageTryEnqueueError) (c : call) (s : SchedulerState) : reply c * SchedulerState :=
  match c with
  | CallHeader _ => (Answered (Some (mkRpcEnvelope false (Some sample_header))), s)
  | CallScalar _ method _ =>
      (Answered (Some (mkRpcEnvelope false (Some (if String.eqb method "eth_getBalance" then "0xffffffffff" else "0x7")))), s)
  | CallBuilderInsert candidate => (Inserted (ac_candidate_id candidate) [], s)
  | other => scripted_env scheduler_config_default storage SimSent other s
  end.
(** The task of a feed of one transaction. *)
Definition sample_run := run sample_env (process_rows sample_chain 4 1 [sample_row 1 7 100]%N) state_default.
Definition sample_task : SimulationTask :=
  default (mkSimTask sample_chain (mkSimRequest 0 [] [] 0) [] 0) (head (omap sent_task (run_log sample_run))).
Definition sample_worker (storage : unit + StorageTryEnqueueError) :=
  run (answered_env storage) (run_simulation_task (E := string) toy_digest 60000 sample_task) (run_state sample_run).
Definition inserted (x : exchange) : option AssemblyCandidate :=
  match projT1 x with CallBuilderInsert c => Some c | _ => None end.

Lemma answered_scheduler storage result s applied : (answered_env storage (CallApplyResult result) s).1 = inl applied ->
  exists st, applied = (apply_simulation_result result st).1.
Proof.
  cbn. intros Ha. exists s. destruct (apply_simulation_result result s) as [o s']. by injection Ha as ->.
Qed.

Lemma inserted_at log i hashes : ac_tx_hashes <$> (log !! i ≫= inserted) = Some hashes ->
  exists c r, log = take i log ++ exch (CallBuilderInsert c) r :: drop (Datatypes.S i) log /\ ac_tx_hashes c = hashes.
Proof.
  intros Hi. destruct (log !! i) as [[c r]|] eqn:Hl; [|done]. destruct c; try done. injection Hi as Hi.
  exists candidate, r. split; [|done]. symmetry. by apply take_drop_middle.
Qed.

Lemma builder_inserts_justified_witness :
  let log := run_log (sample_worker (inl tt)) in
  exists c r, log = take 23 log ++ exch (CallBuilderInsert c) r :: drop 24 log /\ ac_tx_hashes c = [1%N] /\
    sim_approved (ac_simulation c) = true /\ omap refusal (take 23 log) = [].
Proof.
  cbv zeta.
  assert (forall before c r after, run_log (sample_worker (inl tt)) = before ++ exch (CallBuilderInsert c) r :: after ->
    sim_approved (ac_simulation c) = true /\ omap refusal before = []) as Hall.
  { intros before c r after E. unfold sample_worker in E.
    destruct (builder_inserts_justified (E := string) (answered_env (inl tt)) toy_digest 60000 sample_task (run_state sample_run)
      before c r after (answered_scheduler (inl tt)) E) as (Hr & Hok & _).
    split; [exact Hok|exact Hr]. }
  destruct (inserted_at (run_log (sample_worker (inl tt))) 23 [1%N] ltac:(vm_compute; reflexivity)) as (c & r & E & Hh).
  exists c, r. split; [exact E|]. split; [exact Hh|]. exact (Hall _ c r _ E).
Defined.

Definition sample_simulated :=
  run (answered_env (inl tt)) (simulate_remote_request (E := string) toy_digest 60000 sample_chain (tk_request sample_task))
    (run_state sample_run).
Lemma sample_simulated_ok : exists outcome batch, run_value sample_simulated = Some outcome /\ so_status outcome = SimOk /\
  so_simulation_batch outcome = Some batch.
Proof. vm_compute. eauto. Qed.

(** The storage queue is full when the worker logs an approving result: the
    scheduler has handed the candidates off, and bumped their generations, but
    the builder never sees them; the same result comes too late afterwards. *)
Example lost_handoff :
  let worker := sample_worker (inr TryQueueFull) in
  let results := omap (fun x : exchange => match x with existT (CallApplyResult result) (inl applied) => Some (result, applied) | _ => None end)
    (run_log worker) in
  omap inserted (run_log worker) = [] /\
  (fun '(result, applied) => length (builder_handoffs applied)) <$> results = [1%nat] /\
  (fun '(result, applied) => (apply_simulation_result result (run_state worker)).1) <$> results = [mkApplyOutcome [] 1].
Proof. vm_compute. split_and!; reflexivity. Qed.
