(* ===== verification/EndToEnd.v ===== *)
(** * EndToEnd: from the live feed through storage to replay

    What the live pipeline hands to the storage queue is numbered, logged and
    stored by the writer task, and replaying the stored events reconstructs the
    live scheduler.  The parts are those of [LivePipeline], [StorageWriter],
    [Storage] and [Replay]; the queue between them is first in, first out. *)
From stdpp Require Import base gmap strings list numbers sorting.
From S2P Require Import Prelude Common EventLog Scheduler SchedulerQueue SchedulerViews ReplayMempool ReplayLifecycle ReplayQueues Replay ReplayProps.
From S2P Require Import Storage StorageIndex StorageTables StorageProps Wal StorageWriter LiveHex LiveState LiveConfig LiveDecode LiveProgram LivePipeline LiveLog LiveMirror.

(** ** The end of a replay *)
Section last_frame.
Context `{HashIter}.

Lemma last_frame_loop l stride idx s :
  list.last (deterministic_loop stride (idx + usize_of (length l)) idx s l) =
    frame_at (apply_all l s) <$> list.last l.
Proof.
  revert idx s. induction l as [|e l IH]; intros idx s; [done|]. cbn [deterministic_loop length].
  replace (idx + usize_of (Datatypes.S (length l)))%N with (idx + 1 + usize_of (length l))%N by int_lia.
  rewrite last_app, IH. destruct l as [|e' l].
  - cbn [list.last fmap option_fmap option_map length usize_of]. rewrite N.add_0_r, N.eqb_refl, orb_true_r. done.
  - rewrite !last_cons. cbn. destruct (list.last l); done.
Qed.

Lemma last_replay_frame events mode stride : sort_deterministic events = events ->
  list.last (replay_frames events mode stride) = frame_at (apply_all events mempool_default) <$> list.last events.
Proof.
  intros E. unfold replay_frames, replay_deterministic, replay_snapshot. rewrite E.
  destruct mode; rewrite ?snapshot_loop_eq by lia; apply (last_frame_loop events _ 0).
Qed.

(** The pending list of a frame, when a map has the pending hashes as keys. *)
Lemma frame_pending_keys {V} s (m : gmap TxHash V) :
  (forall h, lifecycle s h = Some StPending <-> is_Some (m !! h)) -> sort_hashes (pending_hashes s) = bt_keys m.
Proof.
  intros Hs. rewrite (sort_hashes_perm _ (bt_keys m)).
  - apply sort_by_id, sorted_lt_le. exact (bt_keys_sorted m).
  - apply NoDup_Permutation; [apply pending_hashes_NoDup|apply bt_keys_NoDup|].
    intros h. by rewrite elem_of_pending_hashes, Hs, elem_of_bt_keys.
Qed.
End last_frame.

(** ** What the writer stores *)
Section stored.
Context {W : Type} `{!DurableLog W}.

Definition input_op (i : WriterInput * StepEnv) : option StorageWriteOp := match i.1 with InOp op => Some op | _ => None end.

Lemma input_events (inputs : list (WriterInput * StepEnv)) : omap input_event inputs = omap op_event (omap input_op inputs).
Proof.
  induction inputs as [|[[op| |] env] inputs IH]; csimpl; [done| |exact IH|exact IH].
  unfold input_event at 1. cbn. destruct (op_event op); by rewrite IH.
Qed.

Lemma op_payloads (ops : list StorageWriteOp) : payload <$> omap op_event ops = omap op_payload ops.
Proof. induction ops as [|[] ops IH]; csimpl; by rewrite ?IH. Qed.

Lemma assigned_payloads s (l : list EventEnvelope) : payload <$> (assign_all s l).1 = payload <$> l.
Proof.
  revert s. induction l as [|e l IH]; intros s; [done|]. rewrite assign_all_cons.
  destruct (assign s e) as [e' s1] eqn:E. specialize (IH s1). destruct (assign_all s1 l). cbn in *.
  unfold assign in E. destruct (next_seq_id s). injection E as <- <-. by rewrite IH.
Qed.

Lemma sorted_by_lookup {A} (R : relation A) l :
  (forall i j x y, (i < j)%nat -> l !! i = Some x -> l !! j = Some y -> R x y) -> StronglySorted R l.
Proof.
  induction l as [|x l IH]; intros Hl; [constructor|]. apply StronglySorted_cons. split.
  - apply Forall_forall. intros y [j Hj]%list_elem_of_lookup_1. by apply (Hl 0%nat (Datatypes.S j)); [lia|..].
  - apply IH. intros i j y z Hij Hy Hz. by apply (Hl (Datatypes.S i) (Datatypes.S j)); [lia|..].
Qed.

(** Below the limit the assigned ids increase strictly. *)
Lemma assigned_order l i j x y : let a := (assign_all (from_latest_seq_id None) l).1 in
  (usize_of (length l) <= u64_max)%N -> a !! i = Some x -> a !! j = Some y ->
  ((i < j)%nat -> cmp_deterministic x y = Lt) /\ (cmp_deterministic x y = Eq -> i = j).
Proof.
  cbv zeta. intros Hlen Hx Hy. pose proof (lookup_lt_Some _ _ _ Hx) as Hi. pose proof (lookup_lt_Some _ _ _ Hy) as Hj.
  rewrite assign_all_length in Hi, Hj.
  apply assign_all_ids in Hx as Ex, Hy as Ey; [|by vm_compute..].
  change (next_seq_id_field (from_latest_seq_id None)) with 1%N in Ex, Ey. unfold usize_of, u64_max in *. split.
  - intros Hij. apply cmp_deterministic_seq_lt. lia.
  - intros Heq. assert (seq_id x = seq_id y) as E.
    { pose proof (cmp_sym cmp_deterministic x y) as Hs. rewrite Heq in Hs. cbn in Hs.
      apply N.le_antisymm; apply cmp_deterministic_seq; congruence. }
    lia.
Qed.

(** A sorted index of the numbered events lists them in order. *)
Lemma assigned_index l index : let a := (assign_all (from_latest_seq_id None) l).1 in
  (usize_of (length l) <= u64_max)%N -> index_sorted index -> index ≡ₚ a -> index = a.
Proof.
  cbv zeta. intros Hlen Hsorted Hperm. set (a := (assign_all _ _).1) in *.
  assert (forall i j x y, a !! i = Some x -> a !! j = Some y ->
    ((i < j)%nat -> cmp_deterministic x y = Lt) /\ (cmp_deterministic x y = Eq -> i = j)) as Hord.
  { intros i j x y. by apply assigned_order. }
  rewrite <-(sort_by_id cmp_deterministic index Hsorted), <-(sort_by_id cmp_deterministic a).
  - symmetry. apply (sort_by_Permutation cmp_deterministic); [|symmetry; exact Hperm].
    intros x y [i Hi]%list_elem_of_lookup_1 [j Hj]%list_elem_of_lookup_1 Heq.
    destruct (Hord i j x y Hi Hj) as [_ Hij]. specialize (Hij Heq). subst j. congruence.
  - apply sorted_lt_le, sorted_by_lookup. intros i j x y Hij Hi Hj. by apply (Hord i j).
Qed.

(** A fresh store that is large enough has been told what the writer was
    handed, and lists every event in that order with consecutive ids from 1. *)
Lemma stored_events wconfig sconfig timing (log : option W) (inputs : list (WriterInput * StepEnv)) :
  default [] (log ≫= dl_recover) = [] ->
  (usize_of (length (omap op_payload (omap input_op inputs))) <= N.min (event_capacity sconfig) u64_max)%N ->
  exists ops,
    let store := wr_storage (writer_run wconfig (spawn_single_writer timing (with_config sconfig) log) inputs).2 in
    store = storage_after sconfig ops /\ omap appended ops = list_events store /\
    omap told_snapshot ops = omap input_snapshot inputs /\
    payload <$> list_events store = omap op_payload (omap input_op inputs) /\
    sort_deterministic (list_events store) = list_events store /\
    (forall i e, list_events store !! i = Some e -> seq_id e = usize_of (S i)).
Proof.
  intros Hempty Hcap. cbv zeta.
  assert (spawn_single_writer timing (with_config sconfig) log =
    mkWriter (with_config sconfig) [] log (from_latest_seq_id None)) as ->.
  { unfold spawn_single_writer. destruct log as [l|]; [|done]. cbn in Hempty. destruct (dl_recover l) as [r|]; [|done].
    cbn in *. by subst r. }
  set (w0 := mkWriter _ _ _ _). destruct (writer_run_storage wconfig w0 inputs) as (ops & -> & Happ & Htold).
  exists ops. pose proof (storage_after_ok sconfig ops) as [_ Hev [Hsorted Hperm] _ _ _ _ _ _ _ _ _ _ _].
  unfold list_events. change (foldl storage_op (wr_storage w0) ops) with (storage_after sconfig ops).
  set (index := st_event_index (storage_after sconfig ops)) in *.
  assert (omap appended ops = (assign_all (from_latest_seq_id None) (omap op_event (omap input_op inputs))).1) as Ha
    by (rewrite Happ; unfold assigned; by rewrite input_events).
  assert (length (omap op_event (omap input_op inputs)) = length (omap op_payload (omap input_op inputs))) as Hlen
    by (by rewrite <-op_payloads, length_fmap).
  assert (index = omap appended ops) as Hindex.
  { rewrite Hev in Hperm. unfold retained, drop_front in Hperm.
    rewrite Ha in Hperm |- *. rewrite assign_all_length, Hlen in Hperm.
    replace (_ - _)%nat with 0%nat in Hperm by (unfold usize_of in Hcap; lia). rewrite drop_0 in Hperm.
    apply assigned_index; [rewrite Hlen; lia|done..]. }
  split_and!; [done|done|exact Htold| |by apply (sort_by_id cmp_deterministic)|].
  - by rewrite Hindex, Ha, assigned_payloads, op_payloads.
  - intros i e Hi. rewrite Hindex, Ha in Hi. apply lookup_lt_Some in Hi as Hi'. rewrite assign_all_length, Hlen in Hi'.
    apply assign_all_ids in Hi; [|by vm_compute]. rewrite Hi. change (next_seq_id_field (from_latest_seq_id None)) with 1%N.
    unfold usize_of, u64_max in *. lia.
Qed.
End stored.

(** ** From the feed to the replayed history *)

(** C4: the stored history shows the live scheduler. A scheduler that starts
    with an empty pool, and whose queues only the admissions of one worker
    change, sees that worker process any rows in which a hash always comes with
    the same sender and nonce; everything else may do anything, but the storage
    queue took every write and no call failed. The writer task, started on an
    empty store and an empty log, receives what the queue took, in that order,
    with any ticks in between; its log and its sink may fail at will. If the
    store has room for the events, it lists exactly the logged payloads in
    their order, and the last frame of replaying it, in either mode and with
    any stride, shows exactly the transactions pending in the live scheduler
    and its queues: the same senders, nonces and hashes with the same ready or
    blocked states. *)
Theorem stored_history_shows_scheduler {S W} `{!DurableLog W, HashIter} config (sched : S -> SchedulerState) env chain cap
  workers slot_of rows s0 wconfig sconfig timing (log : option W) inputs mode stride
  (Howns : owns_scheduler config sched env) (Hstart : same_pool state_default (sched s0))
  (Hslots : Forall (fun row => slot_known_tx slot_of row.2) rows)
  (Hempty : default [] (log ≫= dl_recover) = []) :
  let o := run env (process_rows chain cap workers rows) s0 in
  let live := sched (run_state o) in
  let events := list_events (wr_storage (writer_run wconfig (spawn_single_writer timing (with_config sconfig) log) inputs).2) in
  clean (run_log o) -> omap input_op inputs = accepted_ops (run_log o) ->
  (usize_of (length (logged (run_log o))) <= N.min (event_capacity sconfig) u64_max)%N ->
  payload <$> events = logged (run_log o) /\
  match list.last (replay_frames events mode stride) with
  | Some frame =>
      frame_pending frame = bt_keys (pending live) /\
      frame_sender_queues frame =
        (fun '(a, _) => {| rq_sender := a; rq_queued := to_entry <$> sender_queue_positions live a |}) <$> bt_iter (sender_queues live)
  | None => pending live = ∅ /\ sender_queues live = ∅
  end.
Proof.
  cbv zeta. intros Hc Hfifo Hcap. unfold logged in Hcap |- *. rewrite <-Hfifo in Hcap |- *.
  destruct (stored_events wconfig sconfig timing log inputs Hempty Hcap) as (_ & _ & _ & _ & Hp & Hsorted & _).
  set (events := list_events _) in *. split; [exact Hp|].
  destruct (live_log_replays_to_scheduler config sched env chain cap workers slot_of rows s0 events Howns Hstart Hslots Hc) as (_ & Hpend & Hq).
  { rewrite Hp. unfold logged. by rewrite Hfifo. }
  set (live := sched _) in *. rewrite (last_replay_frame events mode stride Hsorted).
  destruct (list.last events) as [e|] eqn:He; cbn [fmap option_fmap option_map].
  - cbn. split; [by apply frame_pending_keys|exact Hq].
  - apply last_None in He. rewrite He in Hpend, Hq. cbn in Hpend, Hq. split.
    + apply map_empty. intros h. apply eq_None_not_Some. rewrite <-Hpend. unfold lifecycle. cbn. by rewrite lookup_empty.
    + unfold sender_queues_view in Hq. cbn in Hq. rewrite bt_iter_empty in Hq. cbn in Hq.
      symmetry in Hq. apply fmap_nil_inv in Hq. by apply bt_iter_nil.
Qed.

#[local] Existing Instance StorageWriter.sample_log.
#[local] Existing Instance ReplayProps.map_iter.

(** The sample feed of [LiveMirror], stored with a sink that always fails. *)
Definition stored_inputs : list (WriterInput * StepEnv) :=
  (InTick, StorageWriter.sample_env false) :: ((fun op => (InOp op, StorageWriter.sample_env false)) <$> accepted_ops (run_log sample_outcome)).
Definition roomy_config : StorageConfig := mkStorageConfig 64 8 8 4.
Definition stored_history : list EventEnvelope :=
  list_events (wr_storage (writer_run sample_writer_config
    (spawn_single_writer (fun _ => (0, 0, 0)%N) (with_config roomy_config) (Some sample_dir)) stored_inputs).2).

Lemma sample_dir_empty : default [] (Some sample_dir ≫= dl_recover) = [].
Proof.
  change (default [] (dl_recover sample_dir) = []). by rewrite (dl_recover_holds _ _ sample_log_empty).
Qed.

Lemma stored_history_shows_scheduler_witness :
  match list.last (replay_frames stored_history SnapshotReplay 7) with
  | Some frame => frame_pending frame = [2; 3; 5]%N /\
      frame_sender_queues frame =
        [{| rq_sender := 5; rq_queued := [mkReplayEntry 3 7 RReady; mkReplayEntry 5 8 RReady; mkReplayEntry 2 9 RReady] |}]%N
  | None => False
  end.
Proof.
  destruct (stored_history_shows_scheduler scheduler_config_default id LiveMirror.sample_env sample_chain 4 1 feed_slot sample_feed
    state_default sample_writer_config roomy_config (fun _ => (0, 0, 0)%N) (Some sample_dir) stored_inputs SnapshotReplay 7
    (scripted_owns _ _ _) (conj eq_refl eq_refl)
    ltac:(repeat constructor) sample_dir_empty
    ltac:(vm_compute; split_and!; reflexivity) ltac:(vm_compute; reflexivity) ltac:(vm_compute; congruence)) as [_ H].
  fold stored_history in H. destruct (list.last (replay_frames stored_history SnapshotReplay 7)) as [frame|] eqn:E.
  - destruct H as [Hp Hq]. split; [rewrite Hp; vm_compute; reflexivity|rewrite Hq; vm_compute; reflexivity].
  - vm_compute in E. discriminate E.
Defined.
