(* ===== verification/RestartPool.v ===== *)
(** * RestartPool: admissions as a pool of hashes, and admitting a tail again

    The pool of [SchedulerRefinement] with every transaction named by its hash,
    for a fixed assignment of slots and fees to hashes.  A run of admissions
    leaves events (a hash came, a hash is gone); the theorem of this file says
    that an earlier pool, stripped of the hashes that a tail of the events lets
    go, becomes the last pool again when the hashes that came in the tail are
    admitted in order, even where the tail reaches back before that pool. *)
From stdpp Require Import base gmap strings list numbers sorting.
From S2P Require Import Prelude Common.

Abbreviation HashPool := (gmap (Address * N) TxHash).

Inductive pool_event := Came (h : TxHash) | Gone (h : TxHash).
Definition came (ev : pool_event) : option TxHash := match ev with Came h => Some h | Gone _ => None end.
Abbreviation cames := (omap came).

(** The hashes whose last event lets them go. *)
Definition settle (removed : gset TxHash) (ev : pool_event) : gset TxHash :=
  match ev with Came h => removed ∖ {[h]} | Gone h => {[h]} ∪ removed end.
Definition settled (events : list pool_event) : gset TxHash := foldl settle ∅ events.

Lemma settle_mono r1 r2 l : r1 ⊆ r2 -> foldl settle r1 l ⊆ foldl settle r2 l.
Proof. revert r1 r2. induction l as [|[h|h] l IH]; intros r1 r2 H; cbn; [done|apply IH; set_solver..]. Qed.

Lemma settled_suffix l1 l2 : settled l2 ⊆ settled (l1 ++ l2).
Proof. unfold settled. rewrite foldl_app. apply settle_mono. set_solver. Qed.

Section pool.
Context (key : TxHash -> Address * N) (accepts : TxHash -> TxHash -> bool) (limit : N).
Context (accepts_trans : forall g h k, accepts g h = true -> accepts h k = true -> accepts g k = true).

Definition owned (p : HashPool) (a : Address) : HashPool := filter (fun kv => kv.1.1 = a) p.

Definition pool_admit (h : TxHash) (p : HashPool) : list pool_event * HashPool :=
  match p !! key h with
  | Some g =>
      if decide (g = h) then ([], p)
      else if accepts g h then ([Gone g; Came h], <[key h := h]> p) else ([Gone h], p)
  | None =>
      if (limit <=? usize_of (size (owned p (key h).1)))%N then ([Gone h], p) else ([Came h], <[key h := h]> p)
  end.
Definition pool_admit_all (hs : list TxHash) (p : HashPool) : HashPool := foldl (fun p h => (pool_admit h p).2) p hs.

(** What the events recorded since the empty pool say of the pool: a slot
    belongs to the last hash that came for it, which is accepted against all
    the others that came for it, and no hash that is gone holds its slot. *)
Record history (events : list pool_event) (p : HashPool) : Prop := {
  hi_key k h : p !! k = Some h -> key h = k;
  hi_last k : p !! k = list.last (filter (fun h => key h = k) (cames events));
  hi_best g h : g ∈ cames events -> p !! key g = Some h -> g = h \/ accepts g h = true;
  hi_limit a : (usize_of (size (owned p a)) <= limit)%N;
  hi_settled h : h ∈ settled events -> p !! key h <> Some h;
}.

Lemma history_empty : history [] ∅.
Proof.
  split; try done. intros a. unfold owned. rewrite map_filter_empty, map_size_empty. apply N.le_0_l.
Qed.

Lemma holder_came events p k h : history events p -> p !! k = Some h -> h ∈ cames events /\ key h = k.
Proof.
  intros Hp H. split; [|by apply (hi_key _ _ Hp)]. rewrite (hi_last _ _ Hp) in H.
  apply last_Some_elem_of in H. by apply list_elem_of_filter in H as [_ H].
Qed.

Lemma came_slot events p h : history events p -> h ∈ cames events -> is_Some (p !! key h).
Proof.
  intros Hp H. rewrite (hi_last _ _ Hp). apply last_is_Some. intros E.
  assert (h ∈ filter (fun g => key g = key h) (cames events)) as Hin by (by apply list_elem_of_filter).
  rewrite E in Hin. by apply not_elem_of_nil in Hin.
Qed.

Lemma owned_insert p h a : p !! key h = None ->
  usize_of (size (owned (<[key h := h]> p) a)) =
    (usize_of (size (owned p a)) + if decide ((key h).1 = a) then 1 else 0)%N.
Proof.
  intros Hn. unfold owned. rewrite map_filter_insert. cbn. case_decide.
  - rewrite map_size_insert_None; [int_lia|]. apply map_lookup_filter_None. by left.
  - rewrite delete_id by done. int_lia.
Qed.

Lemma owned_replace p h g a : p !! key h = Some g ->
  usize_of (size (owned (<[key h := h]> p) a)) = usize_of (size (owned p a)).
Proof.
  intros Hn. unfold owned. rewrite map_filter_insert. cbn. case_decide as E.
  - rewrite map_size_insert_Some; [done|]. exists g. by apply map_lookup_filter_Some.
  - f_equal. f_equal. apply map_eq. intros k. apply option_eq. intros x. rewrite !map_lookup_filter_Some, lookup_delete_Some.
    cbn. naive_solver.
Qed.

(** A newcomer takes its slot. *)
Lemma history_came events p h before : history events p ->
  (forall g, p !! key h = Some g -> accepts g h = true) ->
  cames before = [] ->
  (forall x, x ∈ settled (events ++ before) -> x ∈ settled events \/ p !! key h = Some x) ->
  (forall a, usize_of (size (owned (<[key h := h]> p) a)) <= limit)%N ->
  history (events ++ before ++ [Came h]) (<[key h := h]> p).
Proof.
  intros Hp Hacc Hb Hset Hsize. pose proof Hp as [Hk Hl Hc Hn Hs].
  assert (cames (events ++ before ++ [Came h]) = cames events ++ [h]) as Ec by (by rewrite !omap_app, Hb).
  split.
  - intros k g. rewrite lookup_insert_Some. intros [[<- ->]|[_ Hg]]; [done|by apply Hk].
  - intros k. rewrite Ec, filter_app. destruct (decide (key h = k)) as [<-|Hne].
    + rewrite lookup_insert_eq, filter_cons_True, filter_nil by done. by rewrite last_snoc.
    + rewrite lookup_insert_ne, filter_cons_False, filter_nil by done. by rewrite app_nil_r.
  - intros g x. rewrite Ec, elem_of_app, list_elem_of_singleton. intros [Hg| ->].
    + rewrite lookup_insert_Some. intros [[E <-]|[_ Hx]]; [|by apply Hc].
      destruct (came_slot _ _ _ Hp Hg) as [y Hy]. specialize (Hacc y). rewrite E in Hacc.
      destruct (Hc g y Hg Hy) as [->|Hgy]; [right; by apply Hacc|]. right. eapply accepts_trans; [exact Hgy|by apply Hacc].
    + rewrite lookup_insert_eq. intros [= ->]. by left.
  - done.
  - intros x. rewrite app_assoc. unfold settled. rewrite foldl_snoc. cbn. fold (settled (events ++ before)).
    intros [Hx Hne]%elem_of_difference. rewrite not_elem_of_singleton in Hne. rewrite lookup_insert_Some.
    intros [[_ ->]|[Hkey Hx']]; [done|]. destruct (Hset x Hx) as [H|H]; [by apply (Hs x)|].
    apply Hk in H. congruence.
Qed.

(** A refused hash is not the holder. *)
Lemma history_gone events p h : history events p -> p !! key h <> Some h -> history (events ++ [Gone h]) p.
Proof.
  intros [Hk Hl Hc Hn Hs] Hh. assert (cames (events ++ [Gone h]) = cames events) as Ec by (rewrite omap_app; apply app_nil_r).
  split; rewrite ?Ec; try done. intros x. unfold settled. rewrite foldl_snoc. cbn.
  intros [->%elem_of_singleton|Hx]%elem_of_union; [done|by apply Hs].
Qed.

Lemma history_step events p h : history events p -> history (events ++ (pool_admit h p).1) (pool_admit h p).2.
Proof.
  intros Hp. unfold pool_admit. destruct (p !! key h) as [g|] eqn:Hg.
  - destruct (decide (g = h)) as [->|Hne]; [by rewrite app_nil_r|]. destruct (accepts g h) eqn:Ha; cbn [fst snd].
    + apply (history_came events p h [Gone g]); try done.
      * intros x. rewrite Hg. by intros [= <-].
      * intros x. unfold settled. rewrite foldl_snoc. cbn. rewrite elem_of_union, elem_of_singleton, Hg. naive_solver.
      * intros a. rewrite (owned_replace p h g) by done. apply (hi_limit _ _ Hp).
    + apply history_gone; [done|congruence].
  - destruct (limit <=? _)%N eqn:Hlim; cbn [fst snd]; [apply history_gone; [done|congruence]|].
    apply N.leb_gt in Hlim. apply (history_came events p h []); try done.
    + intros x. rewrite Hg. done.
    + intros x. rewrite app_nil_r. by left.
    + intros a. rewrite (owned_insert p h a Hg). pose proof (hi_limit _ _ Hp a). case_decide; subst; lia.
Qed.

(** ** Admitting again *)
Section again.
Context (events : list pool_event) (p : HashPool) (Hp : history events p).

(** What stays true of the pool that is rebuilt: its slots are slots of [p],
    held by hashes that came for them at some time. *)
Record rebuilding (q : HashPool) : Prop := {
  rb_key k h : q !! k = Some h -> key h = k;
  rb_came k h : q !! k = Some h -> h ∈ cames events;
}.

Lemma rebuilding_slot q k h : rebuilding q -> q !! k = Some h -> is_Some (p !! k).
Proof. intros [Hk Hc] H. rewrite <-(Hk _ _ H). eapply came_slot; [done|by eapply Hc]. Qed.

(** The limit never refuses a slot of [p]. *)
Lemma rebuilding_room q h : rebuilding q -> is_Some (p !! key h) -> q !! key h = None ->
  (usize_of (size (owned q (key h).1)) < limit)%N.
Proof.
  intros Hq Hh Hn. pose proof (hi_limit _ _ Hp (key h).1) as Hlim.
  enough (size (owned q (key h).1) < size (owned p (key h).1))%nat by (unfold usize_of in *; lia).
  rewrite <-!size_dom. apply subset_size. split.
  - intros k [x Hx]%elem_of_dom. apply map_lookup_filter_Some in Hx as [Hx Ha]. cbn in Ha.
    destruct (rebuilding_slot q k x Hq Hx) as [y Hy]. apply elem_of_dom. exists y. by apply map_lookup_filter_Some.
  - intros Hsub. destruct Hh as [y Hy]. assert (key h ∈ dom (owned p (key h).1)) as Hin.
    { apply elem_of_dom. exists y. by apply map_lookup_filter_Some. }
    apply Hsub, elem_of_dom in Hin as [x Hx]. apply map_lookup_filter_Some in Hx as [Hx _]. congruence.
Qed.

Lemma rebuild_step q h : rebuilding q -> h ∈ cames events ->
  rebuilding (pool_admit h q).2 /\
  (forall k, k <> key h -> (pool_admit h q).2 !! k = q !! k) /\
  (p !! key h = Some h -> (pool_admit h q).2 !! key h = Some h).
Proof.
  intros Hq Hh. pose proof Hq as [Hk Hc]. assert (rebuilding (<[key h := h]> q)) as Hins.
  { split; intros k x; rewrite lookup_insert_Some; intros [[<- <-]|[_ Hx]]; eauto. }
  unfold pool_admit. destruct (q !! key h) as [g|] eqn:Hg.
  - destruct (decide (g = h)) as [->|Hne]; [by split_and!|]. destruct (accepts g h) eqn:Ha; cbn [snd].
    + split_and!; [done|intros k Hkk; by apply lookup_insert_ne|by rewrite lookup_insert_eq].
    + split_and!; [done..|]. intros Hph. exfalso. pose proof (Hk _ _ Hg) as E. rewrite <-E in Hph.
      destruct (hi_best _ _ Hp g h (Hc _ _ Hg) Hph) as [->|]; congruence.
  - rewrite (proj2 (N.leb_gt _ _)) by (apply rebuilding_room; [done|by eapply came_slot|done]). cbn [snd].
    split_and!; [done|intros k Hkk; by apply lookup_insert_ne|by rewrite lookup_insert_eq].
Qed.

Lemma rebuild_all hs q : rebuilding q -> (forall h, h ∈ hs -> h ∈ cames events) ->
  rebuilding (pool_admit_all hs q) /\
  forall k, match list.last (filter (fun h => key h = k) hs) with
            | Some h => p !! k = Some h -> pool_admit_all hs q !! k = Some h
            | None => pool_admit_all hs q !! k = q !! k
            end.
Proof.
  intros Hq. induction hs as [|h hs IH] using rev_ind; intros Hhs; [by split|].
  destruct IH as [IH1 IH2]; [intros; apply Hhs, elem_of_app; by left|].
  unfold pool_admit_all. rewrite foldl_snoc. fold (pool_admit_all hs q).
  destruct (rebuild_step (pool_admit_all hs q) h IH1) as (H1 & H2 & H3); [apply Hhs, elem_of_app; right; by left|].
  split; [done|]. intros k. rewrite filter_app. destruct (decide (key h = k)) as [<-|Hne].
  - rewrite filter_cons_True, filter_nil by done. by rewrite last_snoc.
  - rewrite filter_cons_False, filter_nil, app_nil_r by done. rewrite H2 by done. apply IH2.
Qed.
End again.

(** The earlier pool [p1] has the events [before ++ lag]; [p] those and
    [after].  The tail [lag ++ after] rebuilds [p] from what it leaves of [p1]. *)
Lemma pool_recovers before lag after p1 p :
  history (before ++ lag) p1 -> history (before ++ lag ++ after) p ->
  pool_admit_all (cames (lag ++ after)) (filter (fun kv => kv.2 ∉ settled (lag ++ after)) p1) = p.
Proof.
  intros H1 H. set (tail := lag ++ after). set (kept := filter _ p1).
  assert (rebuilding (before ++ tail) kept) as Hkept.
  { split; intros k h Hh; unfold kept in Hh; apply map_lookup_filter_Some in Hh as [Hh _].
    - by apply (hi_key _ _ H1).
    - apply (holder_came _ _ _ _ H1) in Hh as [Hh _]. unfold tail. rewrite app_assoc, omap_app, elem_of_app. by left. }
  destruct (rebuild_all _ p H (cames tail) kept Hkept) as [Hq Hlast].
  { intros h Hh. rewrite omap_app, elem_of_app. by right. }
  apply map_eq. intros k. specialize (Hlast k). destruct (p !! k) as [x|] eqn:Hx.
  - pose proof (hi_last _ _ H k) as Hpk. rewrite Hx, omap_app, filter_app, last_app in Hpk.
    destruct (list.last (filter _ (cames tail))) as [y|] eqn:Hy;
      fold tail in Hpk; rewrite Hy in Hpk.
    + injection Hpk as ->. by apply Hlast.
    + rewrite Hlast. unfold kept. apply map_lookup_filter_Some. split.
      * rewrite (hi_last _ _ H1), omap_app, filter_app, last_app.
        unfold tail in Hy. rewrite omap_app, filter_app, last_app in Hy.
        destruct (list.last (filter _ (cames after))); [discriminate Hy|]. by rewrite Hy.
      * cbn. intros Hset. apply (hi_settled _ _ H x).
        -- by eapply settled_suffix.
        -- pose proof (hi_key _ _ H _ _ Hx) as E. congruence.
  - apply eq_None_not_Some. intros [y Hy]. destruct (rebuilding_slot _ p H _ k y Hq Hy). congruence.
Qed.
End pool.
