(* ===== verification/Restart.v ===== *)
(** * Restart: the scheduler after a restart is the live scheduler

    The last link of the chain: the live pipeline ([LivePipeline]) hands its
    writes to the storage writer ([StorageWriter]), the snapshot task stores
    the scheduler from time to time, and the start of the server rebuilds the
    scheduler from the store ([Recovery]).  The transactions are named by
    their hashes and the admissions are runs of a pool of hashes
    ([RestartPool]). *)
From stdpp Require Import base gmap strings list numbers sorting.
From S2P Require Import Prelude Common EventLog Scheduler SchedulerQueue SchedulerInvariant SchedulerRefinement SchedulerViews SchedulerSnapshot SchedulerActor.
From S2P Require Import ReplayMempool Storage StorageIndex StorageTables StorageProps Wal StorageWriter Recovery.
From S2P Require Import LiveHex LiveState LiveConfig LiveDecode LiveProgram LivePipeline LiveLog LiveMirror EndToEnd RestartPool.

(** ** What the payloads say of the pool *)
Definition payload_event (p : EventPayload) : option pool_event :=
  match p with
  | PTxDecoded d => Some (Came (dec_hash d))
  | PTxReorged r => Some (Came (reorged_hash r))
  | PTxDropped d => Some (Gone (dropped_hash d))
  | PTxReplaced r => Some (Gone (replaced_hash r))
  | PTxConfirmedProvisional c | PTxConfirmedFinal c => Some (Gone (confirmed_hash c))
  | _ => None
  end.
Abbreviation pool_events := (omap payload_event).

Lemma settled_payloads (tail : list EventEnvelope) : settled_hashes tail = settled (pool_events (payload <$> tail)).
Proof.
  unfold settled_hashes, settled. generalize (∅ : gset TxHash). induction tail as [|e tail IH]; intros r; [done|].
  cbn [foldl]. rewrite IH. csimpl. unfold settle_event. by destruct (payload e).
Qed.

Lemma inert_events l : Forall (fun p => inert p = true) l -> pool_events l = [].
Proof. induction 1 as [|p l Hp _ IH]; [done|]. csimpl. rewrite IH. by destruct p. Qed.

(** The hash in every slot. *)
Definition pool_view (s : SchedulerState) : HashPool := vt_hash <$> abs_pool s.

Section content.
Context (content : TxHash -> TxDecoded) (config : SchedulerConfig).

(** A hash determines its transaction. *)
Definition content_key (h : TxHash) : Address * N := (dec_sender (content h), dec_nonce (content h)).
Definition bare (h : TxHash) : ValidatedTransaction :=
  {| vt_source_id := ""; vt_observed_at_unix_ms := 0; vt_observed_at_mono_ns := 0; vt_calldata := []; vt_decoded := content h |}.
Definition content_accepts (g h : TxHash) : bool :=
  (replacement_threshold_fee (bare g) (replacement_fee_bump_bps config) <=? tx_fee (bare h))%N.
Definition known_tx (tx : ValidatedTransaction) : Prop := vt_decoded tx = content (vt_hash tx).

Lemma threshold_spec tx bps q : (replacement_threshold_fee tx bps <= q)%N <->
  (N.min (tx_fee tx * N.min (10000 + bps) u128_max) u128_max <= q * 10000)%N.
Proof. unfold replacement_threshold_fee. by rewrite div_ceil_spec. Qed.

(** Replacement is transitive, also where the threshold saturates. *)
Lemma content_accepts_trans g h k :
  content_accepts g h = true -> content_accepts h k = true -> content_accepts g k = true.
Proof.
  unfold content_accepts. rewrite !N.leb_le, !threshold_spec. set (bps := replacement_fee_bump_bps config).
  set (a := tx_fee (bare g)). set (b := tx_fee (bare h)). set (c := tx_fee (bare k)).
  assert (10000 <= N.min (10000 + bps) u128_max)%N as HB by (unfold u128_max; lia).
  set (B := N.min (10000 + bps) u128_max) in *. intros H1 H2.
  assert (b * 10000 <= b * B)%N by (apply N.mul_le_mono_l; exact HB). lia.
Qed.

Record known_pool (s : SchedulerState) : Prop := {
  kp_queues : queues_wf (pending s) (sender_queues s);
  kp_content h tx : pending s !! h = Some tx -> vt_decoded tx = content h;
}.

Lemma known_hash s h tx : known_pool s -> pending s !! h = Some tx -> vt_hash tx = h /\ pool_key tx = content_key h.
Proof.
  intros [Hwf Hc] Hh. split; [by destruct (qw_pending _ _ Hwf _ _ Hh)|].
  unfold pool_key, vt_sender, vt_nonce. by rewrite (Hc _ _ Hh).
Qed.

Lemma view_slot s a n : queues_wf (pending s) (sender_queues s) -> pool_view s !! (a, n) = slot s a n.
Proof.
  intros Hwf. unfold pool_view. rewrite lookup_fmap, abs_pool_slot by done.
  destruct (slot s a n) as [h|] eqn:Hs; [|done]. destruct (slot_is_pending _ _ _ _ Hwf Hs) as [tx Htx].
  cbn. rewrite Htx. cbn. by destruct (qw_pending _ _ Hwf _ _ Htx) as [-> _].
Qed.

Lemma view_Some s k h : known_pool s -> pool_view s !! k = Some h <-> is_Some (pending s !! h) /\ content_key h = k.
Proof.
  intros Hs. pose proof Hs as [Hwf _]. unfold pool_view. rewrite lookup_fmap, fmap_Some. split.
  - intros (tx & Htx & ->). apply abs_pool_Some in Htx as [Htx <-]; [|done]. split; [eauto|].
    symmetry. by apply (known_hash s).
  - intros [[tx Htx] <-]. destruct (known_hash _ _ _ Hs Htx) as [E Hk]. exists tx. split; [|done].
    apply abs_pool_Some; [done|]. by rewrite E.
Qed.

Lemma owned_view s a : queues_wf (pending s) (sender_queues s) ->
  usize_of (size (owned (pool_view s) a)) = sender_len s a.
Proof.
  intros Hwf. rewrite <-sender_part_size by done. unfold owned, pool_view, sender_part.
  by rewrite map_filter_fmap, map_size_fmap.
Qed.

Lemma known_same s s' : same_pool s s' -> known_pool s -> known_pool s' /\ pool_view s' = pool_view s.
Proof.
  intros [Hp Hq] [Hwf Hc]. split; [|by unfold pool_view; rewrite (abs_pool_same s s')].
  split; [by rewrite Hp, Hq|intros h tx; rewrite Hp; apply Hc].
Qed.

Abbreviation step h p := (pool_admit content_key content_accepts (max_pending_per_sender config) h p).

(** An admission is a step of the pool of hashes. *)
Lemma admit_view tx s : known_pool s -> known_tx tx ->
  pool_events (admission_payloads tx (admission (admit_tx config tx s).1)) = (step (vt_hash tx) (pool_view s)).1 /\
  pool_view (admit_tx config tx s).2 = (step (vt_hash tx) (pool_view s)).2 /\ known_pool (admit_tx config tx s).2.
Proof.
  intros Hs Htx. pose proof Hs as [Hwf Hc]. pose proof (admit_queues_wf config tx s Hwf) as Hwf'.
  pose proof (admit_branch_spec config tx s Hwf) as Hb. unfold known_tx in Htx.
  assert (content_key (vt_hash tx) = pool_key tx) as Hkey by (unfold content_key, pool_key, vt_sender, vt_nonce; by rewrite Htx).
  assert (pool_view s !! pool_key tx = slot s (vt_sender tx) (vt_nonce tx)) as Hlook by (by apply view_slot).
  unfold pool_admit. rewrite Hkey, Hlook. change (pool_key tx).1 with (vt_sender tx). rewrite owned_view by done.
  remember (admission (admit_tx config tx s).1) as o eqn:Ho; clear Ho.
  remember (pending (admit_tx config tx s).2) as p' eqn:Hp'.
  remember (sender_queues (admit_tx config tx s).2) as qs' eqn:Hqs'.
  assert (forall g inc, pending s !! g = Some inc ->
    content_accepts g (vt_hash tx) = (replacement_threshold_fee inc (replacement_fee_bump_bps config) <=? tx_fee tx)%N) as Hacc.
  { intros g inc Hg. unfold content_accepts, replacement_threshold_fee, tx_fee. cbn [bare vt_decoded].
    by rewrite <-Htx, (Hc _ _ Hg). }
  assert (p' = pending s -> pool_view (admit_tx config tx s).2 = pool_view s) as Hsame.
  { intros E. unfold pool_view. by rewrite (abs_pool_same s) by congruence. }
  assert (forall q, (forall h t, q !! h = Some t -> vt_decoded t = content h) -> p' = <[vt_hash tx := tx]> q ->
    queues_wf p' qs' -> known_pool (admit_tx config tx s).2) as Hknown.
  { intros q Hq E Hw. split; [congruence|]. rewrite <-Hp', E. intros h t.
    rewrite lookup_insert_Some. intros [[<- <-]|[_ Ht]]; [done|by eapply Hq]. }
  assert (p' = pending s -> queues_wf p' qs' -> known_pool (admit_tx config tx s).2) as Hkeep.
  { intros E Hw. split; [congruence|]. by rewrite <-Hp', E. }
  destruct Hb as [Hdup|Hnew Hslot Hlen|Hnew Hslot Hlen|h inc Hnew Hslot Hinc Hfee|h inc Hnew Hslot Hinc Hfee];
    cbn [admission_payloads].
  - destruct Hdup as [t Ht]. assert (slot s (vt_sender tx) (vt_nonce tx) = Some (vt_hash tx)) as Hslot.
    { destruct (known_hash _ _ _ Hs Ht) as [_ E]. rewrite Hkey in E. injection E as <- <-. by apply pending_slot. }
    rewrite Hslot, decide_True by done. cbn. auto.
  - rewrite Hslot, (proj2 (N.leb_le _ _) Hlen). cbn. auto.
  - rewrite Hslot, (proj2 (N.leb_gt _ _) Hlen). cbn. split; [done|]. split; [|by eapply Hknown].
    unfold pool_view. rewrite (abs_pool_insert s _ tx None) by (done || congruence). by rewrite fmap_insert.
  - rewrite Hslot, decide_False by (intros ->; congruence). rewrite (Hacc h inc Hinc), (proj2 (N.leb_gt _ _) Hfee).
    cbn. auto.
  - rewrite Hslot, decide_False by (intros ->; congruence). rewrite (Hacc h inc Hinc), (proj2 (N.leb_le _ _) Hfee).
    cbn. split; [done|]. split.
    + unfold pool_view. rewrite (abs_pool_insert s _ tx (Some h)) by (done || congruence). by rewrite fmap_insert.
    + eapply Hknown; [|done|done]. intros k t [_ Ht]%lookup_delete_Some. by apply Hc.
Qed.

Lemma admit_all_view txs s : known_pool s -> Forall known_tx txs ->
  known_pool (admit_all config txs s) /\
  pool_view (admit_all config txs s) =
    pool_admit_all content_key content_accepts (max_pending_per_sender config) (vt_hash <$> txs) (pool_view s).
Proof.
  intros Hs Htxs. revert s Hs. induction Htxs as [|tx txs Htx _ IH]; intros s Hs; [done|].
  destruct (admit_view tx s Hs Htx) as (_ & Hv & Hk). destruct (IH _ Hk) as [H1 H2]. split; [done|].
  cbn. unfold admit_all in H2 |- *. cbn [foldl]. by rewrite H2, Hv.
Qed.

(** Known pools with the same view hold the same transactions. *)
Lemma known_view_eq s s' : known_pool s -> known_pool s' -> pool_view s = pool_view s' ->
  sender_queues s = sender_queues s' /\ forall h, vt_decoded <$> pending s !! h = vt_decoded <$> pending s' !! h.
Proof.
  intros Hs Hs' E. pose proof Hs as [Hwf Hc]. pose proof Hs' as [Hwf' Hc'].
  assert (forall a n, slot s a n = slot s' a n) as Hslot by (intros; by rewrite <-!view_slot, E).
  split.
  - apply map_eq. intros a. unfold slot in Hslot. specialize (Hslot a).
    destruct (sender_queues s !! a) as [q|] eqn:H1, (sender_queues s' !! a) as [q'|] eqn:H2; cbn in Hslot; [f_equal| | |done].
    + by apply map_eq.
    + destruct (qw_nonempty _ _ Hwf a q H1). by apply map_empty.
    + destruct (qw_nonempty _ _ Hwf' a q' H2). by apply map_empty.
  - intros h. destruct (pending s !! h) as [t|] eqn:H1, (pending s' !! h) as [t'|] eqn:H2; cbn; [| | |done].
    + by rewrite (Hc _ _ H1), (Hc' _ _ H2).
    + exfalso. assert (pool_view s !! content_key h = Some h) as Hv by (apply view_Some; eauto).
      rewrite E in Hv. apply view_Some in Hv as [[] _]; congruence.
    + exfalso. assert (pool_view s' !! content_key h = Some h) as Hv by (apply view_Some; eauto).
      rewrite <-E in Hv. apply view_Some in Hv as [[] _]; congruence.
Qed.

(** Stripping the settled hashes strips the pool. *)
Lemma kept_view removed s : known_pool s ->
  known_pool (kept_state removed s) /\ pool_view (kept_state removed s) = filter (fun kv => kv.2 ∉ removed) (pool_view s).
Proof.
  intros Hs. pose proof Hs as [Hwf Hc]. assert (known_pool (kept_state removed s)) as Hk.
  { split; [by apply keep_wf|]. intros h tx. change (pending (kept_state removed s)) with (keep_pending removed (pending s)).
    intros [Htx _]%keep_pending_lookup. by apply Hc. }
  split; [done|]. apply map_eq. intros k. apply option_eq. intros h. rewrite map_lookup_filter_Some, !view_Some by done.
  change (pending (kept_state removed s)) with (keep_pending removed (pending s)). cbn. split.
  - intros [[tx [Htx Hn]%keep_pending_lookup] Hkey]. destruct (known_hash _ _ _ Hs Htx) as [<- _]. eauto.
  - intros [[[tx Htx] Hkey] Hn]. split; [|done]. exists tx. apply keep_pending_lookup.
    by destruct (known_hash _ _ _ Hs Htx) as [-> _].
Qed.
End content.

(** ** The live feed *)

(** What the live feed can log: every decoded transaction is its hash's. *)
Definition live_payload (content : TxHash -> TxDecoded) (p : EventPayload) : Prop :=
  match p with
  | PTxDecoded d => d = content (dec_hash d)
  | PTxReorged _ | PTxConfirmedProvisional _ | PTxConfirmedFinal _ => False
  | _ => True
  end.

(** The rows of a feed carry the transactions of their hashes. *)
Definition known_row (chain : ChainRpcConfig) (content : TxHash -> TxDecoded) (fetched_tx : option LiveTx) : Prop :=
  match fetched_tx with
  | Some tx => vt_decoded (validated_transaction_from_live_tx chain 0 0 tx) = content (lt_hash tx)
  | None => True
  end.

Lemma inert_live content l : Forall (fun p => inert p = true) l -> Forall (live_payload content) l.
Proof. intros H. eapply Forall_impl; [exact H|]. by intros []. Qed.

Lemma transitions_live content ts : Forall (live_payload content) (queue_transition_payload <$> ts) /\
  pool_events (queue_transition_payload <$> ts) = [].
Proof.
  induction ts as [|t ts [IH1 IH2]]; [done|]. csimpl. rewrite IH2. unfold queue_transition_payload.
  destruct (tr_state t); (split; [by constructor|done]).
Qed.

Lemma admission_live content tx o : known_tx content tx -> Forall (live_payload content) (admission_payloads tx o).
Proof. intros Htx. destruct o; cbn; repeat constructor; exact Htx. Qed.

Section feed.
Context {S : Type} (config : SchedulerConfig) (sched : S -> SchedulerState) (env : forall c : call, S -> reply c * S).
Context (Howns : owns_scheduler config sched env).
Context (chain : ChainRpcConfig) (cap workers : N) (content : TxHash -> TxDecoded).

Abbreviation pool_history := (history (content_key content) (content_accepts content config) (max_pending_per_sender config)).

Lemma process_history observation hash fetched_tx s events : known_pool content (sched s) ->
  pool_history events (pool_view (sched s)) -> known_row chain content fetched_tx ->
  let o := run env (process_pending_hash chain cap workers observation hash fetched_tx) s in
  clean (run_log o) -> run_value o = inl tt /\ known_pool content (sched (run_state o)) /\
    pool_history (events ++ pool_events (logged (run_log o))) (pool_view (sched (run_state o))) /\
    Forall (live_payload content) (logged (run_log o)).
Proof.
  intros Hs Hh Hrow. cbv zeta. intros Hclean.
  destruct (process_shape config sched env Howns chain cap workers observation hash fetched_tx s Hclean) as [Hv Hshape].
  split; [exact Hv|]. destruct fetched_tx as [tx|].
  - destruct Hshape as (s1 & before & after & Hs1 & -> & Hb & Ha & Hend).
    set (validated := validated_transaction_from_live_tx _ _ _ _) in *.
    assert (known_tx content validated) as Htx by exact Hrow.
    destruct (known_same content _ _ Hs1 Hs) as [Hk1 Hv1]. rewrite <-Hv1 in Hh.
    destruct (admit_view content config validated (sched s1) Hk1 Htx) as (He & Hv2 & Hk2).
    destruct (known_same content _ _ Hend Hk2) as [Hk3 Hv3]. split; [done|].
    destruct (transitions_live content (queue_transitions (admit_tx config validated (sched s1)).1)) as [Ht1 Ht2].
    split.
    + rewrite !omap_app, (inert_events before), (inert_events after), Ht2, He, Hv3, Hv2 by done.
      cbn [app]. rewrite app_nil_r. by apply history_step; [apply content_accepts_trans|].
    + rewrite !Forall_app. split_and!; [by apply inert_live|by apply admission_live|done|by apply inert_live].
  - destruct Hshape as [Hl Hend]. destruct (known_same content _ _ Hend Hs) as [Hk Hv']. split; [done|].
    rewrite inert_events, app_nil_r, Hv' by done. split; [done|by apply inert_live].
Qed.

Lemma rows_history rows s events : known_pool content (sched s) ->
  pool_history events (pool_view (sched s)) -> Forall (fun row => known_row chain content row.2) rows ->
  let o := run env (process_rows chain cap workers rows) s in
  clean (run_log o) -> known_pool content (sched (run_state o)) /\
    pool_history (events ++ pool_events (logged (run_log o))) (pool_view (sched (run_state o))) /\
    Forall (live_payload content) (logged (run_log o)).
Proof.
  intros Hs Hh Hrows. revert s events Hs Hh.
  induction Hrows as [|[[observation hash] fetched_tx] rows Hrow _ IH]; intros s events Hs Hh; cbv zeta; cbn [process_rows].
  - intros _. cbn. rewrite app_nil_r. split_and!; [done|done|constructor].
  - rewrite run_bind. cbv zeta. pose proof (process_history observation hash fetched_tx s events Hs Hh Hrow) as Hone.
    cbv zeta in Hone. destruct (run env (process_pending_hash chain cap workers observation hash fetched_tx) s) as [log v s1].
    cbn [run_log run_value run_state] in *. rewrite logged_app, omap_app, app_assoc, Forall_app.
    intros [Hc1 Hc2]%clean_app. destruct (Hone Hc1) as (-> & Hk1 & Hh1 & Hl1). destruct (IH s1 _ Hk1 Hh1 Hc2) as (H1 & H2 & H3).
    by split_and!.
Qed.
End feed.

(** ** The replayed tail *)
Lemma filter_ids_drop (l : list EventEnvelope) (seen start : nat) :
  (forall i e, l !! i = Some e -> seq_id e = usize_of (S (start + i))) ->
  filter (fun e => (usize_of seen < seq_id e)%N) l = drop (seen - start) l.
Proof.
  revert start. induction l as [|e l IH]; intros start Hids; [by rewrite drop_nil|].
  assert (seq_id e = usize_of (S start)) as He by (rewrite (Hids 0%nat e eq_refl); f_equal; lia).
  assert (forall i e, l !! i = Some e -> seq_id e = usize_of (S (S start + i))) as Hids'.
  { intros i e' Hi. rewrite (Hids (S i) e' Hi). f_equal. lia. }
  specialize (IH (S start) Hids'). rewrite filter_cons. case_decide as Hd; rewrite He in Hd; unfold usize_of in Hd.
  - replace (seen - start)%nat with 0%nat by lia. rewrite IH. replace (seen - S start)%nat with 0%nat by lia. done.
  - rewrite IH. destruct (seen - start)%nat as [|n] eqn:En; [lia|]. cbn. f_equal. lia.
Qed.

Lemma tail_transactions content store (tail : list EventEnvelope) : Forall (live_payload content) (payload <$> tail) ->
  let txs := omap (validated_transaction_from_event store) tail in
  Forall (known_tx content) txs /\ vt_hash <$> txs = omap came (pool_events (payload <$> tail)).
Proof.
  cbv zeta. intros Hl. rewrite Forall_fmap in Hl. induction Hl as [|e tail He _ [IH1 IH2]]; [done|].
  destruct e as [seq ms ns src p]. cbn in He. destruct p; csimpl; try done.
  rewrite IH2. split; [by constructor|done].
Qed.

Lemma no_finality content ops : Forall (live_payload content) (payload <$> omap appended ops) -> omap told_final ops = [].
Proof.
  induction ops as [|op ops IH]; [done|]. destruct op; csimpl; try exact IH.
  intros [He Hl]%Forall_cons. destruct (payload event); try done; by apply IH.
Qed.

(** A snapshot reads the pending transactions and the queues only. *)
Lemma snapshot_of_pool seq s ms ns :
  snapshot_to_write seq s ms ns = snapshot_to_write seq (queue_state (pending s) (sender_queues s)) ms ns.
Proof. by destruct s. Qed.

Lemma omap_length_le {A B} (f : A -> option B) l : (length (omap f l) <= length l)%nat.
Proof. induction l as [|x l IH]; csimpl; [done|]. destruct (f x); csimpl; lia. Qed.

Lemma history_fits content config events s : known_pool content s ->
  history (content_key content) (content_accepts content config) (max_pending_per_sender config) events (pool_view s) ->
  (usize_of (length events) <= u64_max)%N -> fits (pending s).
Proof.
  intros Hs Hh Hlen. unfold fits. enough (size (pending s) <= length events)%nat by (unfold usize_of in *; lia).
  rewrite <-length_bt_iter, <-(length_fmap fst). fold (bt_keys (pending s)).
  trans (length (omap came events)); [|apply omap_length_le].
  apply submseteq_length, NoDup_submseteq; [apply bt_keys_NoDup|]. intros h Hin%elem_of_bt_keys.
  apply (holder_came _ _ _ _ _ (content_key content h) h Hh). by apply (view_Some content _ _ _ Hs).
Qed.

(** Stripping nothing that is pending leaves the frontier as it was. *)
Lemma frontier_unsettled p qs removed : let s := queue_state p qs in scheduler_wf s ->
  (forall h, is_Some (p !! h) -> h ∉ removed) ->
  executable_frontier_hashes (kept_state removed s) = filter (fun h => h ∉ removed) (executable_frontier_hashes s).
Proof.
  intros s Hwf Hn. destruct (keep_agree s removed ∅ Hwf) as (Hp & Hq & Hf); [|destruct (keep_nothing s Hwf) as [Hp0 Hq0]].
  - intros h Hh. split; [intros Hr; by destruct (Hn h Hh)|set_solver].
  - rewrite Hf. unfold kept_state. rewrite Hp, Hq, Hp0, Hq0. rewrite filter_all; [done|]. set_solver.
Qed.

(** ** The restart *)

(** The rebuilt scheduler: the pool [s1] whose events are [before ++ lag],
    stripped of what the tail settles, with the transactions of the tail
    admitted again. *)
Section rebuilt.
Context (content : TxHash -> TxDecoded) (config : SchedulerConfig).
Context (s1 s2 : SchedulerState) (before lag after : list pool_event) (store : InMemoryStorage) (tail : list EventEnvelope).
Context (Hk1 : known_pool content s1) (Hk2 : known_pool content s2).
Context (Hh1 : history (content_key content) (content_accepts content config) (max_pending_per_sender config)
                 (before ++ lag) (pool_view s1)).
Context (Hh2 : history (content_key content) (content_accepts content config) (max_pending_per_sender config)
                 (before ++ lag ++ after) (pool_view s2)).
Context (Hlive : Forall (live_payload content) (payload <$> tail)).
Context (Htail : pool_events (payload <$> tail) = lag ++ after).

Abbreviation rebuilt_state :=
  (admit_all config (omap (validated_transaction_from_event store) tail) (kept_state (settled_hashes tail) s1)).

Lemma rebuilt_same : sender_queues rebuilt_state = sender_queues s2 /\
  forall h, vt_decoded <$> pending rebuilt_state !! h = vt_decoded <$> pending s2 !! h.
Proof using Hk1 Hk2 Hh1 Hh2 Hlive Htail.
  destruct (kept_view content (settled_hashes tail) s1 Hk1) as [Hk Hv].
  destruct (tail_transactions content store tail Hlive) as [Htxs Hhashes].
  destruct (admit_all_view content config _ _ Hk Htxs) as [Hk' Hv']. apply (known_view_eq content); [done..|].
  rewrite Hv', Hv, Hhashes, settled_payloads, Htail.
  by apply (pool_recovers _ _ _ before lag after).
Qed.

(** Nothing of the snapshot is settled while all of it is still pending. *)
Lemma nothing_settled h : is_Some (pending s1 !! h) -> is_Some (pending s2 !! h) -> h ∉ settled_hashes tail.
Proof using Hk2 Hh2 Htail.
  rewrite settled_payloads, Htail. intros _ Hp Hin. apply (hi_settled _ _ _ _ _ Hh2 h).
  - by apply settled_suffix.
  - by apply (view_Some content _ _ _ Hk2).
Qed.
End rebuilt.

(** C5: a start that is given the store of the last process resumes its feed
    (the server itself starts on a new store, [Startup.server_starts_empty]).
    The scheduler started empty; one worker processed rows, each hash with its
    one transaction, and only its admissions changed the queues; the storage
    queue took every write, no call failed, the store began empty and had room
    for all events. After some rows the snapshot task stored the scheduler with
    the id of the last event the store listed by then, however far the writer
    lagged; after more rows the process stopped, once the writer had handled
    every event. Then the start rebuilds exactly the live scheduler's
    transactions, in the same queues, or it discards everything and asks for a
    rebuild from RPC; the latter never while every transaction of the snapshot
    is still pending, that is, unless one was replaced. *)
Theorem restart_resumes_feed {S W} `{!DurableLog W} vars rehydration (sched : S -> SchedulerState) env chain cap workers
  content rows1 rows2 s0 wconfig sconfig timing (log : option W) inputs seen ms ns
  (Howns : owns_scheduler (resolve_scheduler_config vars) sched env) (Hstart : same_pool state_default (sched s0))
  (Hrows : Forall (fun row => known_row chain content row.2) (rows1 ++ rows2))
  (Hempty : default [] (log ≫= dl_recover) = []) :
  let first := run env (process_rows chain cap workers rows1) s0 in
  let second := run env (process_rows chain cap workers rows2) (run_state first) in
  let captured := sched (run_state first) in
  let live := sched (run_state second) in
  let store := wr_storage (writer_run wconfig (spawn_single_writer timing (with_config sconfig) log) inputs).2 in
  clean (run_log first ++ run_log second) ->
  omap op_payload (omap input_op inputs) = logged (run_log first ++ run_log second) ->
  list.last (omap input_snapshot inputs) = Some (snapshot_to_write seen captured ms ns) ->
  (default 0 seen <= usize_of (length (logged (run_log first))))%N ->
  (usize_of (length (logged (run_log first ++ run_log second))) <= N.min (event_capacity sconfig) u64_max)%N ->
  exists rebuild restored,
    bootstrap_scheduler vars rehydration store = Some (rebuild, (resolve_scheduler_config vars, restored)) /\
    (if rebuild then restored = state_default
     else sender_queues restored = sender_queues live /\
       forall h, vt_decoded <$> pending restored !! h = vt_decoded <$> pending live !! h) /\
    ((forall h, is_Some (pending captured !! h) -> is_Some (pending live !! h)) -> rebuild = false).
Proof.
  cbv zeta. intros [Hc1 Hc2]%clean_app Hfifo Hsnap Hseen Hcap. rewrite logged_app in Hfifo, Hcap.
  apply Forall_app in Hrows as [Hr1 Hr2]. set (cfg := resolve_scheduler_config vars) in *.
  set (first := run env _ s0) in *. set (second := run env _ (run_state first)) in *.
  assert (known_pool content state_default) as Hk0 by (split; [apply queues_wf_empty|done]).
  destruct (known_same content _ _ Hstart Hk0) as [Hk Hv0].
  assert (history (content_key content) (content_accepts content cfg) (max_pending_per_sender cfg) [] (pool_view (sched s0))) as Hh0.
  { rewrite Hv0. apply history_empty. }
  destruct (rows_history cfg sched env Howns chain cap workers content rows1 s0 [] Hk Hh0 Hr1 Hc1) as (Hk1 & Hh1 & Hl1).
  destruct (rows_history cfg sched env Howns chain cap workers content rows2 _ _ Hk1 Hh1 Hr2 Hc2) as (Hk2 & Hh2 & Hl2).
  fold first in Hk1, Hh1, Hl1, Hk2, Hh2, Hl2. fold second in Hk2, Hh2, Hl2. cbn [app] in Hh1, Hh2.
  destruct (stored_events wconfig sconfig timing log inputs Hempty) as (ops & Hst & Happ & Htold & Hp & _ & Hids);
    [by rewrite Hfifo|]. set (store := wr_storage _) in *.
  assert (Forall (live_payload content) (payload <$> list_events store)) as Hlive
    by (rewrite Hp, Hfifo; by apply Forall_app).
  set (n := N.to_nat (default 0%N seen)).
  assert (filter (fun e => (default 0 seen < seq_id e)%N) (list_events store) = drop n (list_events store)) as Htail.
  { rewrite <-(Nat.sub_0_r n), <-(filter_ids_drop (list_events store) n 0) by exact Hids.
    unfold n, usize_of. by rewrite N2Nat.id. }
  assert (payload <$> drop n (list_events store) = drop n (logged (run_log first)) ++ logged (run_log second)) as Hpt.
  { rewrite fmap_drop, Hp, Hfifo, drop_app_le; [done|]. unfold n, usize_of in *. lia. }
  set (captured := queue_state (pending (sched (run_state first))) (sender_queues (sched (run_state first)))).
  assert (same_pool (sched (run_state first)) captured) as Hcap1 by done.
  destruct (known_same content _ _ Hcap1 Hk1) as [Hkc Hvc].
  assert (fits (pending captured)) as Hfit.
  { apply (history_fits content cfg _ _ Hkc ltac:(rewrite Hvc; exact Hh1)).
    pose proof (omap_length_le payload_event (logged (run_log first))). rewrite length_app in Hcap. unfold usize_of in *. lia. }
  rewrite snapshot_of_pool in Hsnap. fold captured in Hsnap. rewrite <-Htold in Hsnap.
  assert (scheduler_wf captured) as Hwf.
  { unfold captured. rewrite <-recompute_default by (done || apply Hk1). apply recompute_wf; [apply Hk1|done]. }
  pose proof (bootstrap_snapshot vars rehydration sconfig ops captured seen ms ns Hwf Hfit Hsnap) as Hboot. cbv zeta in Hboot.
  rewrite <-Hst, Htail, (no_finality content ops) in Hboot by (by rewrite Happ).
  rewrite bool_decide_eq_false_2 in Hboot by (intros []; done).
  set (tail := drop n (list_events store)) in *.
  assert (pool_events (payload <$> tail) = pool_events (drop n (logged (run_log first))) ++ pool_events (logged (run_log second)))
    as Hev by (by rewrite Hpt, omap_app).
  set (before := pool_events (take n (logged (run_log first)))).
  assert (pool_events (logged (run_log first)) = before ++ pool_events (drop n (logged (run_log first)))) as Hbefore
    by (unfold before; by rewrite <-omap_app, take_drop).
  rewrite Hbefore, <-Hvc in Hh1. rewrite Hbefore, <-app_assoc in Hh2.
  assert (Forall (live_payload content) (payload <$> tail)) as Hlt by (unfold tail; rewrite fmap_drop; by apply Forall_drop).
  destruct (rebuilt_same content cfg captured _ _ _ _ store tail Hkc Hk2 Hh1 Hh2 Hlt Hev) as [Hq Hd].
  pose proof (nothing_settled content cfg captured _ _ _ _ tail Hk2 Hh2 Hev) as Hnone.
  case_decide as Hfront; [by exists false; eexists; split_and!; [exact Hboot|done|done|done]|].
  exists true, state_default. split_and!; [exact Hboot|done|]. intros Hall. exfalso. apply Hfront. right.
  by apply frontier_unsettled; [|intros h Hh; apply Hnone; [|apply Hall]].
Qed.

(** ** Concrete restarts *)
#[local] Existing Instance StorageWriter.sample_log.

Definition restart_content (h : TxHash) : TxDecoded :=
  let row := default (1%N, 7%N, 100%N) (list_find (fun r => r.1.1 = h) [(1, 7, 100); (2, 9, 100); (3, 7, 200); (5, 8, 100)]%N ≫= fun r => Some r.2) in
  vt_decoded (validated_transaction_from_live_tx sample_chain 0 0 (sample_live row.1.1 row.1.2 row.2)).
Definition feed1 : list (PendingHashObservation * TxHash * option LiveTx) := [sample_row 1 7 100; sample_row 5 8 100]%N.
Definition first_part := run sample_env (process_rows sample_chain 4 1 feed1) state_default.
Definition second_part rows := run sample_env (process_rows sample_chain 4 1 rows) (run_state first_part).
(** The snapshot is stored after the first part, when the store lists three
    events only; the sink always fails. *)
Definition stop_inputs rows : list (WriterInput * StepEnv) :=
  (fun op => (InOp op, StorageWriter.sample_env false)) <$>
    accepted_ops (run_log first_part) ++
    [WWriteSchedulerSnapshot (snapshot_to_write (Some 3%N) (run_state first_part) 2000 9)] ++
    accepted_ops (run_log (second_part rows)).
Definition restarted rows :=
  bootstrap_scheduler no_env rehydration_config_default
    (wr_storage (writer_run sample_writer_config
      (spawn_single_writer (fun _ => (0, 0, 0)%N) (with_config roomy_config) (Some sample_dir)) (stop_inputs rows)).2).

Lemma still_pending (h : TxHash) : is_Some (pending (run_state first_part) !! h) ->
  is_Some (pending (run_state (second_part [sample_row 2 9 100]%N)) !! h).
Proof.
  rewrite <-!elem_of_bt_keys. assert (bt_keys (pending (run_state first_part)) = [1; 5]%N) as -> by (vm_compute; reflexivity).
  assert (bt_keys (pending (run_state (second_part [sample_row 2 9 100]%N))) = [1; 2; 5]%N) as -> by (vm_compute; reflexivity).
  set_solver.
Qed.

Lemma restart_resumes_feed_witness :
  bt_keys (pending (run_state (second_part [sample_row 2 9 100]))) = [1; 2; 5]%N /\
  exists restored, restarted [sample_row 2 9 100]%N = Some (false, (scheduler_config_default, restored)) /\
    sender_queues restored = sender_queues (run_state (second_part [sample_row 2 9 100]%N)).
Proof.
  split; [vm_compute; reflexivity|].
  destruct (restart_resumes_feed no_env rehydration_config_default id LiveMirror.sample_env sample_chain 4 1 restart_content
    feed1 [sample_row 2 9 100]%N state_default sample_writer_config roomy_config (fun _ => (0, 0, 0)%N) (Some sample_dir)
    (stop_inputs [sample_row 2 9 100]%N) (Some 3%N) 2000 9
    (scripted_owns _ _ _) (conj eq_refl eq_refl)
    ltac:(repeat constructor) sample_dir_empty
    ltac:(vm_compute; split_and!; reflexivity) ltac:(vm_compute; reflexivity) ltac:(vm_compute; reflexivity)
    ltac:(vm_compute; congruence) ltac:(vm_compute; congruence)) as (rebuild & restored & Hboot & Hsame & Hok).
  rewrite Hok in Hboot, Hsame by exact still_pending.
  exists restored. split; [exact Hboot|apply Hsame].
Defined.

(** One replacement after the snapshot is enough to lose the pool: sender 5 has
    the nonces 7, 8 and 9 ready, and the transaction with nonce 8 is replaced
    by a better one.  The restart discards all three, although the store holds
    everything that is needed to rebuild them. *)
Example replacement_discards_pool :
  let first := run sample_env (process_rows sample_chain 4 1 [sample_row 1 7 100; sample_row 5 8 100; sample_row 2 9 100]%N)
                 state_default in
  let second := run sample_env (process_rows sample_chain 4 1 [sample_row 3 8 200]%N) (run_state first) in
  let inputs := (fun op => (InOp op, StorageWriter.sample_env true)) <$>
    accepted_ops (run_log first) ++
    [WWriteSchedulerSnapshot (snapshot_to_write (Some (usize_of (length (logged (run_log first))))) (run_state first) 2000 9)] ++
    accepted_ops (run_log second) in
  let store := wr_storage (writer_run sample_writer_config
    (spawn_single_writer (fun _ => (0, 0, 0)%N) (with_config roomy_config) (Some sample_dir)) inputs).2 in
  executable_frontier_hashes (run_state second) = [1; 3; 2]%N /\
  bootstrap_scheduler no_env rehydration_config_default store = Some (true, (scheduler_config_default, state_default)).
Proof. vm_compute. split; reflexivity. Qed.
