(* ===== verification/LiveSession.v ===== *)
(** * LiveSession: web-socket sessions and the chain worker
    (crates/runtime-core/src/live_rpc.rs)

    Notifications become hashes, hashes are remembered and fetched, fetched
    transactions are processed; a failed session rotates to the next endpoint.
    The frames a socket delivers are a list, the rest of the outside world
    answers the calls of [LiveProgram]. *)
From stdpp Require Import base gmap strings list numbers sorting.
From S2P Require Import Prelude Common EventLog Scheduler SeenWindow Storage LiveHex LiveState LiveConfig LiveDecode.
From S2P Require Import LiveProgram LivePipeline LiveMirror.

(** ** The status of a chain *)
Definition update_chain_status (now_unix_ms : Z) (chain : ChainRpcConfig) (update : ChainStatusUpdate)
    (m : gmap string LiveRpcChainStatus) : gmap string LiveRpcChainStatus :=
  let existing := List.find (fun status => bool_decide (cs_chain_key status = ch_chain_key chain)) (chain_status now_unix_ms m) in
  let last_pending_unix_ms :=
    if su_observed_pending update || bool_decide (su_state update = "subscribed") then Some now_unix_ms
    else existing ≫= cs_last_pending_unix_ms in
  let rotation_count :=
    sat_add u64_max (default 0%N (cs_rotation_count <$> existing)) (if su_increment_rotation update then 1 else 0) in
  upsert_chain_status
    (mkChainStatus (ch_chain_key chain) (ch_chain_id chain) (ch_source_id chain) (su_state update)
       (su_endpoint_index update) (usize_of (length (ch_endpoints chain))) (ep_ws_url (su_endpoint update))
       (ep_http_url (su_endpoint update)) last_pending_unix_ms None now_unix_ms (su_last_error update) rotation_count) m.

(** ** Remembered hashes *)
Record Seen := mkSeen { seen_hashes : gset TxHash; seen_order : list TxHash }.
Definition seen_default : Seen := mkSeen ∅ [].
Definition remember_hash (hash : TxHash) (max_seen_hashes : N) (seen : Seen) : bool * Seen :=
  if decide (hash ∈ seen_hashes seen) then (false, seen)
  else
    let '(order, hashes) :=
      evict_oldest (fun old_hash set => set ∖ {[old_hash]}) max_seen_hashes (seen_order seen ++ [hash])
        ({[hash]} ∪ seen_hashes seen) in
    (true, mkSeen hashes order).

(** ** Sessions *)
Inductive SessionError :=
  | ConnectError | SubscribeError | ReadError | SilentChainTimeout | FetchError | ProcessError (e : LiveError).
(** Without an error, with one, with a panic, or never: waiting for a permit
    of a semaphore that has none. *)
Inductive SessionEnd := SessionClosed | SessionFailed (e : SessionError) | SessionPanicked | SessionBlocked.

(** What [read.next()] gives within the flush interval; a text comes with what
    serde_json makes of it. *)
Inductive WsFrame :=
  | FrameTimeout
  | FrameEnd
  | FrameError
  | FrameText (decoded : option WsRpcMessage)
  | FramePing
  | FrameClose
  | FrameOther.

Record SessionState := mkSession {
  ses_subscription_id : option string;
  ses_pending_hashes : list PendingHashObservation;
  ses_last_pending_unix_ms : Z;
}.

Section session.
Context (chain : ChainRpcConfig) (queue_capacity worker_total : N).
Context (max_seen_hashes : N) (batch_fetch : BatchFetchConfig) (silent_chain_timeout_secs : N).

(** The loop of [process_pending_hash_batch] that parses and deduplicates. *)
Fixpoint dedupe_batch (hash_batch : list PendingHashObservation) (seen : Seen) :
    prog (Seen * (list (PendingHashObservation * TxHash) + SessionEnd)) :=
  match hash_batch with
  | [] => Ret (seen, inl [])
  | observation :: hash_batch' =>
      match fixed_number 32 (ob_hash_hex observation) with
      | Panicked => Ret (seen, inr SessionPanicked)
      | Absent => _ <! CallObserveDrop InvalidPendingHash ;; dedupe_batch hash_batch' seen
      | Found hash =>
          let '(fresh, seen') := remember_hash hash max_seen_hashes seen in
          r <- dedupe_batch hash_batch' seen' ;;
          Ret (r.1, match r.2 with
                    | inl l => inl (if fresh then (observation, hash) :: l else l)
                    | inr e => inr e
                    end)
      end
  end.

Definition process_fetched (pairs : list (PendingHashObservation * TxHash)) (fetched : lookup_outcome (list (option LiveTx))) :
    prog (unit + SessionEnd) :=
  match fetched with
  | Found rows =>
      r <- process_rows chain queue_capacity worker_total (zip pairs rows) ;;
      Ret (match r with inl _ => inl tt | inr e => inr (SessionFailed (ProcessError e)) end)
  | Absent => Ret (inr (SessionFailed FetchError))
  | Panicked => Ret (inr SessionPanicked)
  end.

Definition process_pending_hash_batch (http_url : string) (seen : Seen) (hash_batch : list PendingHashObservation) :
    prog (Seen * (unit + SessionEnd)) :=
  deduped <- dedupe_batch hash_batch seen ;;
  match deduped with
  | (seen', inr e) => Ret (seen', inr e)
  | (seen', inl []) => Ret (seen', inl tt)
  | (seen', inl pairs) =>
      if (bf_max_in_flight batch_fetch =? 0)%N then Ret (seen', inr SessionBlocked)
      else
        fetched <! CallFetchRows http_url ((fun p => ob_hash_hex p.1) <$> pairs) ;;
        r <- process_fetched pairs fetched ;; Ret (seen', r)
  end.

Fixpoint flush_batches (http_url : string) (dispatch_count : nat) (seen : Seen)
    (pending_hashes : list PendingHashObservation) : prog (Seen * (list PendingHashObservation + SessionEnd)) :=
  match dispatch_count with
  | O => Ret (seen, inl pending_hashes)
  | S dispatch_count' =>
      let k := N.to_nat (N.min (bf_batch_size batch_fetch) (usize_of (length pending_hashes))) in
      r <- process_pending_hash_batch http_url seen (take k pending_hashes) ;;
      match r with
      | (seen', inl _) => flush_batches http_url dispatch_count' seen' (drop k pending_hashes)
      | (seen', inr e) => Ret (seen', inr e)
      end
  end.
Definition flush_pending_hash_batches (http_url : string) (seen : Seen) (pending_hashes : list PendingHashObservation) :
    prog (Seen * (list PendingHashObservation + SessionEnd)) :=
  flush_batches http_url
    (N.to_nat (dispatchable_batch_count (usize_of (length pending_hashes)) (bf_batch_size batch_fetch)
                 (bf_max_in_flight batch_fetch))) seen pending_hashes.

Section endpoint.
Context (endpoint : RpcEndpoint) (endpoint_index : N).

Definition status_update (state : string) (observed_pending : bool) : ChainStatusUpdate :=
  mkStatusUpdate endpoint endpoint_index state None observed_pending false.

(** A text frame: the subscription id and perhaps one more pending hash. *)
Definition on_text (decoded : option WsRpcMessage) (st : SessionState) : prog SessionState :=
  let '(hash_hex, subscription_id) := parse_pending_hash decoded (ses_subscription_id st) in
  match hash_hex with
  | None => Ret (mkSession subscription_id (ses_pending_hashes st) (ses_last_pending_unix_ms st))
  | Some hash_hex =>
      observed_at <! CallNow ;;
      mono_ns <! CallMono ;;
      _ <! CallUpdateStatus (status_update "active" true) ;;
      Ret (mkSession subscription_id (ses_pending_hashes st ++ [mkObservation hash_hex observed_at mono_ns]) observed_at)
  end.

(** One turn of the loop: [inl] goes on, [inr SessionClosed] leaves it. *)
Definition settle_turn (seen : Seen) (st : SessionState) : prog (Seen * (SessionState + SessionEnd)) :=
  flushed <- flush_pending_hash_batches (ep_http_url endpoint) seen (ses_pending_hashes st) ;;
  match flushed with
  | (seen', inr e) => Ret (seen', inr e)
  | (seen', inl rest) =>
      now <! CallNow ;;
      if should_rotate_silent_chain (ses_last_pending_unix_ms st) now silent_chain_timeout_secs
      then Ret (seen', inr (SessionFailed SilentChainTimeout))
      else Ret (seen', inl (mkSession (ses_subscription_id st) rest (ses_last_pending_unix_ms st)))
  end.
(** [break]: the last flush. *)
Definition close_session (seen : Seen) (st : SessionState) : prog (Seen * SessionEnd) :=
  flushed <- flush_pending_hash_batches (ep_http_url endpoint) seen (ses_pending_hashes st) ;;
  Ret (flushed.1, match flushed.2 with inl _ => SessionClosed | inr e => e end).

Definition settle_then (go_on : Seen -> SessionState -> prog (Seen * option SessionEnd)) (seen : Seen)
    (st : SessionState) : prog (Seen * option SessionEnd) :=
  r <- settle_turn seen st ;;
  match r with
  | (seen', inl st') => go_on seen' st'
  | (seen', inr e) => Ret (seen', Some e)
  end.
Definition close_then (seen : Seen) (st : SessionState) : prog (Seen * option SessionEnd) :=
  r <- close_session seen st ;; Ret (r.1, Some r.2).

(** The loop over the frames; [None] when the frames given end before the
    session does. *)
Fixpoint session_loop (frames : list WsFrame) (seen : Seen) (st : SessionState) :
    prog (Seen * option SessionEnd) :=
  match frames with
  | [] => Ret (seen, None)
  | frame :: frames' =>
      match frame with
      | FrameTimeout | FrameOther => settle_then (session_loop frames') seen st
      | FrameEnd | FrameClose => close_then seen st
      | FrameError => Ret (seen, Some (SessionFailed ReadError))
      | FrameText decoded => st' <- on_text decoded st ;; settle_then (session_loop frames') seen st'
      | FramePing => sent <! CallPong ;; if sent then settle_then (session_loop frames') seen st else close_then seen st
      end
  end.

Definition run_ws_session (frames : list WsFrame) (seen : Seen) : prog (Seen * option SessionEnd) :=
  connected <! CallConnect (ep_ws_url endpoint) ;;
  match connected with
  | ConnectFailed => Ret (seen, Some (SessionFailed ConnectError))
  | SubscribeFailed => Ret (seen, Some (SessionFailed SubscribeError))
  | Subscribed =>
      _ <! CallUpdateStatus (status_update "subscribed" false) ;;
      now <! CallNow ;;
      session_loop frames seen (mkSession None [] now)
  end.
End endpoint.

(** ** The chain worker *)

(** [format_error_chain] *)
Context (error_chain : SessionError -> string).

Definition failed_state (text : string) : string :=
  if bool_decide (is_Some (String.index 0 "silent_chain_timeout" text)) then "silent_timeout" else "error".

(** What follows a session: the status, and the endpoint of the next one;
    [None] is an index out of range. *)
Definition after_session (endpoint : RpcEndpoint) (endpoint_index : N) (failure : option SessionError) : prog (option N) :=
  match failure with
  | None =>
      _ <! CallUpdateStatus (mkStatusUpdate endpoint endpoint_index "disconnected" None false false) ;;
      Ret (Some endpoint_index)
  | Some e =>
      let text := error_chain e in
      _ <! CallUpdateStatus (mkStatusUpdate endpoint endpoint_index (failed_state text) (Some text) false false) ;;
      let next_index := rotate_endpoint_index endpoint_index (usize_of (length (ch_endpoints chain))) in
      match ch_endpoints chain !! N.to_nat next_index with
      | Some next_endpoint =>
          _ <! CallUpdateStatus (mkStatusUpdate next_endpoint next_index "rotating" (Some text) false true) ;;
          Ret (Some next_index)
      | None => Ret None
      end
  end.

(** How the worker stands after the sessions given: at an endpoint, or gone. *)
Inductive WorkerEnd := WorkerRunning (endpoint_index : N) | WorkerPanicked | WorkerBlocked | WorkerInSession.

Fixpoint worker_loop (sessions : list (list WsFrame)) (endpoint_index : N) (seen : Seen) : prog (Seen * WorkerEnd) :=
  match sessions with
  | [] => Ret (seen, WorkerRunning endpoint_index)
  | frames :: sessions' =>
      match ch_endpoints chain !! N.to_nat endpoint_index with
      | None => Ret (seen, WorkerPanicked)
      | Some endpoint =>
          _ <! CallUpdateStatus (mkStatusUpdate endpoint endpoint_index "connecting" None false false) ;;
          r <- run_ws_session endpoint endpoint_index frames seen ;;
          match r with
          | (seen', None) => Ret (seen', WorkerInSession)
          | (seen', Some SessionPanicked) => Ret (seen', WorkerPanicked)
          | (seen', Some SessionBlocked) => Ret (seen', WorkerBlocked)
          | (seen', Some ended) =>
              next <- after_session endpoint endpoint_index
                        (match ended with SessionFailed e => Some e | _ => None end) ;;
              match next with
              | Some next_index => worker_loop sessions' next_index seen'
              | None => Ret (seen', WorkerPanicked)
              end
          end
      end
  end.

(** [rebuild_scheduler_from_pending_pool_with_owner]: the first endpoint that
    answers; its errors after that are final. *)
Inductive RebuildEnd := Rebuilt (rebuilt : N) | RebuildFailed | RebuildPanicked.
Fixpoint rebuild_from_endpoints (mono_ns : N -> N) (endpoints : list RpcEndpoint) : prog RebuildEnd :=
  match endpoints with
  | [] => Ret RebuildFailed
  | endpoint :: endpoints' =>
      pending <! CallFetchPending (ep_http_url endpoint) ;;
      match pending with
      | Found pending =>
          r <- rebuild_scheduler_from_pending_transactions chain queue_capacity worker_total mono_ns pending ;;
          Ret (match r with inl rebuilt => Rebuilt rebuilt | inr _ => RebuildFailed end)
      | Absent => rebuild_from_endpoints mono_ns endpoints'
      | Panicked => Ret RebuildPanicked
      end
  end.
Definition rebuild_scheduler_from_pending_pool (mono_ns : N -> N) : prog RebuildEnd :=
  rebuild_from_endpoints mono_ns (ch_endpoints chain).

(** [run_chain_worker] on the sessions given; [None] when the chain has no
    endpoint. *)
Definition run_chain_worker (bootstrap_from_pending_pool : bool) (mono_ns : N -> N) (sessions : list (list WsFrame)) :
    prog (option (Seen * WorkerEnd)) :=
  match ch_endpoints chain with
  | [] => Ret None
  | initial_endpoint :: _ =>
      booted <- (if bootstrap_from_pending_pool then rebuild_scheduler_from_pending_pool mono_ns else Ret (Rebuilt 0)) ;;
      match booted with
      | RebuildPanicked => Ret (Some (seen_default, WorkerPanicked))
      | _ =>
          _ <! CallUpdateStatus (mkStatusUpdate initial_endpoint 0 "booting" None false false) ;;
          r <- worker_loop sessions 0 seen_default ;; Ret (Some r)
      end
  end.
End session.

(** ** What a worker fetches *)
Definition request_of (x : exchange) : option (list string) :=
  match projT1 x with CallFetchRows _ hashes => Some hashes | _ => None end.
Definition requests (log : list exchange) : list (list string) := omap request_of log.
Definition no_request (c : call) : Prop := match c with CallFetchRows _ _ => False | _ => True end.

Lemma requests_app l1 l2 : requests (l1 ++ l2) = requests l1 ++ requests l2.
Proof. apply omap_app. Qed.
Lemma no_requests log : Forall (fun x => no_request (projT1 x)) log -> requests log = [].
Proof. induction 1 as [|[c r] log Hc _ IH]; [done|]. by destruct c. Qed.
Lemma run_no_requests {S A} (env : forall c : call, S -> reply c * S) (p : prog A) s :
  obeys no_request any p -> requests (run_log (run env p s)) = [].
Proof. intros Hp. by apply no_requests, (run_obeys env no_request any). Qed.
Lemma pipeline_no_request c : pipeline_call c -> no_request c.
Proof. by destruct c. Qed.

(** The memory after the hashes of a history. *)
Record remembers (max : N) (history : list TxHash) (seen : Seen) : Prop := {
  rm_order : seen_order seen = last_n max history;
  rm_set : seen_hashes seen = list_to_set (seen_order seen);
  rm_spaced : spaced max history;
}.
Lemma remembers_default max : remembers max [] seen_default.
Proof. split; [done|done|apply spaced_nil]. Qed.

Lemma remember_hash_spec max history seen hash : remembers max history seen ->
  let '(fresh, seen') := remember_hash hash max seen in
  if fresh then (hash ∉ last_n max history) /\ remembers max (history ++ [hash]) seen'
  else seen' = seen /\ (hash ∈ last_n max history).
Proof.
  intros [Ho Hs Hsp]. unfold remember_hash. rewrite Hs, Ho. case_decide as Hin; rewrite elem_of_list_to_set in Hin; [done|].
  rewrite evict_oldest_spec. split; [done|].
  assert (NoDup (last_n max history ++ [hash])) as Hnd.
  { apply NoDup_app. split_and!; [by apply spaced_window_NoDup| |apply NoDup_singleton].
    intros x Hx ->%list_elem_of_singleton. done. }
  split; cbn [seen_order seen_hashes].
  - apply window_snoc.
  - apply set_evict; [done|]. rewrite list_to_set_app_L. cbn. clear. set_solver.
  - by apply spaced_snoc.
Qed.

Definition single_request (hashes : list string) (hash : TxHash) : Prop :=
  exists hash_hex, hashes = [hash_hex] /\ fixed_number 32 hash_hex = Found hash.
(** The conversation fetched hashes one by one, each new to the memory. *)
Definition fetches (max : N) (log : list exchange) (seen seen' : Seen) : Prop :=
  forall history, remembers max history seen ->
  exists fetched, Forall2 single_request (requests log) fetched /\ remembers max (history ++ fetched) seen'.

Lemma fetches_none max log seen : requests log = [] -> fetches max log seen seen.
Proof. intros H history Hh. exists []. rewrite H, app_nil_r. by split. Qed.
Lemma fetches_app max l1 l2 seen1 seen2 seen3 :
  fetches max l1 seen1 seen2 -> fetches max l2 seen2 seen3 -> fetches max (l1 ++ l2) seen1 seen3.
Proof.
  intros H1 H2 history Hh. destruct (H1 history Hh) as (f1 & Hf1 & Hh1). destruct (H2 _ Hh1) as (f2 & Hf2 & Hh2).
  exists (f1 ++ f2). rewrite requests_app, app_assoc. split; [by apply Forall2_app|done].
Qed.
Lemma fetches_quiet max x log seen seen' : request_of x = None -> fetches max log seen seen' -> fetches max (x :: log) seen seen'.
Proof. intros Hx. apply (fetches_app max [x]). apply fetches_none. unfold requests. cbn. by rewrite Hx. Qed.

Lemma text_obeys endpoint index decoded st : ses_pending_hashes st = [] ->
  obeys no_request (fun st' => length (ses_pending_hashes st') <= 1)%nat (on_text endpoint index decoded st).
Proof.
  intros Hst. unfold on_text. destruct (parse_pending_hash _ _) as [[hash_hex|] id]; cbn; [|rewrite Hst; cbn; lia].
  split; [done|]. intros at_ms. split; [done|]. intros mono. split; [done|]. intros _. rewrite Hst. cbn. lia.
Qed.

Lemma after_obeys chain error_chain endpoint index failure :
  obeys no_request any (after_session chain error_chain endpoint index failure).
Proof.
  unfold after_session. destruct failure as [e|]; cbn.
  - split; [done|]. intros _. destruct (_ !! _); [by repeat split|done].
  - by repeat split.
Qed.

Lemma rebuild_pool_obeys chain cap workers mono_ns : obeys no_request any (rebuild_scheduler_from_pending_pool chain cap workers mono_ns).
Proof.
  unfold rebuild_scheduler_from_pending_pool. induction (ch_endpoints chain) as [|endpoint l IH]; [done|].
  split; [done|]. intros [pending| |]; [|done..]. apply (obeys_bind _ any); [|by intros []].
  by apply rebuild_obeys; [apply pipeline_no_request|..].
Qed.

Section worker.
Context {S : Type} (env : forall c : call, S -> reply c * S).
Context (chain : ChainRpcConfig) (cap workers max : N) (bf : BatchFetchConfig) (timeout : N).
Context (Hbatch : (1 <= bf_batch_size bf)%N) (Hflight : (1 <= bf_max_in_flight bf)%N).

Lemma batch_fetches url seen observation s :
  let o := run env (process_pending_hash_batch chain cap workers max bf url seen [observation]) s in
  fetches max (run_log o) seen (run_value o).1 /\ (run_value o).2 <> inr SessionBlocked.
Proof using All.
  cbv zeta. unfold process_pending_hash_batch. cbn [dedupe_batch].
  destruct (fixed_number 32 (ob_hash_hex observation)) as [hash| |] eqn:Hhash.
  - pose proof (fun history => remember_hash_spec max history seen hash) as Hspec.
    destruct (remember_hash hash max seen) as [[] seen']; cbn [bind fst snd].
    + rewrite (proj2 (N.eqb_neq _ _)) by lia. cbn [run fmap list_fmap fst].
      destruct (env (CallFetchRows url [ob_hash_hex observation]) s) as [fetched s1].
      rewrite run_bind. cbv zeta. cbn [run run_log run_value run_state fst snd]. split.
      * intros history Hh. exists [hash]. split; [|by apply Hspec].
        cbn [requests omap list_omap request_of exch projT1]. fold requests. rewrite app_nil_r.
        assert (requests (run_log (run env (process_fetched chain cap workers [(observation, hash)] fetched) s1)) = []) as Hnone.
        { apply run_no_requests. unfold process_fetched. destruct fetched; [|done..].
          apply (obeys_bind _ any); [by apply process_rows_obeys; [apply pipeline_no_request|..]|done]. }
        unfold requests in Hnone. rewrite Hnone. constructor; [|constructor]. by eexists.
      * unfold process_fetched. destruct fetched; [|done..]. rewrite run_bind. cbn [run run_value].
        by destruct (run_value (run env (process_rows _ _ _ _) s1)).
    + cbn. split; [|done]. intros history Hh. destruct (Hspec history Hh) as [-> _]. by apply fetches_none.
  - cbn. destruct (env (CallObserveDrop InvalidPendingHash) s) as [u s1]. split; [|done].
    apply fetches_quiet; [done|]. by apply fetches_none.
  - cbn. split; [|done]. by apply fetches_none.
Qed.

Lemma flush_fetches url seen queue s : (length queue <= 1)%nat ->
  let o := run env (flush_pending_hash_batches chain cap workers max bf url seen queue) s in
  fetches max (run_log o) seen (run_value o).1 /\
  match (run_value o).2 with inl rest => rest = [] | inr e => e <> SessionBlocked end.
Proof using All.
  cbv zeta. unfold flush_pending_hash_batches. destruct queue as [|ob [|]]; cbn [length]; [|intros _|lia].
  { intros _. cbn. split; [by apply fetches_none|done]. }
  assert (dispatchable_batch_count (usize_of 1) (bf_batch_size bf) (bf_max_in_flight bf) = 1)%N as ->.
  { assert (div_ceil 1 (bf_batch_size bf) = 1)%N as Hdc.
    { pose proof (div_ceil_spec 1 (bf_batch_size bf) 1 ltac:(lia)).
      pose proof (div_ceil_spec 1 (bf_batch_size bf) 0 ltac:(lia)). lia. }
    unfold dispatchable_batch_count. change (usize_of 1) with 1%N. rewrite !N.max_l by done. rewrite Hdc.
    change (1 =? 0)%N with false. cbv iota. lia. }
  change (N.to_nat 1) with 1%nat. cbn [flush_batches length].
  assert (N.to_nat (N.min (bf_batch_size bf) (usize_of 1)) = 1)%nat as -> by (unfold usize_of; lia).
  cbn [take drop]. pose proof (batch_fetches url seen ob s) as Hb. cbv zeta in Hb. rewrite run_bind. cbv zeta.
  destruct (run env (process_pending_hash_batch _ _ _ _ _ _ _ _) s) as [log [seen' [u|e]] s1];
    cbn [run_log run_value run_state fst snd run] in *; rewrite app_nil_r; (split; [apply Hb|]); [done|].
  intros ->. by apply Hb.
Qed.

Lemma turn_fetches endpoint seen st s : (length (ses_pending_hashes st) <= 1)%nat ->
  let o := run env (settle_turn chain cap workers max bf timeout endpoint seen st) s in
  fetches max (run_log o) seen (run_value o).1 /\
  match (run_value o).2 with inl st' => ses_pending_hashes st' = [] | inr e => e <> SessionBlocked end.
Proof using All.
  intros Hst. cbv zeta. unfold settle_turn. rewrite run_bind. cbv zeta.
  pose proof (flush_fetches (ep_http_url endpoint) seen (ses_pending_hashes st) s Hst) as Hf. cbv zeta in Hf.
  destruct (run env (flush_pending_hash_batches _ _ _ _ _ _ _ _) s) as [log [seen' [rest|e]] s1];
    cbn [run_log run_value run_state fst snd run] in *; [|by rewrite app_nil_r].
  destruct Hf as [Hf ->]. destruct (env CallNow s1) as [now s2].
  assert (fetches max (log ++ [exch CallNow now]) seen seen') as Hn.
  { apply (fetches_app _ _ _ _ _ _ Hf). by apply fetches_none. }
  by destruct (should_rotate_silent_chain _ _ _).
Qed.

Lemma close_fetches endpoint seen st s : (length (ses_pending_hashes st) <= 1)%nat ->
  let o := run env (close_session chain cap workers max bf endpoint seen st) s in
  fetches max (run_log o) seen (run_value o).1 /\ (run_value o).2 <> SessionBlocked.
Proof using All.
  intros Hst. cbv zeta. unfold close_session. rewrite run_bind. cbv zeta.
  pose proof (flush_fetches (ep_http_url endpoint) seen (ses_pending_hashes st) s Hst) as Hf. cbv zeta in Hf.
  destruct (run env (flush_pending_hash_batches _ _ _ _ _ _ _ _) s) as [log [seen' [rest|e]] s1];
    cbn [run_log run_value run_state fst snd run] in *; rewrite app_nil_r; by destruct Hf.
Qed.

Lemma loop_fetches endpoint index frames seen st s : ses_pending_hashes st = [] ->
  let o := run env (session_loop chain cap workers max bf timeout endpoint index frames seen st) s in
  fetches max (run_log o) seen (run_value o).1 /\ (run_value o).2 <> Some SessionBlocked.
Proof using All.
  revert seen st s. induction frames as [|frame frames IH]; intros seen st s Hst; cbv zeta; cbn [session_loop].
  { split; [by apply fetches_none|done]. }
  set (go := settle_then _ _ _ _ _ _ _ _). set (stop := close_then _ _ _ _ _ _).
  assert (forall seen st s, (length (ses_pending_hashes st) <= 1)%nat ->
    fetches max (run_log (run env (go seen st) s)) seen (run_value (run env (go seen st) s)).1 /\
    (run_value (run env (go seen st) s)).2 <> Some SessionBlocked) as Hgo.
  { clear -IH Hbatch Hflight. intros seen st s Hst. unfold go, settle_then. rewrite run_bind. cbv zeta.
    pose proof (turn_fetches endpoint seen st s Hst) as Ht. cbv zeta in Ht.
    destruct (run env (settle_turn _ _ _ _ _ _ _ _ _) s) as [log [seen' [st'|e]] s1];
      cbn [run_log run_value run_state fst snd run] in *; destruct Ht as [Ht He].
    - destruct (IH seen' st' s1 He) as [IH1 IH2]. split; [by apply (fetches_app _ _ _ _ seen')|done].
    - rewrite app_nil_r. split; [done|congruence]. }
  assert (forall seen st s, (length (ses_pending_hashes st) <= 1)%nat ->
    fetches max (run_log (run env (stop seen st) s)) seen (run_value (run env (stop seen st) s)).1 /\
    (run_value (run env (stop seen st) s)).2 <> Some SessionBlocked) as Hstop.
  { clear -Hbatch Hflight timeout. intros seen st s Hst. unfold stop, close_then. rewrite run_bind. cbv zeta.
    pose proof (close_fetches endpoint seen st s Hst) as Ht. cbv zeta in Ht.
    destruct (run env (close_session _ _ _ _ _ _ _ _) s) as [log [seen' e] s1];
      cbn [run_log run_value run_state fst snd run] in *; rewrite app_nil_r. destruct Ht. split; [done|congruence]. }
  assert (length (ses_pending_hashes st) <= 1)%nat as Hle by (rewrite Hst; cbn; lia).
  destruct frame as [| | |decoded| | |]; try (by apply Hgo); try (by apply Hstop).
  - split; [by apply fetches_none|done].
  - rewrite run_bind. cbv zeta.
    destruct (run_obeys env _ _ _ s (text_obeys endpoint index decoded st Hst)) as [Hlog Hval].
    destruct (run env (on_text _ _ _ _) s) as [log st' s1]. cbn [run_log run_value run_state] in *.
    destruct (Hgo seen st' s1 Hval) as [H1 H2]. split; [|done].
    apply (fetches_app _ _ _ _ seen); [by apply fetches_none, no_requests|done].
  - cbn [run]. destruct (env CallPong s) as [sent s1].
    destruct sent; (split; [apply fetches_quiet; [done|]|]); by (apply Hgo || apply Hstop).
Qed.

Lemma session_fetches endpoint index frames seen s :
  let o := run env (run_ws_session chain cap workers max bf timeout endpoint index frames seen) s in
  fetches max (run_log o) seen (run_value o).1 /\ (run_value o).2 <> Some SessionBlocked.
Proof using All.
  cbv zeta. unfold run_ws_session. cbn [run]. destruct (env (CallConnect _) s) as [connected s1].
  destruct connected; cbn [run]; [|split; [by apply fetches_none|done]..].
  destruct (env (CallUpdateStatus _) s1) as [u s2]. destruct (env CallNow s2) as [now s3].
  pose proof (loop_fetches endpoint index frames seen (mkSession None [] now) s3 eq_refl) as [H1 H2].
  split; [|done]. by do 3 (apply fetches_quiet; [done|]).
Qed.

Lemma worker_loop_fetches error_chain sessions index seen s :
  let o := run env (worker_loop chain cap workers max bf timeout error_chain sessions index seen) s in
  fetches max (run_log o) seen (run_value o).1 /\ (run_value o).2 <> WorkerBlocked.
Proof using All.
  revert index seen s. induction sessions as [|frames sessions IH]; intros index seen s; cbv zeta; cbn [worker_loop].
  { split; [by apply fetches_none|done]. }
  destruct (ch_endpoints chain !! N.to_nat index) as [endpoint|]; [|split; [by apply fetches_none|done]].
  cbn [run]. destruct (env (CallUpdateStatus _) s) as [u s1]. cbn [run_log run_value].
  rewrite run_bind. cbv zeta. pose proof (session_fetches endpoint index frames seen s1) as [H1 H2].
  destruct (run env (run_ws_session _ _ _ _ _ _ _ _ _ _) s1) as [log [seen' ended] s2].
  cbn [run_log run_value run_state fst snd] in *.
  assert (forall ended, let o := run env (next <- after_session chain error_chain endpoint index
      (match ended with SessionFailed e => Some e | _ => None end) ;;
      match next with
      | Some next_index => worker_loop chain cap workers max bf timeout error_chain sessions next_index seen'
      | None => Ret (seen', WorkerPanicked) end) s2 in
    fetches max (run_log o) seen' (run_value o).1 /\ (run_value o).2 <> WorkerBlocked) as Hnext.
  { intros e. cbv zeta. rewrite run_bind. cbv zeta.
    set (failure := match e with SessionFailed e => Some e | _ => None end).
    pose proof (run_no_requests env _ s2 (after_obeys chain error_chain endpoint index failure)) as Hno.
    destruct (run env (after_session _ _ _ _ _) s2) as [log2 [next|] s3]; cbn [run_log run_value run_state run fst snd] in *.
    - destruct (IH next seen' s3) as [H3 H4]. split; [|done].
      apply (fetches_app _ _ _ _ seen'); [by apply fetches_none|done].
    - rewrite app_nil_r. split; [by apply fetches_none|done]. }
  destruct ended as [[|e| |]|]; cbn [run run_log run_value]; rewrite ?app_nil_r;
    try (split; [by apply fetches_quiet|done]).
  - destruct (Hnext SessionClosed) as [H3 H4]. split; [|done]. apply fetches_quiet; [done|]. by apply (fetches_app _ _ _ _ seen').
  - destruct (Hnext (SessionFailed e)) as [H3 H4]. split; [|done]. apply fetches_quiet; [done|]. by apply (fetches_app _ _ _ _ seen').
Qed.

End worker.

(** What a chain worker fetches, over any number of sessions, whatever
    arrives and whatever the environment answers.  Every request asks for
    exactly one hash, and the memory survives reconnects: between two requests
    for the same hash at least [max_seen_hashes] other requests were made.
    With accepted settings the worker never waits for a permit for ever. *)
Theorem worker_fetches_once {S} (env : forall c : call, S -> reply c * S) chain cap workers max bf timeout error_chain
  bootstrap mono_ns sessions s
  (Hbatch : (1 <= bf_batch_size bf)%N) (Hflight : (1 <= bf_max_in_flight bf)%N) :
  let o := run env (run_chain_worker chain cap workers max bf timeout error_chain bootstrap mono_ns sessions) s in
  (exists fetched, Forall2 single_request (requests (run_log o)) fetched /\ spaced max fetched) /\
  (snd <$> run_value o) <> Some WorkerBlocked.
Proof.
  cbv zeta. unfold run_chain_worker. destruct (ch_endpoints chain) as [|initial l] eqn:He.
  { split; [|done]. exists []. split; [constructor|apply spaced_nil]. }
  rewrite run_bind. cbv zeta. set (p := if bootstrap then _ else _).
  assert (requests (run_log (run env p s)) = []) as Hp.
  { apply run_no_requests. unfold p. destruct bootstrap; [apply rebuild_pool_obeys|done]. }
  destruct (run env p s) as [log booted s1]. cbn [run_log run_value run_state] in *.
  assert (forall s1, let o := run env (_ <! CallUpdateStatus (mkStatusUpdate initial 0 "booting" None false false) ;;
      r <- worker_loop chain cap workers max bf timeout error_chain sessions 0 seen_default ;; Ret (Some r)) s1 in
    (exists fetched, Forall2 single_request (requests (run_log o)) fetched /\ spaced max fetched) /\
    (snd <$> run_value o) <> Some WorkerBlocked) as Hgo.
  { clear -Hbatch Hflight. intros s1. cbv zeta. cbn [run]. destruct (env (CallUpdateStatus _) s1) as [u s2].
    rewrite run_bind. cbv zeta.
    destruct (worker_loop_fetches env chain cap workers max bf timeout Hbatch Hflight error_chain sessions 0 seen_default s2)
      as [H1 H2].
    destruct (run env (worker_loop _ _ _ _ _ _ _ _ _ _) s2) as [log r s3]. cbn [run_log run_value run_state run] in *.
    split; [|cbn; congruence]. destruct (H1 [] (remembers_default max)) as (fetched & Hf & Hr). exists fetched.
    rewrite app_nil_r. split; [exact Hf|apply (rm_spaced _ _ _ Hr)]. }
  rewrite requests_app, Hp. destruct booted; [apply Hgo..|].
  split; [|done]. exists []. split; [constructor|apply spaced_nil].
Qed.

(** A failed fetch costs the hash.  When fetching a new hash fails, the
    session ends with an error, but the hash stays remembered: while fewer than
    [max_seen_hashes] other hashes follow, announcing it again, in any later
    session and on any endpoint, makes no call at all. *)
Theorem failed_fetch_forgets {S} (env : forall c : call, S -> reply c * S) chain cap workers max bf url seen observation
  hash history s
  (Hflight : (1 <= bf_max_in_flight bf)%N) (Hseen : remembers max history seen)
  (Hhash : fixed_number 32 (ob_hash_hex observation) = Found hash) (Hnew : hash ∉ last_n max history)
  (Hfail : forall s, (env (CallFetchRows url [ob_hash_hex observation]) s).1 = Absent) :
  let o := run env (process_pending_hash_batch chain cap workers max bf url seen [observation]) s in
  (run_value o).2 = inr (SessionFailed FetchError) /\ remembers max (history ++ [hash]) (run_value o).1 /\
  forall S' (env' : forall c : call, S' -> reply c * S') s' url' observation' others seen',
    remembers max (history ++ [hash] ++ others) seen' -> (usize_of (length others) < max)%N ->
    fixed_number 32 (ob_hash_hex observation') = Found hash ->
    run env' (process_pending_hash_batch chain cap workers max bf url' seen' [observation']) s' =
      mkRun [] (seen', inl tt) s'.
Proof.
  cbv zeta. unfold process_pending_hash_batch. cbn [dedupe_batch]. rewrite Hhash.
  pose proof (remember_hash_spec max history seen hash Hseen) as Hspec.
  destruct (remember_hash hash max seen) as [[] seen1]; [|by destruct Hspec].
  destruct Hspec as [_ Hspec]. cbn [bind fst snd]. rewrite (proj2 (N.eqb_neq _ _)) by lia.
  cbn [run fmap list_fmap fst]. specialize (Hfail s).
  destruct (env (CallFetchRows url [ob_hash_hex observation]) s) as [fetched s1]. cbn [fst] in Hfail. subst fetched.
  cbn. split; [done|]. split; [done|]. intros S' env' s' url' observation' others seen' Hs' Hlen Hhash'.
  unfold process_pending_hash_batch. cbn [dedupe_batch]. rewrite Hhash'.
  pose proof (remember_hash_spec max _ seen' hash Hs') as Hspec'.
  destruct (remember_hash hash max seen') as [[] seen2].
  - destruct Hspec' as [[] _]. apply last_n_app. rewrite last_n_all; [by left|]. unfold usize_of in Hlen. cbn. lia.
  - by destruct Hspec' as [-> _].
Qed.

(** ** Rotation *)
Section rotation.
Context {S : Type} (env : forall c : call, S -> reply c * S).
Context (chain : ChainRpcConfig) (cap workers max : N) (bf : BatchFetchConfig) (timeout : N) (error_chain : SessionError -> string).

Lemma session_connects endpoint index frames seen s :
  exists r log, run_log (run env (run_ws_session chain cap workers max bf timeout endpoint index frames seen) s) =
    exch (CallConnect (ep_ws_url endpoint)) r :: log.
Proof using.
  unfold run_ws_session. cbn [run]. destruct (env (CallConnect _) s) as [r s1]. by eexists r, _.
Qed.

Lemma session_refused endpoint index frames seen s :
  (env (CallConnect (ep_ws_url endpoint)) s).1 <> Subscribed ->
  exists e, run_value (run env (run_ws_session chain cap workers max bf timeout endpoint index frames seen) s) =
    (seen, Some (SessionFailed e)).
Proof using.
  unfold run_ws_session. cbn [run]. destruct (env (CallConnect _) s) as [[] s1]; cbn; [done|intros _; by eexists..].
Qed.

Lemma rotate_index_in_range index n : (0 < n)%nat ->
  N.to_nat (rotate_endpoint_index index (usize_of n)) = ((N.to_nat index + 1) mod n)%nat.
Proof using.
  intros Hn. unfold rotate_endpoint_index, usize_of. case (N.leb_spec (N.of_nat n) 1); intros H.
  - assert (n = 1)%nat as -> by lia. by rewrite Nat.mod_1_r.
  - rewrite N2Nat.inj_mod, N2Nat.inj_add, Nat2N.id. done.
Qed.

Lemma rotates endpoint index e s : (0 < length (ch_endpoints chain))%nat ->
  run_value (run env (after_session chain error_chain endpoint index (Some e)) s) =
    Some (rotate_endpoint_index index (usize_of (length (ch_endpoints chain)))).
Proof using.
  intros Hn. unfold after_session. cbn [run]. destruct (env (CallUpdateStatus _) s) as [u s1]. cbn [run_value].
  pose proof (rotate_index_in_range index _ Hn) as Hr. set (next := rotate_endpoint_index _ _) in *.
  destruct (lookup_lt_is_Some_2 (ch_endpoints chain) (N.to_nat next)) as [next_endpoint ->].
  { rewrite Hr. apply Nat.mod_upper_bound. lia. }
  cbn [run]. by destruct (env (CallUpdateStatus _) s1).
Qed.

(** A session at an endpoint begins with its connection; when that fails, the
    worker goes on with the next endpoint. *)
Lemma worker_turn frames sessions index seen s endpoint : ch_endpoints chain !! N.to_nat index = Some endpoint ->
  let log := run_log (run env (worker_loop chain cap workers max bf timeout error_chain (frames :: sessions) index seen) s) in
  (exists r, exch (CallConnect (ep_ws_url endpoint)) r ∈ log) /\
  ((forall s, (env (CallConnect (ep_ws_url endpoint)) s).1 <> Subscribed) ->
   exists before s', log = before ++ run_log (run env (worker_loop chain cap workers max bf timeout error_chain sessions
     (rotate_endpoint_index index (usize_of (length (ch_endpoints chain)))) seen) s')).
Proof using.
  intros He. cbv zeta. cbn [worker_loop]. rewrite He. cbn [run]. destruct (env (CallUpdateStatus _) s) as [u s1].
  cbn [run_log]. rewrite run_bind. cbv zeta. cbn [run_log]. split.
  - destruct (session_connects endpoint index frames seen s1) as (r & log & ->). exists r. right. by left.
  - intros Hdead. destruct (session_refused endpoint index frames seen s1 (Hdead s1)) as [e ->].
    rewrite run_bind. cbv zeta. cbn [run_log]. rewrite rotates by (apply lookup_lt_Some in He; lia).
    eexists (_ :: _ ++ _), _. cbn [app]. by rewrite <-app_assoc.
Qed.
End rotation.

(** C30: rotation reaches every endpoint.  If connecting to all other endpoints
    of a chain fails, the worker, from whatever endpoint it stands at, connects
    to the remaining one within as many sessions as there are endpoints. *)
Theorem worker_reaches_live_endpoint {S} (env : forall c : call, S -> reply c * S) chain cap workers max bf timeout error_chain
  sessions index seen s live endpoint
  (Hindex : (N.to_nat index < length (ch_endpoints chain))%nat)
  (Hlive : ch_endpoints chain !! live = Some endpoint)
  (Hdead : forall i e s, ch_endpoints chain !! i = Some e -> i <> live -> (env (CallConnect (ep_ws_url e)) s).1 <> Subscribed)
  (Hmany : (length (ch_endpoints chain) <= length sessions)%nat) :
  let o := run env (worker_loop chain cap workers max bf timeout error_chain sessions index seen) s in
  exists r, exch (CallConnect (ep_ws_url endpoint)) r ∈ run_log o.
Proof.
  cbv zeta. set (n := length (ch_endpoints chain)) in *.
  assert (live < n)%nat as Hlt by (by eapply lookup_lt_Some).
  assert (exists k, (k < length sessions)%nat /\ ((N.to_nat index + k) mod n = live)%nat) as (k & Hk & Hmod).
  { destruct (le_gt_dec (N.to_nat index) live) as [H|H].
    - exists (live - N.to_nat index)%nat. split; [lia|]. rewrite Nat.mod_small; lia.
    - exists (n + live - N.to_nat index)%nat. split; [lia|].
      replace (N.to_nat index + (n + live - N.to_nat index))%nat with (live + 1 * n)%nat by lia.
      rewrite Nat.Div0.mod_add. by apply Nat.mod_small. }
  clear Hmany. revert sessions index s Hindex Hk Hmod.
  induction k as [|k IH]; intros [|frames sessions] index s Hindex Hk Hmod; cbn [length] in Hk; try lia;
    destruct (lookup_lt_is_Some_2 _ _ Hindex) as [e He];
    destruct (worker_turn env chain cap workers max bf timeout error_chain frames sessions index seen s e He) as [Hc Hnext].
  - rewrite Nat.add_0_r, Nat.mod_small in Hmod by done. subst live. by assert (e = endpoint) as -> by congruence.
  - destruct (decide (N.to_nat index = live)) as [<-|Hne]; [by assert (e = endpoint) as -> by congruence|].
    destruct Hnext as (before & s' & ->); [intros s'; by eapply Hdead|].
    pose proof (rotate_index_in_range index n ltac:(lia)) as Hr.
    destruct (IH sessions (rotate_endpoint_index index (usize_of n)) s') as [r Hr'].
    + rewrite Hr. apply Nat.mod_upper_bound. lia.
    + lia.
    + rewrite Hr, Nat.Div0.add_mod_idemp_l. rewrite <-Hmod. f_equal. lia.
    + exists r. apply elem_of_app. by right.
Qed.

(** ** Concrete sessions *)
Definition sample_notification (hash : N) : WsFrame :=
  FrameText (Some (mkWsMessage false (Some "eth_subscription") None
    (Some (mkWsParams "0xsub" (HashStr (format_hash hash)))))).
Definition sample_subscribed : WsFrame := FrameText (Some (mkWsMessage true None (Some (HashStr "0xsub")) None)).
(** The first session breaks after hashes 1 and 2; hash 1 is announced again
    at once, and again when hash 3 has pushed it out of a memory of two. *)
Definition sample_sessions : list (list WsFrame) :=
  [[sample_subscribed; sample_notification 1; FramePing; sample_notification 2; sample_notification 1; FrameError];
   [sample_notification 1; sample_notification 3; FrameTimeout; sample_notification 1; FrameClose]]%N.
Definition sample_worker {S} (env : forall c : call, S -> reply c * S) (chain : ChainRpcConfig) (s : S) :=
  run env (run_chain_worker chain 4 1 2 batch_fetch_default 20 (fun _ => "error") false (fun n => n) sample_sessions) s.

Lemma worker_fetches_once_witness :
  let o := sample_worker sample_env sample_chain state_default in
  requests (run_log o) = (fun h => [format_hash h]) <$> [1; 2; 3; 1]%N /\
  snd <$> run_value o = Some (WorkerRunning 0) /\
  exists fetched, Forall2 single_request (requests (run_log o)) fetched /\ spaced 2 fetched.
Proof.
  cbv zeta. split; [vm_compute; reflexivity|]. split; [vm_compute; reflexivity|].
  unfold sample_worker. by apply worker_fetches_once.
Defined.

Definition failing_env (c : call) (s : SchedulerState) : reply c * SchedulerState :=
  match c with CallFetchRows _ _ => (Absent, s) | c => sample_env c s end.
Lemma failed_fetch_forgets_witness :
  let ob := mkObservation (format_hash 1) 5 6 in
  let batch env seen := run env (process_pending_hash_batch sample_chain 4 1 2 batch_fetch_default "http" seen [ob]) state_default in
  let o := batch failing_env seen_default in
  (run_value o).2 = inr (SessionFailed FetchError) /\
  batch sample_env (run_value o).1 = mkRun [] ((run_value o).1, inl tt) state_default.
Proof.
  cbv zeta. destruct (failed_fetch_forgets failing_env sample_chain 4 1 2 batch_fetch_default "http" seen_default
    (mkObservation (format_hash 1) 5 6) 1 [] state_default ltac:(done) (remembers_default 2) ltac:(vm_compute; reflexivity)
    ltac:(apply not_elem_of_nil) ltac:(done)) as (H1 & H2 & H3).
  split; [exact H1|]. by apply (H3 _ sample_env state_default "http" (mkObservation (format_hash 1) 5 6) []).
Defined.

Definition three_endpoints : ChainRpcConfig :=
  mkChain "eth" (Some 1%N) [mkEndpoint "ws0" "http0"; mkEndpoint "ws1" "http1"; mkEndpoint "ws2" "http2"] "rpc-eth".
Definition one_live_env (c : call) (s : SchedulerState) : reply c * SchedulerState :=
  match c with
  | CallConnect url => ((if bool_decide (url = "ws1") then Subscribed else ConnectFailed), s)
  | c => sample_env c s
  end.
Lemma worker_reaches_live_endpoint_witness :
  let o := run one_live_env (worker_loop three_endpoints 4 1 2 batch_fetch_default 20 (fun _ => "error") [[]; []; []] 2 seen_default)
             state_default in
  (exists r, exch (CallConnect "ws1") r ∈ run_log o) /\ (run_value o).2 = WorkerInSession.
Proof.
  cbv zeta. split; [|vm_compute; reflexivity].
  apply (worker_reaches_live_endpoint one_live_env three_endpoints 4 1 2 batch_fetch_default 20 (fun _ => "error")
    [[]; []; []] 2 seen_default state_default 1 (mkEndpoint "ws1" "http1")); [cbn; lia|done| |cbn; lia].
  intros [|[|[|]]] e s; cbn; intros; simplify_eq/=; done.
Defined.
