(* ===== verification/LiveConcurrent.v ===== *)
(** * LiveConcurrent: the chain workers of a feed side by side (crates/runtime-core/src/live_rpc.rs)

    [start_live_rpc_feed_with_owner] spawns one worker per chain over one
    scheduler, one storage queue and one set of counters.  A schedule says
    whose turn it is; at its turn a worker makes one call.  [thread_view] says
    that a worker cannot tell: its calls and replies are those it would have
    alone, with the other workers' turns folded into its environment.  So what
    the other files prove of one program for every environment holds of every
    worker of the feed, whatever the schedule. *)
From stdpp Require Import base gmap strings list numbers sorting.
From S2P Require Import Prelude Common EventLog Scheduler SchedulerQueue SeenWindow ReplayMempool ReplayLifecycle Storage LiveHex LiveState LiveConfig LiveDecode.
From S2P Require Import LiveProgram LivePipeline LiveMirror LiveSession Startup.

(** ** Turns *)
Section turns.
Context {S A : Type} (env : nat -> forall c : call, S -> reply c * S).

(** One turn: the exchange made, if the thread exists and has not finished,
    and the threads and the shared state after it. *)
Definition turn (i : nat) (threads : list (prog A)) (s : S) : list (nat * exchange) * list (prog A) * S :=
  match threads !! i with
  | Some (Do c k) => let '(r, s1) := env i c s in ([(i, exch c r)], <[i := k r]> threads, s1)
  | _ => ([], threads, s)
  end.

Fixpoint interleave (schedule : list nat) (threads : list (prog A)) (s : S) : list (nat * exchange) * list (prog A) * S :=
  match schedule with
  | [] => ([], threads, s)
  | i :: schedule' =>
      let '(log1, threads1, s1) := turn i threads s in
      let '(log2, threads2, s2) := interleave schedule' threads1 s1 in
      (log1 ++ log2, threads2, s2)
  end.

(** The conversation of one thread. *)
Definition thread_log (i : nat) (log : list (nat * exchange)) : list exchange :=
  snd <$> filter (fun x => x.1 = i) log.

Lemma thread_log_app i l1 l2 : thread_log i (l1 ++ l2) = thread_log i l1 ++ thread_log i l2.
Proof. unfold thread_log. by rewrite filter_app, fmap_app. Qed.

(** ** The environment of one thread *)

(** Everybody else's turns up to the next turn of [i]. *)
Fixpoint until_turn (i : nat) (schedule : list nat) (threads : list (prog A)) (s : S) : list nat * list (prog A) * S :=
  match schedule with
  | [] => ([], threads, s)
  | j :: schedule' =>
      if decide (j = i) then (schedule', threads, s)
      else let '(_, threads1, s1) := turn j threads s in until_turn i schedule' threads1 s1
  end.

Definition world : Type := list nat * list (prog A) * S.
(** What thread [i] meets: the other threads move first. *)
Definition thread_env (i : nat) (c : call) (w : world) : reply c * world :=
  let '(schedule, threads, s) := w in
  let '(schedule1, threads1, s1) := until_turn i schedule threads s in
  let '(r, s2) := env i c s1 in (r, (schedule1, threads1, s2)).

Lemma turn_other i j p threads s : i <> j ->
  turn j (<[i := p]> threads) s =
    let '(log, threads1, s1) := turn j threads s in (log, <[i := p]> threads1, s1).
Proof.
  intros Hij. unfold turn. rewrite list_lookup_insert_ne by done.
  destruct (threads !! j) as [[a|c k]|]; [done| |done].
  destruct (env j c s) as [r s1]. by rewrite list_insert_insert_ne.
Qed.

Lemma turn_lookup i j threads s : i <> j -> (turn j threads s).1.2 !! i = threads !! i.
Proof.
  intros Hij. unfold turn. destruct (threads !! j) as [[a|c k]|]; [done| |done].
  destruct (env j c s). by apply list_lookup_insert_ne.
Qed.
Lemma turn_log i j threads s : i <> j -> thread_log i (turn j threads s).1.1 = [].
Proof.
  intros Hij. unfold turn. destruct (threads !! j) as [[a|c k]|]; [done| |done].
  destruct (env j c s). unfold thread_log. cbn. by rewrite decide_False.
Qed.

(** Alone with [thread_env], another thread's turn changes nothing thread [i]
    sees. *)
Lemma run_skip i j (p q : prog A) schedule threads s : i <> j ->
  let '(_, threads1, s1) := turn j threads s in
  let o := run (thread_env i) p (j :: schedule, <[i := q]> threads, s) in
  let o1 := run (thread_env i) p (schedule, <[i := q]> threads1, s1) in
  run_log o = run_log o1 /\ run_value o = run_value o1.
Proof.
  intros Hij. pose proof (turn_other i j q threads s Hij) as Ht.
  destruct (turn j threads s) as [[log threads1] s1]. destruct p as [a|c k]; [done|]. cbn zeta.
  assert (thread_env i c (j :: schedule, <[i := q]> threads, s) =
          thread_env i c (schedule, <[i := q]> threads1, s1)) as E.
  { unfold thread_env. cbn [until_turn]. rewrite decide_False by done. by rewrite Ht. }
  cbn [run]. rewrite E. by destruct (thread_env i c (schedule, _, s1)).
Qed.

Lemma thread_view i (p q : prog A) schedule threads s : threads !! i = Some p ->
  let '(log, threads', _) := interleave schedule threads s in
  let o := run (thread_env i) p (schedule, <[i := q]> threads, s) in
  exists rest p', run_log o = thread_log i log ++ rest /\ threads' !! i = Some p' /\
    forall a, p' = Ret a -> rest = [] /\ run_value o = a.
Proof.
  revert p threads s. induction schedule as [|j schedule IH]; intros p threads s Hp; cbn [interleave].
  { cbv zeta. exists (run_log (run (thread_env i) p ([], <[i := q]> threads, s))), p. split; [done|]. split; [done|]. by intros a ->. }
  destruct (decide (i = j)) as [<-|Hij].
  - unfold turn. rewrite Hp. destruct p as [a|c k].
    + specialize (IH (Ret a) threads s Hp). destruct (interleave schedule threads s) as [[log threads'] s']. exact IH.
    + destruct (env i c s) as [r s1] eqn:E. specialize (IH (k r) (<[i := k r]> threads) s1).
      destruct (interleave schedule _ s1) as [[log threads'] s']. cbv zeta in *.
      destruct IH as (rest & p' & Hlog & Hp' & Hfin).
      { apply list_lookup_insert_eq. by apply lookup_lt_Some in Hp. }
      rewrite list_insert_insert_eq in Hlog, Hfin. exists rest, p'. cbn [run].
      assert (thread_env i c (i :: schedule, <[i := q]> threads, s) = (r, (schedule, <[i := q]> threads, s1))) as ->.
      { unfold thread_env. cbn [until_turn]. rewrite decide_True by done. by rewrite E. }
      cbn [run_log run_value]. rewrite Hlog. split_and!; [|done..]. unfold thread_log. cbn. by rewrite decide_True.
  - pose proof (run_skip i j p q schedule threads s Hij) as Hskip. pose proof (turn_log i j threads s Hij) as Hlog1.
    pose proof (turn_lookup i j threads s Hij) as Hl.
    destruct (turn j threads s) as [[log1 threads1] s1]. cbn [fst snd] in *. rewrite Hp in Hl.
    specialize (IH p threads1 s1 Hl). destruct (interleave schedule threads1 s1) as [[log threads'] s'].
    cbv zeta in *. destruct Hskip as [-> ->]. by rewrite thread_log_app, Hlog1.
Qed.
End turns.

(** ** The feed *)

(** The counter wraps. *)
Definition record_live_rpc_feed_start (core : RuntimeCore) : RuntimeCore :=
  mkRuntimeCore (rc_builder_engine core) (rc_drop_metrics core) (rc_searcher_metrics core) (rc_simulation_metrics core)
    (rc_simulation_status core) (rc_chain_status core) (rc_account_seeds core)
    ((rc_feed_start_count core + 1) mod 18446744073709551616).
Definition reset_drop_metrics (core : RuntimeCore) : RuntimeCore := set_drop_metrics drop_metrics_default core.
Definition reset_chain_status (core : RuntimeCore) : RuntimeCore := set_chain_status ∅ core.

(** The first number of a feed, from the storage's latest. *)
Definition first_seq_id (latest_seq_id : option N) : N := N.max (sat_add u64_max (default 0%N latest_seq_id) 1) 1.

(** A started feed: its counter and the workers spawned, one per chain. *)
Record LiveFeed A := mkFeed {
  fd_next_seq_id : N;
  fd_workers : list (prog A);
}.
Arguments mkFeed {A}. Arguments fd_next_seq_id {A}. Arguments fd_workers {A}.

(** What the web server starts once its runtime is up. *)
Inductive LiveStart := StartFeed (bootstrap_from_pending_pool : bool) | StartRebuild | StartNothing.
Definition live_start (ingest_mode : IngestMode) (rebuild_scheduler_from_rpc : bool) : LiveStart :=
  match ingest_mode with
  | NodeRpc | NodeHybrid => StartFeed rebuild_scheduler_from_rpc
  | NodeP2p => if rebuild_scheduler_from_rpc then StartRebuild else StartNothing
  end.

Section feed.
Context (queue_capacity worker_total : N) (error_chain : SessionError -> string) (mono_ns : N -> N).

(** [start_live_rpc_feed_with_owner]; [in_runtime] is whether the caller runs
    inside a runtime, [sessions] what each chain's sockets will deliver. *)
Definition start_live_rpc_feed (in_runtime : bool) (latest_seq_id : option N) (config : LiveRpcConfig)
    (bootstrap_from_pending_pool : bool) (sessions : nat -> list (list WsFrame)) (core : RuntimeCore) :
    RuntimeCore * option (LiveFeed (option (Seen * WorkerEnd))) :=
  let core1 := record_live_rpc_feed_start core in
  if negb in_runtime then (core1, None)
  else
    match lc_chains config with
    | [] => (core1, None)
    | chains =>
        (reset_chain_status (reset_drop_metrics core1),
         Some (mkFeed (first_seq_id latest_seq_id)
           (imap (fun i chain =>
              run_chain_worker chain queue_capacity worker_total (lc_max_seen_hashes config) (lc_batch_fetch config)
                (lc_silent_chain_timeout_secs config) error_chain bootstrap_from_pending_pool mono_ns (sessions i))
              chains)))
    end.

(** [None] when the chain has no endpoint. *)
Definition run_chain_pending_pool_rebuild (chain : ChainRpcConfig) : prog (option RebuildEnd) :=
  match ch_endpoints chain with
  | [] => Ret None
  | _ => r <- rebuild_scheduler_from_pending_pool chain queue_capacity worker_total mono_ns ;; Ret (Some r)
  end.
Definition start_live_rpc_pending_pool_rebuild (in_runtime : bool) (latest_seq_id : option N) (config : LiveRpcConfig) :
    option (LiveFeed (option RebuildEnd)) :=
  if negb in_runtime then None
  else
    match lc_chains config with
    | [] => None
    | chains => Some (mkFeed (first_seq_id latest_seq_id) (run_chain_pending_pool_rebuild <$> chains))
    end.
End feed.

(** ** What the workers of a feed fetch *)
Lemma spaced_prefix n (l1 l2 : list TxHash) : spaced n (l1 ++ l2) -> spaced n l1.
Proof. intros H i j x Hij Hi Hj. apply (H i j x Hij); by apply lookup_app_l_Some. Qed.

(** One worker alone: what it fetched up to any point of its conversation. *)
Definition fetched_once (max : N) (log : list exchange) : Prop :=
  exists fetched, Forall2 single_request (requests log) fetched /\ spaced max fetched.
Lemma fetched_once_prefix max log rest : fetched_once max (log ++ rest) -> fetched_once max log.
Proof.
  intros (fetched & Hf & Hs). rewrite requests_app in Hf. apply Forall2_app_inv_l in Hf as (f1 & f2 & Hf & _ & ->).
  exists f1. split; [done|]. by apply spaced_prefix in Hs.
Qed.

Lemma feed_workers cap workers error_chain mono_ns in_runtime latest config bootstrap sessions core core' feed i p :
  start_live_rpc_feed cap workers error_chain mono_ns in_runtime latest config bootstrap sessions core = (core', Some feed) ->
  fd_workers feed !! i = Some p ->
  exists chain, lc_chains config !! i = Some chain /\
    p = run_chain_worker chain cap workers (lc_max_seen_hashes config) (lc_batch_fetch config)
          (lc_silent_chain_timeout_secs config) error_chain bootstrap mono_ns (sessions i).
Proof.
  unfold start_live_rpc_feed. destruct in_runtime; [|done]. cbn [negb].
  destruct (lc_chains config) as [|chain chains]; [done|]. set (ws := imap _ _). intros [= _ <-]. unfold ws. cbn [fd_workers].
  rewrite list_lookup_imap. intros (chain0 & Hc & ->)%fmap_Some. by exists chain0.
Qed.

(** C20: what the workers of a feed fetch, side by side, over any number of
    sessions, whatever arrives, whatever the environment answers and in
    whatever order the workers take their turns. The batch size and the number
    of requests in flight are at least one, as every accepted setting is. At
    any moment every request a worker has made asks for exactly one hash, and
    between two of its requests for the same hash it has made at least
    [max_seen_hashes] others, reconnects included; no worker waits for a permit
    for ever. What one worker has fetched the others do not know. *)
Theorem feed_fetches_once {S} (env : nat -> forall c : call, S -> reply c * S) cap workers error_chain mono_ns in_runtime
  latest config bootstrap sessions core core' feed schedule s i p
  (Hbatch : (1 <= bf_batch_size (lc_batch_fetch config))%N) (Hflight : (1 <= bf_max_in_flight (lc_batch_fetch config))%N)
  (Hstart : start_live_rpc_feed cap workers error_chain mono_ns in_runtime latest config bootstrap sessions core = (core', Some feed))
  (Hworker : fd_workers feed !! i = Some p) :
  let '(log, threads, _) := interleave env schedule (fd_workers feed) s in
  fetched_once (lc_max_seen_hashes config) (thread_log i log) /\
  forall r, threads !! i = Some (Ret r) -> (snd <$> r) <> Some WorkerBlocked.
Proof.
  destruct (feed_workers _ _ _ _ _ _ _ _ _ _ _ _ _ _ Hstart Hworker) as (chain & _ & Hp).
  pose proof (thread_view env i p (Ret None) schedule (fd_workers feed) s Hworker) as Hview.
  destruct (interleave env schedule (fd_workers feed) s) as [[log threads] s']. cbv zeta in Hview.
  destruct Hview as (rest & p' & Hlog & Hp' & Hfin). subst p.
  pose proof (worker_fetches_once (thread_env env i) chain cap workers (lc_max_seen_hashes config) (lc_batch_fetch config)
    (lc_silent_chain_timeout_secs config) error_chain bootstrap mono_ns (sessions i)
    (schedule, <[i := Ret None]> (fd_workers feed), s) Hbatch Hflight) as [Honce Hend].
  split.
  - rewrite Hlog in Honce. by apply fetched_once_prefix in Honce.
  - intros r Hr. rewrite Hp' in Hr. injection Hr as ->. destruct (Hfin r eq_refl) as [_ <-]. exact Hend.
Qed.

(** ** Two chains at once *)

(** Two entries of the configuration, and one transaction on each, by the same
    sender with the same nonce; the second pays twice the first. *)
Definition two_chains : LiveRpcConfig :=
  mkLiveConfig [sample_chain; mkChain "base" (Some 8453%N) [mkEndpoint "ws-base" "http-base"] "rpc-base"]
    10000 batch_fetch_default 20.
Definition chain_session (hash : N) : list (list WsFrame) := [[sample_subscribed; sample_notification hash]].
Definition two_sessions (i : nat) : list (list WsFrame) := chain_session (if decide (i = 0%nat) then 1%N else 2%N).
Definition base_live : LiveTx :=
  let tx := sample_live 2 7 200 in
  {| lt_hash := lt_hash tx; lt_sender := lt_sender tx; lt_to := lt_to tx; lt_nonce := lt_nonce tx;
     lt_tx_type := lt_tx_type tx; lt_value_wei := lt_value_wei tx; lt_gas_limit := lt_gas_limit tx;
     lt_chain_id := Some 8453%N; lt_gas_price_wei := lt_gas_price_wei tx;
     lt_max_fee_per_gas_wei := lt_max_fee_per_gas_wei tx; lt_max_priority_fee_per_gas_wei := lt_max_priority_fee_per_gas_wei tx;
     lt_max_fee_per_blob_gas_wei := lt_max_fee_per_blob_gas_wei tx; lt_input := lt_input tx |}.
(** The scheduler, with every queue open and each chain's node answering with
    its transaction. *)
Definition two_env (i : nat) (c : call) (s : SchedulerState) : reply c * SchedulerState :=
  match c with
  | CallFetchRows _ _ => (Found [Some (if decide (i = 0%nat) then sample_live 1 7 100 else base_live)], s)
  | c => sample_env c s
  end.
Definition two_feed := start_live_rpc_feed 4 1 (fun _ => "error") (fun n => n) true None two_chains false two_sessions runtime_core_start.
Definition two_workers : list (prog (option (Seen * WorkerEnd))) :=
  imap (fun i chain => run_chain_worker chain 4 1 10000 batch_fetch_default 20 (fun _ => "error") false (fun n => n) (two_sessions i))
    (lc_chains two_chains).
Lemma two_feed_started : two_feed = (two_feed.1, Some (mkFeed 1 two_workers)).
Proof. unfold two_feed. reflexivity. Qed.
Definition two_run (schedule : list nat) :=
  interleave two_env schedule two_workers state_default.
Definition pool_of {A} (m : list (nat * exchange) * A * SchedulerState) : list TxHash := bt_keys (pending m.2).
Definition replayed_of {A} (m : list (nat * exchange) * A * SchedulerState) : MempoolState :=
  apply_all (sample_event 1 <$> logged (snd <$> m.1.1)) mempool_default.

(** Worker 0 up to its admission, then all of worker 1, then the rest. *)
Definition racing : list nat := replicate 12 0%nat ++ replicate 60 1%nat ++ replicate 60 0%nat.
Definition in_order : list nat := replicate 60 0%nat ++ replicate 60 1%nat.

Lemma feed_fetches_once_witness :
  let m := two_run racing in
  requests (thread_log 0 m.1.1) = [[format_hash 1]] /\ requests (thread_log 1 m.1.1) = [[format_hash 2]] /\
  fetched_once 10000 (thread_log 1 m.1.1).
Proof.
  cbv zeta. split; [vm_compute; reflexivity|]. split; [vm_compute; reflexivity|].
  pose proof (feed_fetches_once two_env 4 1 (fun _ => "error") (fun n => n) true None two_chains false two_sessions
    runtime_core_start _ _ racing state_default 1 _ ltac:(by vm_compute) ltac:(by vm_compute) two_feed_started eq_refl) as H.
  cbn [fd_workers] in H. unfold two_run.
  destruct (interleave two_env racing two_workers state_default) as [[log threads] s']. exact (proj1 H).
Defined.

(** One scheduler holds the transactions of every chain by sender and nonce
    alone: taking turns one after the other, the transaction of the second
    chain replaces that of the first. *)
Example chains_share_the_pool :
  let m := two_run in_order in
  (fun x => dec_chain_id (vt_decoded x.2)) <$> map_to_list (pending m.2) = [Some 8453%N] /\
  lifecycle (replayed_of m) <$> [1; 2]%N = [Some (StReplaced 2); Some StPending].
Proof. vm_compute. split; reflexivity. Qed.

(** The admission and the events that report it are separate calls.  Racing,
    the scheduler replaces transaction 1 by 2, but the log tells of 2 first:
    replay ends with 1 pending and 2 replaced by 1. *)
Example racing_log_diverges :
  let m := two_run racing in
  pool_of m = [2%N] /\
  lifecycle (replayed_of m) <$> [1; 2]%N = [Some StPending; Some (StReplaced 1)] /\
  sender_queues_view (replayed_of m) = [{| rq_sender := 5; rq_queued := [mkReplayEntry 1 7 RReady] |}]%N.
Proof. vm_compute. split_and!; reflexivity. Qed.

(** ** Starting *)
Example starts :
  (rc_feed_start_count two_feed.1, fd_next_seq_id <$> two_feed.2) = (1%N, Some 1%N) /\
  fd_next_seq_id <$> (start_live_rpc_pending_pool_rebuild 4 1 (fun n => n) true (Some u64_max) two_chains) = Some u64_max /\
  (fun mode => (live_start mode true, live_start mode false)) <$> [NodeRpc; NodeP2p; NodeHybrid] =
    [(StartFeed true, StartFeed false); (StartRebuild, StartNothing); (StartFeed true, StartFeed false)].
Proof. vm_compute. split_and!; reflexivity. Qed.
