(* ===== verification/SimPool.v ===== *)
(** * SimPool: the simulation queue and its workers (crates/runtime-core/src/live_rpc.rs)

    [LiveRpcSimulationService]: a bounded queue that any number of senders fill
    and a fixed number of workers empty.  A worker that panics is not
    restarted; when the last one is gone the queue goes with it, and the next
    sender spawns a new pool.  Senders and workers move in any order, one
    action at a time: a sender looks up the pool, sends, and updates the
    counters in separate actions, a worker receives, counts and finishes. *)
From stdpp Require Import base list numbers.
From S2P Require Import Prelude LiveState.

Section pool.
Context {T : Type}.

(** A worker waits for a task, has one, counts it and simulates it; a panic
    ends it. *)
Inductive Worker := Waiting | Received (t : T) | Running (t : T) | Panicked.
(** [LiveRpcSimulationRuntime]: the queue and the tasks spawned on it. *)
Record SimRuntime := mkSimRuntime {
  sr_queue : list T;
  sr_workers : list Worker;
}.
(** The service; the pools spawned before this one; the senders that have
    looked up a pool, by its number, and the counter updates that senders have
    still to make. *)
Record SimService := mkSimService {
  sv_runtime : SimRuntime;
  sv_queue_capacity : N;
  sv_worker_total : N;
  sv_generation : nat;
  sv_senders : list (T * nat);
  sv_updates : list (list SimObservation);
}.
Definition spawn_live_rpc_simulation_runtime (worker_total : N) : SimRuntime :=
  mkSimRuntime [] (replicate (N.to_nat worker_total) Waiting).
Definition sim_service_new (queue_capacity worker_total : N) : SimService :=
  mkSimService (spawn_live_rpc_simulation_runtime worker_total) queue_capacity worker_total 0 [] [].
Definition set_runtime r (s : SimService) : SimService :=
  mkSimService r (sv_queue_capacity s) (sv_worker_total s) (sv_generation s) (sv_senders s) (sv_updates s).
Definition set_senders l (s : SimService) : SimService :=
  mkSimService (sv_runtime s) (sv_queue_capacity s) (sv_worker_total s) (sv_generation s) l (sv_updates s).
Definition set_updates us (s : SimService) : SimService :=
  mkSimService (sv_runtime s) (sv_queue_capacity s) (sv_worker_total s) (sv_generation s) (sv_senders s) us.

(** The workers own the receiver: the channel is closed once all are gone. *)
Definition is_panicked (w : Worker) : bool := match w with Panicked => true | _ => false end.
Definition is_closed (r : SimRuntime) : bool := forallb is_panicked (sr_workers r).

(** [runtime]: the pool, spawned again if it is gone. *)
Definition runtime (s : SimService) : SimService :=
  if is_closed (sv_runtime s)
  then mkSimService (spawn_live_rpc_simulation_runtime (sv_worker_total s)) (sv_queue_capacity s) (sv_worker_total s)
         (S (sv_generation s)) (sv_senders s) (sv_updates s)
  else s.

Inductive PoolEvent :=
  | EvAccepted (t : T) | EvRefused (t : T) | EvClosed (t : T)
  | EvStarted (t : T) | EvFinished (t : T) | EvLost (t : T) | EvDropped (t : T)
  | EvObserved (o : SimObservation).

(** [enqueue] looks up the pool, then sends to it, up to its counters. *)
Definition look_up (task : T) (s : SimService) : SimService :=
  let s := runtime s in set_senders (sv_senders s ++ [(task, sv_generation s)]) s.
Definition try_send (task : T) (generation : nat) (s : SimService) : list PoolEvent * SimService :=
  let r := sv_runtime s in
  let configure := ObsConfigure (sv_queue_capacity s) (sv_worker_total s) in
  if bool_decide (generation <> sv_generation s) || is_closed r then ([EvClosed task], s)
  else if (sv_queue_capacity s <=? usize_of (length (sr_queue r)))%N
  then ([EvRefused task], set_updates (sv_updates s ++ [[configure; ObsQueueFull]]) s)
  else ([EvAccepted task],
        set_updates (sv_updates s ++ [[configure; ObsEnqueue]])
          (set_runtime (mkSimRuntime (sr_queue r ++ [task]) (sr_workers r)) s)).

Inductive Action :=
  | ActLookUp (task : T)
  | ActSend (sender : nat)
  | ActUpdate (sender : nat)
  | ActReceive (worker : nat)
  | ActCount (worker : nat)
  | ActFinish (worker : nat)
  | ActPanic (worker : nat).

Definition set_worker (i : nat) (w : Worker) (r : SimRuntime) : SimRuntime :=
  mkSimRuntime (sr_queue r) (<[i := w]> (sr_workers r)).

(** One action, where it is possible: the turns of [run_simulation_worker] are
    receive, count, finish.  The last panic drops what the queue holds. *)
Definition act (a : Action) (s : SimService) : option (list PoolEvent * SimService) :=
  let r := sv_runtime s in
  match a with
  | ActLookUp task => Some ([], look_up task s)
  | ActSend k =>
      '(task, generation) ← sv_senders s !! k;
      Some (try_send task generation (set_senders (delete k (sv_senders s)) s))
  | ActUpdate k =>
      match sv_updates s !! k with
      | Some (o :: rest) => Some ([EvObserved o], set_updates (<[k := rest]> (sv_updates s)) s)
      | _ => None
      end
  | ActReceive i =>
      match sr_workers r !! i, sr_queue r with
      | Some Waiting, task :: queue =>
          Some ([EvStarted task], set_runtime (set_worker i (Received task) (mkSimRuntime queue (sr_workers r))) s)
      | _, _ => None
      end
  | ActCount i =>
      match sr_workers r !! i with
      | Some (Received task) => Some ([EvObserved ObsDequeue], set_runtime (set_worker i (Running task) r) s)
      | _ => None
      end
  | ActFinish i =>
      match sr_workers r !! i with
      | Some (Running task) =>
          Some ([EvFinished task; EvObserved ObsFinish], set_runtime (set_worker i Waiting r) s)
      | _ => None
      end
  | ActPanic i =>
      match sr_workers r !! i with
      | Some (Running task) =>
          let r' := set_worker i Panicked r in
          Some (if is_closed r'
                then (EvLost task :: (EvDropped <$> sr_queue r), set_runtime (mkSimRuntime [] (sr_workers r')) s)
                else ([EvLost task], set_runtime r' s))
      | _ => None
      end
  end.

Fixpoint acts (l : list Action) (s : SimService) : option (list PoolEvent * SimService) :=
  match l with
  | [] => Some ([], s)
  | a :: l' =>
      '(events, s1) ← act a s;
      '(events', s2) ← acts l' s1;
      Some (events ++ events', s2)
  end.

(** ** What a history says *)
Definition accepted (l : list PoolEvent) : list T := omap (fun e => match e with EvAccepted t => Some t | _ => None end) l.
Definition started (l : list PoolEvent) : list T := omap (fun e => match e with EvStarted t => Some t | _ => None end) l.
Definition finished (l : list PoolEvent) : list T := omap (fun e => match e with EvFinished t => Some t | _ => None end) l.
Definition lost (l : list PoolEvent) : list T := omap (fun e => match e with EvLost t => Some t | _ => None end) l.
Definition dropped (l : list PoolEvent) : list T := omap (fun e => match e with EvDropped t => Some t | _ => None end) l.
Definition closed (l : list PoolEvent) : list T := omap (fun e => match e with EvClosed t => Some t | _ => None end) l.
Definition observations (l : list PoolEvent) : list SimObservation :=
  omap (fun e => match e with EvObserved o => Some o | _ => None end) l.

Definition received_task (w : Worker) : option T := match w with Received t => Some t | _ => None end.
Definition running_task (w : Worker) : option T := match w with Running t => Some t | _ => None end.
Definition received (s : SimService) : list T := omap received_task (sr_workers (sv_runtime s)).
Definition running (s : SimService) : list T := omap running_task (sr_workers (sv_runtime s)).
Definition queued (s : SimService) : list T := sr_queue (sv_runtime s).
(** The enqueues senders have still to count. *)
Definition uncounted (s : SimService) : Z := count_obs ObsEnqueue (concat (sv_updates s)).

(** ** The invariant *)
Lemma omap_insert_perm {A B} (f : A -> option B) l i w w' : l !! i = Some w ->
  omap f (<[i := w']> l) ++ option_list (f w) ≡ₚ omap f l ++ option_list (f w').
Proof.
  intros Hi. rewrite insert_take_drop by (by apply lookup_lt_Some in Hi).
  rewrite <-(take_drop_middle l i w Hi) at 3. rewrite !omap_app. cbn.
  destruct (f w), (f w'); cbn; rewrite ?app_nil_r; solve_Permutation.
Qed.
Lemma sublist_same_length {A} (l1 l2 : list A) : l1 `sublist_of` l2 -> length l1 = length l2 -> l1 = l2.
Proof.
  induction 1 as [|x l1 l2 Hs IH|x l1 l2 Hs IH]; cbn; [done|..]; intros Hlen; [f_equal; auto|].
  apply sublist_length in Hs. lia.
Qed.
Lemma count_obs_app o l1 l2 : count_obs o (l1 ++ l2) = (count_obs o l1 + count_obs o l2)%Z.
Proof. unfold count_obs. rewrite List.filter_app, length_app. lia. Qed.

Lemma uncounted_snoc us a b o :
  count_obs ObsEnqueue (concat (us ++ [[ObsConfigure a b; o]])) =
    (count_obs ObsEnqueue (concat us) + if bool_decide (o = ObsEnqueue) then 1 else 0)%Z.
Proof.
  rewrite concat_app, count_obs_app. f_equal. unfold count_obs. cbn.
  rewrite (bool_decide_false (ObsConfigure a b = ObsEnqueue)) by done. by case_bool_decide.
Qed.

Definition panic_of (w : Worker) : option unit := if is_panicked w then Some tt else None.
Definition panics (s : SimService) : nat := length (omap panic_of (sr_workers (sv_runtime s))).

(** Where the tasks are, and what the counters were told. *)
Record tasks_ok (pre : list PoolEvent) (s : SimService) : Prop := {
  to_fifo : started pre ++ queued s `sublist_of` accepted pre;
  to_all : accepted pre ≡ₚ started pre ++ queued s ++ dropped pre;
  to_started : started pre ≡ₚ finished pre ++ lost pre ++ received s ++ running s;
  to_enqueues : (count_obs ObsEnqueue (observations pre) + uncounted s = Z.of_nat (length (accepted pre)))%Z;
  to_dequeues : (count_obs ObsDequeue (observations pre) + Z.of_nat (length (received s)) = Z.of_nat (length (started pre)))%Z;
  to_finishes : count_obs ObsFinish (observations pre) = Z.of_nat (length (finished pre));
  to_lead : worst_lead ObsDequeue ObsFinish (observations pre) = 0%Z;
}.
(** The pool and how many panics it has cost. *)
Record pool_ok (pre : list PoolEvent) (s : SimService) : Prop := {
  po_workers : length (sr_workers (sv_runtime s)) = N.to_nat (sv_worker_total s);
  po_queue : (usize_of (length (queued s)) <= sv_queue_capacity s)%N;
  po_closed : is_closed (sv_runtime s) = true -> queued s = [];
  po_lost : length (lost pre) = (sv_generation s * N.to_nat (sv_worker_total s) + panics s)%nat;
  po_senders : Forall (fun x => (x.2 <= sv_generation s)%nat) (sv_senders s);
  po_survives : closed pre <> [] \/ dropped pre <> [] -> (N.to_nat (sv_worker_total s) <= length (lost pre))%nat;
}.

Lemma closed_panics s : is_closed (sv_runtime s) = true <-> panics s = length (sr_workers (sv_runtime s)).
Proof.
  unfold is_closed, panics. induction (sr_workers (sv_runtime s)) as [|w l IH]; [done|]. cbn [forallb omap list_omap length].
  assert (length (omap panic_of l) <= length l)%nat as Hle by (clear; induction l as [|w l IH]; cbn; [lia|destruct (panic_of w); cbn; lia]).
  unfold panic_of at 1. destruct (is_panicked w); cbn; [rewrite IH; lia|split; [done|lia]].
Qed.

Lemma waiting_tasks n :
  omap received_task (replicate n Waiting) = [] /\ omap running_task (replicate n Waiting) = [] /\
  omap panic_of (replicate n Waiting) = [].
Proof. induction n as [|n IH]; [done|]. exact IH. Qed.

Lemma start_ok queue_capacity worker_total :
  tasks_ok [] (sim_service_new queue_capacity worker_total) /\ pool_ok [] (sim_service_new queue_capacity worker_total).
Proof.
  destruct (waiting_tasks (N.to_nat worker_total)) as (H1 & H2 & H3).
  split; split; cbn; unfold received, running, panics, uncounted; cbn -[replicate]; try done.
  - by rewrite H1, H2.
  - by rewrite H1.
  - apply length_replicate.
  - unfold usize_of. lia.
  - by rewrite H3.
  - by intros [[]|[]].
Qed.

(** A pool that is gone holds no task: its workers have panicked and its queue
    was dropped, so that a new pool loses nothing. *)
Lemma panicked_no_task l : forallb is_panicked l = true -> omap received_task l = [] /\ omap running_task l = [].
Proof. induction l as [|[|t|t|] l IH]; cbn; done. Qed.

Lemma runtime_ok pre s : (1 <= sv_worker_total s)%N -> tasks_ok pre s -> pool_ok pre s ->
  tasks_ok pre (runtime s) /\ pool_ok pre (runtime s) /\
  sv_worker_total (runtime s) = sv_worker_total s /\ sv_queue_capacity (runtime s) = sv_queue_capacity s.
Proof.
  intros Hw Ht Hp. unfold runtime. destruct (is_closed (sv_runtime s)) eqn:Hc; [|done].
  destruct (waiting_tasks (N.to_nat (sv_worker_total s))) as (H1 & H2 & H3). destruct (panicked_no_task _ Hc) as [H4 H5].
  pose proof (proj1 (closed_panics s) Hc) as Hall. rewrite (po_workers _ _ Hp) in Hall.
  pose proof (po_closed _ _ Hp Hc) as Hq. destruct Ht as [Ha Hb Hc' Hd He Hf Hg]. destruct Hp as [Ia Ib Ic Id Ie If].
  unfold queued, received, running, uncounted, panics in *. rewrite H4, H5 in *. rewrite Hq in *.
  split_and!; [split|split|done|done]; cbn [sv_runtime sv_queue_capacity sv_worker_total sv_generation sv_senders sv_updates];
    unfold queued, received, running, uncounted, panics; cbn [sv_runtime sv_updates sv_worker_total sv_generation spawn_live_rpc_simulation_runtime sr_workers sr_queue];
    rewrite ?H1, ?H2, ?H3; try done.
  - apply length_replicate.
  - rewrite Id, Hall. cbn. lia.
  - eapply Forall_impl; [|exact Ie]. intros x Hx. cbn in *. lia.
Qed.

(** One worker goes from [w] to [w']. *)
Lemma set_worker_tasks s i w w' : sr_workers (sv_runtime s) !! i = Some w ->
  let s' := set_runtime (set_worker i w' (sv_runtime s)) s in
  received s' ++ option_list (received_task w) ≡ₚ received s ++ option_list (received_task w') /\
  running s' ++ option_list (running_task w) ≡ₚ running s ++ option_list (running_task w') /\
  (panics s' + length (option_list (panic_of w)) = panics s + length (option_list (panic_of w')))%nat.
Proof.
  intros Hi. cbv zeta. unfold received, running, panics. cbn. split_and!; [by apply omap_insert_perm..|].
  pose proof (omap_insert_perm panic_of _ i w w' Hi) as Hp. apply Permutation_length in Hp. by rewrite !length_app in Hp.
Qed.

Lemma set_worker_open s i w w' : sr_workers (sv_runtime s) !! i = Some w -> is_panicked w' = false ->
  is_closed (set_worker i w' (sv_runtime s)) = false.
Proof.
  intros Hi%lookup_lt_Some Hw. apply not_true_is_false. unfold is_closed. intros Hc.
  rewrite forallb_forall in Hc. specialize (Hc w'). rewrite Hw in Hc. discriminate Hc.
  apply list_elem_of_In, (list_elem_of_lookup_2 _ i). by apply list_lookup_insert_eq.
Qed.

Ltac history := unfold accepted, started, finished, lost, dropped, closed, observations in *;
  rewrite ?omap_app in *; cbn [omap list_omap] in *; rewrite ?app_nil_r in *.

Lemma look_up_ok pre task s : (1 <= sv_worker_total s)%N -> tasks_ok pre s -> pool_ok pre s ->
  tasks_ok pre (look_up task s) /\ pool_ok pre (look_up task s).
Proof.
  intros Hw Ht Hp. destruct (runtime_ok pre s Hw Ht Hp) as (Ht' & Hp' & _ & _). unfold look_up.
  split; [by destruct Ht'|]. destruct Hp' as [Ia Ib Ic Id Ie If]. split; try done.
  cbn [sv_senders set_senders sv_generation]. apply Forall_app. split; [done|]. apply Forall_singleton. cbn. lia.
Qed.

Lemma send_ok pre k task generation s : (1 <= sv_worker_total s)%N -> tasks_ok pre s -> pool_ok pre s ->
  sv_senders s !! k = Some (task, generation) ->
  let '(events, s') := try_send task generation (set_senders (delete k (sv_senders s)) s) in
  tasks_ok (pre ++ events) s' /\ pool_ok (pre ++ events) s'.
Proof.
  intros Hw [Ha Hb Hc Hd He Hf Hg] [Ia Ib Ic Id Ie If] Hk.
  assert (Forall (fun x => (x.2 <= sv_generation s)%nat) (delete k (sv_senders s))) as Ie' by (by apply Forall_delete).
  pose proof (Forall_lookup_1 _ _ _ _ Ie Hk) as Hgen. cbn in Hgen. clear Ie.
  unfold try_send. cbn [sv_generation set_senders sv_runtime sv_queue_capacity].
  destruct (bool_decide (generation <> sv_generation s) || is_closed (sv_runtime s)) eqn:Hclosed.
  - assert (N.to_nat (sv_worker_total s) <= length (lost pre))%nat as Hlost.
    { rewrite Id. apply orb_prop in Hclosed as [Hne%bool_decide_eq_true|Hall%closed_panics]; [|lia].
      assert (1 <= sv_generation s)%nat by lia. nia. }
    split; split; history; try done. 
  - apply orb_false_iff in Hclosed as [_ Hopen]. destruct (sv_queue_capacity s <=? usize_of (length (sr_queue (sv_runtime s))))%N eqn:Hfull.
    + split; split; history; try done. unfold uncounted in *. cbn [sv_updates set_updates set_senders].
      rewrite uncounted_snoc, bool_decide_false by done. lia.
    + apply N.leb_gt in Hfull. split; split; history; unfold queued, received, running, uncounted, panics in *; try done;
        cbn [sv_runtime set_updates set_runtime set_senders sr_queue sr_workers sv_updates sv_queue_capacity] in *; try done.
      * rewrite app_assoc. by apply sublist_app.
      * rewrite Hb. solve_Permutation.
      * rewrite uncounted_snoc, bool_decide_true, length_app by done. cbn [length]. lia.
      * rewrite length_app. unfold usize_of in *. cbn. lia.
      * unfold is_closed in *. cbn [sr_workers] in *. congruence.
Qed.

Lemma count_obs_concat o' us k o rest : us !! k = Some (o :: rest) ->
  count_obs o' (concat us) = (count_obs o' [o] + count_obs o' (concat (<[k := rest]> us)))%Z.
Proof.
  intros Hk. rewrite insert_take_drop by (by apply lookup_lt_Some in Hk).
  rewrite <-(take_drop_middle us k (o :: rest) Hk) at 1. rewrite !concat_app. cbn [concat].
  change (o :: rest) with ([o] ++ rest). rewrite !count_obs_app. lia.
Qed.

(** No update a sender makes is a worker's. *)
Definition sender_update (o : SimObservation) : Prop := o <> ObsDequeue /\ o <> ObsFinish.
Lemma sender_lead obs o : sender_update o ->
  worst_lead ObsDequeue ObsFinish obs = 0%Z -> worst_lead ObsDequeue ObsFinish (obs ++ [o]) = 0%Z.
Proof.
  intros [H1 H2] H. rewrite worst_lead_snoc, !count_obs_snoc, H, !bool_decide_false by done.
  pose proof (worst_lead_bounds ObsDequeue ObsFinish obs). lia.
Qed.

Lemma update_ok pre k o rest s : Forall (Forall sender_update) (sv_updates s) -> sv_updates s !! k = Some (o :: rest) ->
  tasks_ok pre s -> pool_ok pre s ->
  let s' := set_updates (<[k := rest]> (sv_updates s)) s in
  tasks_ok (pre ++ [EvObserved o]) s' /\ pool_ok (pre ++ [EvObserved o]) s'.
Proof.
  intros Hs Hk [Ha Hb Hc Hd He Hf Hg] [Ia Ib Ic Id Ie If]. cbv zeta.
  assert (sender_update o) as Ho.
  { pose proof (Forall_lookup_1 _ _ _ _ Hs Hk) as Ho. by apply Forall_inv in Ho. }
  split; split; history; try done.
  - unfold uncounted in *. cbn [sv_updates set_updates].
    rewrite (count_obs_concat _ _ _ _ _ Hk) in Hd. rewrite count_obs_app. lia.
  - rewrite count_obs_snoc, bool_decide_false by apply Ho. rewrite Z.add_0_r. exact He.
  - rewrite count_obs_snoc, bool_decide_false by apply Ho. rewrite Z.add_0_r. exact Hf.
  - by apply sender_lead.
Qed.

(** Lengths of what a worker's step moves. *)
Definition one {A} (o : option A) : nat := match o with Some _ => 1 | None => 0 end.
Lemma moved {A} (l l' : list A) (x y : option A) : l' ++ option_list x ≡ₚ l ++ option_list y ->
  (length l' + one x = length l + one y)%nat.
Proof. intros H%Permutation_length. rewrite !length_app in H. by destruct x, y. Qed.

Lemma receive_ok pre i task queue s : sr_workers (sv_runtime s) !! i = Some Waiting -> queued s = task :: queue ->
  tasks_ok pre s -> pool_ok pre s ->
  let s' := set_runtime (set_worker i (Received task) (mkSimRuntime queue (sr_workers (sv_runtime s)))) s in
  tasks_ok (pre ++ [EvStarted task]) s' /\ pool_ok (pre ++ [EvStarted task]) s'.
Proof.
  intros Hi Hq [Ha Hb Hc Hd He Hf Hg] [Ia Ib Ic Id Ie If]. cbv zeta.
  destruct (set_worker_tasks s i _ (Received task) Hi) as (H1 & H2 & H3). rewrite Hq in *. pose proof (moved _ _ _ _ H1) as N1.
  pose proof (set_worker_open s i Waiting (Received task) Hi eq_refl) as Hopen.
  split; split; history; unfold queued, received, running, panics in *;
    cbn [sv_runtime sv_queue_capacity sv_generation sv_worker_total sv_senders set_runtime set_worker sr_queue sr_workers received_task running_task option_list from_option one panic_of is_panicked length] in *;
    rewrite ?app_nil_r in *; try done.
  - by rewrite <-app_assoc.
  - rewrite Hb. solve_Permutation.
  - rewrite Hc, H1, H2. solve_Permutation.
  - rewrite length_app. cbn [length]. lia.
  - by rewrite length_insert.
  - cbn [length] in Ib. unfold usize_of in *. lia.
  - intros Hclosed. unfold is_closed in *. cbn [sr_workers set_worker] in *. congruence.
  - rewrite Id. lia.
Qed.

Lemma count_ok pre i task s : sr_workers (sv_runtime s) !! i = Some (Received task) ->
  tasks_ok pre s -> pool_ok pre s ->
  let s' := set_runtime (set_worker i (Running task) (sv_runtime s)) s in
  tasks_ok (pre ++ [EvObserved ObsDequeue]) s' /\ pool_ok (pre ++ [EvObserved ObsDequeue]) s'.
Proof.
  intros Hi [Ha Hb Hc Hd He Hf Hg] [Ia Ib Ic Id Ie If]. cbv zeta.
  destruct (set_worker_tasks s i _ (Running task) Hi) as (H1 & H2 & H3). pose proof (moved _ _ _ _ H1) as N1.
  pose proof (set_worker_open s i _ (Running task) Hi eq_refl) as Hopen.
  set (s' := set_runtime _ s) in *.
  assert (queued s' = queued s) as Hq by done.
  split; split; history; rewrite ?Hq; try done;
    cbn [received_task running_task option_list from_option one panic_of is_panicked length] in *; rewrite ?app_nil_r in *.
  - rewrite Hc, H2, <-H1. solve_Permutation.
  - rewrite count_obs_snoc, bool_decide_false by done. change (uncounted s') with (uncounted s). lia.
  - rewrite count_obs_snoc, bool_decide_true by done. lia.
  - rewrite count_obs_snoc, bool_decide_false by done. lia.
  - rewrite worst_lead_snoc, !count_obs_snoc, Hg, bool_decide_false, bool_decide_true by done.
    pose proof (worst_lead_bounds ObsDequeue ObsFinish (omap (fun e => match e with EvObserved o => Some o | _ => None end) pre)).
    lia.
  - unfold s'. cbn. by rewrite length_insert.
  - unfold s'. cbn [sv_runtime set_runtime]. congruence.
  - rewrite Id. unfold s' at 1 2. cbn [sv_generation sv_worker_total set_runtime]. lia.
Qed.

Lemma finish_ok pre i task s : sr_workers (sv_runtime s) !! i = Some (Running task) ->
  tasks_ok pre s -> pool_ok pre s ->
  let s' := set_runtime (set_worker i Waiting (sv_runtime s)) s in
  tasks_ok (pre ++ [EvFinished task; EvObserved ObsFinish]) s' /\ pool_ok (pre ++ [EvFinished task; EvObserved ObsFinish]) s'.
Proof.
  intros Hi [Ha Hb Hc Hd He Hf Hg] [Ia Ib Ic Id Ie If]. cbv zeta.
  destruct (set_worker_tasks s i _ Waiting Hi) as (H1 & H2 & H3). pose proof (moved _ _ _ _ H2) as N2.
  pose proof (set_worker_open s i _ Waiting Hi eq_refl) as Hopen.
  pose proof (Permutation_length Hc) as Lc. rewrite !length_app in Lc.
  set (s' := set_runtime _ s) in *.
  assert (queued s' = queued s) as Hq by done.
  split; split; history; rewrite ?Hq; try done;
    cbn [received_task running_task option_list from_option one panic_of is_panicked length] in *; rewrite ?app_nil_r in *.
  - rewrite Hc, H1, <-H2. solve_Permutation.
  - rewrite count_obs_snoc, bool_decide_false by done. change (uncounted s') with (uncounted s). lia.
  - rewrite (Permutation_length H1), count_obs_snoc, bool_decide_false by done. lia.
  - rewrite count_obs_snoc, bool_decide_true, length_app by done. cbn [length]. lia.
  - rewrite worst_lead_snoc, !count_obs_snoc, Hg, bool_decide_true, bool_decide_false by done. lia.
  - unfold s'. cbn. by rewrite length_insert.
  - unfold s'. cbn [sv_runtime set_runtime]. congruence.
  - rewrite Id. unfold s' at 1 2. cbn [sv_generation sv_worker_total set_runtime]. lia.
Qed.

Lemma lost_dropped (l : list T) : lost (EvDropped <$> l) = [] /\ accepted (EvDropped <$> l) = [] /\ started (EvDropped <$> l) = [] /\
  finished (EvDropped <$> l) = [] /\ closed (EvDropped <$> l) = [] /\ observations (EvDropped <$> l) = [] /\ dropped (EvDropped <$> l) = l.
Proof. induction l as [|t l (H1 & H2 & H3 & H4 & H5 & H6 & H7)]; [done|]. split_and!; cbn; [done..|]. f_equal. exact H7. Qed.

(** The panic of a worker, before the channel reacts to the last one. *)
Lemma panic_tasks pre i task s : sr_workers (sv_runtime s) !! i = Some (Running task) ->
  tasks_ok pre s -> tasks_ok (pre ++ [EvLost task]) (set_runtime (set_worker i Panicked (sv_runtime s)) s).
Proof.
  intros Hi [Ha Hb Hc Hd He Hf Hg].
  destruct (set_worker_tasks s i _ Panicked Hi) as (H1 & H2 & H3). set (s' := set_runtime _ s) in *.
  assert (queued s' = queued s) as Hq by done.
  split; history; rewrite ?Hq; try done; cbn [received_task running_task option_list from_option] in *; rewrite ?app_nil_r in *.
  - rewrite Hc, H1, <-H2. solve_Permutation.
  - by rewrite (Permutation_length H1).
Qed.
Lemma drop_tasks pre s : tasks_ok pre s ->
  tasks_ok (pre ++ (EvDropped <$> queued s)) (set_runtime (mkSimRuntime [] (sr_workers (sv_runtime s))) s).
Proof.
  intros [Ha Hb Hc Hd He Hf Hg].
  destruct (lost_dropped (queued s)) as (H1 & H2 & H3 & H4 & H5 & H6 & H7).
  set (s' := set_runtime _ s). assert (queued s' = []) as Hq by done.
  split; history; rewrite ?H1, ?H2, ?H3, ?H4, ?H5, ?H6, ?H7, ?Hq, ?app_nil_r; try done.
  - etrans; [|exact Ha]. by apply sublist_inserts_r.
  - rewrite Hb. solve_Permutation.
Qed.

Lemma panic_pool pre i task dropping queue s : sr_workers (sv_runtime s) !! i = Some (Running task) -> pool_ok pre s ->
  let s' := set_runtime (mkSimRuntime queue (<[i := Panicked]> (sr_workers (sv_runtime s)))) s in
  (if is_closed (set_worker i Panicked (sv_runtime s)) then queue = [] else dropping = [] /\ queue = queued s) ->
  pool_ok (pre ++ EvLost task :: (EvDropped <$> dropping)) s'.
Proof.
  intros Hi [Ia Ib Ic Id Ie If]. cbv zeta. intros Hcase.
  destruct (set_worker_tasks s i _ Panicked Hi) as (_ & _ & H3).
  change (panics (set_runtime (set_worker i Panicked (sv_runtime s)) s) + 0 = panics s + 1)%nat in H3.
  destruct (lost_dropped dropping) as (H1 & H2 & _ & _ & H5 & _ & H7).
  pose proof (closed_panics (set_runtime (set_worker i Panicked (sv_runtime s)) s)) as Hall.
  cbn [sv_runtime set_runtime] in Hall. set (s' := set_runtime _ s).
  change (panics (set_runtime (set_worker i Panicked (sv_runtime s)) s)) with (panics s') in *.
  assert (length (sr_workers (set_worker i Panicked (sv_runtime s))) = N.to_nat (sv_worker_total s)) as Hlen
    by (cbn; by rewrite length_insert).
  assert (length (lost (pre ++ EvLost task :: (EvDropped <$> dropping))) =
    (sv_generation s * N.to_nat (sv_worker_total s) + panics s')%nat) as Hlost.
  { history. rewrite H1, length_app, Id. cbn [length]. lia. }
  split; try done.
  - unfold queued, s'. cbn [sv_runtime set_runtime sr_queue sv_queue_capacity].
    destruct (is_closed (set_worker i Panicked (sv_runtime s))); [rewrite Hcase; unfold usize_of; cbn [length]; lia|by destruct Hcase as [_ ->]].
  - intros Hc. change (is_closed (set_worker i Panicked (sv_runtime s)) = true) in Hc. rewrite Hc in Hcase. exact Hcase.
  - rewrite Hlost. intros Hor. cbn [sv_worker_total s' set_runtime]. destruct (is_closed (set_worker i Panicked (sv_runtime s))) eqn:Hc.
    + rewrite Hlen in Hall. pose proof (proj1 Hall eq_refl). lia.
    + destruct Hcase as [-> _]. history. specialize (If Hor). lia.
Qed.

(** Everything that holds of a service in use. *)
Record service_ok (pre : list PoolEvent) (s : SimService) : Prop := {
  so_workers : (1 <= sv_worker_total s)%N;
  so_updates : Forall (Forall sender_update) (sv_updates s);
  so_tasks : tasks_ok pre s;
  so_pool : pool_ok pre s;
}.

Lemma send_updates task generation s : Forall (Forall sender_update) (sv_updates s) ->
  Forall (Forall sender_update) (sv_updates (try_send task generation s).2).
Proof.
  intros Hs. unfold try_send. destruct (_ || _); [done|].
  destruct (_ <=? _)%N; cbn; (apply Forall_app; split; [done|]; by repeat constructor).
Qed.
Lemma send_config task generation s : sv_worker_total (try_send task generation s).2 = sv_worker_total s /\
  sv_queue_capacity (try_send task generation s).2 = sv_queue_capacity s.
Proof. unfold try_send. destruct (_ || _); [done|]. by destruct (_ <=? _)%N. Qed.

Lemma act_ok pre a s events s' : act a s = Some (events, s') -> service_ok pre s ->
  service_ok (pre ++ events) s' /\ sv_worker_total s' = sv_worker_total s /\ sv_queue_capacity s' = sv_queue_capacity s.
Proof.
  intros Ha [Hw Hu Ht Hp]. destruct a as [task|k|k|i|i|i|i]; cbn [act] in Ha.
  - injection Ha as <- <-. rewrite app_nil_r. destruct (look_up_ok pre task s Hw Ht Hp) as [H1 H2].
    unfold look_up, runtime in *. destruct (is_closed (sv_runtime s)); (split_and!; [by split|done|done]).
  - destruct (sv_senders s !! k) as [[task generation]|] eqn:Hk; [|done]. cbn in Ha.
    set (s0 := set_senders _ s) in Ha. pose proof (send_ok pre k task generation s Hw Ht Hp Hk) as H. fold s0 in H.
    destruct (send_config task generation s0) as [H1 H2]. pose proof (send_updates task generation s0 Hu) as H3.
    injection Ha as Ha. rewrite Ha in *. cbn [snd] in *. destruct H as [H4 H5].
    split_and!; [split; [by rewrite H1|done..]|done|done].
  - destruct (sv_updates s !! k) as [[|o rest]|] eqn:Hk; [done| |done]. injection Ha as <- <-.
    destruct (update_ok pre k o rest s Hu Hk Ht Hp) as [H1 H2]. split_and!; [split; try done|done|done].
    apply Forall_insert; [done|]. pose proof (Forall_lookup_1 _ _ _ _ Hu Hk) as Ho. by apply Forall_inv_tail in Ho.
  - destruct (sr_workers _ !! i) as [[]|] eqn:Hi; try done. destruct (sr_queue _) as [|task queue] eqn:Hq; [done|].
    injection Ha as <- <-. destruct (receive_ok pre i task queue s Hi Hq Ht Hp). split_and!; [by split|done|done].
  - destruct (sr_workers _ !! i) as [[]|] eqn:Hi; try done. injection Ha as <- <-.
    destruct (count_ok pre i t s Hi Ht Hp). split_and!; [by split|done|done].
  - destruct (sr_workers _ !! i) as [[]|] eqn:Hi; try done. injection Ha as <- <-.
    destruct (finish_ok pre i t s Hi Ht Hp). split_and!; [by split|done|done].
  - destruct (sr_workers _ !! i) as [[]|] eqn:Hi; try done. pose proof (panic_tasks pre i t s Hi Ht) as H1.
    destruct (is_closed (set_worker i Panicked (sv_runtime s))) eqn:Hc; injection Ha as <- <-.
    + split_and!; [split; try done|done|done].
      * apply drop_tasks in H1. by rewrite <-app_assoc in H1.
      * apply panic_pool; [done..|]. by rewrite Hc.
    + split_and!; [split; try done|done|done].
      apply (panic_pool pre i t [] (sr_queue (sv_runtime s))); [done..|]. by rewrite Hc.
Qed.

Lemma acts_ok l pre s events s' : acts l s = Some (events, s') -> service_ok pre s ->
  service_ok (pre ++ events) s' /\ sv_worker_total s' = sv_worker_total s /\ sv_queue_capacity s' = sv_queue_capacity s.
Proof.
  revert pre s events. induction l as [|a l IH]; intros pre s events Hl Hs; cbn in Hl.
  { injection Hl as <- <-. by rewrite app_nil_r. }
  apply bind_Some in Hl as ([events1 s1] & H1 & Hl). apply bind_Some in Hl as ([events2 s2] & H2 & [= <- ->]).
  destruct (act_ok pre a s events1 s1 H1 Hs) as (H3 & H4 & H5). rewrite app_assoc.
  destruct (IH _ _ _ H2 H3) as (H6 & H7 & H8). split_and!; [done|congruence..].
Qed.

Lemma spawned_open worker_total : (1 <= worker_total)%N -> is_closed (spawn_live_rpc_simulation_runtime worker_total) = false.
Proof.
  intros Hw. unfold is_closed, spawn_live_rpc_simulation_runtime. cbn [sr_workers].
  destruct (N.to_nat worker_total) eqn:E; [lia|done].
Qed.

(** C29: the simulation queue and its workers, over any interleaving of senders
    and workers, from a new pool with at least one worker and until 2^64
    counter updates. Every accepted task is queued, with a worker, finished,
    lost in a panic or dropped with a pool that is gone; workers take the tasks
    in the order they were accepted. The queue keeps its capacity and the pool
    its size. Until as many workers have panicked as the pool has, no sender
    finds the queue closed and no queued task is dropped; a sender that looks
    the pool up finds it open, spawned anew and empty if it was gone. The
    counters show as running the simulations that run, once counted, and, for
    ever, those lost in a panic; the depth counter, with the accepted tasks
    whose senders have still to count them, is at least the queue, the tasks
    received but not counted yet and the tasks dropped with a pool. *)
Theorem simulation_pool_exact queue_capacity worker_total l events s
  (Hworkers : (1 <= worker_total)%N)
  (Hrun : acts l (sim_service_new queue_capacity worker_total) = Some (events, s))
  (Hfit : (Z.of_nat (length (observations events)) <= Z.of_N u64_max)%Z) :
  let m := observed (observations events) in
  accepted events ≡ₚ finished events ++ lost events ++ received s ++ running s ++ queued s ++ dropped events /\
  started events ++ queued s `sublist_of` accepted events /\
  (usize_of (length (queued s)) <= queue_capacity)%N /\
  usize_of (length (sr_workers (sv_runtime s))) = worker_total /\
  ((usize_of (length (lost events)) < worker_total)%N ->
   closed events = [] /\ dropped events = [] /\ accepted events = started events ++ queued s) /\
  sim_inflight_current m = usize_of (length (running s ++ lost events)) /\
  (Z.of_nat (length (queued s ++ received s ++ dropped events)) <= Z.of_N (sim_queue_depth m) + uncounted s)%Z /\
  forall task, is_closed (sv_runtime (look_up task s)) = false /\
    sv_runtime (look_up task s) =
      (if is_closed (sv_runtime s) then spawn_live_rpc_simulation_runtime worker_total else sv_runtime s).
Proof.
  destruct (start_ok queue_capacity worker_total) as [Ht0 Hp0].
  destruct (acts_ok l [] _ events s Hrun) as ([_ _ Ht Hp] & Hw & Hc); [by split|]. cbn in Hw, Hc.
  destruct Ht as [Ha Hb Hst Hd He Hf Hg]. destruct Hp as [Ia Ib _ _ _ If]. cbn [app] in *. rewrite Hc in Ib. rewrite Hw in Ia, If.
  destruct (simulation_depth_exact (observations events) Hfit) as [Hdepth Hinflight].
  pose proof (worst_lead_bounds ObsEnqueue ObsDequeue (observations events)) as Hlead. rewrite Hg in Hinflight.
  pose proof (Permutation_length Hb) as Lb. pose proof (Permutation_length Hst) as Ls.
  rewrite !length_app in Lb. rewrite !length_app in Ls.
  cbv zeta. split_and!.
  - rewrite Hb, Hst. solve_Permutation.
  - exact Ha.
  - exact Ib.
  - unfold usize_of. lia.
  - unfold usize_of. intros Hlost.
    assert (closed events = [] /\ dropped events = []) as [Hcl Hdr].
    { assert (forall l0 : list T, (l0 <> [] -> closed events <> [] \/ dropped events <> []) -> l0 = []) as Hno.
      { intros [|x l0] H; [done|]. specialize (If (H ltac:(done))). lia. }
      split; apply Hno; auto. }
    split_and!; [done..|]. symmetry. apply sublist_same_length; [exact Ha|].
    rewrite Hdr in Lb. rewrite length_app. cbn [length] in Lb. lia.
  - unfold usize_of. rewrite length_app. lia.
  - rewrite !length_app. lia.
  - intros task. unfold look_up, runtime. cbn [sv_runtime set_senders].
    destruct (is_closed (sv_runtime s)) eqn:E; [|by split]. cbn [sv_runtime]. rewrite Hw. by split; [apply spawned_open|].
Qed.
End pool.
Arguments Worker : clear implicits. Arguments SimRuntime : clear implicits. Arguments SimService : clear implicits.
Arguments PoolEvent : clear implicits. Arguments Action : clear implicits.
(** ** Concrete runs *)

(** Four senders fill a queue of two; two workers take the first two tasks, in
    turn; the first worker panics, the second finishes and goes on. *)
Definition busy_actions : list (Action N) :=
  [ActLookUp 1; ActLookUp 2; ActLookUp 3; ActSend 0; ActReceive 1; ActSend 0; ActSend 0; ActLookUp 4; ActSend 0;
   ActCount 1; ActReceive 0; ActCount 0; ActPanic 0; ActUpdate 0; ActUpdate 0; ActFinish 1; ActReceive 1]%N.
(** Both workers panic with a task left, between the look-up of sender 4 and
    its send; sender 5 finds a new pool. *)
Definition dying_actions : list (Action N) :=
  [ActLookUp 1; ActSend 0; ActLookUp 2; ActSend 0; ActReceive 0; ActReceive 1; ActCount 0; ActCount 1; ActLookUp 3; ActSend 0;
   ActLookUp 4; ActPanic 1; ActPanic 0; ActLookUp 5; ActSend 0; ActSend 0; ActReceive 0]%N.

Lemma simulation_pool_exact_witness :
  exists events s, acts busy_actions (sim_service_new 2 2) = Some (events, s) /\
    (accepted events, lost events, finished events, received s, queued s) = ([1; 2; 3], [2], [1], [3], [])%N /\
    accepted events = started events ++ queued s /\
    sim_inflight_current (observed (observations events)) = 1%N.
Proof.
  eexists _, _. split; [vm_compute; reflexivity|]. split; [vm_compute; reflexivity|].
  pose proof (simulation_pool_exact 2 2 busy_actions _ _ ltac:(by vm_compute)
    ltac:(vm_compute; reflexivity) ltac:(by vm_compute)) as H.
  cbv zeta in H. destruct H as (_ & _ & _ & _ & Hone & Hinflight & _ & _). split.
  - apply Hone. by vm_compute.
  - etrans; [exact Hinflight|]. vm_compute. reflexivity.
Defined.

(** The task left behind is dropped but stays in the depth, sender 4 finds its
    pool closed, and the two lost simulations stay in the counter. *)
Example dying_pool :
  exists events s, acts dying_actions (sim_service_new 2 2) = Some (events, s) /\
    (accepted events, closed events, lost events, dropped events) = ([1; 2; 3; 5], [4], [2; 1], [3])%N /\
    (received s, queued s, uncounted s) = ([5], [], 4%Z)%N /\ sv_generation s = 1%nat /\
    sim_inflight_current (observed (observations events)) = 2%N.
Proof. eexists _, _. split; [vm_compute; reflexivity|]. vm_compute. split_and!; reflexivity. Qed.
