(* ===== verification/VizData.v ===== *)
(** * VizData: the read views of the HTTP layer (crates/viz-api/src/lib.rs)

    Response records, the projections of the store into them, the interface
    [VizDataProvider] the handlers and the event stream are written against,
    its in-memory implementation with the revision-keyed dashboard cache, and
    the filters of the query handlers. *)
From stdpp Require Import base gmap strings list numbers sorting pretty.
From S2P Require Import Prelude F64 Alerts Common EventLog Scheduler ReplayMempool Replay Storage.
From S2P Require Import TxDecode LiveHex Text.

(** ** Responses *)
Record ReplayPoint := mkPoint {
  pt_seq_hi : N;
  pt_timestamp_unix_ms : Z;
  pt_pending_count : N;
}.
Record PropagationEdge := mkEdge {
  pe_source : string;
  pe_destination : string;
  pe_p50_delay_ms : N;
  pe_p99_delay_ms : N;
}.
Record FeatureSummary := mkFeatureSummary {
  fs_protocol : string;
  fs_category : string;
  fs_count : N;
}.
Record FeatureDetail := mkFeatureDetail {
  fd_hash : string;
  fd_protocol : string;
  fd_category : string;
  fd_chain_id : option N;
  fd_mev_score : N;
  fd_urgency_score : N;
  fd_method_selector : option string;
  fd_feature_engine_version : string;
}.
Record OpportunityDetail := mkOppDetail {
  od_tx_hash : string;
  od_status : string;
  od_strategy : string;
  od_score : N;
  od_protocol : string;
  od_category : string;
  od_chain_id : option N;
  od_feature_engine_version : string;
  od_scorer_version : string;
  od_strategy_version : string;
  od_reasons : list string;
  od_detected_unix_ms : Z;
}.
Record TransactionSummary := mkSummary {
  sm_hash : string;
  sm_sender : string;
  sm_nonce : N;
  sm_tx_type : N;
  sm_seen_unix_ms : Z;
  sm_source_id : string;
}.
Record TransactionDetail := mkDetail {
  td_hash : string;
  td_peer : string;
  td_first_seen_unix_ms : Z;
  td_seen_count : N;
  td_tx_type : option N;
  td_sender : option string;
  td_to : option string;
  td_chain_id : option N;
  td_nonce : option N;
  td_value_wei : option N;
  td_gas_limit : option N;
  td_gas_price_wei : option N;
  td_max_fee_per_gas_wei : option N;
  td_max_priority_fee_per_gas_wei : option N;
  td_max_fee_per_blob_gas_wei : option N;
  td_calldata_len : option N;
  td_raw_tx_len : option N;
  td_lifecycle_status : option string;
  td_lifecycle_reason : option string;
  td_lifecycle_updated_unix_ms : option Z;
  td_protocol : option string;
  td_category : option string;
  td_mev_score : option N;
  td_urgency_score : option N;
  td_feature_engine_version : option string;
}.
Record MarketStats := mkStats {
  vs_total_signal_volume : N;
  vs_total_tx_count : N;
  vs_low_risk_count : N;
  vs_medium_risk_count : N;
  vs_high_risk_count : N;
  vs_success_rate_bps : N;
}.
(** [chain_ingest_status], which the provider leaves empty and the handler
    fills from the live runtime, is left out. *)
Record DashboardSnapshotV2 := mkSnapshotV2 {
  ds_revision : N;
  ds_latest_seq_id : N;
  ds_opportunities : list OpportunityDetail;
  ds_feature_summary : list FeatureSummary;
  ds_feature_details : list FeatureDetail;
  ds_transactions : list TransactionSummary;
  ds_market_stats : MarketStats;
}.

(** ** The provider interface *)
Record VizDataProvider := mkProvider {
  vp_events : N -> list string -> N -> list EventEnvelope;
  vp_latest_seq_id : option N;
  vp_replay_points : list ReplayPoint;
  vp_propagation_edges : list PropagationEdge;
  vp_feature_summary : list FeatureSummary;
  vp_feature_details : N -> list FeatureDetail;
  vp_opportunities : N -> N -> list OpportunityDetail;
  vp_recent_transactions : N -> list TransactionSummary;
  vp_transaction_details : N -> list TransactionDetail;
  vp_transaction_detail_by_hash : string -> lookup_outcome TransactionDetail;
  vp_market_stats : MarketStats;
  vp_metric_snapshot : MetricSnapshot;
}.

(** ** Projections *)
Definition market_success_rate_bps (total_tx_count high_risk_count : N) : N :=
  if (total_tx_count =? 0)%N then 10000
  else
    let successful := sat_sub total_tx_count high_risk_count in
    let bps := (sat_mul u64_max successful 10000 / total_tx_count)%N in
    cast 16 (N.min bps 10000).

Definition map_market_stats (snapshot : MarketStatsSnapshot) : MarketStats :=
  mkStats (total_signal_volume snapshot) (total_tx_count snapshot) (low_risk_count snapshot)
    (medium_risk_count snapshot) (high_risk_count snapshot)
    (market_success_rate_bps (total_tx_count snapshot) (high_risk_count snapshot)).

Definition format_bytes (bytes : list N) : string := format_fixed_hex bytes.
Definition format_method_selector (selector : option (list N)) : option string :=
  (fun s => "0x" +:+ String.concat "" (hex_byte <$> s)) <$> selector.

Definition map_lifecycle_status (status : TxLifecycleStatus) : string * option string :=
  let block (block_number : N) (block_hash : BlockHash) : string :=
    "block=" +:+ pretty block_number +:+ ":" +:+ format_bytes (hash_bytes block_hash) in
  match status with
  | StPending => ("pending", None)
  | StReplaced by_ => ("replaced", Some (format_bytes (hash_bytes by_)))
  | StDropped reason => ("dropped", Some reason)
  | StConfirmedProvisional n h => ("confirmed_provisional", Some (block n h))
  | StConfirmedFinal n h => ("confirmed_final", Some (block n h))
  end.

Definition event_payload_type (payload : EventPayload) : string :=
  match payload with
  | PTxSeen _ => "TxSeen"
  | PTxFetched _ => "TxFetched"
  | PTxDecoded _ => "TxDecoded"
  | PTxReady _ => "TxReady"
  | PTxBlocked _ => "TxBlocked"
  | PCandidateQueued _ => "CandidateQueued"
  | PSimDispatched _ => "SimDispatched"
  | POppDetected _ => "OppDetected"
  | PSimCompleted _ => "SimCompleted"
  | PAssemblyDecisionApplied _ => "AssemblyDecisionApplied"
  | PBundleSubmitted _ => "BundleSubmitted"
  | PTxReplaced _ => "TxReplaced"
  | PTxDropped _ => "TxDropped"
  | PTxConfirmedProvisional _ => "TxConfirmedProvisional"
  | PTxConfirmedFinal _ => "TxConfirmedFinal"
  | PTxReorged _ => "TxReorged"
  end.

Definition parse_event_type_filters (raw : option string) : list string :=
  let pieces := trim_bytes <$> split_comma [] (str_bytes (default "" raw)) in
  let filters := to_ascii_lowercase ∘ string_of_bytes <$> filter (fun p => p <> []) pieces in
  dedup (sort_by String.compare filters).

(** [iter().step_by(step)]: an element, then [step - 1] skipped. *)
Fixpoint step_by {T} (step skip : nat) (values : list T) : list T :=
  match values with
  | [] => []
  | v :: rest =>
      match skip with
      | O => v :: step_by step (step - 1) rest
      | S k => step_by step k rest
      end
  end.
Definition downsample {T} (values : list T) (max_points : N) : list T :=
  if ((usize_of (length values) <=? max_points) || (max_points =? 0))%N then values
  else
    let step := f64_ceil (f64_div (f64_of_N (usize_of (length values))) (f64_of_N max_points)) in
    step_by (N.to_nat (N.max (N.min step u64_max) 1)) 0 values.

(** [clamp(limit, 20_000)] panics above 20,000; every caller has a limit of at
    most 5,000. *)
Definition chain_filter_scan_limit (limit : N) (chain_id : option N) : N :=
  match chain_id with
  | Some _ => N.max limit (N.min (sat_mul u64_max limit 4) 20000)
  | None => limit
  end.
Definition chain_matches_filter (record_chain_id chain_id_filter : option N) : bool :=
  match chain_id_filter with
  | Some chain_id => bool_decide (record_chain_id = Some chain_id)
  | None => true
  end.

(** [into_iter().filter(p).take(limit)]. *)
Definition filter_take {A} (p : A -> bool) (limit : N) (l : list A) : list A :=
  take (N.to_nat limit) (List.filter p l).

Definition filter_feature_details_by_chain (values : list FeatureDetail) (chain_id : option N) (limit : N) :=
  filter_take (fun row => chain_matches_filter (fd_chain_id row) chain_id) limit values.
Definition filter_opportunities_by_chain (values : list OpportunityDetail) (chain_id : option N) (limit : N) :=
  filter_take (fun row => chain_matches_filter (od_chain_id row) chain_id) limit values.
Definition filter_transaction_details_by_chain (values : list TransactionDetail) (chain_id : option N)
    (limit : N) :=
  filter_take (fun row => chain_matches_filter (td_chain_id row) chain_id) limit values.
(** A panicking lookup cannot happen here: the hashes are formatted ones. *)
Definition summary_on_chain (provider : VizDataProvider) (chain_id : option N) (row : TransactionSummary) : bool :=
  match chain_id with
  | None => true
  | Some _ =>
      match vp_transaction_detail_by_hash provider (sm_hash row) with
      | Found detail => chain_matches_filter (td_chain_id detail) chain_id
      | _ => false
      end
  end.
Definition filter_transaction_summaries_by_chain (provider : VizDataProvider)
    (values : list TransactionSummary) (chain_id : option N) (limit : N) :=
  filter_take (summary_on_chain provider chain_id) limit values.

(** ** Building the views *)
Definition point_of (frame : ReplayFrame) : ReplayPoint :=
  mkPoint (frame_seq_hi frame) (frame_timestamp_unix_ms frame)
    (cast 32 (usize_of (length (frame_pending frame)))).
Definition detail_of_features (f : TxFeaturesRecord) : FeatureDetail :=
  mkFeatureDetail (format_bytes (hash_bytes (fr_hash f))) (fr_protocol f) (fr_category f) (fr_chain_id f)
    (fr_mev_score f) (fr_urgency_score f) (format_method_selector (fr_method_selector f))
    (fr_feature_engine_version f).
Definition detail_of_opportunity (row : OpportunityRecord) : OpportunityDetail :=
  mkOppDetail (format_bytes (hash_bytes (or_tx_hash row))) "detected" (or_strategy row) (or_score row)
    (or_protocol row) (or_category row) (or_chain_id row) (or_feature_engine_version row)
    (or_scorer_version row) (or_strategy_version row) (or_reasons row) (or_detected_unix_ms row).
Definition summary_of_recent (tx : RecentTransactionRecord) : TransactionSummary :=
  mkSummary (format_bytes (hash_bytes (rt_hash tx))) (format_bytes (address_bytes (rt_sender tx)))
    (rt_nonce tx) (rt_tx_type tx) (rt_seen_unix_ms tx) (rt_source_id tx).

(** The loops that keep the first row of each hash, newest first. *)
Fixpoint newest_rows {R} (hash_of : R -> TxHash) (emitted : gset TxHash) (rows : list R) : list R :=
  match rows with
  | [] => []
  | row :: rows' =>
      if bool_decide (hash_of row ∈ emitted) then newest_rows hash_of emitted rows'
      else row :: newest_rows hash_of ({[hash_of row]} ∪ emitted) rows'
  end.

Definition feature_summary_cmp (left right : FeatureSummary) : comparison :=
  then_with (N.compare (fs_count right) (fs_count left))
    (then_with (String.compare (fs_protocol left) (fs_protocol right))
      (String.compare (fs_category left) (fs_category right))).
Definition edge_cmp (left right : PropagationEdge) : comparison :=
  then_with (String.compare (pe_source left) (pe_source right))
    (then_with (String.compare (pe_destination left) (pe_destination right))
      (then_with (N.compare (pe_p50_delay_ms left) (pe_p50_delay_ms right))
        (N.compare (pe_p99_delay_ms left) (pe_p99_delay_ms right)))).
#[export] Instance bucket_key_order : KeyOrder (string * string) := fun a b =>
  then_with (String.compare a.1 b.1) (String.compare a.2 b.2).

Definition feature_counts (rows : list TxFeaturesRecord) : gmap (string * string) N :=
  foldl (fun counts feature =>
      let key := (fr_protocol feature, fr_category feature) in
      <[key := (default 0 (counts !! key) + 1)%N]> counts) ∅ rows.

(** [find] over the rows, newest first. *)
Definition find_newest {R} (hash_of : R -> TxHash) (hash : TxHash) (rows : list R) : option R :=
  List.find (fun row => bool_decide (hash_of row = hash)) (reverse rows).
Definition index_rows {R} (hash_of : R -> TxHash) (rows : list R) : gmap TxHash R :=
  foldl (fun m row => <[hash_of row := row]> m) ∅ rows.

(** The record of one transaction, from the rows found for its hash. *)
Definition detail_of_rows (seen : TxSeenRecord) (full : option TxFullRecord) (feature : option TxFeaturesRecord)
    (lifecycle_status lifecycle_reason : option string) (lifecycle_updated_unix_ms : option Z) :
    TransactionDetail :=
  mkDetail (format_bytes (hash_bytes (ts_hash seen))) (ts_peer seen) (ts_first_seen_unix_ms seen)
    (ts_seen_count seen) (tf_tx_type <$> full) ((fun row => format_bytes (address_bytes (tf_sender row))) <$> full)
    (full ≫= fun row => (fun to => format_bytes (address_bytes to)) <$> tf_to row)
    (full ≫= tf_chain_id) (tf_nonce <$> full) (full ≫= tf_value_wei) (full ≫= tf_gas_limit)
    (full ≫= tf_gas_price_wei) (full ≫= tf_max_fee_per_gas_wei) (full ≫= tf_max_priority_fee_per_gas_wei)
    (full ≫= tf_max_fee_per_blob_gas_wei) (full ≫= tf_calldata_len)
    ((fun row => usize_of (length (tf_raw_tx row))) <$> full)
    lifecycle_status lifecycle_reason lifecycle_updated_unix_ms
    (fr_protocol <$> feature) (fr_category <$> feature) (fr_mev_score <$> feature)
    (fr_urgency_score <$> feature) (fr_feature_engine_version <$> feature).

(** The loop of [transaction_details]: it stops once [limit] rows are out,
    which it asks after each row. *)
Fixpoint details_loop (limit : N) (row_detail : TxSeenRecord -> TransactionDetail) (rows : list TxSeenRecord)
    (emitted : gset TxHash) (out : list TransactionDetail) : list TransactionDetail :=
  match rows with
  | [] => out
  | seen :: rows' =>
      if bool_decide (ts_hash seen ∈ emitted) then details_loop limit row_detail rows' emitted out
      else
        let out := out ++ [row_detail seen] in
        if (limit <=? usize_of (length out))%N then out
        else details_loop limit row_detail rows' ({[ts_hash seen]} ∪ emitted) out
  end.

(** ** The in-memory provider *)
Record DashboardReadCache := mkCache {
  dc_revision : option N;
  dc_refreshes : N;
  dc_last_build_duration_ns : N;
  dc_total_build_duration_ns : N;
  dc_replay_points : list ReplayPoint;
  dc_feature_summary : list FeatureSummary;
  dc_feature_details : list FeatureDetail;
  dc_opportunities : list OpportunityDetail;
}.
Definition cache_default : DashboardReadCache := mkCache None 0 0 0 [] [] [] [].

(** The store is shared with its writer; a method reads it as it is then. *)
Record InMemoryVizProvider := mkVizProvider {
  iv_storage : InMemoryStorage;
  iv_propagation : list PropagationEdge;
  iv_replay_stride : N;
  iv_dashboard_cache : DashboardReadCache;
}.
Definition viz_provider_new (storage : InMemoryStorage) (propagation : list PropagationEdge)
    (replay_stride : N) : InMemoryVizProvider :=
  mkVizProvider storage propagation (N.max replay_stride 1) cache_default.

Section views.
Context `{HashIter, UnstableSort}.

Definition build_replay_points (storage : InMemoryStorage) (replay_stride : N) : list ReplayPoint :=
  point_of <$> replay_frames (list_events storage) DeterministicEventReplay replay_stride.

Definition build_feature_summary (storage : InMemoryStorage) : list FeatureSummary :=
  sort_unstable_by feature_summary_cmp
    ((fun '((protocol, category), count) => mkFeatureSummary protocol category count) <$>
       bt_iter (feature_counts (t_rows (st_tx_features storage)))).

Definition build_feature_details (storage : InMemoryStorage) : list FeatureDetail :=
  detail_of_features <$> newest_rows fr_hash ∅ (reverse (t_rows (st_tx_features storage))).

Definition build_opportunities (storage : InMemoryStorage) : list OpportunityDetail :=
  detail_of_opportunity <$> opportunities storage.

(** [build_duration_ns] is what the clock measures; the byte estimate of the
    cache is an observation of the allocator and is left out. *)
Definition dashboard_cache_snapshot (build_duration_ns : N) (p : InMemoryVizProvider) : DashboardReadCache :=
  let storage := iv_storage p in
  let cache := iv_dashboard_cache p in
  let revision := st_read_model_revision storage in
  if bool_decide (dc_revision cache = Some revision) then cache
  else
    mkCache (Some revision) (sat_add u64_max (dc_refreshes cache) 1) (cast 64 build_duration_ns)
      (sat_add u64_max (dc_total_build_duration_ns cache) (cast 64 build_duration_ns))
      (build_replay_points storage (iv_replay_stride p)) (build_feature_summary storage)
      (build_feature_details storage) (build_opportunities storage).
Definition with_dashboard_cache (c : DashboardReadCache) (p : InMemoryVizProvider) : InMemoryVizProvider :=
  mkVizProvider (iv_storage p) (iv_propagation p) (iv_replay_stride p) c.

Definition viz_events (p : InMemoryVizProvider) (after_seq_id : N) (event_types : list string) (limit : N) :
    list EventEnvelope :=
  filter_take
    (fun event =>
       bool_decide (event_types = []) ||
       existsb (fun kind => eq_ignore_ascii_case (event_payload_type (payload event)) kind) event_types)
    limit
    (scan_events after_seq_id (N.max (sat_mul u64_max limit 2) limit) (iv_storage p)).

Definition viz_metric_snapshot (p : InMemoryVizProvider) : MetricSnapshot :=
  let tx_seen_len := usize_of (length (t_rows (st_tx_seen (iv_storage p)))) in
  let tx_full_len := usize_of (length (t_rows (st_tx_full (iv_storage p)))) in
  let queue_depth_capacity := 10000%N in
  mkMetricSnapshot 0 0 (sat_sub tx_seen_len tx_full_len) (N.max tx_seen_len 1) tx_seen_len
    (N.max tx_seen_len 1) 0 0 (N.min tx_seen_len queue_depth_capacity) queue_depth_capacity.

Definition viz_transaction_details (p : InMemoryVizProvider) (limit : N) : list TransactionDetail :=
  let storage := iv_storage p in
  let full_by_hash := index_rows tf_hash (t_rows (st_tx_full storage)) in
  let feature_by_hash := index_rows fr_hash (t_rows (st_tx_features storage)) in
  let lifecycle_by_hash := index_rows lr_hash (t_rows (st_tx_lifecycle storage)) in
  details_loop limit
    (fun seen =>
       let lifecycle := lifecycle_by_hash !! ts_hash seen in
       detail_of_rows seen (full_by_hash !! ts_hash seen) (feature_by_hash !! ts_hash seen)
         (lr_status <$> lifecycle) (lifecycle ≫= lr_reason) (lr_updated_unix_ms <$> lifecycle))
    (reverse (t_rows (st_tx_seen storage))) ∅ [].

(** The part of [transaction_detail_by_hash] after the hash is parsed. *)
Definition detail_by_parsed_hash (storage : InMemoryStorage) (hash : TxHash) : option TransactionDetail :=
  seen ← find_newest ts_hash hash (t_rows (st_tx_seen storage));
  let full := find_newest tf_hash hash (t_rows (st_tx_full storage)) in
  let feature := find_newest fr_hash hash (t_rows (st_tx_features storage)) in
  let lifecycle := find_newest lr_hash hash (t_rows (st_tx_lifecycle storage)) in
  let '(lifecycle_status, lifecycle_reason) :=
    match lifecycle with
    | Some row => (Some (lr_status row), lr_reason row)
    | None =>
        match map_lifecycle_status <$> current_lifecycle (list_events storage) hash with
        | Some (status, reason) => (Some status, reason)
        | None => (None, None)
        end
    end in
  Some (detail_of_rows seen full feature lifecycle_status lifecycle_reason (lr_updated_unix_ms <$> lifecycle)).

Definition viz_transaction_detail_by_hash (p : InMemoryVizProvider) (hash : string) :
    lookup_outcome TransactionDetail :=
  bytes ← live_parse_fixed_hex 32 hash;
  match detail_by_parsed_hash (iv_storage p) (of_be_bytes bytes) with
  | Some detail => Found detail
  | None => Absent
  end.

(** The loop over the recent rows, which stops at [tx_limit] results. *)
Fixpoint snapshot_transactions (tx_limit : N) (chain_id : option N) (chain_id_by_hash : gmap TxHash (option N))
    (rows : list RecentTransactionRecord) (out : list TransactionSummary) : list TransactionSummary :=
  match rows with
  | [] => out
  | row :: rows' =>
      if negb (chain_matches_filter (mjoin (chain_id_by_hash !! rt_hash row)) chain_id)
      then snapshot_transactions tx_limit chain_id chain_id_by_hash rows' out
      else
        let out := out ++ [summary_of_recent row] in
        if (tx_limit <=? usize_of (length out))%N then out
        else snapshot_transactions tx_limit chain_id chain_id_by_hash rows' out
  end.

Definition dashboard_snapshot_v2 (p : InMemoryVizProvider)
    (tx_limit feature_limit opp_limit summary_limit min_score : N) (chain_id : option N) : DashboardSnapshotV2 :=
  let tx_limit := N.max tx_limit 1 in
  let feature_limit := N.max feature_limit 1 in
  let opp_limit := N.max opp_limit 1 in
  let summary_limit := N.max summary_limit 1 in
  let feature_scan_limit := chain_filter_scan_limit feature_limit chain_id in
  let opp_scan_limit := chain_filter_scan_limit opp_limit chain_id in
  let tx_scan_limit := chain_filter_scan_limit tx_limit chain_id in
  let storage := iv_storage p in
  let chain_id_by_hash := tf_chain_id <$> index_rows tf_hash (t_rows (st_tx_full storage)) in
  mkSnapshotV2 (st_read_model_revision storage) (default 0%N (latest_seq_id storage))
    (filter_opportunities_by_chain
       (filter_take (fun row => (min_score <=? od_score row)%N) opp_scan_limit (build_opportunities storage))
       chain_id opp_limit)
    (take (N.to_nat summary_limit) (build_feature_summary storage))
    (filter_feature_details_by_chain (take (N.to_nat feature_scan_limit) (build_feature_details storage))
       chain_id feature_limit)
    (snapshot_transactions tx_limit chain_id chain_id_by_hash (recent_transactions tx_scan_limit storage) [])
    (map_market_stats (st_market_stats storage)).

(** [impl VizDataProvider for InMemoryVizProvider]: what its methods answer. *)
Definition in_memory_view (p : InMemoryVizProvider) : VizDataProvider :=
  let cache := dashboard_cache_snapshot 0 p in
  {| vp_events := viz_events p;
     vp_latest_seq_id := latest_seq_id (iv_storage p);
     vp_replay_points := dc_replay_points cache;
     vp_propagation_edges := sort_unstable_by edge_cmp (iv_propagation p);
     vp_feature_summary := dc_feature_summary cache;
     vp_feature_details := fun limit => take (N.to_nat (N.max limit 1)) (dc_feature_details cache);
     vp_opportunities := fun limit min_score =>
       filter_take (fun row => (min_score <=? od_score row)%N) limit (dc_opportunities cache);
     vp_recent_transactions := fun limit => summary_of_recent <$> recent_transactions limit (iv_storage p);
     vp_transaction_details := viz_transaction_details p;
     vp_transaction_detail_by_hash := viz_transaction_detail_by_hash p;
     vp_market_stats := map_market_stats (st_market_stats (iv_storage p));
     vp_metric_snapshot := viz_metric_snapshot p |}.
End views.
