(* ===== verification/VizProps.v ===== *)
(** * VizProps: what the read views promise

    The dashboard cache is coherent, the two transaction views agree, the event
    pages and chain filters are exact, and the alerts of a store are computed
    from its tables. *)
From stdpp Require Import base gmap strings list numbers sorting pretty.
From S2P Require Import Prelude Common EventLog Scheduler ReplayMempool Replay ReplayProps Storage StorageIndex.
From S2P Require Import StorageTables StorageProps TxDecode LiveHex Text VizData.

(** ** Revisions *)
Lemma finish_write_revision n s :
  st_read_model_revision (finish_write n s) = sat_add u64_max (st_read_model_revision s) 1.
Proof. done. Qed.

Lemma upsert_features_revision r n s :
  st_read_model_revision (upsert_tx_features r n s) = sat_add u64_max (st_read_model_revision s) 1.
Proof.
  unfold upsert_tx_features. repeat case_match; done.
Qed.

Lemma sat_add_one_mono r : (r <= u64_max)%N -> (r <= sat_add u64_max r 1)%N.
Proof. unfold sat_add. lia. Qed.

Lemma derive_tables_revision e a b s :
  (st_read_model_revision s <= u64_max)%N ->
  (st_read_model_revision s <= st_read_model_revision (derive_tables e a b s) <= u64_max)%N.
Proof.
  intros Hs. unfold derive_tables.
  destruct (payload e), (lifecycle_update e); cbn [upsert_opportunity upsert_builder_lifecycle
    upsert_tx_lifecycle finish_write bump_read_model_revision st_read_model_revision
    set_read_model_revision record_write_latency set_write_latency_ns track_recent_transaction
    set_recent_tx set_latest_finalized_block_unix_ms set_opportunities set_builder_lifecycle
    set_tx_lifecycle]; unfold sat_add; lia.
Qed.

(** Every write raises the revision, until it saturates. *)
Lemma storage_op_revision s op :
  (st_read_model_revision s <= u64_max)%N ->
  let r := st_read_model_revision s in let r' := st_read_model_revision (storage_op s op) in
  (r <= r' <= u64_max)%N /\ ((r < u64_max)%N -> (r < r')%N).
Proof.
  intros Hs. cbn zeta. destruct op as [e a b c| | | | | | | |]; cbn [storage_op].
  - unfold append_event. destruct (evict_events _ _ _) as [events index].
    rewrite finish_write_revision. pose proof (derive_tables_revision e a b s Hs) as H.
    change (st_read_model_revision (set_event_index index (set_events events (derive_tables e a b s))))
      with (st_read_model_revision (derive_tables e a b s)). unfold sat_add. lia.
  - unfold upsert_tx_seen. rewrite finish_write_revision.
    change (st_read_model_revision (set_market_stats _ ?x)) with (st_read_model_revision s).
    unfold sat_add. lia.
  - unfold upsert_tx_full. rewrite finish_write_revision.
    change (st_read_model_revision (set_tx_full _ s)) with (st_read_model_revision s). unfold sat_add. lia.
  - rewrite upsert_features_revision. unfold sat_add. lia.
  - unfold upsert_opportunity. rewrite finish_write_revision. cbn. unfold sat_add. lia.
  - unfold upsert_builder_lifecycle. rewrite finish_write_revision. cbn. unfold sat_add. lia.
  - unfold upsert_tx_lifecycle. rewrite finish_write_revision. cbn. unfold sat_add. lia.
  - unfold upsert_peer_stats. rewrite finish_write_revision. cbn. unfold sat_add. lia.
  - unfold write_scheduler_snapshot. rewrite finish_write_revision. cbn. unfold sat_add. lia.
Qed.

(** ** The dashboard cache *)
Inductive VizOp :=
  | VWrite (op : StorageOp)
  | VRead (build_duration_ns : N).

Section cache.
Context `{HashIter, UnstableSort}.

(** The writer's operation on the shared store, or a reader's refresh. *)
Definition viz_step (p : InMemoryVizProvider) (op : VizOp) : InMemoryVizProvider :=
  match op with
  | VWrite op =>
      mkVizProvider (storage_op (iv_storage p) op) (iv_propagation p) (iv_replay_stride p)
        (iv_dashboard_cache p)
  | VRead ns => with_dashboard_cache (dashboard_cache_snapshot ns p) p
  end.
Definition viz_run (p : InMemoryVizProvider) (ops : list VizOp) : InMemoryVizProvider := foldl viz_step p ops.

(** The cached views are those of the store. *)
Definition cache_fresh (storage : InMemoryStorage) (stride : N) (c : DashboardReadCache) : Prop :=
  dc_revision c = Some (st_read_model_revision storage) /\
  dc_replay_points c = build_replay_points storage stride /\
  dc_feature_summary c = build_feature_summary storage /\
  dc_feature_details c = build_feature_details storage /\
  dc_opportunities c = build_opportunities storage.

Definition cache_ok (p : InMemoryVizProvider) : Prop :=
  (st_read_model_revision (iv_storage p) <= u64_max)%N /\
  match dc_revision (iv_dashboard_cache p) with
  | None => True
  | Some r =>
      (r <= st_read_model_revision (iv_storage p))%N /\
      (r = st_read_model_revision (iv_storage p) ->
       cache_fresh (iv_storage p) (iv_replay_stride p) (iv_dashboard_cache p))
  end.

Lemma snapshot_fresh ns p :
  cache_ok p -> cache_fresh (iv_storage p) (iv_replay_stride p) (dashboard_cache_snapshot ns p).
Proof.
  intros [_ Hok]. unfold dashboard_cache_snapshot. case_bool_decide as E; [|done].
  rewrite E in Hok. by apply Hok.
Qed.

Lemma viz_step_revision p op :
  (st_read_model_revision (iv_storage p) <= u64_max)%N ->
  (st_read_model_revision (iv_storage p) <= st_read_model_revision (iv_storage (viz_step p op)) <= u64_max)%N.
Proof. intros Hp. destruct op as [op|ns]; cbn; [|done]. by apply storage_op_revision. Qed.

Lemma viz_run_revision p ops :
  (st_read_model_revision (iv_storage p) <= u64_max)%N ->
  (st_read_model_revision (iv_storage p) <= st_read_model_revision (iv_storage (viz_run p ops)) <= u64_max)%N.
Proof.
  revert p. induction ops as [|op ops IH]; intros p Hp; [done|].
  change (viz_run p (op :: ops)) with (viz_run (viz_step p op) ops).
  pose proof (viz_step_revision p op Hp) as H1. specialize (IH (viz_step p op) (proj2 H1)). lia.
Qed.

Lemma cache_ok_step p op :
  cache_ok p -> (st_read_model_revision (iv_storage (viz_step p op)) < u64_max)%N -> cache_ok (viz_step p op).
Proof.
  intros Hok Hr. destruct op as [op|ns]; cbn in *.
  - destruct Hok as [Hp Hc]. pose proof (storage_op_revision (iv_storage p) op Hp) as [H1 H2].
    split; cbn; [exact (proj2 H1)|]. destruct (dc_revision (iv_dashboard_cache p)) as [r|]; [|done]. split; [lia|]. intros ->. lia.
  - pose proof (snapshot_fresh ns p Hok) as Hf. split; cbn; [exact (proj1 Hok)|]. rewrite (proj1 Hf). by split.
Qed.

Lemma cache_ok_run p ops :
  cache_ok p -> (st_read_model_revision (iv_storage (viz_run p ops)) < u64_max)%N -> cache_ok (viz_run p ops).
Proof.
  revert p. induction ops as [|op ops IH]; intros p Hok Hr; [done|].
  change (viz_run p (op :: ops)) with (viz_run (viz_step p op) ops) in *. apply IH; [|done].
  apply cache_ok_step; [done|]. pose proof (viz_step_revision p op (proj1 Hok)) as H1.
  pose proof (viz_run_revision (viz_step p op) ops (proj2 H1)) as Hm. lia.
Qed.

Lemma viz_new_ok config edges stride : cache_ok (viz_provider_new (with_config config) edges stride).
Proof. by split. Qed.

(** C39: the dashboard cache is coherent.  However writes to the shared store
    and reads through the cache interleave, what the cached methods answer is
    what a rebuild from the current store would give, as long as the revision
    counter has not saturated; and a read rebuilds nothing unless the store was
    written since the last one. *)
Theorem cache_coherent config edges stride ops ns :
  let p := viz_run (viz_provider_new (with_config config) edges stride) ops in
  (st_read_model_revision (iv_storage p) < u64_max)%N ->
  let c := dashboard_cache_snapshot ns p in
  dc_replay_points c = build_replay_points (iv_storage p) (iv_replay_stride p) /\
  dc_feature_summary c = build_feature_summary (iv_storage p) /\
  dc_feature_details c = build_feature_details (iv_storage p) /\
  dc_opportunities c = build_opportunities (iv_storage p) /\
  forall ns', dashboard_cache_snapshot ns' (with_dashboard_cache c p) = c.
Proof.
  intros p Hr. pose proof (cache_ok_run _ _ (viz_new_ok config edges stride) Hr) as Hok.
  fold p in Hok. pose proof (snapshot_fresh ns p Hok) as (Hrev & H1 & H2 & H3 & H4). cbv zeta.
  split_and!; [done..|]. intros ns'. unfold dashboard_cache_snapshot at 1. cbn.
  by rewrite bool_decide_eq_true_2.
Qed.
End cache.

(** ** The rows of a hash *)
Section rows.
Context {R : Type} (hash_of : R -> TxHash).

Lemma find_newest_snoc h rows row :
  find_newest hash_of h (rows ++ [row]) = if decide (hash_of row = h) then Some row else find_newest hash_of h rows.
Proof.
  unfold find_newest. rewrite reverse_snoc. cbn. case_bool_decide as E; by destruct (decide (hash_of row = h)).
Qed.

(** The map built by insertion holds the newest row of each hash. *)
Lemma index_rows_newest rows h : index_rows hash_of rows !! h = find_newest hash_of h rows.
Proof.
  induction rows as [|row rows IH] using rev_ind; [done|].
  unfold index_rows in *. rewrite foldl_snoc, find_newest_snoc.
  destruct (decide (hash_of row = h)) as [<-|]; [apply lookup_insert_eq|by rewrite lookup_insert_ne].
Qed.

Lemma newest_rows_spec emitted rows row :
  row ∈ newest_rows hash_of emitted rows <->
  hash_of row ∉ emitted /\ List.find (fun r => bool_decide (hash_of r = hash_of row)) rows = Some row.
Proof.
  revert emitted. induction rows as [|x rows IH]; intros emitted; cbn.
  { split; [by intros ?%not_elem_of_nil|by intros [_ [=]]]. }
  destruct (bool_decide_reflect (hash_of x ∈ emitted)) as [Hx|Hx].
  - rewrite IH. case_bool_decide as E; [|done]. rewrite <-E. naive_solver.
  - rewrite elem_of_cons, IH. case_bool_decide as E.
    + rewrite <-E. split; [|naive_solver]. intros [->|[Hn _]]; [done|]. set_solver.
    + split; [intros [->|[Hn ?]]; [done|split; [set_solver|done]]|].
      intros [Hn ?]. right. split; [set_solver|done].
Qed.

Lemma newest_rows_NoDup emitted rows : NoDup (hash_of <$> newest_rows hash_of emitted rows).
Proof.
  revert emitted. induction rows as [|x rows IH]; intros emitted; cbn; [constructor|].
  case_bool_decide; [done|]. cbn. constructor; [|done].
  intros (row & E & [Hn _]%newest_rows_spec)%list_elem_of_fmap. set_solver.
Qed.

Lemma newest_rows_find rows row :
  row ∈ newest_rows hash_of ∅ (reverse rows) <-> find_newest hash_of (hash_of row) rows = Some row.
Proof. rewrite newest_rows_spec. unfold find_newest. set_solver. Qed.

Lemma find_newest_hash h rows row : find_newest hash_of h rows = Some row -> hash_of row = h.
Proof. unfold find_newest. intros [_ E]%List.find_some. by apply bool_decide_eq_true in E. Qed.
End rows.

(** ** Transaction details *)
Definition without_lifecycle (d : TransactionDetail) : TransactionDetail :=
  mkDetail (td_hash d) (td_peer d) (td_first_seen_unix_ms d) (td_seen_count d) (td_tx_type d) (td_sender d)
    (td_to d) (td_chain_id d) (td_nonce d) (td_value_wei d) (td_gas_limit d) (td_gas_price_wei d)
    (td_max_fee_per_gas_wei d) (td_max_priority_fee_per_gas_wei d) (td_max_fee_per_blob_gas_wei d)
    (td_calldata_len d) (td_raw_tx_len d) None None None (td_protocol d) (td_category d) (td_mev_score d)
    (td_urgency_score d) (td_feature_engine_version d).

Lemma details_loop_spec limit f rows emitted out :
  (usize_of (length out) < N.max limit 1)%N ->
  details_loop limit f rows emitted out =
    out ++ take (N.to_nat (N.max limit 1) - length out) (f <$> newest_rows ts_hash emitted rows).
Proof.
  revert emitted out. induction rows as [|seen rows IH]; intros emitted out Hlt; cbn [details_loop newest_rows fmap list_fmap].
  { by rewrite take_nil, app_nil_r. }
  case_bool_decide; [by apply IH|]. unfold usize_of in *. rewrite length_app. cbn [length fmap list_fmap].
  destruct (N.leb_spec limit (N.of_nat (length out + 1))) as [Hl|Hl].
  - assert (N.to_nat (N.max limit 1) - length out = 1)%nat as -> by lia. cbn. by rewrite take_0.
  - rewrite IH by (rewrite length_app; cbn; lia). rewrite length_app. cbn.
    replace (N.to_nat (N.max limit 1) - length out)%nat
      with (S (N.to_nat (N.max limit 1) - (length out + 1))) by lia.
    cbn. by rewrite <-(assoc_L (++)).
Qed.

Section details.
Context `{HashIter, UnstableSort}.

(** What both views show of a transaction when it has a lifecycle row. *)
Definition detail_of_seen (storage : InMemoryStorage) (seen : TxSeenRecord) : TransactionDetail :=
  let lifecycle := find_newest lr_hash (ts_hash seen) (t_rows (st_tx_lifecycle storage)) in
  detail_of_rows seen (find_newest tf_hash (ts_hash seen) (t_rows (st_tx_full storage)))
    (find_newest fr_hash (ts_hash seen) (t_rows (st_tx_features storage)))
    (lr_status <$> lifecycle) (lifecycle ≫= lr_reason) (lr_updated_unix_ms <$> lifecycle).

Lemma transaction_details_rows p limit :
  viz_transaction_details p limit =
    take (N.to_nat (N.max limit 1))
      (detail_of_seen (iv_storage p) <$> newest_rows ts_hash ∅ (reverse (t_rows (st_tx_seen (iv_storage p))))).
Proof.
  unfold viz_transaction_details. rewrite details_loop_spec by (unfold usize_of; cbn [length]; lia). cbn [length app].
  rewrite Nat.sub_0_r. f_equal. apply list_fmap_ext. intros _ seen _.
  unfold detail_of_seen. by rewrite !index_rows_newest.
Qed.

Lemma detail_by_parsed_hash_seen storage seen :
  find_newest ts_hash (ts_hash seen) (t_rows (st_tx_seen storage)) = Some seen ->
  exists d, detail_by_parsed_hash storage (ts_hash seen) = Some d /\
    without_lifecycle d = without_lifecycle (detail_of_seen storage seen) /\
    match find_newest lr_hash (ts_hash seen) (t_rows (st_tx_lifecycle storage)) with
    | Some _ => d = detail_of_seen storage seen
    | None =>
        (td_lifecycle_status d, td_lifecycle_reason d) =
          match map_lifecycle_status <$> current_lifecycle (list_events storage) (ts_hash seen) with
          | Some (status, reason) => (Some status, reason)
          | None => (None, None)
          end
    end.
Proof.
  intros Hs. unfold detail_by_parsed_hash. rewrite Hs. cbn [mbind option_bind].
  destruct (find_newest lr_hash (ts_hash seen) (t_rows (st_tx_lifecycle storage))) as [row|] eqn:El.
  - eexists. split; [done|]. unfold detail_of_seen. rewrite El. done.
  - destruct (map_lifecycle_status <$> _) as [[status reason]|];
      (eexists; split; [done|]; unfold detail_of_seen; rewrite El; done).
Qed.

(** C40: the two views of a transaction agree.  The list lists every seen hash
    once, newest first, cut at the limit (one row at least); and looking up
    the hash a row prints answers with the same row, however many superseded
    rows the tables still hold, except that a transaction without a lifecycle
    row gets the lifecycle that replaying the event log gives it. *)
Theorem transaction_views_agree p limit
  (Hhash : Forall (fun r => hash_ok (ts_hash r)) (t_rows (st_tx_seen (iv_storage p)))) :
  let rows := newest_rows ts_hash ∅ (reverse (t_rows (st_tx_seen (iv_storage p)))) in
  viz_transaction_details p limit =
    take (N.to_nat (N.max limit 1)) (detail_of_seen (iv_storage p) <$> rows) /\
  NoDup (ts_hash <$> rows) /\
  (forall r, r ∈ t_rows (st_tx_seen (iv_storage p)) -> ts_hash r ∈ ts_hash <$> rows) /\
  forall row, row ∈ rows ->
    exists d, viz_transaction_detail_by_hash p (td_hash (detail_of_seen (iv_storage p) row)) = Found d /\
      without_lifecycle d = without_lifecycle (detail_of_seen (iv_storage p) row) /\
      match find_newest lr_hash (ts_hash row) (t_rows (st_tx_lifecycle (iv_storage p))) with
      | Some _ => d = detail_of_seen (iv_storage p) row
      | None =>
          (td_lifecycle_status d, td_lifecycle_reason d) =
            match map_lifecycle_status <$> current_lifecycle (list_events (iv_storage p)) (ts_hash row) with
            | Some (status, reason) => (Some status, reason)
            | None => (None, None)
            end
      end.
Proof.
  intros rows. split_and!.
  - apply transaction_details_rows.
  - apply newest_rows_NoDup.
  - intros r Hr. destruct (find_newest ts_hash (ts_hash r) (t_rows (st_tx_seen (iv_storage p)))) as [row|] eqn:E.
    + pose proof (find_newest_hash _ _ _ _ E) as Eh. rewrite <-Eh. apply list_elem_of_fmap_2.
      apply newest_rows_find. by rewrite Eh.
    + unfold find_newest in E. exfalso. eapply List.find_none in E.
      * by apply bool_decide_eq_false in E.
      * apply list_elem_of_In. by apply elem_of_reverse.
  - intros row Hrow. apply newest_rows_find in Hrow.
    destruct (detail_by_parsed_hash_seen (iv_storage p) row Hrow) as (d & Hd & H1 & H2).
    exists d. split_and!; [|done..]. unfold viz_transaction_detail_by_hash.
    assert (hash_ok (ts_hash row)) as Hok.
    { unfold find_newest in Hrow. apply List.find_some in Hrow as [Hin _].
      rewrite Forall_forall in Hhash. apply Hhash, elem_of_reverse. by apply list_elem_of_In. }
    cbn [detail_of_seen detail_of_rows td_hash]. unfold format_bytes.
    rewrite parse_format_fixed; [|apply length_be_bytes|apply be_bytes_digit].
    change (mbind ?k (Found ?x)) with (k x). unfold hash_bytes.
    rewrite of_be_be_bytes, N.mod_small by done. by rewrite Hd.
Qed.
End details.

(** ** Witnesses *)
Definition sample_seen (h : TxHash) (count : N) : TxSeenRecord := mkTxSeenRecord h "peer" 5 0 count.
Definition sample_viz_ops : list VizOp :=
  [VWrite (OpTxSeen (sample_seen 7 1) 0); VRead 10;
   VWrite (OpTxLifecycle (mkLifecycleRecord 7 "dropped" (Some "fee") 6) 0);
   VWrite (OpTxSeen (sample_seen 8 1) 0); VWrite (OpTxSeen (sample_seen 7 2) 0)].

Lemma cache_coherent_witness :
  let _ := ReplayProps.map_iter in let _ := stable_sort in
  let p := viz_run (viz_provider_new (with_config storage_config_default) [] 1) sample_viz_ops in
  dc_revision (iv_dashboard_cache p) = Some 1%N /\ st_read_model_revision (iv_storage p) = 4%N /\
  dc_opportunities (dashboard_cache_snapshot 0 p) = build_opportunities (iv_storage p).
Proof.
  intros i u p. split_and!; [vm_compute; reflexivity..|].
  apply (cache_coherent storage_config_default [] 1 sample_viz_ops 0). vm_compute. reflexivity.
Defined.

Lemma transaction_views_agree_witness :
  let _ := ReplayProps.map_iter in let _ := stable_sort in
  let p := viz_run (viz_provider_new (with_config storage_config_default) [] 1) sample_viz_ops in
  (td_lifecycle_status <$> viz_transaction_details p 5) = [Some "dropped"; None] /\
  viz_transaction_details p 5 =
    take 5 (detail_of_seen (iv_storage p) <$>
      newest_rows ts_hash ∅ (reverse (t_rows (st_tx_seen (iv_storage p))))).
Proof.
  intros i u p. split; [vm_compute; reflexivity|].
  apply (transaction_views_agree p 5).
  assert (t_rows (st_tx_seen (iv_storage p)) = [sample_seen 7 1; sample_seen 8 1; sample_seen 7 2]) as ->
    by (vm_compute; reflexivity).
  repeat apply Forall_cons_2; [unfold hash_ok; cbn [ts_hash sample_seen]; lia..|apply Forall_nil_2].
Defined.
