(* ===== verification/VizHandlers.v ===== *)
(** * VizHandlers: the query handlers (crates/viz-api/src/lib.rs)

    What each GET handler answers, over any provider: paging through the event
    log, replay ranges, filtered listings, lookups.  JSON encoding and the
    router are left out; a status code is a constructor. *)
From stdpp Require Import base gmap strings list numbers sorting pretty.
From S2P Require Import Prelude Alerts Common EventLog Scheduler ReplayMempool Replay RelayClient Storage.
From S2P Require Import StorageIndex StorageProps TxDecode LiveHex Text LiveState VizData VizProps.

Inductive response (A : Type) :=
  | Json (body : A)
  | BadRequest
  | NotFound
  | HandlerPanic.
Arguments Json {A} body.
Arguments BadRequest {A}.
Arguments NotFound {A}.
Arguments HandlerPanic {A}.

Definition clamp (lo hi x : N) : N := N.max lo (N.min x hi).

(** ** Paging *)
Definition page_size : N := 2000.
Definition max_scan_events : N := 200000.

Record PageState := mkPage {
  pg_after : N;
  pg_out : list EventEnvelope;
  pg_progressed : bool;
}.

(** The loop over one page; [inl] is the early return. *)
Fixpoint collect_page (to_seq_id : N) (st : PageState) (page : list EventEnvelope) :
    list EventEnvelope + PageState :=
  match page with
  | [] => inr st
  | event :: page' =>
      if (seq_id event <=? pg_after st)%N then collect_page to_seq_id st page'
      else
        let out := if (seq_id event <=? to_seq_id)%N then pg_out st ++ [event] else pg_out st in
        if (to_seq_id <=? seq_id event)%N then inl out
        else collect_page to_seq_id (mkPage (seq_id event) out true) page'
  end.

(** The outer loop; [None] is running out of fuel. *)
Fixpoint collect_loop (fuel : nat) (events : N -> list EventEnvelope) (to_seq_id after_seq_id : N)
    (out : list EventEnvelope) : option (list EventEnvelope) :=
  match fuel with
  | O => None
  | S fuel' =>
      if (usize_of (length out) <? max_scan_events)%N
      then
        match events after_seq_id with
        | [] => Some out
        | page =>
            match collect_page to_seq_id (mkPage after_seq_id out false) page with
            | inl out => Some out
            | inr st =>
                if pg_progressed st then collect_loop fuel' events to_seq_id (pg_after st) (pg_out st)
                else Some (pg_out st)
            end
        end
      else Some out
  end.
Definition collect_events_up_to_seq (fuel : nat) (provider : VizDataProvider) (to_seq_id : N) :
    option (list EventEnvelope) :=
  collect_loop fuel (fun after_seq_id => vp_events provider after_seq_id [] page_size) to_seq_id 0 [].

(** ** Replay *)
Record ReplayQuery := mkReplayQuery { rq_from : option N; rq_to : option N; rq_stride : option N }.
Record ReplayRangeDiffSummary := mkRangeDiff {
  rd_from_pending_count : N;
  rd_to_pending_count : N;
  rd_added_pending_count : N;
  rd_removed_pending_count : N;
  rd_added_pending : list string;
  rd_removed_pending : list string;
}.
Record ReplayRangeResponse := mkRange {
  rr_from_seq_id : N;
  rr_to_seq_id : N;
  rr_from_checkpoint_hash : string;
  rr_to_checkpoint_hash : string;
  rr_summary : ReplayRangeDiffSummary;
  rr_frames : list ReplayPoint;
}.

Section replay.
Context `{HashIter} (sha256 : list N -> list N).

Definition replay_range (events : list EventEnvelope) (from_seq to_seq stride : N) :
    response (list ReplayPoint + ReplayRangeResponse) :=
  match replay_diff_summary sha256 events from_seq to_seq with
  | None => NotFound
  | Some summary =>
      match lifecycle_snapshot events from_seq with
      | None => NotFound
      | Some checkpoint =>
          let frames :=
            point_of <$> filter (fun frame => (frame_seq_hi frame <= to_seq)%N)
              (replay_from_checkpoint events checkpoint stride) in
          Json (inr (mkRange (from_seq_id summary) (to_seq_id summary)
            (format_bytes (from_checkpoint_hash summary)) (format_bytes (to_checkpoint_hash summary))
            (mkRangeDiff (from_pending_count summary) (to_pending_count summary)
               (usize_of (length (added_pending summary))) (usize_of (length (removed_pending summary)))
               ((fun h => format_bytes (hash_bytes h)) <$> added_pending summary)
               ((fun h => format_bytes (hash_bytes h)) <$> removed_pending summary))
            frames))
      end
  end.

Definition replay_handler (fuel : nat) (provider : VizDataProvider) (downsample_limit : N)
    (query : ReplayQuery) : option (response (list ReplayPoint + ReplayRangeResponse)) :=
  match rq_from query, rq_to query with
  | Some f, Some t =>
      let '(f, t) := if (f <=? t)%N then (f, t) else (t, f) in
      (fun events => replay_range events f t (clamp 1 5000 (default 1%N (rq_stride query))))
        <$> collect_events_up_to_seq fuel provider t
  | None, None => Some (Json (inl (downsample (vp_replay_points provider) downsample_limit)))
  | _, _ => Some BadRequest
  end.
End replay.

(** ** Listings *)
Definition events_handler (provider : VizDataProvider) (after : option N) (types : option string)
    (limit : option N) : list EventEnvelope :=
  vp_events provider (default 0%N after) (parse_event_type_filters types) (clamp 1 5000 (default 1000%N limit)).

Definition features_recent (provider : VizDataProvider) (limit chain_id : option N) : list FeatureDetail :=
  let limit := clamp 1 5000 (default 100%N limit) in
  filter_feature_details_by_chain (vp_feature_details provider (chain_filter_scan_limit limit chain_id))
    chain_id limit.

Definition transactions_handler (provider : VizDataProvider) (limit chain_id : option N) :
    list TransactionSummary :=
  let limit := clamp 1 200 (default 25%N limit) in
  filter_transaction_summaries_by_chain provider
    (vp_recent_transactions provider (chain_filter_scan_limit limit chain_id)) chain_id limit.

Definition filtered_opportunities (provider : VizDataProvider) (limit min_score : option N)
    (status : option string) (chain_id : option N) : list OpportunityDetail :=
  let limit := clamp 1 5000 (default 100%N limit) in
  let values := vp_opportunities provider (chain_filter_scan_limit limit chain_id) (default 0%N min_score) in
  let status_filter :=
    match str_trim <$> status with Some s => if bool_decide (s = "") then None else Some s | None => None end in
  let filtered :=
    match status_filter with
    | Some s => List.filter (fun row => eq_ignore_ascii_case (od_status row) s) values
    | None => values
    end in
  filter_opportunities_by_chain filtered chain_id limit.

Definition transactions_all (provider : VizDataProvider) (limit chain_id : option N) : list TransactionDetail :=
  let limit := clamp 1 5000 (default 1000%N limit) in
  filter_transaction_details_by_chain (vp_transaction_details provider (chain_filter_scan_limit limit chain_id))
    chain_id limit.

Definition transaction_by_hash (provider : VizDataProvider) (hash : string) : response TransactionDetail :=
  match vp_transaction_detail_by_hash provider hash with
  | Found detail => Json detail
  | Absent => NotFound
  | Panicked => HandlerPanic
  end.

Definition dashboard_snapshot_handler `{HashIter, UnstableSort} (p : InMemoryVizProvider) (downsample_limit : N)
    (tx_limit feature_limit opp_limit min_score chain_id : option N) : DashboardSnapshotV2 :=
  dashboard_snapshot_v2 p (clamp 1 500 (default 250%N tx_limit)) (clamp 1 2000 (default 600%N feature_limit))
    (clamp 1 2000 (default 600%N opp_limit)) (clamp 1 5000 downsample_limit) (default 0%N min_score) chain_id.

Definition alerts_evaluate (provider : VizDataProvider) (alert_thresholds : AlertThresholdConfig) : AlertDecisions :=
  evaluate_alerts (vp_metric_snapshot provider) alert_thresholds.

(** ** Relay results *)
Record BundleDetail := mkBundleDetail {
  bd_id : string;
  bd_relay_url : string;
  bd_accepted : bool;
  bd_final_state : string;
  bd_attempt_count : N;
  bd_started_unix_ms : Z;
  bd_finished_unix_ms : Z;
}.
Definition result_suffix (result : RelayDryRunResult) : string :=
  pretty (dr_started_unix_ms result) +:+ "-" +:+ pretty (dr_finished_unix_ms result) +:+ "-" +:+
    pretty (usize_of (length (dr_attempts result))).
Definition bundle_id_for_result (result : RelayDryRunResult) : string := "bundle-" +:+ result_suffix result.
Definition sim_id_for_result (result : RelayDryRunResult) : string := "sim-" +:+ result_suffix result.

Definition bundle_by_id (status : RelayDryRunStatus) (id : string) : response BundleDetail :=
  match rs_latest status with
  | None => NotFound
  | Some latest =>
      let bundle_id := bundle_id_for_result latest in
      if negb (bool_decide (id = "latest")) && negb (bool_decide (id = bundle_id)) then NotFound
      else Json (mkBundleDetail bundle_id (dr_relay_url latest) (dr_accepted latest) (dr_final_state latest)
                   (usize_of (length (dr_attempts latest))) (dr_started_unix_ms latest)
                   (dr_finished_unix_ms latest))
  end.

Record SimDetail := mkSimDetail {
  sd_id : string;
  sd_bundle_id : string;
  sd_status : string;
  sd_relay_url : string;
  sd_attempt_count : N;
  sd_accepted : bool;
  sd_fail_category : option string;
  sd_started_unix_ms : Z;
  sd_finished_unix_ms : Z;
}.
Definition live_sim_detail (status : LiveRpcSimulationStatusSnapshot) : SimDetail :=
  mkSimDetail (ss_id status) (ss_bundle_id status) (ss_status status) (ss_relay_url status) (ss_attempt_count status)
    (ss_accepted status) (ss_fail_category status) (ss_started_unix_ms status) (ss_finished_unix_ms status).
Definition relay_sim_detail (latest : RelayDryRunResult) : SimDetail :=
  mkSimDetail (sim_id_for_result latest) (bundle_id_for_result latest) (if dr_accepted latest then "ok" else "fail")
    (dr_relay_url latest) (usize_of (length (dr_attempts latest))) (dr_accepted latest)
    (if dr_accepted latest then None else Some "relay_exhausted") (dr_started_unix_ms latest) (dr_finished_unix_ms latest).
(** The simulations of the live feed come first, then the last dry run. *)
Definition sim_by_id (statuses : SimulationStatusStore) (relay : RelayDryRunStatus) (id : string) : response SimDetail :=
  match simulation_status id statuses with
  | Some status => Json (live_sim_detail status)
  | None =>
      match rs_latest relay with
      | None => NotFound
      | Some latest =>
          if negb (bool_decide (id = "latest")) && negb (bool_decide (id = sim_id_for_result latest)) then NotFound
          else Json (relay_sim_detail latest)
      end
  end.

(** After any sequence of recorded simulations the endpoint answers with the
    last one recorded under the id asked for ([latest]: the last one at all),
    and only for an id never recorded with the last dry run, under its own id
    or [latest]. *)
Theorem sim_lookup_exact snapshots relay id :
  let statuses := foldl (fun st s => record_simulation_status s st) (mkStatusStore None ∅) snapshots in
  let matching := filter (fun s => id = "latest" \/ ss_id s = id) snapshots in
  sim_by_id statuses relay id =
    match list.last matching, rs_latest relay with
    | Some status, _ => Json (live_sim_detail status)
    | None, Some latest =>
        if decide (id = "latest" \/ id = sim_id_for_result latest) then Json (relay_sim_detail latest) else NotFound
    | None, None => NotFound
    end.
Proof.
  cbv zeta. unfold sim_by_id.
  assert (simulation_status id (foldl (fun st s => record_simulation_status s st) (mkStatusStore None ∅) snapshots) =
    list.last (filter (fun s => id = "latest" \/ ss_id s = id) snapshots)) as ->.
  { unfold simulation_status. induction snapshots as [|s l IH] using rev_ind; [cbn; by destruct (bool_decide _)|].
    rewrite foldl_snoc, filter_app, filter_cons, filter_nil. unfold record_simulation_status at 1 3.
    cbn [sts_latest sts_by_id]. case_bool_decide as Hl; [by rewrite decide_True, last_snoc by auto|].
    destruct (decide (id = "latest" \/ ss_id s = id)) as [[|<-]|Hid]; [done|by rewrite lookup_insert_eq, last_snoc|].
    rewrite lookup_insert_ne by naive_solver. by rewrite app_nil_r. }
  destruct (list.last _); [done|]. destruct (rs_latest relay) as [latest|]; [|done].
  repeat case_bool_decide; case_decide; naive_solver.
Qed.

(** ** Event pages *)

(** The events whose id exceeds every earlier one and the cursor. *)
Fixpoint first_per_seq (after : N) (l : list EventEnvelope) : list EventEnvelope :=
  match l with
  | [] => []
  | e :: l' =>
      if (seq_id e <=? after)%N then first_per_seq after l' else e :: first_per_seq (seq_id e) l'
  end.
Definition last_seq (after : N) (l : list EventEnvelope) : N :=
  foldl (fun a e => N.max a (seq_id e)) after l.

Lemma first_per_seq_app after l1 l2 :
  first_per_seq after (l1 ++ l2) = first_per_seq after l1 ++ first_per_seq (last_seq after l1) l2.
Proof.
  revert after. induction l1 as [|e l1 IH]; intros after; [done|]. cbn [app first_per_seq last_seq foldl].
  destruct (N.leb_spec (seq_id e) after).
  - by rewrite IH, N.max_l.
  - rewrite IH, N.max_r by lia. done.
Qed.

Lemma first_per_seq_filter a b l :
  (a <= b)%N -> first_per_seq b (filter (fun e => (a < seq_id e)%N) l) = first_per_seq b l.
Proof.
  intros Hab. revert b Hab. induction l as [|e l IH]; intros b Hab; [done|]. rewrite filter_cons.
  destruct (decide (a < seq_id e)%N); cbn [first_per_seq]; destruct (N.leb_spec (seq_id e) b);
    [by apply IH|rewrite IH by lia; done|by apply IH|lia].
Qed.

Lemma last_seq_ge a l : (a <= last_seq a l)%N /\ forall e, e ∈ l -> (seq_id e <= last_seq a l)%N.
Proof.
  revert a. induction l as [|x l IH]; intros a; [split; [done|by intros ? ?%not_elem_of_nil]|].
  destruct (IH (N.max a (seq_id x))) as [H1 H2]. unfold last_seq in *. cbn. split; [lia|].
  intros e [->|He]%elem_of_cons; [lia|by apply H2].
Qed.

Lemma first_per_seq_low a l : (forall e, e ∈ l -> (seq_id e <= a)%N) -> first_per_seq a l = [].
Proof.
  induction l as [|e l IH]; intros Hl; [done|]. cbn.
  rewrite (proj2 (N.leb_le _ _) (Hl e ltac:(set_solver))). apply IH. set_solver.
Qed.
Lemma last_seq_low a l : (forall e, e ∈ l -> (seq_id e <= a)%N) -> last_seq a l = a.
Proof.
  induction l as [|e l IH]; intros Hl; [done|]. cbn. rewrite N.max_l by (apply Hl; set_solver).
  apply IH. set_solver.
Qed.
Lemma first_per_seq_high a l e : e ∈ first_per_seq a l -> (a < seq_id e)%N /\ e ∈ l.
Proof.
  revert a. induction l as [|x l IH]; intros a; cbn; [by intros ?%not_elem_of_nil|].
  destruct (N.leb_spec (seq_id x) a); [intros [? ?]%IH; set_solver|].
  intros [->|[? ?]%IH]%elem_of_cons; [set_solver|]. split; [lia|set_solver].
Qed.

Lemma first_per_seq_length a l : (length (first_per_seq a l) <= length l)%nat.
Proof.
  revert a. induction l as [|e l IH]; intros a; [done|]. cbn.
  destruct (seq_id e <=? a)%N; cbn; [specialize (IH a); lia|specialize (IH (seq_id e)); lia].
Qed.

(** One page: all of it is taken, or the bound is reached. *)
Lemma collect_page_spec to a out pr page :
  collect_page to (mkPage a out pr) page =
    if existsb (fun e => (to <=? seq_id e)%N) (first_per_seq a page)
    then inl (out ++ filter (fun e => (seq_id e <= to)%N) (first_per_seq a page))
    else inr (mkPage (last_seq a page) (out ++ first_per_seq a page)
                (pr || negb (bool_decide (first_per_seq a page = [])))).
Proof.
  revert a out pr. induction page as [|e page IH]; intros a out pr.
  { cbn. by rewrite app_nil_r, orb_false_r. }
  cbn [collect_page first_per_seq pg_after last_seq foldl].
  destruct (N.leb_spec (seq_id e) a) as [Hle|Hgt].
  { rewrite N.max_l by done. apply IH. }
  rewrite N.max_r by lia. cbn [existsb pg_out]. rewrite filter_cons.
  destruct (N.leb_spec to (seq_id e)) as [Hto|Hto].
  - cbn [orb]. f_equal. replace (filter _ (first_per_seq (seq_id e) page)) with (@nil EventEnvelope).
    + destruct (N.leb_spec (seq_id e) to), (decide (seq_id e <= to)%N); try lia; [done|by rewrite app_nil_r].
    + symmetry. apply filter_none. intros x [Hx _]%first_per_seq_high Hp. lia.
  - cbn [orb]. replace (seq_id e <=? to)%N with true by (symmetry; apply N.leb_le; lia).
    rewrite decide_True by lia. rewrite IH. cbn [orb].
    rewrite (bool_decide_eq_false_2 (e :: _ = [])) by done. cbn [negb]. rewrite orb_true_r.
    destruct (existsb _ _); by rewrite <-(assoc_L (++)).
Qed.

Lemma existsb_false {A} (p : A -> bool) l : existsb p l = false <-> forall x, x ∈ l -> p x = false.
Proof.
  induction l as [|x l IH]; cbn; [set_solver|]. rewrite orb_false_iff, IH. set_solver.
Qed.

Lemma collect_loop_ext fuel ev1 ev2 to a out :
  (forall a, ev1 a = ev2 a) -> collect_loop fuel ev1 to a out = collect_loop fuel ev2 to a out.
Proof.
  intros E. revert a out. induction fuel as [|fuel IH]; intros a out; [done|]. cbn [collect_loop]. rewrite E.
  destruct (_ <? _)%N; [|done]. destruct (ev2 a) as [|x l]; [done|].
  destruct (collect_page _ _ _) as [res|st]; [done|]. destruct (pg_progressed st); [apply IH|done].
Qed.

(** The outer loop over pages of [size] events of the log [L] after the cursor. *)
Lemma collect_loop_spec L size to fuel a out :
  (0 < size)%nat -> (length (first_per_seq a L) < fuel)%nat ->
  exists res,
    collect_loop fuel (fun after => take size (filter (fun e => (after < seq_id e)%N) L)) to a out = Some res /\
    res `prefix_of` out ++ filter (fun e => (seq_id e <= to)%N) (first_per_seq a L) /\
    (res = out ++ filter (fun e => (seq_id e <= to)%N) (first_per_seq a L) \/
     (max_scan_events <= usize_of (length res))%N).
Proof.
  intros Hsize. revert a out. induction fuel as [|fuel IH]; intros a out Hf; [lia|]. cbn [collect_loop].
  destruct (N.ltb_spec (usize_of (length out)) max_scan_events) as [Hlt|Hge].
  2:{ exists out. split_and!; [done|by eexists|by right]. }
  set (F := filter (fun e => (a < seq_id e)%N) L).
  assert (first_per_seq a L = first_per_seq a F) as EF by (by rewrite <-(first_per_seq_filter a a L)).
  assert (forall e, e ∈ F -> (a < seq_id e)%N) as HF by (intros e [? _]%list_elem_of_filter; done).
  destruct (take size F) as [|e0 P0] eqn:EP.
  { assert (F = []) as HF0 by (destruct F; [done|]; destruct size; [lia|done]).
    exists out. rewrite EF, HF0. cbn. rewrite app_nil_r. split_and!; [done|done|by left]. }
  rewrite <-EP. set (P := take size F) in *. set (Rst := drop size F).
  assert (F = P ++ Rst) as ES by (symmetry; apply take_drop).
  rewrite collect_page_spec.
  rewrite EF, ES, first_per_seq_app, filter_app. set (X := first_per_seq a P).
  set (b := last_seq a P). destruct (existsb _ X) eqn:EX.
  - eexists. split; [done|]. apply List.existsb_exists in EX as (e & He & Hto%N.leb_le).
    apply list_elem_of_In in He. apply first_per_seq_high in He as [_ He].
    pose proof (proj2 (last_seq_ge a P) e He) as Hb.
    assert (filter (fun e => (seq_id e <= to)%N) (first_per_seq b Rst) = []) as ->.
    { apply filter_none. intros x [Hx _]%first_per_seq_high Hp. unfold b in Hx. lia. }
    rewrite app_nil_r. split; [done|by left].
  - assert (X <> []) as HX.
    { unfold X. rewrite EP. cbn. assert (e0 ∈ F) as H0 by (rewrite ES, EP; set_solver).
      by rewrite (proj2 (N.leb_gt _ _) (HF e0 H0)). }
    rewrite bool_decide_eq_false_2 by done. cbn [orb negb pg_progressed pg_after pg_out].
    assert (first_per_seq b Rst = first_per_seq b L) as EB.
    { pose proof (last_seq_ge a P) as [Hab Hmax]. fold b in Hab, Hmax.
      rewrite <-(first_per_seq_filter a b L) by done. fold F. rewrite ES, first_per_seq_app.
      by rewrite (first_per_seq_low b P), (last_seq_low b P). }
    assert (filter (fun e => (seq_id e <= to)%N) X = X) as ->.
    { apply filter_all. intros x Hx. apply (proj1 (existsb_false _ _) EX), N.leb_gt in Hx. cbv beta. lia. }
    rewrite EB, (assoc_L (++)). apply IH.
    rewrite EF, ES, first_per_seq_app, length_app in Hf. fold X b in Hf. rewrite EB in Hf.
    destruct X; [done|]. cbn in Hf. lia.
Qed.

(** Without repeated ids nothing but the range is cut. *)
Lemma first_per_seq_distinct l :
  (forall i j x y, (i < j)%nat -> l !! i = Some x -> l !! j = Some y -> (seq_id x < seq_id y)%N) ->
  forall a, first_per_seq a l = filter (fun e => (a < seq_id e)%N) l.
Proof.
  induction l as [|e l IH]; intros Hl a; [done|]. cbn [first_per_seq]. rewrite filter_cons.
  assert (forall a, first_per_seq a l = filter (fun e => (a < seq_id e)%N) l) as IH'.
  { apply IH. intros i j x y ? ? ?. apply (Hl (S i) (S j)); [lia|done..]. }
  destruct (N.leb_spec (seq_id e) a) as [H|H]; [by rewrite decide_False by lia|].
  rewrite decide_True, IH' by lia. f_equal.
  assert (forall x, x ∈ l -> (seq_id e < seq_id x)%N) as Hgt.
  { intros x [j Hj]%list_elem_of_lookup_1. apply (Hl 0%nat (S j)); [lia|done..]. }
  rewrite !filter_all; [done|..]; intros x Hx%Hgt; cbv beta; lia.
Qed.

(** ** Theorems *)
Definition wanted (types : list string) (event : EventEnvelope) : bool :=
  bool_decide (types = []) ||
  existsb (fun kind => eq_ignore_ascii_case (event_payload_type (payload event)) kind) types.

Lemma viz_events_scan p after types limit :
  index_sorted (st_event_index (iv_storage p)) ->
  (1 <= limit < 2 ^ 63)%N ->
  viz_events p after types limit =
    filter_take (wanted types) limit
      (take (N.to_nat (2 * limit)) (filter (fun e => (after < seq_id e)%N) (list_events (iv_storage p)))).
Proof.
  intros Hs Hl. unfold viz_events. rewrite scan_events_exact by done. unfold filter_take. do 2 f_equal.
  change (2 ^ 63)%N with 9223372036854775808%N in Hl.
  replace (N.max (N.max (sat_mul u64_max limit 2) limit) 1) with (2 * limit)%N
    by (unfold sat_mul, u64_max; lia). done.
Qed.

Lemma filter_take_true {A} limit (l : list A) : filter_take (fun _ => true) limit l = take (N.to_nat limit) l.
Proof.
  unfold filter_take. f_equal. induction l as [|x l IH]; [done|]. cbn. by rewrite IH.
Qed.

Lemma viz_events_all p after limit :
  index_sorted (st_event_index (iv_storage p)) -> (1 <= limit < 2 ^ 63)%N ->
  viz_events p after [] limit =
    take (N.to_nat limit) (filter (fun e => (after < seq_id e)%N) (list_events (iv_storage p))).
Proof.
  intros Hs Hl. rewrite viz_events_scan by done. change (wanted []) with (fun _ : EventEnvelope => true).
  rewrite filter_take_true, take_take. f_equal. lia.
Qed.

(** Paging through the event log for a replay terminates and is exact.
    With one more turn than the log has events, the collected events are those
    up to the bound whose id exceeds every earlier one (all of them, when the
    ids are distinct and positive), in order; only when 200,000 have been
    collected is the answer a prefix. *)
Theorem replay_paging_exact `{HashIter, UnstableSort} config ops edges stride to_seq :
  let p := viz_provider_new (storage_after config ops) edges stride in
  let log := list_events (storage_after config ops) in
  let range := filter (fun e => (seq_id e <= to_seq)%N) (first_per_seq 0 log) in
  exists res,
    collect_events_up_to_seq (S (length log)) (in_memory_view p) to_seq = Some res /\
    res `prefix_of` range /\
    (res = range \/ (max_scan_events <= usize_of (length res))%N) /\
    ((forall i j x y, (i < j)%nat -> log !! i = Some x -> log !! j = Some y -> (seq_id x < seq_id y)%N) ->
     range = filter (fun e => (seq_id e <= to_seq)%N) (filter (fun e => (0 < seq_id e)%N) log)).
Proof.
  intros p log range. destruct (storage_after_ok config ops).
  destruct (collect_loop_spec log (N.to_nat page_size) to_seq (S (length log)) 0%N []) as (res & Hr & H1 & H2).
  { unfold page_size. lia. }
  { pose proof (first_per_seq_length 0%N log). lia. }
  exists res. split_and!; [|done..|].
  - rewrite <-Hr. unfold collect_events_up_to_seq. cbn [in_memory_view vp_events].
    apply collect_loop_ext. intros a. apply viz_events_all; [apply so_index|vm_compute; intuition discriminate].
  - intros Hd. unfold range. by rewrite first_per_seq_distinct.
Qed.

Lemma bool_filter_none {A} (p : A -> bool) l : (forall x, x ∈ l -> p x = false) -> List.filter p l = [].
Proof.
  induction l as [|x l IH]; intros Hl; [done|]. cbn. rewrite (Hl x) by set_solver. apply IH. set_solver.
Qed.

(** The events endpoint pages through the log as follows.  It looks at the
    first [2 * limit] events after the cursor and returns the first [limit] of
    them whose type is asked for, so without a type filter the page is exactly
    the next [limit] events, and with one it is complete as long as no more
    than [2 * limit] events follow.  When none of those matches the page is
    empty whatever comes later: a client that moves its cursor to the last
    event it was given never gets past them. *)
Theorem events_page_exact `{HashIter, UnstableSort} config ops edges stride after types limit :
  let p := viz_provider_new (storage_after config ops) edges stride in
  let l := clamp 1 5000 (default 1000%N limit) in
  let later := filter (fun e => (after < seq_id e)%N) (list_events (storage_after config ops)) in
  let kinds := parse_event_type_filters types in
  let page := events_handler (in_memory_view p) (Some after) types limit in
  page = filter_take (wanted kinds) l (take (N.to_nat (2 * l)) later) /\
  (kinds = [] -> page = take (N.to_nat l) later) /\
  ((usize_of (length later) <= 2 * l)%N -> page = filter_take (wanted kinds) l later) /\
  ((forall e, e ∈ take (N.to_nat (2 * l)) later -> wanted kinds e = false) -> page = []).
Proof.
  intros p l later kinds page. destruct (storage_after_ok config ops).
  assert (1 <= l < 2 ^ 63)%N as Hl
    by (unfold l, clamp; change (2 ^ 63)%N with 9223372036854775808%N; lia).
  assert (page = filter_take (wanted kinds) l (take (N.to_nat (2 * l)) later)) as E.
  { unfold page, events_handler. cbn [in_memory_view vp_events default]. apply viz_events_scan; [apply so_index|done]. }
  split_and!; [done|..].
  - intros Hk. rewrite E, Hk. change (wanted []) with (fun _ : EventEnvelope => true).
    rewrite filter_take_true, take_take. f_equal. lia.
  - intros Hlen. rewrite E, take_ge; [done|]. unfold usize_of in Hlen. lia.
  - intros Hnone. rewrite E. unfold filter_take. by rewrite (bool_filter_none _ _ Hnone), take_nil.
Qed.

Lemma table_rows_bound {A} capacity (told : StorageOp -> option A) ops :
  (usize_of (length (retained capacity told ops)) <= N.max capacity 1)%N.
Proof. unfold retained, drop_front, usize_of. rewrite length_drop. lia. Qed.

(** The alerts of a store with the default configuration and thresholds
    say this of its tables, and nothing of time: the coverage alert fires
    exactly while no transaction has been seen; the queue alert fires exactly
    from 9,000 retained rows of seen transactions on, and for good; the decode
    alert fires exactly when at least one percent of the retained rows of seen
    transactions have no counterpart in number among the full ones. *)
Theorem alerts_of_store `{HashIter, UnstableSort} ops edges stride :
  let s := storage_after storage_config_default ops in
  let seen := usize_of (length (t_rows (st_tx_seen s))) in
  let full := usize_of (length (t_rows (st_tx_full s))) in
  let a := alerts_evaluate (in_memory_view (viz_provider_new s edges stride)) thresholds_default in
  (al_coverage_collapse a = true <-> seen = 0%N) /\
  (al_queue_saturation a = true <-> (9000 <= seen)%N) /\
  (al_decode_failure a = true <-> (0 < seen /\ seen <= 100 * (seen - full))%N) /\
  al_peer_churn a = false /\ al_ingest_lag a = false /\ al_storage_latency a = false /\ al_clock_skew a = false.
Proof.
  intros s seen full a. destruct (storage_after_ok storage_config_default ops).
  assert (seen <= 250000)%N as Hb.
  { unfold seen, s. rewrite (proj1 so_seen). apply (table_rows_bound 250000). }
  unfold a, alerts_evaluate. cbn [in_memory_view vp_metric_snapshot].
  unfold viz_metric_snapshot. cbn [viz_provider_new iv_storage]. fold seen full. set (snap := mkMetricSnapshot _ _ _ _ _ _ _ _ _ _).
  assert (2 ^ 40 = 1099511627776)%N as E40 by done.
  pose proof (coverage_near snap) as Hc. cbn [snap mt_tx_per_sec_current mt_tx_per_sec_baseline] in Hc.
  rewrite E40 in Hc. specialize (Hc ltac:(lia) ltac:(lia)). fold snap in Hc.
  cbn [evaluate_alerts al_coverage_collapse al_queue_saturation al_decode_failure al_peer_churn al_ingest_lag
    al_storage_latency al_clock_skew thresholds_default th_coverage_drop_percent th_queue_saturation_percent
    th_decode_failure_rate_bps th_peer_churn_spike th_ingest_lag_ms th_storage_write_latency_ms th_clock_skew_ms
    snap mt_peer_disconnects_total mt_ingest_lag_ms mt_storage_write_latency_ms mt_clock_skew_ms].
  fold snap. split_and!; try done.
  - rewrite N.leb_le. split; intros H1; nia.
  - unfold queue_saturation_percent. cbn [snap mt_queue_depth_capacity mt_queue_depth_current].
    change (10000 =? 0)%N with false. cbv iota. unfold cast, sat_mul, u64_max.
    rewrite (N.min_l (_ * 100)) by lia. change (2 ^ 8)%N with 256%N.
    rewrite N.mod_small by (apply N.Div0.div_lt_upper_bound; lia).
    rewrite floor_ge by lia. lia.
  - unfold decode_failure_bps. cbn [snap mt_tx_decode_total mt_tx_decode_fail_total].
    destruct (N.eqb_spec (N.max seen 1) 0); [lia|]. unfold cast, sat_sub.
    change (2 ^ 64)%N with 18446744073709551616%N. change (2 ^ 16)%N with 65536%N.
    rewrite (N.mod_small (_ * _)) by lia.
    rewrite N.mod_small by (apply N.Div0.div_lt_upper_bound; nia).
    rewrite floor_ge by lia. lia.
Qed.

Lemma ascii_hex_total n s : ascii_text s -> live_parse_fixed_hex n s <> Panicked.
Proof.
  intros Hs. rewrite (fixed_hex_parsers_agree n s ""). pose proof (parse_fixed_ascii n s "" Hs) as H.
  destruct (fixed_error n s ""); [by rewrite H|]. by destruct H as (vs & -> & _).
Qed.

(** Looking a transaction up by its hash never fails on ASCII text; on
    other text the handler can panic, where the code means to answer 404. *)
Theorem hash_lookup_panics `{HashIter, UnstableSort} p :
  (forall s, ascii_text s -> transaction_by_hash (in_memory_view p) s <> HandlerPanic) /\
  transaction_by_hash (in_memory_view p) "0é0" = HandlerPanic.
Proof.
  split; [|done]. intros s Hs. unfold transaction_by_hash. cbn [in_memory_view vp_transaction_detail_by_hash].
  unfold viz_transaction_detail_by_hash. pose proof (ascii_hex_total 32 s Hs) as Hp.
  destruct (live_parse_fixed_hex 32 s) as [bytes| |]; [|done..].
  change (mbind ?k (Found ?x)) with (k x). cbv beta. by destruct (detail_by_parsed_hash _ _).
Qed.

Lemma bool_filter_elem {A} (p : A -> bool) l x : x ∈ List.filter p l <-> x ∈ l /\ p x = true.
Proof. rewrite !list_elem_of_In. apply List.filter_In. Qed.

Lemma scan_limit_ge l chain_id : (l <= chain_filter_scan_limit l chain_id)%N.
Proof. unfold chain_filter_scan_limit. destruct chain_id; lia. Qed.

(** Filtering the first [bound] rows. *)
Lemma filter_take_scan {A} (p : A -> bool) l bound rows :
  (l <= bound)%N ->
  let answer := filter_take p l (take (N.to_nat bound) rows) in
  (usize_of (length answer) <= l)%N /\
  (forall row, row ∈ answer -> row ∈ rows /\ p row = true) /\
  ((forall row, p row = true) -> answer = take (N.to_nat l) rows) /\
  ((usize_of (length rows) <= bound)%N -> answer = filter_take p l rows).
Proof.
  intros Hb. cbn zeta. unfold filter_take. split_and!.
  - unfold usize_of. rewrite length_take. lia.
  - intros row Hrow. apply elem_of_take in Hrow as (i & Hi & _). apply list_elem_of_lookup_2 in Hi.
    apply bool_filter_elem in Hi as [Hi Hc]. split; [|done]. apply elem_of_take in Hi as (j & Hj & _).
    by apply list_elem_of_lookup_2 in Hj.
  - intros Hp. assert (forall l', List.filter p l' = l') as E.
    { induction l' as [|x l' IH]; [done|]. cbn. by rewrite Hp, IH. }
    rewrite E, take_take. f_equal. lia.
  - intros Hlen. by rewrite (take_ge rows) by (unfold usize_of in Hlen; lia).
Qed.

(** The transaction listing with a chain filter.  Every row is one of the
    first rows of the unfiltered listing and on the chain; there are at most
    [limit]; and when the unfiltered listing is no longer than the scan bound
    (four times the limit, at most 20,000) the answer is exactly the first
    [limit] rows on the chain.  Without a filter it is the first [limit]
    rows. *)
Theorem transactions_all_exact `{HashIter, UnstableSort} p limit chain_id :
  let l := clamp 1 5000 (default 1000%N limit) in
  let scan := N.min (4 * l) 20000 in
  let rows := detail_of_seen (iv_storage p) <$>
    newest_rows ts_hash ∅ (reverse (t_rows (st_tx_seen (iv_storage p)))) in
  let on_chain := fun row => chain_matches_filter (td_chain_id row) chain_id in
  let answer := transactions_all (in_memory_view p) limit chain_id in
  (usize_of (length answer) <= l)%N /\
  (forall row, row ∈ answer -> row ∈ rows /\ on_chain row = true) /\
  (chain_id = None -> answer = take (N.to_nat l) rows) /\
  ((usize_of (length rows) <= scan)%N -> answer = filter_take on_chain l rows).
Proof.
  intros l scan rows on_chain answer.
  assert (1 <= l <= 5000)%N as Hl by (unfold l, clamp; lia).
  assert (answer = filter_take on_chain l (take (N.to_nat (chain_filter_scan_limit l chain_id)) rows)) as ->.
  { unfold answer, transactions_all, filter_transaction_details_by_chain. fold l.
    cbn [in_memory_view vp_transaction_details]. rewrite transaction_details_rows.
    pose proof (scan_limit_ge l chain_id). by replace (N.max (chain_filter_scan_limit l chain_id) 1)
      with (chain_filter_scan_limit l chain_id) by lia. }
  clearbody l rows.
  destruct (filter_take_scan on_chain l (chain_filter_scan_limit l chain_id) rows (scan_limit_ge l chain_id))
    as (H1 & H2 & H3 & H4).
  split_and!; [done|done|intros Hc; apply H3; unfold on_chain; by rewrite Hc|].
  intros Hlen. destruct chain_id as [c|].
  - apply H4. unfold scan in Hlen. unfold chain_filter_scan_limit, sat_mul, u64_max. lia.
  - rewrite H3 by done. symmetry. rewrite <-(filter_take_true l rows). done.
Qed.
