(* ===== verification/VizDownsample.v ===== *)
(** * VizDownsample: the bound of [downsample] (crates/viz-api/src/lib.rs)

    The step is computed in binary64; the theorem shows that its rounding never
    lets more than [max_points] values through. *)
From Stdlib Require Import QArith Qpower Qminmax Lqa.
From stdpp Require Import base gmap strings list numbers sorting.
From S2P Require Import Prelude F64 VizData.

(** ** Stepping through a list *)
Lemma step_by_skip {T} k s (l : list T) : step_by k s l = step_by k 0 (drop s l).
Proof. revert l. induction s as [|s IH]; intros [|x l]; try done. cbn [step_by drop]. apply IH. Qed.

Lemma step_by_lookup {T} k (l : list T) i : (0 < k)%nat -> step_by k 0 l !! i = l !! (i * k)%nat.
Proof.
  intros Hk. revert l. induction i as [|i IH]; intros [|x l]; try done.
  cbn [step_by]. rewrite step_by_skip. cbn [lookup list_lookup]. rewrite IH, lookup_drop.
  replace (S i * k)%nat with (S (k - 1 + i * k)) by lia. done.
Qed.

Lemma step_by_length {T} k p (l : list T) :
  (0 < k)%nat -> (length l <= p * k)%nat -> (length (step_by k 0 l) <= p)%nat.
Proof.
  intros Hk Hl. destruct (decide (length (step_by k 0 l) <= p)%nat) as [|Hgt]; [done|].
  assert (is_Some (step_by k 0 l !! p)) as Hs by (apply lookup_lt_is_Some_2; lia).
  rewrite step_by_lookup in Hs by done. apply lookup_lt_is_Some_1 in Hs. lia.
Qed.

(** ** The step *)
#[local] Open Scope Q_scope.

Lemma downsample_step len m :
  (0 < m)%N -> (0 < len <= 2 ^ 52)%N -> (m <= len)%N ->
  let step := f64_ceil (f64_div (f64_of_N len) (f64_of_N m)) in
  (len <= step * m)%N /\ (step <= len)%N.
Proof.
  intros Hm Hlen Hml. cbn zeta. set (d := f64_div _ _). set (step := f64_ceil d).
  assert (2 ^ 52 <= 2 ^ 53)%N as H52 by (vm_compute; discriminate).
  pose proof (f64_div_rounds (f64_of_N len) (f64_of_N m) (f64_of_N_pos m ltac:(lia))) as Hr.
  rewrite (f64_of_N_exact len), (f64_of_N_exact m) in Hr by lia. fold d (ratio len m) in Hr.
  destruct Hr as [[Hlo _] Hrep].
  pose proof (ratio_mul len m Hm) as Er. pose proof (NQ_pos m Hm) as Hmq. split.
  - pose proof (proj1 (f64_ceil_spec d step) (N.le_refl _)) as Hc.
    destruct (N.le_gt_cases len (step * m)) as [|Hgt]; [done|exfalso].
    assert (NQ (step * m) + 1 <= NQ len) as Hs.
    { change 1 with (NQ 1). rewrite <-NQ_add. apply NQ_le. lia. }
    assert (NQ len <= (4503599627370496 # 1)) as Hbig
      by (change (4503599627370496 # 1) with (NQ (2 ^ 52)); apply NQ_le; lia).
    rewrite NQ_mul in Hs.
    assert (ratio len m * (1 - epsilon) * NQ m <= NQ step * NQ m) as Hmul.
    { apply Qmult_le_compat_r; [lra|]. by apply Qlt_le_weak. }
    assert (ratio len m * (1 - epsilon) * NQ m == NQ len * (1 - epsilon)) as E2 by (rewrite <-Er; ring).
    rewrite E2 in Hmul. revert Hmul Hs Hbig. unfold epsilon. generalize (NQ step * NQ m) (NQ len). intros. lra.
  - apply f64_ceil_spec. destruct (Hrep len 0%Z ltac:(lia)) as [_ Hup].
    assert (NQ len * Qpower 2 0 == NQ len) as E0 by (change (Qpower 2 0) with 1; ring).
    rewrite E0 in Hup. apply Hup. apply (Qmult_le_r _ _ (NQ m)); [done|]. rewrite Er.
    rewrite <-(NQ_mul len m). apply NQ_le. nia.
Qed.
#[local] Close Scope Q_scope.

(** Downsampling keeps what fits and otherwise takes every k-th value from
    the first on, with a step computed in floating point; below [2^52] values
    the step is never too small, so at most [max_points] values come out (a
    bound of zero means no bound). *)
Theorem downsample_exact {T} (values : list T) max_points
  (Hlen : (usize_of (length values) <= 2 ^ 52)%N) :
  ((usize_of (length values) <= max_points \/ max_points = 0)%N -> downsample values max_points = values) /\
  ((0 < max_points < usize_of (length values))%N ->
   exists k, (0 < k)%nat /\ (forall i, downsample values max_points !! i = values !! (i * k)%nat) /\
     (usize_of (length (downsample values max_points)) <= max_points)%N).
Proof.
  unfold downsample. set (len := usize_of (length values)) in *. split; intros Hc.
  - destruct (N.leb_spec len max_points), (N.eqb_spec max_points 0); cbn [orb]; [done..|lia].
  - destruct (N.leb_spec len max_points), (N.eqb_spec max_points 0); cbn [orb]; try lia.
    destruct (downsample_step len max_points ltac:(lia) ltac:(lia) ltac:(lia)) as [H1 H2].
    set (step := f64_ceil _) in *. change (2 ^ 52)%N with 4503599627370496%N in Hlen.
    rewrite N.min_l by (unfold u64_max; lia).
    assert (N.max step 1 = step) as -> by nia.
    exists (N.to_nat step). split; [nia|]. split.
    + intros i. apply step_by_lookup. nia.
    + unfold usize_of, len in *.
      pose proof (step_by_length (N.to_nat step) (N.to_nat max_points) values ltac:(nia) ltac:(unfold usize_of in *; lia)).
      lia.
Qed.

Lemma downsample_exact_witness :
  downsample (seq 0 10) 4 = [0; 3; 6; 9]%nat /\
  exists k, (0 < k)%nat /\ (forall i, downsample (seq 0 10) 4 !! i = seq 0 10 !! (i * k)%nat) /\
    (usize_of (length (downsample (seq 0 10) 4)) <= 4)%N.
Proof.
  split; [vm_compute; reflexivity|].
  apply (downsample_exact (seq 0 10) 4); [vm_compute; discriminate|split; vm_compute; reflexivity].
Defined.
