(* ===== verification/StreamDispatch.v ===== *)
(** * StreamDispatch: the deltas of the dashboard stream (crates/viz-api/src/lib.rs)

    How a page of the event log becomes one dispatch, and the producer task
    that turns the log into a sequence of them. *)
From stdpp Require Import base gmap strings list numbers sorting pretty.
From S2P Require Import Prelude Common EventLog LiveHex Text VizData.

Record StreamV2Patch := mkPatch {
  sp_upsert : list TransactionSummary;
  sp_remove : list string;
  sp_feature_upsert : list FeatureDetail;
  sp_opportunity_upsert : list OpportunityDetail;
}.
Record StreamV2Watermark := mkWatermark { latest_ingest_seq : N }.
Record StreamV2Dispatch := mkDispatch {
  sv_op : string;
  sv_event_type : string;
  sv_seq : N;
  sv_channel : string;
  sv_has_gap : bool;
  sv_patch : StreamV2Patch;
  sv_watermark : StreamV2Watermark;
  sv_market_stats : MarketStats;
}.

(** ** Rows of a dispatch *)
Definition transaction_summary_from_event (event : EventEnvelope) : option TransactionSummary :=
  match payload event with
  | PTxDecoded decoded =>
      Some (mkSummary (format_bytes (hash_bytes (dec_hash decoded)))
              (format_bytes (address_bytes (dec_sender decoded))) (dec_nonce decoded) (dec_tx_type decoded)
              (ingest_ts_unix_ms event) (source_id event))
  | _ => None
  end.

(** The lookups are of formatted hashes, which never panic. *)
Definition detail_for (provider : VizDataProvider) (hash : string) : option TransactionDetail :=
  match vp_transaction_detail_by_hash provider hash with Found detail => Some detail | _ => None end.

Definition feature_detail_for_hash (provider : VizDataProvider) (hash : string) : option FeatureDetail :=
  detail ← detail_for provider hash;
  protocol ← td_protocol detail;
  category ← td_category detail;
  mev_score ← td_mev_score detail;
  urgency_score ← td_urgency_score detail;
  version ← td_feature_engine_version detail;
  Some (mkFeatureDetail hash protocol category (td_chain_id detail) mev_score urgency_score None version).

Definition opportunity_detail_from_event (provider : VizDataProvider) (event : EventEnvelope) :
    option OpportunityDetail :=
  match payload event with
  | POppDetected opp =>
      let tx_hash := format_bytes (hash_bytes (opp_hash opp)) in
      Some (mkOppDetail tx_hash "detected" (opp_strategy opp) (opp_score opp) (opp_protocol opp)
              (opp_category opp) (detail_for provider tx_hash ≫= td_chain_id)
              (opp_feature_engine_version opp) (opp_scorer_version opp) (opp_strategy_version opp)
              (opp_reasons opp) (ingest_ts_unix_ms event))
  | _ => None
  end.

(** ** Capped tables of a dispatch *)

(** [iter_mut().find(same)] and the assignment through it. *)
Fixpoint replace_first {A} (same : A -> bool) (row : A) (rows : list A) : option (list A) :=
  match rows with
  | [] => None
  | x :: rows' =>
      if same x then Some (row :: rows') else cons x <$> replace_first same row rows'
  end.
Definition push_stream_with_cap {A} (same : A -> A -> bool) (rows : list A) (row : A) (page_limit : N) :
    list A * bool :=
  let cap := N.max page_limit 1 in
  match replace_first (same row) row rows with
  | Some rows => (rows, false)
  | None =>
      if (cap <=? usize_of (length rows))%N then (drop 1 rows ++ [row], true) else (rows ++ [row], false)
  end.
Definition same_summary (row x : TransactionSummary) : bool := bool_decide (sm_hash x = sm_hash row).
Definition same_feature (row x : FeatureDetail) : bool := bool_decide (fd_hash x = fd_hash row).
Definition same_opportunity (row x : OpportunityDetail) : bool :=
  bool_decide (od_tx_hash x = od_tx_hash row) && bool_decide (od_strategy x = od_strategy row) &&
  bool_decide (od_detected_unix_ms x = od_detected_unix_ms row).
Definition push_stream_summary_with_cap := push_stream_with_cap same_summary.
Definition push_stream_feature_with_cap := push_stream_with_cap same_feature.
Definition push_stream_opportunity_with_cap := push_stream_with_cap same_opportunity.

(** ** The loop over the page *)
Record DispatchAcc := mkAcc {
  da_seq_start : N;
  da_seq_end : N;
  da_has_gap : bool;
  da_transactions : list TransactionSummary;
  da_feature_upsert : list FeatureDetail;
  da_opportunity_upsert : list OpportunityDetail;
}.

Definition dispatch_event (provider : VizDataProvider) (after_seq_id page_limit : N) (event : EventEnvelope)
    (acc : DispatchAcc) : DispatchAcc :=
  if (seq_id event <=? after_seq_id)%N then acc
  else
    let first := (da_seq_start acc =? 0)%N in
    let seq_start := if first then seq_id event else da_seq_start acc in
    let has_gap :=
      if first && ((0 <? after_seq_id) && (sat_add u64_max after_seq_id 1 <? seq_start))%N then true
      else da_has_gap acc in
    let '(transactions, features, has_gap) :=
      match transaction_summary_from_event event with
      | None => (da_transactions acc, da_feature_upsert acc, has_gap)
      | Some summary =>
          let hash := sm_hash summary in
          let '(transactions, dropped) := push_stream_summary_with_cap (da_transactions acc) summary page_limit in
          let has_gap := has_gap || dropped in
          match feature_detail_for_hash provider hash with
          | None => (transactions, da_feature_upsert acc, has_gap)
          | Some feature =>
              let '(features, dropped) := push_stream_feature_with_cap (da_feature_upsert acc) feature page_limit in
              (transactions, features, has_gap || dropped)
          end
      end in
    let '(opportunities, has_gap) :=
      match opportunity_detail_from_event provider event with
      | None => (da_opportunity_upsert acc, has_gap)
      | Some opportunity =>
          let '(opportunities, dropped) :=
            push_stream_opportunity_with_cap (da_opportunity_upsert acc) opportunity page_limit in
          (opportunities, has_gap || dropped)
      end in
    mkAcc seq_start (seq_id event) has_gap transactions features opportunities.

(** Each lookup sees the store as it is then: [view k] is what the provider
    answers after [k] events of the page. *)
Fixpoint dispatch_loop (view : nat -> VizDataProvider) (k : nat) (after_seq_id page_limit : N)
    (events : list EventEnvelope) (acc : DispatchAcc) : DispatchAcc :=
  match events with
  | [] => acc
  | event :: events' =>
      dispatch_loop view (S k) after_seq_id page_limit events'
        (dispatch_event (view k) after_seq_id page_limit event acc)
  end.

Definition build_dashboard_events_v1_dispatch (view : nat -> VizDataProvider) (after_seq_id page_limit : N) :
    option StreamV2Dispatch :=
  let max_scan_events_per_tick := N.max (sat_mul u64_max page_limit 64) 64 in
  match vp_events (view 0%nat) after_seq_id [] max_scan_events_per_tick with
  | [] => None
  | events =>
      let acc := dispatch_loop view 1 after_seq_id page_limit events (mkAcc 0 after_seq_id false [] [] []) in
      if (da_seq_start acc =? 0)%N ||
         (bool_decide (da_transactions acc = []) && bool_decide (da_feature_upsert acc = []) &&
          bool_decide (da_opportunity_upsert acc = []))
      then None
      else
        Some {| sv_op := "DISPATCH"; sv_event_type := "DELTA_BATCH"; sv_seq := da_seq_end acc;
                sv_channel := "tx.main"; sv_has_gap := da_has_gap acc;
                sv_patch := mkPatch (da_transactions acc) [] (da_feature_upsert acc) (da_opportunity_upsert acc);
                sv_watermark := mkWatermark (da_seq_end acc);
                sv_market_stats := vp_market_stats (view (S (length events))) |}
  end.

(** ** The producer *)
Definition broadcast_page_limit : N := 20.

(** One tick: [view] is what the provider answers while the dispatch is built,
    [latest] its latest id when that is asked afterwards. *)
Definition producer_tick (view : nat -> VizDataProvider) (latest : option N) (after_seq_id : N) :
    N * option StreamV2Dispatch :=
  match build_dashboard_events_v1_dispatch view after_seq_id broadcast_page_limit with
  | Some dispatch => (sv_seq dispatch, Some dispatch)
  | None => (N.max after_seq_id (default after_seq_id latest), None)
  end.

(** The producer over a sequence of ticks, from a cursor. *)
Record Tick := mkTick { tk_view : nat -> VizDataProvider; tk_latest : option N }.
Fixpoint producer_run (ticks : list Tick) (after_seq_id : N) : N * list StreamV2Dispatch :=
  match ticks with
  | [] => (after_seq_id, [])
  | t :: ticks' =>
      let '(after, dispatch) := producer_tick (tk_view t) (tk_latest t) after_seq_id in
      let '(final, dispatches) := producer_run ticks' after in
      (final, option_list dispatch ++ dispatches)
  end.

(** ** Capped tables *)
Section tables.
Context {A K : Type} `{Countable K} (key : A -> K) (same : A -> A -> bool).
Context (Hsame : forall row x, same row x = bool_decide (key x = key row)).

Definition insert_row (m : gmap K A) (row : A) : gmap K A := <[key row := row]> m.
(** The latest row of each key. *)
Definition latest_rows (rows : list A) : gmap K A := foldl insert_row ∅ rows.

Lemma foldl_insert_union m rows : foldl insert_row m rows = latest_rows rows ∪ m.
Proof.
  unfold latest_rows. induction rows as [|row rows IH] using rev_ind; [cbn; by rewrite (left_id_L ∅ (∪))|].
  rewrite !foldl_snoc, IH. unfold insert_row. by rewrite insert_union_l.
Qed.

Lemma latest_rows_snoc rows row : latest_rows (rows ++ [row]) = insert_row (latest_rows rows) row.
Proof. unfold latest_rows. by rewrite foldl_snoc. Qed.

Lemma latest_rows_lookup_None rows k : latest_rows rows !! k = None <-> k ∉ key <$> rows.
Proof.
  induction rows as [|row rows IH] using rev_ind; [cbn; split; [set_solver|done]|].
  rewrite latest_rows_snoc, fmap_app, not_elem_of_app. unfold insert_row. rewrite lookup_insert_None, IH.
  cbn. set_solver.
Qed.

Lemma latest_rows_size rows : NoDup (key <$> rows) -> size (latest_rows rows) = length rows.
Proof.
  induction rows as [|row rows IH] using rev_ind; [by cbn; rewrite map_size_empty|].
  rewrite fmap_app, NoDup_app. intros (Hnd & Hdis & _). rewrite latest_rows_snoc, length_app. cbn.
  unfold insert_row. rewrite map_size_insert_None, IH; [lia|done|].
  apply latest_rows_lookup_None. intros Hin. apply (Hdis _ Hin). set_solver.
Qed.

Lemma latest_rows_mono rows row : (size (latest_rows rows) <= size (latest_rows (rows ++ [row])))%nat.
Proof.
  rewrite latest_rows_snoc. unfold insert_row.
  rewrite map_size_insert. destruct (latest_rows rows !! key row); cbn; lia.
Qed.

Lemma replace_first_spec row rows :
  match replace_first (same row) row rows with
  | Some rows' =>
      key row ∈ key <$> rows /\ key <$> rows' = key <$> rows /\
      (NoDup (key <$> rows) -> latest_rows rows' = insert_row (latest_rows rows) row) /\
      row ∈ rows' /\ forall x, x ∈ rows' -> x = row \/ x ∈ rows
  | None => key row ∉ key <$> rows
  end.
Proof.
  induction rows as [|x rows IH]; cbn [replace_first]; [set_solver|]. rewrite Hsame.
  case_bool_decide as E.
  - rewrite !fmap_cons. split_and!; [set_solver|by rewrite E| |set_solver..].
    intros Hnd. unfold latest_rows. cbn [foldl]. rewrite !foldl_insert_union.
    unfold insert_row. rewrite !insert_empty, E.
    cbn in Hnd. apply NoDup_cons in Hnd as [Hx _]. rewrite E in Hx.
    assert (latest_rows rows !! key row = None) as Hn by (by apply latest_rows_lookup_None).
    apply map_eq. intros k. destruct (decide (k = key row)) as [->|Hk].
    + rewrite lookup_insert_eq. rewrite lookup_union_r by done. apply lookup_singleton_eq.
    + rewrite lookup_insert_ne by done. rewrite !lookup_union. by rewrite !lookup_singleton_ne.
  - destruct (replace_first (same row) row rows) as [rows'|]; cbn [fmap option_fmap option_map].
    + destruct IH as (H1 & H2 & H3 & H4 & H5). rewrite !fmap_cons.
      split_and!; [set_solver|by rewrite H2| |set_solver..].
      intros Hnd. cbn in Hnd. apply NoDup_cons in Hnd as [Hx Hnd]. specialize (H3 Hnd).
      unfold latest_rows. cbn [foldl]. rewrite !foldl_insert_union, H3. unfold insert_row.
      by rewrite insert_union_l.
    + cbn. set_solver.
Qed.

(** The table of a dispatch and whether it dropped a row, after the pushes [xs]. *)
Definition push_all (page_limit : N) (xs : list A) : list A * bool :=
  foldl (fun acc x =>
      let '(rows, dropped) := push_stream_with_cap same acc.1 x page_limit in (rows, acc.2 || dropped))
    ([], false) xs.

Lemma push_all_snoc page_limit xs x :
  push_all page_limit (xs ++ [x]) =
    ((push_stream_with_cap same (push_all page_limit xs).1 x page_limit).1,
     (push_all page_limit xs).2 || (push_stream_with_cap same (push_all page_limit xs).1 x page_limit).2).
Proof.
  unfold push_all. rewrite foldl_snoc. by destruct (push_stream_with_cap _ _ _ _) as [rows dropped].
Qed.

Lemma push_all_spec page_limit xs :
  let cap := N.max page_limit 1 in
  let '(rows, dropped) := push_all page_limit xs in
  NoDup (key <$> rows) /\ (usize_of (length rows) <= cap)%N /\
  (forall x, x ∈ rows -> x ∈ xs) /\ (xs <> [] -> rows <> []) /\
  (dropped = false -> latest_rows rows = latest_rows xs) /\
  (dropped = true <-> (cap < usize_of (size (latest_rows xs)))%N).
Proof.
  cbn zeta. set (cap := N.max page_limit 1). induction xs as [|x xs IH] using rev_ind.
  { cbn. split_and!; [constructor|unfold cap, usize_of; cbn; lia|done..|].
    split; [done|]. rewrite map_size_empty. unfold usize_of. lia. }
  rewrite push_all_snoc. destruct (push_all page_limit xs) as [rows dropped]. cbn [fst snd].
  destruct IH as (Hnd & Hlen & Hin & _ & Hlat & Hdrop). unfold push_stream_with_cap. fold cap.
  pose proof (replace_first_spec x rows) as Hr. pose proof (latest_rows_mono xs x) as Hmono.
  assert (dropped = false -> (cap < usize_of (size (latest_rows xs)))%N -> False) as Hnot
    by (intros Hf Hx; apply Hdrop in Hx; congruence).
  destruct (replace_first (same x) x rows) as [rows'|].
  - destruct Hr as (Hk & Ek & Hl & Hx & Hi). cbn [fst snd]. rewrite Ek, orb_false_r. split_and!.
    + done.
    + unfold usize_of in *. rewrite <-(length_fmap key), Ek, length_fmap. done.
    + intros y [->|Hy]%Hi; set_solver.
    + intros _ ->. set_solver.
    + intros Hd. rewrite latest_rows_snoc, <-(Hlat Hd). by apply Hl.
    + destruct dropped.
      * split; [|done]. intros _. pose proof (proj1 Hdrop eq_refl). unfold usize_of in *. lia.
      * split; [done|]. intros Hc. exfalso. apply Hnot; [done|]. rewrite latest_rows_snoc in Hc.
        unfold insert_row in Hc. rewrite map_size_insert in Hc.
        destruct (latest_rows xs !! key x) eqn:En; [done|]. rewrite <-(Hlat eq_refl) in En.
        by apply latest_rows_lookup_None in En.
  - assert (NoDup (key <$> rows ++ [x])) as Hnd'.
    { rewrite fmap_app. apply NoDup_app. split_and!; [done|set_solver|apply NoDup_singleton]. }
    destruct (N.leb_spec cap (usize_of (length rows))) as [Hfull|Hroom]; cbn [fst snd].
    + rewrite orb_true_r. split_and!.
      * rewrite fmap_app, fmap_drop. rewrite fmap_app in Hnd'.
        rewrite <-(take_drop 1 (key <$> rows)), <-(assoc_L (++)) in Hnd'. by apply NoDup_app in Hnd' as (_ & _ & ?).
      * unfold usize_of in *. rewrite length_app, length_drop. cbn. unfold cap in *. lia.
      * intros y [Hy|Hy]%elem_of_app; [|set_solver]. apply elem_of_app. left. apply Hin.
        rewrite <-(take_drop 1 rows). set_solver.
      * intros _ Hnil%(f_equal length). rewrite length_app in Hnil. cbn in Hnil. lia.
      * done.
      * split; [intros _|done]. destruct dropped.
        -- pose proof (proj1 Hdrop eq_refl). unfold usize_of in *. lia.
        -- rewrite latest_rows_snoc, <-(Hlat eq_refl), <-latest_rows_snoc, latest_rows_size by done.
           unfold usize_of in *. rewrite length_app. cbn. lia.
    + rewrite orb_false_r. split_and!.
      * done.
      * unfold usize_of in *. rewrite length_app. cbn. lia.
      * intros y [Hy|Hy]%elem_of_app; set_solver.
      * intros _ Hnil%(f_equal length). rewrite length_app in Hnil. cbn in Hnil. lia.
      * intros Hd. by rewrite !latest_rows_snoc, (Hlat Hd).
      * destruct dropped.
        -- split; [|done]. intros _. pose proof (proj1 Hdrop eq_refl). unfold usize_of in *. lia.
        -- split; [done|]. intros Hc. exfalso.
           rewrite latest_rows_snoc, <-(Hlat eq_refl), <-latest_rows_snoc, latest_rows_size in Hc by done.
           unfold usize_of in *. rewrite length_app in Hc. cbn in Hc. lia.
Qed.
End tables.

(** ** What a page contributes *)
Definition opportunity_key (o : OpportunityDetail) : string * string * Z :=
  (od_tx_hash o, od_strategy o, od_detected_unix_ms o).
Lemma same_opportunity_key row x :
  same_opportunity row x = bool_decide (opportunity_key x = opportunity_key row).
Proof.
  unfold same_opportunity, opportunity_key. apply eq_true_iff_eq.
  rewrite !andb_true_iff, !bool_decide_eq_true. split; [by intros [[-> ->] ->]|by intros [= -> -> ->]].
Qed.

(** Each event with what the provider answers when it is looked at. *)
Fixpoint tagged (view : nat -> VizDataProvider) (k : nat) (events : list EventEnvelope) :
    list (VizDataProvider * EventEnvelope) :=
  match events with [] => [] | e :: events' => (view k, e) :: tagged view (S k) events' end.
Definition page_summaries (page : list (VizDataProvider * EventEnvelope)) : list TransactionSummary :=
  omap (fun ve => transaction_summary_from_event ve.2) page.
Definition page_features (page : list (VizDataProvider * EventEnvelope)) : list FeatureDetail :=
  omap (fun ve => transaction_summary_from_event ve.2 ≫= fun s => feature_detail_for_hash ve.1 (sm_hash s)) page.
Definition page_opportunities (page : list (VizDataProvider * EventEnvelope)) : list OpportunityDetail :=
  omap (fun ve => opportunity_detail_from_event ve.1 ve.2) page.

Lemma dispatch_loop_tagged view k after limit events acc :
  dispatch_loop view k after limit events acc =
    foldl (fun acc ve => dispatch_event ve.1 after limit ve.2 acc) acc (tagged view k events).
Proof. revert k acc. induction events as [|e events IH]; intros k acc; [done|]. apply IH. Qed.

(** The first event past the cursor decides whether the page jumps. *)
Definition page_start (page : list (VizDataProvider * EventEnvelope)) : N :=
  match page with [] => 0%N | ve :: _ => seq_id ve.2 end.
Definition jumps (after start : N) : bool := ((0 <? after) && (sat_add u64_max after 1 <? start))%N.

Lemma jumps_zero after : jumps after 0 = false.
Proof. unfold jumps. rewrite (proj2 (N.ltb_ge _ 0)) by lia. apply andb_false_r. Qed.

(** The accumulator after the events [page] past the cursor. *)
Definition acc_of (after limit : N) (page : list (VizDataProvider * EventEnvelope)) : DispatchAcc :=
  let summaries := push_all same_summary limit (page_summaries page) in
  let features := push_all same_feature limit (page_features page) in
  let opportunities := push_all same_opportunity limit (page_opportunities page) in
  mkAcc (page_start page) (match list.last page with Some ve => seq_id ve.2 | None => after end)
    (jumps after (page_start page) || summaries.2 || features.2 || opportunities.2) summaries.1 features.1 opportunities.1.

Lemma push_all_option {A} (same : A -> A -> bool) limit xs (o : option A) :
  push_all same limit (xs ++ option_list o) =
    match o with
    | None => push_all same limit xs
    | Some x =>
        ((push_stream_with_cap same (push_all same limit xs).1 x limit).1,
         (push_all same limit xs).2 || (push_stream_with_cap same (push_all same limit xs).1 x limit).2)
    end.
Proof. destruct o as [x|]; cbn [option_list]; [apply push_all_snoc|by rewrite app_nil_r]. Qed.

Lemma start_step v e after limit page :
  (forall ve, ve ∈ page -> (after < seq_id ve.2)%N) ->
  let acc := acc_of after limit page in
  let first := (da_seq_start acc =? 0)%N in
  let start := if first then seq_id e else da_seq_start acc in
  start = page_start (page ++ [(v, e)]) /\
  (if first && jumps after start then true else da_has_gap acc) =
    jumps after (page_start (page ++ [(v, e)])) || (push_all same_summary limit (page_summaries page)).2 ||
      (push_all same_feature limit (page_features page)).2 ||
      (push_all same_opportunity limit (page_opportunities page)).2.
Proof.
  intros Hpage. destruct page as [|ve page]; cbn zeta.
  - cbn [acc_of da_seq_start app page_start snd da_has_gap]. change (0 =? 0)%N with true. split; [done|].
    cbn [andb]. rewrite jumps_zero. by destruct (jumps after (seq_id e)).
  - specialize (Hpage ve ltac:(left)). cbn [acc_of da_seq_start app page_start].
    destruct (N.eqb_spec (seq_id ve.2) 0) as [|_]; [lia|]. done.
Qed.

Lemma acc_of_snoc v e after limit page :
  let summary := transaction_summary_from_event e in
  let ts := push_all same_summary limit (page_summaries page ++ option_list summary) in
  let fs := push_all same_feature limit (page_features page ++
    option_list (summary ≫= fun s => feature_detail_for_hash v (sm_hash s))) in
  let os := push_all same_opportunity limit (page_opportunities page ++
    option_list (opportunity_detail_from_event v e)) in
  acc_of after limit (page ++ [(v, e)]) =
    mkAcc (page_start (page ++ [(v, e)])) (seq_id e)
      (jumps after (page_start (page ++ [(v, e)])) || ts.2 || fs.2 || os.2) ts.1 fs.1 os.1.
Proof.
  cbn zeta. unfold acc_of, page_summaries, page_features, page_opportunities.
  rewrite !omap_snoc, last_snoc. done.
Qed.

(** Accumulators that differ in how the gap flags are nested. *)
#[local] Ltac same_gap :=
  cbn [fst snd]; apply (f_equal (fun g => mkAcc _ _ g _ _ _));
  repeat match goal with b : bool |- _ => destruct b end; reflexivity.

Lemma dispatch_event_acc v e after limit page :
  (forall ve, ve ∈ page -> (after < seq_id ve.2)%N) -> (after < seq_id e)%N ->
  dispatch_event v after limit e (acc_of after limit page) = acc_of after limit (page ++ [(v, e)]).
Proof.
  intros Hpage He. unfold dispatch_event. rewrite (proj2 (N.leb_gt _ _) He).
  destruct (start_step v e after limit page Hpage) as [Es Eg]. cbn zeta in Es, Eg. unfold jumps in Eg at 1.
  cbn zeta. rewrite Eg, Es. clear Es Eg.
  rewrite acc_of_snoc. cbn zeta. rewrite !push_all_option.
  unfold push_stream_summary_with_cap, push_stream_feature_with_cap, push_stream_opportunity_with_cap.
  cbn [acc_of da_transactions da_feature_upsert da_opportunity_upsert].
  destruct (push_all same_summary limit (page_summaries page)) as [ts b1].
  destruct (push_all same_feature limit (page_features page)) as [fs b2].
  destruct (push_all same_opportunity limit (page_opportunities page)) as [os b3].
  generalize (jumps after (page_start (page ++ [(v, e)]))). intros j.
  cbn [fst snd]. destruct (transaction_summary_from_event e) as [s|]; cbn [mbind option_bind].
  - destruct (push_stream_with_cap same_summary ts s limit) as [ts' d1]. cbn [fst snd].
    destruct (feature_detail_for_hash v (sm_hash s)) as [f|].
    + destruct (push_stream_with_cap same_feature fs f limit) as [fs' d2]. cbn [fst snd].
      destruct (opportunity_detail_from_event v e) as [o|]; [|same_gap].
      destruct (push_stream_with_cap same_opportunity os o limit) as [os' d3]. cbn [fst snd].
      same_gap.
    + destruct (opportunity_detail_from_event v e) as [o|]; [|same_gap].
      destruct (push_stream_with_cap same_opportunity os o limit) as [os' d3]. cbn [fst snd].
      same_gap.
  - destruct (opportunity_detail_from_event v e) as [o|]; [|done].
    destruct (push_stream_with_cap same_opportunity os o limit) as [os' d3]. cbn [fst snd].
    same_gap.
Qed.

(** The loop over a page, whatever ids it has. *)
Lemma dispatch_fold after limit page :
  foldl (fun acc ve => dispatch_event ve.1 after limit ve.2 acc) (mkAcc 0 after false [] [] []) page =
    acc_of after limit (filter (fun ve => (after < seq_id ve.2)%N) page).
Proof.
  induction page as [|[v e] page IH] using rev_ind.
  { unfold acc_of. cbn [page_start filter list_filter]. by rewrite jumps_zero. }
  rewrite foldl_snoc, IH, filter_app, filter_cons. cbn [snd].
  destruct (decide (after < seq_id e)%N) as [H|H].
  - apply dispatch_event_acc; [|done]. by intros ve [? _]%list_elem_of_filter.
  - rewrite filter_nil, app_nil_r. unfold dispatch_event.
    by replace (seq_id e <=? after)%N with true by (symmetry; apply N.leb_le; lia).
Qed.

(** ** Theorems *)
Lemma page_features_nil page : page_summaries page = [] -> page_features page = [].
Proof.
  unfold page_summaries, page_features. induction page as [|ve page IH]; [done|]. cbn.
  by destruct (transaction_summary_from_event ve.2); [|intros ?%IH].
Qed.

Lemma page_start_pos after page :
  (forall ve, ve ∈ page -> (after < seq_id ve.2)%N) -> page_start page = 0%N <-> page = [].
Proof.
  intros Hp. destruct page as [|ve page]; [done|]. cbn. specialize (Hp ve ltac:(left)). split; [lia|done].
Qed.

Lemma nil_iff {A} (l1 l2 : list A) :
  (forall x, x ∈ l1 -> x ∈ l2) -> (l2 <> [] -> l1 <> []) -> l1 = [] <-> l2 = [].
Proof.
  intros Hi Hn. split; [|intros ->; destruct l1 as [|x l1]; [done|by destruct (not_elem_of_nil x (Hi x ltac:(left)))]].
  intros ->. destruct l2; [done|]. by destruct (Hn ltac:(done)).
Qed.

(** The events of the scanned page past the cursor, with the provider's answers. *)
Definition fresh_page (view : nat -> VizDataProvider) (after_seq_id page_limit : N) :
    list (VizDataProvider * EventEnvelope) :=
  filter (fun ve => (after_seq_id < seq_id ve.2)%N)
    (tagged view 1 (vp_events (view 0%nat) after_seq_id [] (N.max (sat_mul u64_max page_limit 64) 64))).

(** A dispatch is the accumulator of its page; there is none exactly when the
    page has nothing to show. *)
Lemma build_dispatch_page view after limit :
  let page := fresh_page view after limit in
  let acc := acc_of after limit page in
  match build_dashboard_events_v1_dispatch view after limit with
  | None => page_summaries page = [] /\ page_opportunities page = []
  | Some d =>
      (page_summaries page <> [] \/ page_opportunities page <> []) /\ page <> [] /\
      sv_seq d = da_seq_end acc /\ sv_has_gap d = da_has_gap acc /\
      sv_watermark d = mkWatermark (da_seq_end acc) /\
      sv_patch d = mkPatch (da_transactions acc) [] (da_feature_upsert acc) (da_opportunity_upsert acc)
  end.
Proof.
  cbn zeta. unfold build_dashboard_events_v1_dispatch. unfold fresh_page.
  set (events := vp_events (view 0%nat) after [] _). set (page := filter _ (tagged view 1 events)).
  assert (forall ve, ve ∈ page -> (after < seq_id ve.2)%N) as Hp by (by intros ve [? _]%list_elem_of_filter).
  pose proof (push_all_spec sm_hash same_summary (fun _ _ => eq_refl) limit (page_summaries page)) as Ht.
  pose proof (push_all_spec fd_hash same_feature (fun _ _ => eq_refl) limit (page_features page)) as Hf.
  pose proof (push_all_spec opportunity_key same_opportunity same_opportunity_key limit (page_opportunities page)) as Ho.
  assert (dispatch_loop view 1 after limit events (mkAcc 0 after false [] [] []) = acc_of after limit page) as Eacc.
  { rewrite dispatch_loop_tagged. apply dispatch_fold. }
  destruct events as [|e0 events]; [done|]. rewrite Eacc. clear Eacc.
  cbn [acc_of da_seq_start da_seq_end da_has_gap da_transactions da_feature_upsert da_opportunity_upsert].
  destruct (push_all same_summary limit (page_summaries page)) as [ts b1].
  destruct (push_all same_feature limit (page_features page)) as [fs b2].
  destruct (push_all same_opportunity limit (page_opportunities page)) as [os b3].
  cbn zeta in Ht, Hf, Ho. cbn [fst snd].
  destruct Ht as (_ & _ & Hti & Htne & _), Hf as (_ & _ & Hfi & Hfne & _), Ho as (_ & _ & Hoi & Hone & _).
  destruct (N.eqb_spec (page_start page) 0) as [E0|Hne]; cbn [orb].
  { apply (page_start_pos _ _ Hp) in E0. by rewrite E0. }
  assert (ts = [] /\ fs = [] /\ os = [] <-> page_summaries page = [] /\ page_opportunities page = []) as Hnil.
  { pose proof (page_features_nil page). rewrite (nil_iff ts _ Hti Htne), (nil_iff fs _ Hfi Hfne),
      (nil_iff os _ Hoi Hone). tauto. }
  destruct (bool_decide (ts = []) && bool_decide (fs = []) && bool_decide (os = [])) eqn:Eb.
  { rewrite !andb_true_iff, !bool_decide_eq_true in Eb. tauto. }
  rewrite !andb_false_iff, !bool_decide_eq_false in Eb.
  split_and!; try done; [|by intros E; rewrite E in Hne].
  destruct (decide (page_summaries page = [])); [|by left]. right. tauto.
Qed.

(** What one dispatch says of the page of the log it was built from,
    whatever the store does meanwhile.  There is none exactly when no event of
    the page past the cursor is a decoded transaction or an opportunity.
    Otherwise its id is that of the last such event; it is marked as having a
    gap exactly when the page does not continue the cursor or one of its three
    tables saw more distinct rows than the page limit; without a gap each table
    holds exactly the latest row of every transaction, feature and opportunity
    of the page; and with one the tables are still free of duplicates, within
    the limit and made of rows of the page. *)
Theorem dispatch_exact view after limit :
  let page := fresh_page view after limit in
  let cap := N.max limit 1 in
  let distinct {A K} `{Countable K} (key : A -> K) (rows : list A) := usize_of (size (latest_rows key rows)) in
  match build_dashboard_events_v1_dispatch view after limit with
  | None => page_summaries page = [] /\ page_opportunities page = []
  | Some d =>
      (page_summaries page <> [] \/ page_opportunities page <> []) /\
      (exists ve, list.last page = Some ve /\ sv_seq d = seq_id ve.2) /\
      latest_ingest_seq (sv_watermark d) = sv_seq d /\
      (sv_has_gap d = true <->
         jumps after (page_start page) = true \/ (cap < distinct sm_hash (page_summaries page))%N \/
         (cap < distinct fd_hash (page_features page))%N \/
         (cap < distinct opportunity_key (page_opportunities page))%N) /\
      (sv_has_gap d = false ->
         latest_rows sm_hash (sp_upsert (sv_patch d)) = latest_rows sm_hash (page_summaries page) /\
         latest_rows fd_hash (sp_feature_upsert (sv_patch d)) = latest_rows fd_hash (page_features page) /\
         latest_rows opportunity_key (sp_opportunity_upsert (sv_patch d)) =
           latest_rows opportunity_key (page_opportunities page)) /\
      NoDup (sm_hash <$> sp_upsert (sv_patch d)) /\
      (usize_of (length (sp_upsert (sv_patch d))) <= cap)%N /\
      (forall row, row ∈ sp_upsert (sv_patch d) -> row ∈ page_summaries page)
  end.
Proof.
  cbn zeta. set (page := fresh_page view after limit).
  pose proof (push_all_spec sm_hash same_summary (fun _ _ => eq_refl) limit (page_summaries page)) as Ht.
  pose proof (push_all_spec fd_hash same_feature (fun _ _ => eq_refl) limit (page_features page)) as Hf.
  pose proof (push_all_spec opportunity_key same_opportunity same_opportunity_key limit (page_opportunities page)) as Ho.
  pose proof (build_dispatch_page view after limit) as Hb. cbn zeta in Hb. fold page in Hb.
  destruct (build_dashboard_events_v1_dispatch view after limit) as [d|]; [|done].
  destruct Hb as (Hsome & Hpage & Eseq & Egap & Ew & Epatch).
  rewrite Egap, Ew, Epatch, Eseq. clear Egap Ew Epatch Eseq.
  cbn [acc_of da_seq_start da_seq_end da_has_gap da_transactions da_feature_upsert da_opportunity_upsert
    sp_upsert sp_feature_upsert sp_opportunity_upsert latest_ingest_seq].
  destruct (push_all same_summary limit (page_summaries page)) as [ts b1].
  destruct (push_all same_feature limit (page_features page)) as [fs b2].
  destruct (push_all same_opportunity limit (page_opportunities page)) as [os b3].
  cbn zeta in Ht, Hf, Ho. cbn [fst snd].
  destruct Ht as (Htn & Htl & Hti & _ & Hte & Htd), Hf as (_ & _ & _ & _ & Hfe & Hfd), Ho as (_ & _ & _ & _ & Hoe & Hod).
  split_and!; try done.
  - destruct (list.last page) as [ve|] eqn:El; [by exists ve|]. by apply last_None in El.
  - rewrite !orb_true_iff, Htd, Hfd, Hod. tauto.
  - intros Hg. rewrite !orb_false_iff in Hg. naive_solver.
Qed.
