(* ===== verification/StreamProducer.v ===== *)
(** * StreamProducer: what the dashboard stream transmits

    The producer task of crates/viz-api/src/lib.rs over its ticks: when it keeps
    up, the deltas rebuild the table of decoded transactions exactly; when the
    log grows between its two reads, an event is lost without a gap mark. *)
From stdpp Require Import base gmap strings list numbers sorting pretty.
From S2P Require Import Prelude Common EventLog LiveHex Text VizData StreamDispatch.

Definition seq_lt (x y : EventEnvelope) : Prop := (seq_id x < seq_id y)%N.
Definition ascending (l : list EventEnvelope) : Prop := StronglySorted seq_lt l.

(** A consumer that applies the rows of a delta. *)
Definition apply_dispatch (m : gmap string TransactionSummary) (d : StreamV2Dispatch) :
    gmap string TransactionSummary :=
  foldl (insert_row sm_hash) m (sp_upsert (sv_patch d)).
Definition transaction_table (events : list EventEnvelope) : gmap string TransactionSummary :=
  latest_rows sm_hash (omap transaction_summary_from_event events).

(** A tick both of whose reads see the log [log]. *)
Definition tick_sees (t : Tick) (log : list EventEnvelope) : Prop :=
  (forall after n, (1 <= n < 2 ^ 63)%N ->
     vp_events (tk_view t 0%nat) after [] n = take (N.to_nat n) (filter (fun e => (after < seq_id e)%N) log)) /\
  tk_latest t = seq_id <$> list.last log.
(** No tick finds more than one page of new events. *)
Fixpoint kept_up (after : N) (ticks : list Tick) (logs : list (list EventEnvelope)) : Prop :=
  match ticks, logs with
  | t :: ticks', log :: logs' =>
      (usize_of (length (filter (fun e => (after < seq_id e)%N) log)) <= 1280)%N /\
      kept_up (producer_tick (tk_view t) (tk_latest t) after).1 ticks' logs'
  | _, _ => True
  end.

(** ** Sorted logs *)
Lemma ascending_split a l :
  ascending l -> l = filter (fun e => (seq_id e <= a)%N) l ++ filter (fun e => (a < seq_id e)%N) l.
Proof.
  induction 1 as [|e l Hl IH He]; [done|]. rewrite !filter_cons.
  destruct (decide (seq_id e <= a)%N) as [H1|H1], (decide (a < seq_id e)%N) as [H2|H2]; try lia.
  - cbn. by rewrite <-IH.
  - rewrite (filter_none _ l); cbn; [|intros x Hx; rewrite Forall_forall in He; specialize (He x Hx);
      unfold seq_lt in He; lia].
    rewrite (filter_all _ l); [done|]. intros x Hx. rewrite Forall_forall in He. specialize (He x Hx).
    unfold seq_lt in He. cbv beta. lia.
Qed.

Definition cursor_after (a : N) (log : list EventEnvelope) : N :=
  match list.last log with Some e => N.max a (seq_id e) | None => a end.

Lemma ascending_app l1 l2 x y : ascending (l1 ++ l2) -> x ∈ l1 -> y ∈ l2 -> seq_lt x y.
Proof.
  intros Hs [i Hi]%list_elem_of_lookup_1 [j Hj]%list_elem_of_lookup_1.
  apply (StronglySorted_lookup _ _ i (length l1 + j) _ _ Hs).
  - apply lookup_lt_Some in Hi. lia.
  - by apply lookup_app_l_Some.
  - rewrite lookup_app_r by lia. by rewrite Nat.add_comm, Nat.add_sub.
Qed.

Lemma ascending_prefix l1 l2 : ascending (l1 ++ l2) -> ascending l1.
Proof. induction l1 as [|x l1 IH]; [constructor|]. cbn. inversion 1 as [|? ? H1 H2]; subst.
  constructor; [by apply IH|]. by apply Forall_app in H2 as [? _]. Qed.

Lemma last_max log e : ascending log -> e ∈ log -> exists x, list.last log = Some x /\ (seq_id e <= seq_id x)%N.
Proof.
  intros Hs He. destruct (list.last log) as [x|] eqn:El.
  2:{ apply last_None in El. subst. by apply not_elem_of_nil in He. }
  exists x. split; [done|]. apply last_Some in El as [l' ->].
  apply elem_of_app in He as [He|He]; [|set_solver].
  pose proof (ascending_app _ _ e x Hs He ltac:(set_solver)) as H. unfold seq_lt in H. lia.
Qed.

(** What lies between two cursors. *)
Lemma covered_step L log a :
  ascending L -> log `prefix_of` L ->
  filter (fun e => (seq_id e <= cursor_after a log)%N) L =
    filter (fun e => (seq_id e <= a)%N) L ++ filter (fun e => (a < seq_id e)%N) log.
Proof.
  intros Hs [rest ->]. pose proof (ascending_prefix _ _ Hs) as Hlog. unfold cursor_after.
  destruct (list.last log) as [x|] eqn:El.
  2:{ apply last_None in El. subst log. by rewrite app_nil_r. }
  pose proof El as Hx. apply last_Some_elem_of in Hx.
  assert (forall e, e ∈ log -> (seq_id e <= seq_id x)%N) as Hmax.
  { intros e He. destruct (last_max log e Hlog He) as (y & Ey & H). congruence. }
  rewrite !filter_app. destruct (N.le_gt_cases (seq_id x) a) as [Hle|Hgt].
  - rewrite N.max_l by done. rewrite (filter_none (fun e => (a < seq_id e)%N) log), app_nil_r; [done|].
    intros e He%Hmax. lia.
  - rewrite N.max_r by lia.
    rewrite (filter_all _ log) by (intros e He%Hmax; cbv beta; lia).
    assert (forall e, e ∈ rest -> (seq_id x < seq_id e)%N) as Hrest
      by (intros e He; apply (ascending_app _ _ x e Hs Hx He)).
    rewrite !(filter_none _ rest) by (intros e He%Hrest; lia). rewrite !app_nil_r.
    by apply ascending_split.
Qed.

(** ** Ticks *)
Lemma tagged_summaries view k events a :
  page_summaries (filter (fun ve => (a < seq_id ve.2)%N) (tagged view k events)) =
    omap transaction_summary_from_event (filter (fun e => (a < seq_id e)%N) events).
Proof.
  unfold page_summaries. revert k. induction events as [|e events IH]; intros k; [done|].
  cbn [tagged]. rewrite !filter_cons. cbn [snd]. destruct (decide (a < seq_id e)%N); [|apply IH].
  cbn. by rewrite IH.
Qed.

Lemma tagged_last view k events a :
  snd <$> list.last (filter (fun ve => (a < seq_id ve.2)%N) (tagged view k events)) =
    list.last (filter (fun e => (a < seq_id e)%N) events).
Proof.
  rewrite <-fmap_last. f_equal. revert k. induction events as [|e events IH]; intros k; [done|].
  cbn [tagged]. rewrite !filter_cons. cbn [snd]. destruct (decide (a < seq_id e)%N); [|apply IH].
  cbn. by rewrite IH.
Qed.

Lemma filter_idemp (a : N) (l : list EventEnvelope) :
  filter (fun e => (a < seq_id e)%N) (filter (fun e => (a < seq_id e)%N) l) =
    filter (fun e => (a < seq_id e)%N) l.
Proof. apply filter_all. by intros x [? _]%list_elem_of_filter. Qed.

Lemma last_filter_above a log :
  ascending log ->
  list.last (filter (fun e => (a < seq_id e)%N) log) =
    match list.last log with Some x => if (a <? seq_id x)%N then Some x else None | None => None end.
Proof.
  intros Hs. induction log as [|x log _] using rev_ind; [done|]. rewrite last_snoc, filter_app, filter_cons.
  destruct (decide (a < seq_id x)%N) as [H|H].
  - rewrite filter_nil, last_snoc. by destruct (N.ltb_spec a (seq_id x)); [|lia].
  - rewrite filter_nil, app_nil_r, (filter_none _ log); [by destruct (N.ltb_spec a (seq_id x)); [lia|]|].
    intros e He. pose proof (ascending_app _ _ e x Hs He ltac:(set_solver)) as Hx. unfold seq_lt in Hx. lia.
Qed.

(** One tick that keeps up covers exactly the events up to the end of the log. *)
Lemma tick_covers t log a :
  tick_sees t log -> ascending log ->
  (usize_of (length (filter (fun e => (a < seq_id e)%N) log)) <= 1280)%N ->
  let '(b, dispatch) := producer_tick (tk_view t) (tk_latest t) a in
  let page := filter (fun e => (a < seq_id e)%N) log in
  b = cursor_after a log /\
  match dispatch with
  | None => transaction_table page = ∅
  | Some d => sv_has_gap d = false -> latest_rows sm_hash (sp_upsert (sv_patch d)) = transaction_table page
  end.
Proof.
  intros [Hev Hlat] Hs Hlen. unfold producer_tick.
  pose proof (build_dispatch_page (tk_view t) a broadcast_page_limit) as Hb. cbn zeta in Hb.
  assert (page_summaries (fresh_page (tk_view t) a broadcast_page_limit) =
    omap transaction_summary_from_event (filter (fun e => (a < seq_id e)%N) log) /\
    snd <$> list.last (fresh_page (tk_view t) a broadcast_page_limit) =
      list.last (filter (fun e => (a < seq_id e)%N) log)) as [Esum Elast].
  { unfold fresh_page. change (N.max (sat_mul u64_max broadcast_page_limit 64) 64) with 1280%N.
    rewrite Hev by (split; vm_compute; [discriminate|reflexivity]).
    rewrite take_ge by (unfold usize_of in Hlen; lia).
    by rewrite tagged_summaries, tagged_last, filter_idemp. }
  set (page := fresh_page (tk_view t) a broadcast_page_limit) in *.
  pose proof (push_all_spec sm_hash same_summary (fun _ _ => eq_refl) broadcast_page_limit (page_summaries page)) as Ht.
  rewrite (last_filter_above a log Hs) in Elast.
  destruct (build_dashboard_events_v1_dispatch (tk_view t) a broadcast_page_limit) as [d|].
  - destruct Hb as (_ & Hne & Eseq & Egap & _ & Epatch). rewrite Eseq, Egap, Epatch.
    cbn [acc_of da_seq_end da_has_gap da_transactions sp_upsert].
    destruct (push_all same_summary broadcast_page_limit (page_summaries page)) as [ts b1]. cbn [fst snd].
    destruct Ht as (_ & _ & _ & _ & Hte & _). split.
    + unfold cursor_after. destruct (list.last page) as [ve|] eqn:El; [|by apply last_None in El].
      destruct (list.last log) as [x|]; cbn in Elast; [|done].
      destruct (N.ltb_spec a (seq_id x)); [|done]. injection Elast as ->. lia.
    + intros Hg. rewrite !orb_false_iff in Hg. unfold transaction_table. rewrite <-Esum. apply Hte. tauto.
  - destruct Hb as [Hs0 _]. unfold transaction_table. rewrite <-Esum, Hs0. split; [|done].
    unfold cursor_after. rewrite Hlat. destruct (list.last log); cbn; [done|apply N.max_id].
Qed.

Lemma cursor_after_ge a log : (a <= cursor_after a log)%N.
Proof. unfold cursor_after. destruct (list.last log); lia. Qed.

Lemma latest_rows_app {A K} `{Countable K} (key : A -> K) l1 l2 :
  latest_rows key (l1 ++ l2) = latest_rows key l2 ∪ latest_rows key l1.
Proof. unfold latest_rows at 1. rewrite foldl_app. apply foldl_insert_union. Qed.

Lemma transaction_table_app l1 l2 : transaction_table (l1 ++ l2) = transaction_table l2 ∪ transaction_table l1.
Proof. unfold transaction_table. rewrite omap_app. apply latest_rows_app. Qed.

Lemma producer_run_covers L ticks logs a :
  ascending L -> Forall2 tick_sees ticks logs -> Forall (fun log => log `prefix_of` L) logs ->
  kept_up a ticks logs ->
  let '(final, dispatches) := producer_run ticks a in
  (a <= final)%N /\ (forall log e, log ∈ logs -> e ∈ log -> (seq_id e <= final)%N) /\
  (Forall (fun d => sv_has_gap d = false) dispatches ->
   foldl apply_dispatch (transaction_table (filter (fun e => (seq_id e <= a)%N) L)) dispatches =
     transaction_table (filter (fun e => (seq_id e <= final)%N) L)).
Proof.
  intros HL Hsees. revert a. induction Hsees as [|t log ticks logs Ht _ IH]; intros a Hpre Hup.
  { cbn. split_and!; [done|by intros ? ? ?%not_elem_of_nil|done]. }
  apply Forall_cons in Hpre as [Hlog Hpre]. destruct Hup as [Hlen Hup].
  assert (ascending log) as Hs by (destruct Hlog as [rest ->]; by apply ascending_prefix in HL).
  pose proof (tick_covers t log a Ht Hs Hlen) as Hc. cbn [producer_run].
  destruct (producer_tick (tk_view t) (tk_latest t) a) as [b dispatch]. cbn [fst] in Hup.
  destruct Hc as [-> Hd]. specialize (IH _ Hpre Hup).
  destruct (producer_run ticks (cursor_after a log)) as [final ds]. destruct IH as (H1 & H2 & H3).
  pose proof (cursor_after_ge a log). split_and!; [lia| |].
  - intros log' e [->|Hin]%elem_of_cons He; [|by apply (H2 log')].
    destruct (last_max log e Hs He) as (x & Ex & Hx). unfold cursor_after in H1. rewrite Ex in H1. lia.
  - intros [Hgap Hgaps]%Forall_app. rewrite <-(H3 Hgaps), foldl_app. f_equal.
    rewrite (covered_step L log a HL Hlog), transaction_table_app.
    destruct dispatch as [d|].
    + apply Forall_cons in Hgap as [Hgap _]. change (foldl apply_dispatch ?m (option_list (Some d))) with (apply_dispatch m d).
      unfold apply_dispatch. by rewrite foldl_insert_union, Hd.
    + change (foldl apply_dispatch ?m (option_list None)) with m. by rewrite Hd, (left_id_L ∅ (∪)).
Qed.

(** ** Theorems *)

(** C37: the stream replicates the table of decoded transactions.  Whatever
    prefix of the log each tick sees, as long as both reads of a tick see the
    same log and no tick finds more than a page of new events, a consumer that
    applies the rows of the dispatches in order, none of which has a gap, holds
    exactly the latest row of every transaction decoded up to the producer's
    cursor, and the cursor is past every event any tick saw. *)
Theorem producer_replicates L ticks logs
  (HL : ascending L) (Hpos : Forall (fun e => (0 < seq_id e)%N) L)
  (Hsees : Forall2 tick_sees ticks logs) (Hpre : Forall (fun log => log `prefix_of` L) logs)
  (Hup : kept_up 0 ticks logs)
  (Hgap : Forall (fun d => sv_has_gap d = false) (producer_run ticks 0).2) :
  foldl apply_dispatch ∅ (producer_run ticks 0).2 =
    transaction_table (filter (fun e => (seq_id e <= (producer_run ticks 0).1)%N) L) /\
  forall log e, log ∈ logs -> e ∈ log -> (seq_id e <= (producer_run ticks 0).1)%N.
Proof.
  pose proof (producer_run_covers L ticks logs 0%N HL Hsees Hpre Hup) as H.
  destruct (producer_run ticks 0) as [final ds]. destruct H as (_ & H2 & H3). split; [|done].
  cbn [fst snd] in *. rewrite <-(H3 Hgap). f_equal. symmetry. rewrite filter_none; [done|].
  rewrite Forall_forall in Hpos. intros e He. specialize (Hpos e He). lia.
Qed.

Lemma run_rows_after ticks a d row :
  d ∈ (producer_run ticks a).2 -> row ∈ sp_upsert (sv_patch d) ->
  exists e, transaction_summary_from_event e = Some row /\ (a < seq_id e)%N.
Proof.
  revert a. induction ticks as [|t ticks IH]; intros a; [by intros ?%not_elem_of_nil|]. cbn [producer_run].
  unfold producer_tick. pose proof (build_dispatch_page (tk_view t) a broadcast_page_limit) as Hb. cbn zeta in Hb.
  assert (forall ve, ve ∈ fresh_page (tk_view t) a broadcast_page_limit -> (a < seq_id ve.2)%N) as Hp
    by (by intros ve [? _]%list_elem_of_filter).
  set (page := fresh_page (tk_view t) a broadcast_page_limit) in *.
  destruct (build_dashboard_events_v1_dispatch (tk_view t) a broadcast_page_limit) as [d'|].
  - destruct Hb as (_ & Hne & Eseq & _ & _ & Epatch). specialize (IH (sv_seq d')).
    destruct (producer_run ticks (sv_seq d')) as [final ds]. cbn [fst snd option_list app].
    intros [->|Hd]%elem_of_cons Hrow.
    + rewrite Epatch in Hrow. cbn [acc_of da_transactions sp_upsert] in Hrow.
      pose proof (push_all_spec sm_hash same_summary (fun _ _ => eq_refl) broadcast_page_limit (page_summaries page)) as Ht.
      destruct (push_all same_summary broadcast_page_limit (page_summaries page)) as [ts b1].
      destruct Ht as (_ & _ & Hin & _). apply Hin in Hrow. unfold page_summaries in Hrow.
      apply list_elem_of_omap in Hrow as (ve & Hve & E). exists ve.2. split; [done|by apply Hp].
    + destruct (IH Hd Hrow) as (e & E & He). exists e. split; [done|]. rewrite Eseq in He.
      cbn [acc_of da_seq_end] in He. destruct (list.last page) as [ve|] eqn:El; [|by apply last_None in El].
      apply last_Some_elem_of, Hp in El. lia.
  - specialize (IH (N.max a (default a (tk_latest t)))).
    destruct (producer_run ticks (N.max a (default a (tk_latest t)))) as [final ds]. cbn [fst snd option_list app].
    intros Hd Hrow. destruct (IH Hd Hrow) as (e & E & He). exists e. split; [done|lia].
Qed.

(** An event appended between the two reads of a tick is lost.  When a
    tick finds nothing to dispatch but the latest id it then reads is [s], the
    cursor jumps to [s], every row sent afterwards comes from a later event,
    and a dispatch that continues with [s + 1] is not marked as a gap: a
    transaction decoded in between never reaches the stream, and no consumer
    can tell. *)
Theorem late_event_lost t ticks a s
  (Hnone : build_dashboard_events_v1_dispatch (tk_view t) a broadcast_page_limit = None)
  (Hlatest : tk_latest t = Some s) (Has : (a < s < u64_max)%N) :
  producer_run (t :: ticks) a = producer_run ticks s /\
  (forall d row, d ∈ (producer_run ticks s).2 -> row ∈ sp_upsert (sv_patch d) ->
     exists e, transaction_summary_from_event e = Some row /\ (s < seq_id e)%N) /\
  jumps s (s + 1) = false.
Proof.
  split_and!.
  - cbn [producer_run]. unfold producer_tick. rewrite Hnone, Hlatest. change (default a (Some s)) with s.
    rewrite N.max_r by lia. by destruct (producer_run ticks s).
  - intros d row. apply run_rows_after.
  - unfold jumps, sat_add. rewrite (proj2 (N.ltb_ge _ (s + 1))) by lia. apply andb_false_r.
Qed.

(** ** Samples *)
Definition sample_decoded (h nonce : N) : TxDecoded :=
  mkTxDecoded h 2 7 nonce (Some 1%N) None None None None None None None None.
Definition sample_event (seq h : N) : EventEnvelope :=
  mkEnvelope seq 1000 (seq * 1000) "sample" (PTxDecoded (sample_decoded h seq)).
Definition quiet_event (seq h : N) : EventEnvelope :=
  mkEnvelope seq 1000 (seq * 1000) "sample" (PTxFetched (mkTxFetched h 1000)).
(** A provider that answers from a log. *)
Definition log_provider (log : list EventEnvelope) : VizDataProvider :=
  {| vp_events := fun after _ limit => take (N.to_nat limit) (filter (fun e => (after < seq_id e)%N) log);
     vp_latest_seq_id := seq_id <$> list.last log;
     vp_replay_points := []; vp_propagation_edges := []; vp_feature_summary := [];
     vp_feature_details := fun _ => []; vp_opportunities := fun _ _ => [];
     vp_recent_transactions := fun _ => []; vp_transaction_details := fun _ => [];
     vp_transaction_detail_by_hash := fun _ => Absent;
     vp_market_stats := mkStats 0 0 0 0 0 10000;
     vp_metric_snapshot := Alerts.mkMetricSnapshot 0 0 0 0 0 0 0 0 0 0 |}.
Definition log_tick (log : list EventEnvelope) : Tick :=
  mkTick (fun _ => log_provider log) (seq_id <$> list.last log).

Definition sample_log : list EventEnvelope :=
  [sample_event 1 11; quiet_event 2 11; sample_event 3 12; sample_event 4 11].
Definition sample_logs : list (list EventEnvelope) := [take 2 sample_log; take 2 sample_log; sample_log].

Lemma producer_replicates_witness :
  length (producer_run (log_tick <$> sample_logs) 0).2 = 2%nat /\
  foldl apply_dispatch ∅ (producer_run (log_tick <$> sample_logs) 0).2 =
    transaction_table (filter (fun e => (seq_id e <= (producer_run (log_tick <$> sample_logs) 0).1)%N) sample_log) /\
  forall log e, log ∈ sample_logs -> e ∈ log -> (seq_id e <= (producer_run (log_tick <$> sample_logs) 0).1)%N.
Proof.
  split; [vm_compute; reflexivity|].
  apply (producer_replicates sample_log (log_tick <$> sample_logs) sample_logs).
  - repeat constructor.
  - repeat constructor.
  - repeat constructor.
  - repeat constructor; eexists; reflexivity.
  - vm_compute. repeat split; discriminate.
  - vm_compute. repeat constructor.
Defined.

(** Event 2 arrives after the scan and before the latest id is read. *)
Lemma late_event_lost_witness :
  let quiet := mkTick (fun _ => log_provider [quiet_event 1 11]) (Some 2%N) in
  let later := log_tick [quiet_event 1 11; sample_event 2 12; sample_event 3 13] in
  (sv_seq <$> (producer_run [quiet; later] 0).2 = [3%N] /\
   sv_has_gap <$> (producer_run [quiet; later] 0).2 = [false]) /\
  producer_run [quiet; later] 0 = producer_run [later] 2 /\
  (forall d row, d ∈ (producer_run [later] 2).2 -> row ∈ sp_upsert (sv_patch d) ->
     exists e, transaction_summary_from_event e = Some row /\ (2 < seq_id e)%N) /\
  jumps 2 3 = false.
Proof.
  intros quiet later. split; [split; vm_compute; reflexivity|].
  apply (late_event_lost quiet [later] 0 2); vm_compute; [reflexivity..|split; reflexivity].
Defined.
