(* ===== verification/StreamBroadcast.v ===== *)
(** * StreamBroadcast: fan-out of the dashboard stream (crates/viz-api/src/stream_broadcast.rs)

    The broadcaster's bounded replay buffer and live channel, the frames a
    subscriber is sent (crates/viz-api/src/lib.rs, [events_v1]), and every
    interleaving of the producer's three writes with the three reads of a
    subscription.  Tokio's broadcast channel is a class with its documented
    behaviour: a receiver gets what is sent after it subscribed, in order, or
    is told how many messages it lagged behind. *)
From stdpp Require Import base gmap strings list numbers sorting pretty.
From S2P Require Import Prelude Common EventLog Wal Text LiveHex VizData StreamDispatch SeenWindow.

Inductive DashboardStreamBroadcastEvent :=
  | BDelta (dispatch : StreamV2Dispatch)
  | BReset (reason : string) (latest_seq_id : N).

Definition broadcast_seq_id (event : DashboardStreamBroadcastEvent) : N :=
  match event with
  | BDelta dispatch => N.max (sv_seq dispatch) (latest_ingest_seq (sv_watermark dispatch))
  | BReset _ latest_seq_id => latest_seq_id
  end.

(** ** The channel *)
Inductive recv_result (E : Type) :=
  | Received (event : E)
  | Lagged (skipped : nat)
  | NothingYet.
Arguments Received {E} event.
Arguments Lagged {E} skipped.
Arguments NothingYet {E}.

Class Broadcast (E Snd Rcv : Type) := {
  bc_channel : N -> Snd;
  bc_send : E -> Snd -> Snd;
  bc_subscribe : Snd -> Rcv;
  bc_recv : Snd -> Rcv -> recv_result E * Rcv;
  (** Everything ever sent, and how much of it a receiver is past. *)
  bc_sent : Snd -> list E;
  bc_position : Rcv -> nat;
}.
Class BroadcastLaws (E Snd Rcv : Type) `{Broadcast E Snd Rcv} : Prop := {
  bc_channel_spec n : bc_sent (bc_channel n) = [];
  bc_send_spec e s : bc_sent (bc_send e s) = bc_sent s ++ [e];
  bc_subscribe_spec s : bc_position (bc_subscribe s) = length (bc_sent s);
  bc_recv_spec s r :
    (bc_position r <= length (bc_sent s))%nat ->
    match bc_recv s r with
    | (Received e, r') => bc_sent s !! bc_position r = Some e /\ bc_position r' = S (bc_position r)
    | (Lagged n, r') =>
        (0 < n)%nat /\ bc_position r' = (bc_position r + n)%nat /\ (bc_position r' <= length (bc_sent s))%nat
    | (NothingYet, r') => bc_position r = length (bc_sent s) /\ r' = r
    end;
}.

(** ** The broadcaster *)
Record DashboardStreamBroadcaster (Snd : Type) := mkBroadcaster {
  br_sender : Snd;
  br_replay : list DashboardStreamBroadcastEvent;
  br_replay_capacity : N;
  br_latest_seq_id : N;
}.
Arguments mkBroadcaster {Snd}.
Arguments br_sender {Snd}.
Arguments br_replay {Snd}.
Arguments br_replay_capacity {Snd}.
Arguments br_latest_seq_id {Snd}.

Section broadcaster.
Context {Snd Rcv : Type} `{Broadcast DashboardStreamBroadcastEvent Snd Rcv}.

Definition broadcaster_new (replay_capacity channel_capacity : N) : DashboardStreamBroadcaster Snd :=
  mkBroadcaster (bc_channel (N.max channel_capacity 1)) [] (N.max replay_capacity 1) 0.

(** The three writes of [publish_event]. *)
Definition raise_latest (event : DashboardStreamBroadcastEvent) (b : DashboardStreamBroadcaster Snd) :=
  mkBroadcaster (br_sender b) (br_replay b) (br_replay_capacity b)
    (N.max (br_latest_seq_id b) (broadcast_seq_id event)).
Definition push_replay (event : DashboardStreamBroadcastEvent) (b : DashboardStreamBroadcaster Snd) :=
  let replay :=
    if (br_replay_capacity b <=? usize_of (length (br_replay b)))%N then drop 1 (br_replay b) else br_replay b in
  mkBroadcaster (br_sender b) (replay ++ [event]) (br_replay_capacity b) (br_latest_seq_id b).
Definition send_event (event : DashboardStreamBroadcastEvent) (b : DashboardStreamBroadcaster Snd) :=
  mkBroadcaster (bc_send event (br_sender b)) (br_replay b) (br_replay_capacity b) (br_latest_seq_id b).
Definition publish_event (event : DashboardStreamBroadcastEvent) (b : DashboardStreamBroadcaster Snd) :=
  send_event event (push_replay event (raise_latest event b)).
Definition publish_delta (dispatch : StreamV2Dispatch) (b : DashboardStreamBroadcaster Snd) :=
  publish_event (BDelta dispatch) b.

(** What [subscribe_from] makes of the replay buffer it copied and the latest
    id it loaded afterwards. *)
Definition initial_events (replay_snapshot : list DashboardStreamBroadcastEvent) (latest_seq_id after_seq_id : N) :
    list DashboardStreamBroadcastEvent :=
  match replay_snapshot with
  | [] => []
  | first_event :: _ =>
      let first_seq_id := broadcast_seq_id first_event in
      if ((0 <? after_seq_id) && (sat_add u64_max after_seq_id 1 <? first_seq_id))%N
      then [BReset "gap" (N.max latest_seq_id first_seq_id)]
      else filter (fun event => (after_seq_id < broadcast_seq_id event)%N) replay_snapshot
  end.
Definition subscribe_from (b : DashboardStreamBroadcaster Snd) (after_seq_id : N) :
    list DashboardStreamBroadcastEvent * Rcv :=
  (initial_events (br_replay b) (br_latest_seq_id b) after_seq_id, bc_subscribe (br_sender b)).
End broadcaster.

(** ** Frames *)
Record DashboardEventsV1Frame := mkFrameV1 {
  ef_id : string;
  ef_event : string;
  ef_data : string;
}.

Section frames.
(** The JSON texts; the first can fail. *)
Context (dispatch_json : StreamV2Dispatch -> option string) (reset_json : string -> N -> string)
  (keepalive_json : N -> string).

Definition build_dashboard_events_v1_reset_frame (latest_seq_id : N) (reason : string) : DashboardEventsV1Frame :=
  mkFrameV1 (pretty latest_seq_id) "reset" (reset_json reason latest_seq_id).
Definition build_dashboard_events_v1_keepalive_frame (latest_seq_id : N) : DashboardEventsV1Frame :=
  mkFrameV1 (pretty latest_seq_id) "keepalive" (keepalive_json latest_seq_id).
Definition build_dashboard_events_v1_delta_frame (dispatch : StreamV2Dispatch) : option DashboardEventsV1Frame :=
  if sv_has_gap dispatch
  then Some (build_dashboard_events_v1_reset_frame
               (N.max (sv_seq dispatch) (latest_ingest_seq (sv_watermark dispatch))) "gap")
  else (fun data => mkFrameV1 (pretty (sv_seq dispatch)) "delta" data) <$> dispatch_json dispatch.
Definition build_dashboard_events_v1_frame (event : DashboardStreamBroadcastEvent) : DashboardEventsV1Frame :=
  match event with
  | BDelta dispatch =>
      default (build_dashboard_events_v1_keepalive_frame (broadcast_seq_id event))
        (build_dashboard_events_v1_delta_frame dispatch)
  | BReset reason latest_seq_id => build_dashboard_events_v1_reset_frame latest_seq_id reason
  end.
End frames.

Definition resolve_dashboard_events_v1_after (last_event_id : option string) (query_after : option N) : N :=
  match last_event_id ≫= fun value => parse_u64 (trim_bytes (str_bytes value)) with
  | Some n => n
  | None => default 0%N query_after
  end.

(** ** Producer and subscriber *)

(** What a subscriber's loop has sent: an event, the reset of a lag, or a
    heartbeat with the latest id (read at once here; reading it later only
    raises it). *)
Inductive Sent :=
  | SentEvent (event : DashboardStreamBroadcastEvent)
  | SentLag (latest_seq_id : N)
  | SentKeepalive (latest_seq_id : N).

(** The producer between its writes. *)
Inductive Publishing :=
  | PubIdle
  | PubLatest (event : DashboardStreamBroadcastEvent)
  | PubPushed (event : DashboardStreamBroadcastEvent).

(** A subscription between its reads, then its loop.  The last two fields are
    for the proofs: how many events had been pushed when the replay buffer was
    copied, and sent when the receiver was created. *)
Inductive Subscriber (Rcv : Type) :=
  | SubNone
  | SubCopied (after : N) (replay : list DashboardStreamBroadcastEvent) (copied_at : nat)
  | SubLoaded (after : N) (initial : list DashboardStreamBroadcastEvent) (copied_at : nat)
  | SubStreaming (after : N) (receiver : Rcv) (pending : list DashboardStreamBroadcastEvent) (log : list Sent)
      (copied_at subscribed_at : nat).
Arguments SubNone {Rcv}.
Arguments SubCopied {Rcv}.
Arguments SubLoaded {Rcv}.
Arguments SubStreaming {Rcv}.

Record Stream (Snd Rcv : Type) := mkStream {
  ss_broadcaster : DashboardStreamBroadcaster Snd;
  ss_publishing : Publishing;
  ss_subscriber : Subscriber Rcv;
  ss_pushed : list DashboardStreamBroadcastEvent;
}.
Arguments mkStream {Snd Rcv}.
Arguments ss_broadcaster {Snd Rcv}.
Arguments ss_publishing {Snd Rcv}.
Arguments ss_subscriber {Snd Rcv}.
Arguments ss_pushed {Snd Rcv}.

Section stream.
Context {Snd Rcv : Type} `{Broadcast DashboardStreamBroadcastEvent Snd Rcv}.

(** The producer publishes increasing ids: each dispatch is past its cursor. *)
Definition newer (pushed : list DashboardStreamBroadcastEvent) (event : DashboardStreamBroadcastEvent) : Prop :=
  Forall (fun e => (broadcast_seq_id e < broadcast_seq_id event)%N) pushed.

Inductive stream_step : Stream Snd Rcv -> Stream Snd Rcv -> Prop :=
  | step_raise b sub pushed dispatch :
      newer pushed (BDelta dispatch) ->
      stream_step (mkStream b PubIdle sub pushed)
        (mkStream (raise_latest (BDelta dispatch) b) (PubLatest (BDelta dispatch)) sub pushed)
  | step_push b sub pushed event :
      stream_step (mkStream b (PubLatest event) sub pushed)
        (mkStream (push_replay event b) (PubPushed event) sub (pushed ++ [event]))
  | step_send b sub pushed event :
      stream_step (mkStream b (PubPushed event) sub pushed) (mkStream (send_event event b) PubIdle sub pushed)
  | step_copy b p pushed after :
      stream_step (mkStream b p SubNone pushed)
        (mkStream b p (SubCopied after (br_replay b) (length pushed)) pushed)
  | step_load b p pushed after replay n :
      stream_step (mkStream b p (SubCopied after replay n) pushed)
        (mkStream b p (SubLoaded after (initial_events replay (br_latest_seq_id b) after) n) pushed)
  | step_subscribe b p pushed after initial n :
      stream_step (mkStream b p (SubLoaded after initial n) pushed)
        (mkStream b p (SubStreaming after (bc_subscribe (br_sender b)) initial [] n (length (bc_sent (br_sender b))))
           pushed)
  | step_pending b p pushed after r event pending log n m :
      stream_step (mkStream b p (SubStreaming after r (event :: pending) log n m) pushed)
        (mkStream b p (SubStreaming after r pending (log ++ [SentEvent event]) n m) pushed)
  | step_receive b p pushed after r r' event log n m :
      bc_recv (br_sender b) r = (Received event, r') ->
      stream_step (mkStream b p (SubStreaming after r [] log n m) pushed)
        (mkStream b p (SubStreaming after r' [] (log ++ [SentEvent event]) n m) pushed)
  | step_lag b p pushed after r r' k log n m :
      bc_recv (br_sender b) r = (Lagged k, r') ->
      stream_step (mkStream b p (SubStreaming after r [] log n m) pushed)
        (mkStream b p (SubStreaming after r' [] (log ++ [SentLag (br_latest_seq_id b)]) n m) pushed)
  | step_keepalive b p pushed after r r' log n m :
      bc_recv (br_sender b) r = (NothingYet, r') ->
      stream_step (mkStream b p (SubStreaming after r [] log n m) pushed)
        (mkStream b p (SubStreaming after r' [] (log ++ [SentKeepalive (br_latest_seq_id b)]) n m) pushed).

Definition stream_start (replay_capacity channel_capacity : N) : Stream Snd Rcv :=
  mkStream (broadcaster_new replay_capacity channel_capacity) PubIdle SubNone [].
Definition stream_reachable (replay_capacity channel_capacity : N) (st : Stream Snd Rcv) : Prop :=
  rtc stream_step (stream_start replay_capacity channel_capacity) st.

(** ** The invariant *)
Definition sent_events (log : list Sent) : list DashboardStreamBroadcastEvent :=
  omap (fun s => match s with SentEvent e => Some e | _ => None end) log.
Definition no_lag (log : list Sent) : Prop := Forall (fun s => match s with SentLag _ => False | _ => True end) log.
Definition increasing (l : list DashboardStreamBroadcastEvent) : Prop :=
  StronglySorted (fun x y => (broadcast_seq_id x < broadcast_seq_id y)%N) l.

Definition publishing_ok (p : Publishing) (pushed sent : list DashboardStreamBroadcastEvent) : Prop :=
  match p with
  | PubIdle => sent = pushed
  | PubLatest e => sent = pushed /\ newer pushed e
  | PubPushed e => sent ++ [e] = pushed
  end.

(** What the replay buffer held when the first [n] events had been pushed. *)
Definition replay_at (capacity : N) (pushed : list DashboardStreamBroadcastEvent) (n : nat) :=
  last_n capacity (take n pushed).

Definition subscriber_ok (capacity : N) (pushed sent : list DashboardStreamBroadcastEvent) (sub : Subscriber Rcv) :
    Prop :=
  match sub with
  | SubNone => True
  | SubCopied after replay n =>
      (n <= length pushed)%nat /\ (n <= S (length sent))%nat /\ replay = replay_at capacity pushed n
  | SubLoaded after initial n =>
      (n <= length pushed)%nat /\ (n <= S (length sent))%nat /\
      exists latest, initial = initial_events (replay_at capacity pushed n) latest after
  | SubStreaming after r pending log n m =>
      (n <= length pushed)%nat /\ (n <= S m)%nat /\ (m <= bc_position r <= length sent)%nat /\
      exists latest, no_lag log ->
        sent_events log ++ pending =
          initial_events (replay_at capacity pushed n) latest after ++ drop m (take (bc_position r) sent)
  end.

Record stream_ok (capacity : N) (st : Stream Snd Rcv) : Prop := {
  so_capacity : br_replay_capacity (ss_broadcaster st) = capacity;
  so_increasing : increasing (ss_pushed st);
  so_replay : br_replay (ss_broadcaster st) = last_n capacity (ss_pushed st);
  so_publishing : publishing_ok (ss_publishing st) (ss_pushed st) (bc_sent (br_sender (ss_broadcaster st)));
  so_subscriber : subscriber_ok capacity (ss_pushed st) (bc_sent (br_sender (ss_broadcaster st))) (ss_subscriber st);
}.

Lemma push_replay_window capacity event (l : list DashboardStreamBroadcastEvent) :
  (0 < capacity)%N ->
  (if (capacity <=? usize_of (length (last_n capacity l)))%N then drop 1 (last_n capacity l) else last_n capacity l)
    ++ [event] = last_n capacity (l ++ [event]).
Proof.
  intros Hc. rewrite <-window_snoc. pose proof (length_last_n capacity l) as Hlen.
  set (w := last_n capacity l) in *. clearbody w. unfold last_n, usize_of. rewrite length_app. cbn [length].
  destruct (N.leb_spec capacity (N.of_nat (length w))).
  - replace (length w + 1 - N.to_nat capacity)%nat with 1%nat by lia. rewrite drop_app_le by lia. done.
  - by replace (length w + 1 - N.to_nat capacity)%nat with 0%nat by lia.
Qed.

Lemma increasing_snoc l e : increasing l -> newer l e -> increasing (l ++ [e]).
Proof.
  unfold increasing, newer. induction 1 as [|x l Hl IH Hx]; intros Hn; cbn; [repeat constructor|].
  apply Forall_cons in Hn as [Hxe Hn]. constructor; [by apply IH|]. apply Forall_app. split; [done|].
  by apply Forall_cons.
Qed.

(** Nothing a subscription relies on changes when events are added. *)
Lemma subscriber_ok_extend capacity pushed sent sub l1 l2 :
  subscriber_ok capacity pushed sent sub -> subscriber_ok capacity (pushed ++ l1) (sent ++ l2) sub.
Proof.
  assert (forall n, (n <= length pushed)%nat -> replay_at capacity (pushed ++ l1) n = replay_at capacity pushed n) as Er.
  { intros n Hn. unfold replay_at. by rewrite take_app_le by lia. }
  destruct sub as [|after replay n|after initial n|after r pending log n m]; cbn; rewrite ?length_app.
  - done.
  - intros (H1 & H2 & ->). rewrite Er by done. split_and!; [lia|lia|done].
  - intros (H1 & H2 & latest & ->). rewrite Er by done. split_and!; [lia|lia|by exists latest].
  - intros (H1 & H2 & H3 & latest & Hl). rewrite Er by done. split_and!; [lia|lia|lia|lia|].
    exists latest. intros Hno. rewrite (Hl Hno). by rewrite take_app_le by lia.
Qed.
End stream.

Section laws.
Context {Snd Rcv : Type} `{BroadcastLaws DashboardStreamBroadcastEvent Snd Rcv}.
Implicit Types (b : DashboardStreamBroadcaster Snd) (sub : Subscriber Rcv).

Lemma sent_events_snoc log s :
  sent_events (log ++ [s]) = sent_events log ++ match s with SentEvent e => [e] | _ => [] end.
Proof. unfold sent_events. rewrite omap_app. by destruct s. Qed.

Lemma take_received (sent : list DashboardStreamBroadcastEvent) m k e :
  (m <= k)%nat -> sent !! k = Some e -> drop m (take (S k) sent) = drop m (take k sent) ++ [e].
Proof.
  intros Hmk He. rewrite (take_S_r _ _ _ He), drop_app_le; [done|].
  rewrite length_take. apply lookup_lt_Some in He. lia.
Qed.

(** The subscriber's own steps. *)
Lemma subscriber_receive capacity pushed sent after r r' event log n m :
  bc_position r' = S (bc_position r) -> sent !! bc_position r = Some event ->
  subscriber_ok capacity pushed sent (SubStreaming after r [] log n m) ->
  subscriber_ok capacity pushed sent (SubStreaming after r' [] (log ++ [SentEvent event]) n m).
Proof.
  intros Hr He (H1 & H2 & H3 & latest & Hl). cbn. rewrite Hr. pose proof (lookup_lt_Some _ _ _ He).
  split_and!; [done|done|lia|lia|]. exists latest. intros [Hno _]%Forall_app.
  specialize (Hl Hno). rewrite app_nil_r in *. rewrite sent_events_snoc, Hl, (take_received _ _ _ event); [|lia|done].
  by rewrite (assoc_L (++)).
Qed.

Lemma subscriber_silent capacity pushed sent after r r' s log n m :
  (match s with SentEvent _ => False | _ => True end) ->
  (bc_position r <= bc_position r' <= length sent)%nat ->
  (bc_position r' = bc_position r \/ exists l, s = SentLag l) ->
  subscriber_ok capacity pushed sent (SubStreaming after r [] log n m) ->
  subscriber_ok capacity pushed sent (SubStreaming after r' [] (log ++ [s]) n m).
Proof.
  intros Hs Hr Hlag (H1 & H2 & H3 & latest & Hl). cbn. split_and!; [done|done|lia|lia|].
  exists latest. intros [Hno Hno']%Forall_app. destruct Hlag as [->|[l ->]].
  - rewrite sent_events_snoc, <-(Hl Hno). destruct s; [done|by rewrite !app_nil_r..].
  - by apply Forall_cons in Hno' as [[] _].
Qed.

Lemma stream_ok_step capacity st st' :
  (0 < capacity)%N -> stream_ok capacity st -> stream_step st st' -> stream_ok capacity st'.
Proof.
  intros Hcap [Hc Hi Hr Hp Hs] Hstep.
  destruct Hstep as [b sub pushed d Hnew|b sub pushed e|b sub pushed e|b p pushed after|b p pushed after rep n
    |b p pushed after ini n|b p pushed after r e pend log n m|b p pushed after r r' e log n m Hrecv
    |b p pushed after r r' k log n m Hrecv|b p pushed after r r' log n m Hrecv];
    cbn [ss_broadcaster ss_publishing ss_subscriber ss_pushed] in *.
  - constructor; cbn; try done.
  - destruct Hp as [Hp Hnew]. constructor; cbn [ss_broadcaster ss_publishing ss_subscriber ss_pushed push_replay
      br_replay_capacity br_replay br_sender].
    + done.
    + by apply increasing_snoc.
    + rewrite Hc, Hr. by apply push_replay_window.
    + cbn. by rewrite Hp.
    + rewrite <-(app_nil_r (bc_sent (br_sender b))). by apply subscriber_ok_extend.
  - cbn in Hp. constructor; cbn [ss_broadcaster ss_publishing ss_subscriber ss_pushed send_event
      br_replay_capacity br_replay br_sender]; [done..| |].
    + cbn. by rewrite bc_send_spec.
    + rewrite bc_send_spec. rewrite <-(app_nil_r pushed). by apply subscriber_ok_extend.
  - constructor; cbn; try done. rewrite Hr. unfold replay_at. rewrite take_ge by done.
    assert (length pushed <= S (length (bc_sent (br_sender b))))%nat.
    { destruct p; cbn in Hp; [subst; lia|destruct Hp; subst; lia|subst; rewrite length_app; cbn; lia]. }
    by split_and!.
  - constructor; cbn; try done. destruct Hs as (H1 & H2 & ->). split_and!; [done|done|by eexists].
  - constructor; cbn; try done. destruct Hs as (H1 & H2 & latest & ->). rewrite bc_subscribe_spec.
    split_and!; [done|done|done|done|]. exists latest. intros _.
    rewrite take_ge, drop_all by done. by rewrite app_nil_r.
  - constructor; cbn; try done. destruct Hs as (H1 & H2 & H3 & latest & Hl). split_and!; [done|done|lia|lia|].
    exists latest. intros [Hno _]%Forall_app. rewrite sent_events_snoc, <-(Hl Hno). by rewrite <-(assoc_L (++)).
  - constructor; cbn [ss_broadcaster ss_publishing ss_subscriber ss_pushed]; try done.
    pose proof (bc_recv_spec (br_sender b) r (proj2 (proj1 (proj2 (proj2 Hs))))) as Hlaw. rewrite Hrecv in Hlaw.
    destruct Hlaw as [He Hr']. by apply (subscriber_receive _ _ _ _ r).
  - constructor; cbn [ss_broadcaster ss_publishing ss_subscriber ss_pushed]; try done.
    pose proof (bc_recv_spec (br_sender b) r (proj2 (proj1 (proj2 (proj2 Hs))))) as Hlaw. rewrite Hrecv in Hlaw.
    destruct Hlaw as (Hk & Hr' & Hle). apply (subscriber_silent _ _ _ _ r); [done|lia|right; by eexists|done].
  - constructor; cbn [ss_broadcaster ss_publishing ss_subscriber ss_pushed]; try done.
    pose proof (proj1 (proj2 (proj2 Hs))) as Hpos.
    pose proof (bc_recv_spec (br_sender b) r (proj2 Hpos)) as Hlaw. rewrite Hrecv in Hlaw.
    destruct Hlaw as (_ & ->). apply (subscriber_silent _ _ _ _ r); [done|lia|by left|done].
Qed.

Lemma stream_ok_reachable rc cc st :
  stream_reachable rc cc st -> stream_ok (N.max rc 1) st.
Proof.
  unfold stream_reachable. intros Hreach. remember (stream_start rc cc) as st0 eqn:E0.
  assert (stream_ok (N.max rc 1) st0) as Hok.
  { subst st0. constructor; cbn; try done; [constructor|by rewrite bc_channel_spec]. }
  clear E0. induction Hreach as [|x y z Hxy _ IH]; [done|]. apply IH. apply (stream_ok_step _ x); [lia|done..].
Qed.

(** ** What a subscriber gets *)
Lemma initial_exact capacity pushed latest after :
  (0 < capacity)%N -> (0 < after)%N -> increasing pushed ->
  let initial := initial_events (last_n capacity pushed) latest after in
  (exists reason l, initial = [BReset reason l]) \/
  initial = filter (fun e => (after < broadcast_seq_id e)%N) pushed.
Proof.
  intros Hcap Hafter Hinc. cbn zeta. unfold initial_events.
  destruct (last_n_suffix capacity pushed) as [old Eold]. set (w := last_n capacity pushed) in *.
  destruct w as [|first w'] eqn:Ew.
  - right. pose proof (length_last_n capacity pushed) as Hlen. fold w in Hlen. rewrite Ew in Hlen. cbn in Hlen.
    by destruct pushed; [|cbn in Hlen; lia].
  - destruct (N.ltb_spec 0 after); [|lia]. cbn [andb].
    destruct (N.ltb_spec (sat_add u64_max after 1) (broadcast_seq_id first)) as [Hgap|Hnogap]; [left; by eexists _, _|].
    right. rewrite Eold, filter_app. rewrite (filter_none _ old); [done|].
    intros x Hx Hlt. rewrite Eold in Hinc. apply list_elem_of_lookup_1 in Hx as [i Hi].
    pose proof (StronglySorted_lookup _ (old ++ first :: w') i (length old) x first Hinc) as Hs. cbv beta in Hs.
    pose proof (lookup_lt_Some _ _ _ Hi). unfold sat_add in Hnogap.
    rewrite lookup_app_l in Hs by done. specialize (Hs ltac:(done) Hi ltac:(by apply list_lookup_middle)). lia.
Qed.

Lemma increasing_NoDup l : increasing l -> NoDup l.
Proof.
  induction 1 as [|x l Hl IH Hx]; constructor; [|done]. intros Hin. rewrite Forall_forall in Hx.
  specialize (Hx x Hin). lia.
Qed.

Lemma NoDup_index {A} (l : list A) x n m :
  NoDup l -> (m <= length l)%nat -> x ∈ l -> (x ∈ take n l \/ x ∈ drop m l) <-> x ∉ drop n (take m l).
Proof.
  intros Hnd Hm Hx. assert (l = take m l ++ drop m l) as E by (by rewrite take_drop).
  pose proof Hnd as Hnd2. rewrite E in Hnd2. apply NoDup_app in Hnd2 as (_ & Hdis & _).
  destruct (le_lt_dec n m) as [Hnm|Hmn].
  - assert (take m l = take n l ++ drop n (take m l)) as E2.
    { rewrite <-(take_drop n (take m l)) at 1. rewrite take_take. by rewrite Nat.min_l. }
    rewrite E, E2, NoDup_app in Hnd. destruct Hnd as (Hnd & Hd2 & _). apply NoDup_app in Hnd as (_ & Hd1 & _).
    rewrite E, E2, !elem_of_app in Hx. split; [intros [?|?] ?; [by apply (Hd1 x)|apply (Hd2 x); set_solver]|tauto].
  - rewrite (drop_ge (take m l)) by (rewrite length_take; lia). split; [intros _; apply not_elem_of_nil|]. intros _.
    rewrite E, elem_of_app in Hx. destruct Hx as [Hx|Hx]; [left|by right].
    replace m with (Nat.min n m) in Hx by lia. rewrite <-take_take in Hx.
    apply elem_of_take in Hx as (i & Hi & Hin). apply elem_of_take. exists i. split; [|done].
    rewrite lookup_take_Some in Hi. tauto.
Qed.

Lemma drop_take_drop {A} (l : list A) m k : (m <= k)%nat -> drop m (take k l) ++ drop k l = drop m l.
Proof.
  intros Hmk. destruct (le_lt_dec k (length l)).
  - rewrite <-(take_drop k l) at 3. rewrite drop_app_le; [done|]. rewrite length_take. lia.
  - rewrite (take_ge l), (drop_ge l k) by lia. apply app_nil_r.
Qed.

Lemma take_pushed p pushed sent n e :
  publishing_ok p pushed sent -> NoDup pushed -> e ∈ sent -> e ∈ take n pushed <-> e ∈ take n sent.
Proof.
  intros Hp Hnd He. assert (exists l, pushed = sent ++ l) as [l ->].
  { destruct p; cbn in Hp; [exists []|exists []|by eexists]; rewrite app_nil_r; [done|by destruct Hp]. }
  rewrite take_app, elem_of_app. split; [|by left]. intros [?|Hx]; [done|]. exfalso.
  apply NoDup_app in Hnd as (_ & Hd & _). apply (Hd e He). apply elem_of_take in Hx as (i & Hi & _).
  by apply list_elem_of_lookup_2 in Hi.
Qed.

(** C38: what a subscriber gets, over every interleaving of its subscription
    with the producer.  A subscriber that resumes after a positive id and has
    not been told to reset (no gap, no lag) has been sent, or has pending,
    exactly the pushed events past its id that the replay copy could hold,
    then everything the producer sent since the receiver was created, in
    order.  So of the events sent past its id it gets exactly those that were
    not pushed after the replay buffer was copied and sent before the receiver
    was created: these are lost, and nothing tells the subscriber. *)
Theorem stream_delivery rc cc st after r pending log n m
  (Hreach : stream_reachable rc cc st)
  (Hsub : ss_subscriber st = SubStreaming after r pending log n m)
  (Hafter : (0 < after)%N) (Hlag : no_lag log)
  (Hreset : forall reason latest, BReset reason latest ∉ sent_events log ++ pending) :
  let sent := bc_sent (br_sender (ss_broadcaster st)) in
  sent_events log ++ pending =
    filter (fun e => (after < broadcast_seq_id e)%N) (take n (ss_pushed st)) ++ drop m (take (bc_position r) sent) /\
  (n <= S m)%nat /\
  forall e, e ∈ sent -> (after < broadcast_seq_id e)%N ->
    e ∈ sent_events log ++ pending ++ drop (bc_position r) sent <-> e ∉ drop n (take m sent).
Proof.
  intros sent. destruct (stream_ok_reachable _ _ _ Hreach) as [Hc Hi Hr Hp Hs]. fold sent in Hp, Hs.
  rewrite Hsub in Hs. cbn in Hs. destruct Hs as (Hn & Hnm & Hpos & latest & Hl). specialize (Hl Hlag).
  pose proof (increasing_NoDup _ Hi) as Hnd.
  assert (increasing (take n (ss_pushed st))) as Hti.
  { unfold increasing in *. rewrite <-(take_drop n (ss_pushed st)) in Hi. by apply StronglySorted_app_1_l in Hi. }
  destruct (initial_exact (N.max rc 1) (take n (ss_pushed st)) latest after ltac:(lia) Hafter Hti)
    as [(reason & l & E)|E].
  { unfold replay_at in Hl. rewrite E in Hl. destruct (Hreset reason l). rewrite Hl. set_solver. }
  unfold replay_at in Hl. rewrite E in Hl. split_and!; [done|done|]. intros e He Hlt.
  rewrite (assoc_L (++)), Hl, <-(assoc_L (++)), drop_take_drop by lia.
  rewrite elem_of_app, list_elem_of_filter, (take_pushed _ _ _ n e Hp Hnd He).
  assert (NoDup sent) as Hnds.
  { destruct (ss_publishing st); cbn in Hp; [by rewrite Hp|by destruct Hp as [-> _]|].
    rewrite <-Hp in Hnd. by apply NoDup_app in Hnd as [? _]. }
  rewrite <-(NoDup_index sent e n m Hnds) by (done || lia). tauto.
Qed.
End laws.

(** ** A concrete channel *)
Record RingSender (E : Type) := mkRing { ring_capacity : N; ring_sent : list E }.
Arguments mkRing {E}. Arguments ring_capacity {E}. Arguments ring_sent {E}.
(** A receiver is its position; one that falls behind by more than the capacity
    is moved up to the oldest message kept. *)
#[export] Instance ring_broadcast E : Broadcast E (RingSender E) nat := {
  bc_channel n := mkRing n [];
  bc_send e s := mkRing (ring_capacity s) (ring_sent s ++ [e]);
  bc_subscribe s := length (ring_sent s);
  bc_recv s r :=
    let behind := (length (ring_sent s) - r - N.to_nat (ring_capacity s))%nat in
    if decide (0 < behind)%nat then (Lagged behind, (r + behind)%nat)
    else match ring_sent s !! r with
         | Some e => (Received e, S r)
         | None => (NothingYet, r)
         end;
  bc_sent := ring_sent;
  bc_position r := r;
}.
#[export] Instance ring_broadcast_laws E : BroadcastLaws E (RingSender E) nat.
Proof.
  split; [done..|]. intros s r Hr. cbn. cbn in Hr. case_decide; cbn; [lia|].
  destruct (ring_sent s !! r) as [e|] eqn:Ee; [done|]. apply lookup_ge_None in Ee. split; [lia|done].
Qed.

Definition sample_dispatch (seq : N) : StreamV2Dispatch :=
  mkDispatch "DISPATCH" "DELTA_BATCH" seq "tx.main" false (mkPatch [] [] [] []) (mkWatermark seq)
    (mkStats 0 0 0 0 0 10000).
Definition sample_delta (seq : N) : DashboardStreamBroadcastEvent := BDelta (sample_dispatch seq).
Notation ring_stream := (Stream (RingSender DashboardStreamBroadcastEvent) nat) (only parsing).

(** A subscriber at id 1 copies the replay buffer, event 2 is published, and
    only then is the receiver created: event 3 is received, event 2 is not. *)
Definition raced_stream : ring_stream :=
  let b := publish_event (sample_delta 3) (publish_event (sample_delta 2) (publish_event (sample_delta 1)
    (broadcaster_new 256 256))) in
  mkStream b PubIdle (SubStreaming 1 3%nat [] [SentEvent (sample_delta 3)] 1 2)
    [sample_delta 1; sample_delta 2; sample_delta 3].

Lemma raced_stream_reachable : stream_reachable 256 256 raced_stream.
Proof.
  unfold stream_reachable, stream_start.
  eapply rtc_l; [apply (step_raise _ _ _ (sample_dispatch 1)); constructor|].
  eapply rtc_l; [apply step_push|]. eapply rtc_l; [apply step_send|].
  eapply rtc_l; [apply (step_copy _ _ _ 1)|].
  eapply rtc_l; [apply (step_raise _ _ _ (sample_dispatch 2)); repeat constructor|].
  eapply rtc_l; [apply step_push|]. eapply rtc_l; [apply step_send|].
  eapply rtc_l; [apply step_load|]. eapply rtc_l; [apply step_subscribe|].
  eapply rtc_l; [apply (step_raise _ _ _ (sample_dispatch 3)); repeat constructor|].
  eapply rtc_l; [apply step_push|]. eapply rtc_l; [apply step_send|].
  eapply rtc_l; [apply step_receive; reflexivity|]. apply rtc_refl.
Qed.

Lemma stream_delivery_witness :
  let sent := bc_sent (br_sender (ss_broadcaster raced_stream)) in
  sent = [sample_delta 1; sample_delta 2; sample_delta 3] /\
  sent_events [SentEvent (sample_delta 3)] ++ [] =
    filter (fun e => (1 < broadcast_seq_id e)%N) (take 1 (ss_pushed raced_stream)) ++ drop 2 (take 3 sent) /\
  (1 <= 3)%nat /\
  forall e, e ∈ sent -> (1 < broadcast_seq_id e)%N ->
    e ∈ sent_events [SentEvent (sample_delta 3)] ++ [] ++ drop 3 sent <-> e ∉ drop 1 (take 2 sent).
Proof.
  intros sent. split; [reflexivity|].
  apply (stream_delivery 256 256 raced_stream 1 3%nat [] [SentEvent (sample_delta 3)] 1 2
    raced_stream_reachable eq_refl).
  - reflexivity.
  - repeat constructor.
  - intros reason latest Hin. cbn in Hin. apply list_elem_of_singleton in Hin. discriminate.
Defined.

(** ** Resuming *)

(** A client that reconnects with the id of its last frame resumes after the
    event of that frame. *)
Lemma resume_after_frame dispatch_json reset_json keepalive_json e q :
  (broadcast_seq_id e <= u64_max)%N ->
  (forall d, e = BDelta d -> latest_ingest_seq (sv_watermark d) = sv_seq d) ->
  resolve_dashboard_events_v1_after
    (Some (ef_id (build_dashboard_events_v1_frame dispatch_json reset_json keepalive_json e))) q =
    broadcast_seq_id e.
Proof.
  intros Hb Hw. unfold resolve_dashboard_events_v1_after.
  assert (ef_id (build_dashboard_events_v1_frame dispatch_json reset_json keepalive_json e) =
    pretty (broadcast_seq_id e)) as ->.
  { destruct e as [d|reason l]; [|done]. cbn [build_dashboard_events_v1_frame].
    unfold build_dashboard_events_v1_delta_frame. destruct (sv_has_gap d); [done|].
    destruct (dispatch_json d); [|done]. cbn. by rewrite (Hw d eq_refl), N.max_id. }
  cbn [mbind option_bind]. by rewrite parse_trimmed_pretty.
Qed.

(** A heartbeat can name an event that was not sent. *)
Definition heartbeat_stream : ring_stream :=
  let b := push_replay (sample_delta 2) (raise_latest (sample_delta 2)
    (publish_event (sample_delta 1) (broadcaster_new 256 256))) in
  mkStream b (PubPushed (sample_delta 2)) (SubStreaming 1 1%nat [] [SentKeepalive 2] 1 1)
    [sample_delta 1; sample_delta 2].

Lemma heartbeat_stream_reachable : stream_reachable 256 256 heartbeat_stream.
Proof.
  unfold stream_reachable, stream_start.
  eapply rtc_l; [apply (step_raise _ _ _ (sample_dispatch 1)); constructor|].
  eapply rtc_l; [apply step_push|]. eapply rtc_l; [apply step_send|].
  eapply rtc_l; [apply (step_copy _ _ _ 1)|]. eapply rtc_l; [apply step_load|].
  eapply rtc_l; [apply step_subscribe|].
  eapply rtc_l; [apply (step_raise _ _ _ (sample_dispatch 2)); repeat constructor|].
  eapply rtc_l; [apply step_push|]. eapply rtc_l; [apply step_keepalive; reflexivity|]. apply rtc_refl.
Qed.

(** Resuming from a heartbeat can skip an event.  The producer raises the
    latest id before it sends, and a heartbeat carries that id: in a reachable
    state a subscriber's last frame is a heartbeat whose id is that of an event
    it was not sent, and whatever the replay buffer holds when it reconnects
    with that id as its last event id, the event is not replayed. *)
Theorem heartbeat_resume_skips :
  exists st r log n m e,
    stream_reachable (Snd := RingSender DashboardStreamBroadcastEvent) (Rcv := nat) 256 256 st /\
    ss_subscriber st = SubStreaming 1 r [] log n m /\
    list.last log = Some (SentKeepalive (broadcast_seq_id e)) /\
    e ∈ ss_pushed st /\ (1 < broadcast_seq_id e)%N /\ e ∉ sent_events log /\
    forall q replay latest,
      e ∉ initial_events replay latest
            (resolve_dashboard_events_v1_after (Some (pretty (broadcast_seq_id e))) q).
Proof.
  exists heartbeat_stream, 1%nat, [SentKeepalive 2], 1%nat, 1%nat, (sample_delta 2).
  split; [apply heartbeat_stream_reachable|]. split_and!; [done|done|cbn; set_solver|done|cbn; set_solver|].
  intros q replay latest. change (resolve_dashboard_events_v1_after (Some (pretty (broadcast_seq_id (sample_delta 2)))) q) with 2%N.
  unfold initial_events. destruct replay as [|first replay]; [set_solver|].
  destruct (_ && _); [intros Hin%list_elem_of_singleton; discriminate|].
  rewrite list_elem_of_filter. intros [Hlt _]. cbn in Hlt. lia.
Qed.
